(* ===== verification/_CoqProject ===== *)
-Q . S2P
Prelude.v
GoLib.v
GoFloat.v
Redis.v
ConcurrencyCache.v
SlotFacts.v
ConcurrencyService.v
ServiceFacts.v
SessionLimit.v
SessionFacts.v
UserMsgQueue.v
UserMsgQueueFacts.v
RpmCache.v
RpmFacts.v
GoJson.v
ApiTypes.v
Upstream.v
ResponsesToAnthropic.v
ResToAnthFacts.v
ResToAnthStream.v
ResponsesToChat.v
ResToChatFacts.v
AnthropicToResponses.v
AnthToResFacts.v
AnthToResStream.v
ChatToResponses.v
ChatToAnthropic.v
ChatToAnthFacts.v
ChatContent.v
ChatBridge.v
ChatToResStream.v
ChatToResFacts.v
ChatToResProtocol.v
AbuseLimiter.v
AbuseFacts.v
AppErrors.v
LogRedact.v
IdempotencyStore.v
Idempotency.v
IdempotencyFacts.v
IdempotencyLaws.v
SystemLock.v
SystemLockFacts.v
SystemLockPool.v
Billing.v
BillingFacts.v
HoldEscrow.v
BatchImage.v
Programs.v
BatchImageStore.v
GoAny.v
BatchImageIndex.v
BatchImageIndexFacts.v
BatchImageServices.v
BatchImageSettlement.v
BatchImageProcessor.v
BatchImageRequest.v
BatchImagePublic.v
BatchImageCleanup.v
BatchImageWorker.v
ProgramLogic.v
BatchImageStoreFacts.v
BatchImageRedisQueue.v
BatchImageQueueFacts.v
BatchImageSample.v
BatchImageExamples.v
BatchImageRequestFacts.v
BatchImageSettleFacts.v
BatchImageFacts.v
