(* ===== verification/Prelude.v ===== *)
(** * RelayDeck: a verification library

    RelayDeck is a gateway between clients of language-model APIs and the upstream accounts that
    serve them.  Its backend is the Go module under [src/backend]; this library models the parts
    of it that carry state, move money or translate protocols, and proves what makes them correct.
    File names below are under [src/backend/internal].

    ** The program and what is modelled

    A request comes in under one of three APIs (Anthropic Messages, OpenAI Responses, OpenAI Chat
    Completions), is counted and admitted, waits for a slot of an upstream account, and is sent on
    under the API of that account; the answer, whole or streamed, is translated back, and its cost
    is charged.  Batches of images are submitted, paid for in advance, and worked off beside that.

    - Admission.  [service/invalid_auth_abuse_limiter.go] blocks clients that fail to authenticate
      (AbuseLimiter); [repository/rpm_cache.go] and [user_rpm_cache.go] count requests per minute
      (RpmCache); [repository/session_limit_cache.go] limits the sessions of an account
      (SessionLimit); [repository/user_msg_queue_cache.go] serialises the user messages of an
      account (UserMsgQueue); [repository/concurrency_cache.go] gives out slots and counts waiting
      requests (ConcurrencyCache), for [service/concurrency_service.go], which names requests,
      renews leases, caches loads and cleans up (ConcurrencyService).  All state but that of the
      limiter and of the service is in Redis.
    - Translation.  [pkg/apicompat] converts whole responses and streams of server-sent events:
      Responses to Anthropic (ResponsesToAnthropic, [responses_to_anthropic.go]), Responses to
      Chat Completions (ResponsesToChat, [responses_to_chatcompletions.go]), Anthropic to
      Responses (AnthropicToResponses, [anthropic_to_responses_response.go]), Chat Completions to
      Responses (ChatToResponses for whole responses, ChatToResStream for streams,
      [chatcompletions_responses_bridge.go]), Chat Completions to Anthropic (ChatToAnthropic,
      [chatcompletions_anthropic_bridge.go]).
    - Money.  [service/usage_billing.go] and [repository/usage_billing_repo.go] apply the cost of a
      request to the balance, the key, the subscription and the account, once per request
      identifier, and reserve, capture and release the holds of batches (Billing); the claims of
      old requests move to an archive ([repository/dashboard_aggregation_repo.go]), and the
      periods of account quotas are the SQL expressions of [repository/account_repo.go].
    - Batches of images.  [service/batch_image.go] has the job and the transitions of its status
      (BatchImage); [repository/batch_image_repo.go] stores jobs, items and events
      (BatchImageStore); [service/batch_image_public.go] is what clients call: validation and
      prices of a request (BatchImageRequest), submission, cancellation, listings
      (BatchImagePublic); [repository/batch_image_queue.go] hands jobs to workers, in Redis
      (BatchImageRedisQueue); [service/batch_image_worker.go] takes one (BatchImageWorker), asks
      its provider how it stands and indexes the results ([service/batch_image_processor.go]:
      BatchImageProcessor, BatchImageIndex), and settles it
      ([service/batch_image_settlement.go]: BatchImageSettlement, with the holds of
      [batch_image_billing_hold.go] in BatchImageServices and the recovery of dead submissions,
      [batch_image_billing_recovery.go]); [service/batch_image_cleanup.go] deletes inputs and
      outputs at the provider (BatchImageCleanup).
    - Administration.  [service/idempotency.go] runs an operation at most once per key over the
      table of [repository/idempotency_repo.go] (Idempotency, IdempotencyStore), and
      [service/system_operation_lock_service.go] excludes system operations from each other with
      the same table (SystemLock); [util/logredact/redact.go] masks what is stored (LogRedact);
      [pkg/errors] are the errors they answer with (AppErrors).

    ** How it is modelled

    - Prelude: machine integers (a Go [int] is a [Z] with [int64_wrap] written at every operation
      that can overflow), the state monad [St], machines that turn inputs into outputs
      ([run_machine], the triples about them), Go's [switch], tactics and hint databases.
      GoLib: the parts of strconv, strings and time that are used.  GoJson: encoding/json and
      encoding/hex as far as they are used, and crypto/rand as an oracle of bytes.  GoAny: JSON
      decoded into [map[string]any].  GoFloat: float64 as IEEE binary64 of the standard library,
      and the rounding of the numeric columns it is stored in.  ApiTypes: the
      structs of [pkg/apicompat/types.go]; pointers are options, [<Struct>0] is the zero value.
    - Redis is not part of the program.  Redis.v has what the program relies on as the class
      [RedisOps] of operations with the laws [RedisLaws], and [MemRedis], a store that satisfies
      them, on which witnesses are evaluated.  A Lua script is a function over that interface
      and is atomic, as Redis runs it; a method composes round trips over a [world], which holds
      what other clients do in between and the [fate] of every trip (delivered, reply lost, not
      sent).  Theorems that speak of all
      interleavings quantify over the other processes' commands and the time between them.
      BatchImageRedisQueue has the list and sorted-set commands the queue adds, in the same way
      ([QueueCommands], [QueueLaws]).
    - The concurrency service is written against the interface of its cache (class
      [ConcurrencyCacheOps], the Go interface); [RedisConcurrencyCache] is its instance by the
      Redis cache, and its theorems are proved of the composition.
    - Converters are functions from an event and a state to events and a state, one definition
      per Go function, with the state struct as a record.  What draws identifiers threads [rng].
    - The idempotency coordinator is a program of store calls, clock readings and the guarded
      operation; a system is a set of such programs whose steps interleave, with the death of
      processes, failing statements and the cleanup job as steps of their own ([IdempotencyFacts]).
      The system lock uses the same store; [Acquire] returns the renewal goroutine it starts
      beside its answer, and [lock_step] (SystemLock) interleaves calls, renewals and releases.
      [GoValues] has what it uses of dynamic values, hashes and the Unicode tables, as parameters.
    - Billing is functions on a database of users, keys, subscriptions, accounts and claims; a
      transaction ([Tx]) is atomic and rolled back when it fails.  Balances are whole units of
      the last decimal of their columns.
    - The batch services are programs too (Programs: [proc], with the steps [step] on the shared
      world, clock readings and faults): every database statement or transaction, queue call and
      provider call is a step, which may fail, or happen with its answer lost, and between any two
      steps the other programs of a [pool] run, or their process dies ([run_turns]).
      ProgramLogic has the rely-guarantee triples theorems about them are proved with.  The
      world ([batch_world]) is the job tables, the billing database, the queue, the providers'
      own state, the usage logs and the caches invalidated; the providers and the queue are classes
      ([BatchImageProviders], [BatchImageQueue]), and hashes, case tables, JSON of
      requests and texts of numbers parameters ([BillingLib], [GoText], [AmountCodec]).
      BatchImageSample instantiates them all, and witnesses and BatchImageExamples run on it.
    - Errors are values: [AppErrors] for the program's, [result] for Go's pair of value and error.

    ** What is proved

    - SlotFacts, SessionFacts, UserMsgQueueFacts, RpmFacts: the limits and the mutual exclusion
      hold however commands of processes interleave, what a script answers and leaves behind in
      every case, and which errors let a request through.  ServiceFacts: slots are given back,
      leases are never believed longer than they are confirmed, the cache of loads is bounded and
      recent, identifiers and keys are distinct.  AbuseFacts: within its capacity the limiter
      refines a private automaton per client, and its memory is bounded.
    - ResToAnthFacts, ResToAnthStream, ResToChatFacts, AnthToResFacts, AnthToResStream,
      ChatToAnthFacts, ChatContent, ChatBridge: for every sequence of events the converted stream
      keeps the rules of its protocol, as an observer of the emitted events (client side) or as
      an invariant; what the upstream said is kept, and the streamed answer adds up to the
      conversion of the whole answer, for the upstreams described in Upstream.v and under the
      conditions each theorem states.  ChatToResFacts:
      the last event of a stream made from Chat Completions carries the answer the conversion of
      the whole message gives.  ChatToResProtocol: a client that follows the rules of output
      items accepts that stream.
    - BillingFacts: a request is applied at most once, also across the archiving of claims;
      balance and frozen balance together change by what was charged; what a charge answers is
      what it did.  HoldEscrow: under the discipline of holds the billing database refines an
      escrow of open holds, and an open hold can be given back.
    - BatchImageFacts: however submissions, cancellations, workers, recoveries, cleanups and
      charges interleave, fail and die, a completed batch was paid for.  BatchImageSettleFacts:
      what a settlement charges and leaves behind, and that a settling batch with its key, account,
      price and manifest in order ends.
      BatchImageIndexFacts: indexing accounts for every submitted item.  BatchImageRequestFacts:
      what a valid request is.  BatchImageQueueFacts: no batch is lost in the queue while its
      key is alive, and a sweep and reservations hand it out again.  BatchImageStoreFacts has the
      lemmas about statements these share.
    - IdempotencyFacts and IdempotencyLaws: an operation never runs twice at once nor again after
      it succeeded, replays give the first answer when it was stored whole, failures wait, keys
      are not shared between requests.  SystemLockFacts: a lock taken over cannot be renewed and
      is lost, and a late release frees somebody else's lock.  SystemLockPool: with calls,
      renewals and releases interleaved, nobody is granted the lock while its claim runs and no
      release is executed.

    Where modelling showed the code not to do what it means to, an Example evaluates the model on
    an input that shows it (BatchImageExamples has those of the batches).

    ** Bounds and fuel

    JSON scanning takes [json_fuel], two more than the bytes of the text, as every turn reads a
    byte; [read_members], [read_elements], [unquote], [escape_string] and [fitting_runes] are
    fuelled the same way. Reading a set in chunks takes the number of its elements, sweeping
    keys the number of events of the network (a turn takes one, and the quiet network ends it),
    evicting the size of the map, base-36 digits 64 (a [uint64] has at most 13). The theorems on
    the Chat Completions streams ask for fewer than 2^63 emitted events or 2^62 pieces of the
    upstream, so that the indices of blocks and items do not wrap around. The pages the indexer
    reads ([listExpectedCustomIDs]) and the polls of [Reserve] are arguments of the definitions:
    what is proved of an interleaving holds for every number of them, and the theorem about
    indexing says how many are enough. The cleanup of claims takes one turn more than there are
    claims.

    ** Assumptions and what is not modelled

    Methods that hold a mutex run one after the other.  Theorems that say so are about a network
    that does not fail ("quiet").  Receivers, repositories and caches are not nil, except where
    the code asks.
    Requests that share a flight (singleflight) get its result.  Contexts and cancellation show as
    errors of the calls they are passed to.  Logs and metrics are left out, and so are the framing
    of server-sent events and the payloads of batch events.  Unicode case tables, SHA-256 and
    float64 text are parameters.  The keys of the batch queue differ from each other, as the
    defaults do.

    Not modelled, with the reasons in the manifest: forwarding over HTTP and WebSocket and the
    scheduler of accounts, which are request plumbing over free-form JSON; the conversions of
    requests in [pkg/apicompat]; the batch providers' calls and the downloads of results, which
    are HTTP and cloud storage; the endless loops that start workers and sweeps; prices and the caches before the billing
    repository; handlers, configuration, the SQL repositories other than those named above,
    generated code, the web client. *)

From stdpp Require Import base tactics numbers list strings gmap.
From Stdlib Require Import ZArith Lia.

Declare Scope go_scope.
Delimit Scope go_scope with go.

(** ** Machine integers *)

(** Go's [int] and [int64] on the supported platforms: two's complement, 64 bits. *)
Definition int64_wrap (z : Z) : Z := ((z + 2 ^ 63) `mod` 2 ^ 64 - 2 ^ 63)%Z.

Definition int64_range (z : Z) : Prop := (- 2 ^ 63 <= z < 2 ^ 63)%Z.

Definition int64_add (a b : Z) : Z := int64_wrap (a + b).
Definition int64_sub (a b : Z) : Z := int64_wrap (a - b).
Definition int64_mul (a b : Z) : Z := int64_wrap (a * b).

(** Go's integer division truncates toward zero; the callers guard the divisor. *)
Definition int64_div (a b : Z) : Z := int64_wrap (Z.quot a b).

Infix "+!" := int64_add (at level 50, left associativity) : go_scope.
Infix "-!" := int64_sub (at level 50, left associativity) : go_scope.
Infix "*!" := int64_mul (at level 40, left associativity) : go_scope.
Infix "/!" := int64_div (at level 40, left associativity) : go_scope.

(** Go's [==] on strings; [+:+] (stdpp) is its [+]. *)
Infix "≟" := String.eqb (at level 70) : go_scope.

(** ** State passing *)

(** A computation over a state [S]: the new state is returned beside the value. *)
Definition St (S A : Type) : Type := S → A * S.

#[export] Instance St_ret S : MRet (St S) := λ A a s, (a, s).
#[export] Instance St_bind S : MBind (St S) :=
  λ A B f m s, let '(a, s') := m s in f a s'.
#[export] Instance St_fmap S : FMap (St S) :=
  λ A B f m s, let '(a, s') := m s in (f a, s').

(** Read, replace and update the state. *)
Definition get {S : Type} : St S S := λ s, (s, s).
Definition put {S : Type} (s : S) : St S unit := λ _, (tt, s).
Definition modify {S : Type} (f : S → S) : St S unit := λ s, (tt, f s).

(** Run a computation on every element of a list, in order. *)
Fixpoint mapM_ {S A : Type} (f : A → St S unit) (l : list A) : St S unit :=
  match l with
  | [] => mret tt
  | x :: l' => _ ← f x; mapM_ f l'
  end.

Fixpoint mapSt {S A B : Type} (f : A → St S B) (l : list A) : St S (list B) :=
  match l with
  | [] => mret []
  | x :: l' => y ← f x; ys ← mapSt f l'; mret (y :: ys)
  end.

(** [refines abs c c']: the computation [c] over [S] does, seen through the abstraction
    [abs], exactly what [c'] does over [T], and returns the same value. *)
Definition refines {S T A : Type} (abs : S → T) (c : St S A) (c' : St T A) : Prop :=
  ∀ s, c' (abs s) = ((c s).1, abs (c s).2).

(** Feed a list of inputs to a state machine and concatenate what it outputs. *)
Fixpoint run_machine {S I O : Type} (step : I → St S (list O)) (inputs : list I)
    : St S (list O) :=
  match inputs with
  | [] => mret []
  | i :: inputs' => out ← step i; rest ← run_machine step inputs'; mret (out ++ rest)
  end.

(** The outputs of two steps, one after the other: Go's [append(events, f(state)...)]. *)
Definition emits {S O : Type} (a b : St S (list O)) : St S (list O) :=
  out ← a; rest ← b; mret (out ++ rest).

Infix "+>" := emits (at level 61, left associativity) : go_scope.

(** ** Go's switch on a string: the first case with the label, or the default *)

Fixpoint switch {A : Type} (x : string) (cases : list (list string * A)) (default : A) : A :=
  match cases with
  | [] => default
  | (labels, a) :: cases' =>
      if existsb (String.eqb x) labels then a else switch x cases' default
  end.

(** ** Automation *)

Create HintDb relay discriminated.
Create HintDb refine discriminated.

(** Turn the boolean tests of the code into propositions. *)
Ltac bool_props :=
  repeat match goal with
  | H : (_ && _)%bool = true |- _ => apply andb_true_iff in H as [? ?]
  | H : (_ || _)%bool = false |- _ => apply orb_false_iff in H as [? ?]
  | H : negb _ = true |- _ => apply negb_true_iff in H
  | H : negb _ = false |- _ => apply negb_false_iff in H
  | H : (_ <? _)%Z = true |- _ => apply Z.ltb_lt in H
  | H : (_ <? _)%Z = false |- _ => apply Z.ltb_ge in H
  | H : (_ <=? _)%Z = true |- _ => apply Z.leb_le in H
  | H : (_ <=? _)%Z = false |- _ => apply Z.leb_gt in H
  | H : (_ =? _)%Z = true |- _ => apply Z.eqb_eq in H
  | H : (_ =? _)%Z = false |- _ => apply Z.eqb_neq in H
  | H : (_ =? _)%string = true |- _ => apply String.eqb_eq in H
  | H : (_ =? _)%string = false |- _ => apply String.eqb_neq in H
  | H : bool_decide _ = true |- _ => apply bool_decide_eq_true in H
  | H : bool_decide _ = false |- _ => apply bool_decide_eq_false in H
  end.

(** Case analysis on the condition of an [if]. *)
Ltac case_if := match goal with |- context [if ?b then _ else _] => destruct b eqn:? end.

(** Case analysis on every [if] and [match] on a pair left in the goal. *)
Ltac case_all :=
  repeat (case_match; simpl in *; simplify_eq; bool_props; try done).

(** ** Generic lemmas *)

Lemma int64_wrap_id z : int64_range z → int64_wrap z = z.
Proof. unfold int64_range, int64_wrap. intros H. rewrite Z.mod_small; lia. Qed.

Lemma int64_wrap_range z : int64_range (int64_wrap z).
Proof.
  unfold int64_range, int64_wrap.
  pose proof (Z.mod_pos_bound (z + 2 ^ 63) (2 ^ 64) ltac:(lia)). lia.
Qed.

Lemma refines_ret {S T A} (abs : S → T) (a : A) : refines abs (mret a) (mret a).
Proof. by intros s. Qed.

Lemma refines_bind {S T A B} (abs : S → T) (c : St S A) c' (f : A → St S B) f' :
  refines abs c c' → (∀ a, refines abs (f a) (f' a)) → refines abs (c ≫= f) (c' ≫= f').
Proof.
  intros Hc Hf s. unfold mbind, St_bind. rewrite (Hc s).
  destruct (c s) as [a s1]; simpl. apply Hf.
Qed.

Lemma refines_if {S T A} (abs : S → T) (b : bool) (c d : St S A) c' d' :
  refines abs c c' → refines abs d d' →
  refines abs (if b then c else d) (if b then c' else d').
Proof. by destruct b. Qed.

Lemma refines_option {S T A B} (abs : S → T) (o : option B) (c : B → St S A) d c' d' :
  (∀ x, refines abs (c x) (c' x)) → refines abs d d' →
  refines abs (match o with Some x => c x | None => d end)
              (match o with Some x => c' x | None => d' end).
Proof. by destruct o. Qed.

Lemma refines_mapM_ {S T A} (abs : S → T) (f : A → St S unit) f' l :
  (∀ x, refines abs (f x) (f' x)) → refines abs (mapM_ f l) (mapM_ f' l).
Proof.
  intros Hf. induction l as [|x l IH]; simpl; [apply refines_ret|].
  by apply refines_bind.
Qed.

Lemma refines_mapSt {S T A B} (abs : S → T) (f : A → St S B) f' l :
  (∀ x, refines abs (f x) (f' x)) → refines abs (mapSt f l) (mapSt f' l).
Proof.
  intros Hf. induction l as [|x l IH]; simpl; [apply refines_ret|].
  apply refines_bind; [done|]. intros y. apply refines_bind; [done|].
  intros ys. apply refines_ret.
Qed.

Lemma refines_fst {S T A} (abs : S → T) (c : St S A) c' s :
  refines abs c c' → (c s).1 = (c' (abs s)).1.
Proof. intros H. by rewrite (H s). Qed.

Lemma refines_snd {S T A} (abs : S → T) (c : St S A) c' s :
  refines abs c c' → abs (c s).2 = (c' (abs s)).2.
Proof. intros H. by rewrite (H s). Qed.

(** A property of every branch a [switch] can take holds of the [switch]. *)
Lemma switch_split {A : Type} (P : A → Prop) x cases d :
  Forall (λ c, existsb (String.eqb x) c.1 = true → P c.2) cases →
  (Forall (λ c, existsb (String.eqb x) c.1 = false) cases → P d) → P (switch x cases d).
Proof.
  induction 1 as [|[labels a] cases Ha _ IH]; simpl; intros Hd; [by apply Hd|].
  case_match; [by apply Ha|]. apply IH. intros Hno. apply Hd. by constructor.
Qed.

Lemma switch_cases {A : Type} (P : A → Prop) x cases d :
  Forall (λ c, existsb (String.eqb x) c.1 = true → P c.2) cases → P d → P (switch x cases d).
Proof. intros H Hd. by apply switch_split. Qed.

(** A [switch] none of whose labels fits takes the default. *)
Lemma switch_default {A : Type} x (cases : list (list string * A)) d :
  Forall (λ c, existsb (String.eqb x) c.1 = false) cases → switch x cases d = d.
Proof. induction 1 as [|[labels a] cases Ha _ IH]; simpl in *; [done|]. by rewrite Ha. Qed.

Lemma switch_all {A : Type} (P : A → Prop) x cases d :
  Forall (λ c, P c.2) cases → P d → P (switch x cases d).
Proof. intros H. apply switch_cases. eapply Forall_impl; [exact H|]. by intros. Qed.

Lemma run_machine_cons {S I O} (step : I → St S (list O)) i l s :
  run_machine step (i :: l) s =
    let '(o, s1) := step i s in
    let '(os, s2) := run_machine step l s1 in (o ++ os, s2).
Proof. done. Qed.

Lemma run_machine_app {S I O} (step : I → St S (list O)) l1 l2 s :
  run_machine step (l1 ++ l2) s =
    let '(o1, s1) := run_machine step l1 s in
    let '(o2, s2) := run_machine step l2 s1 in (o1 ++ o2, s2).
Proof.
  revert s. induction l1 as [|i l1 IH]; intros s; simpl; unfold mret, St_ret, mbind, St_bind.
  - by destruct (run_machine step l2 s).
  - destruct (step i s) as [o s']. rewrite IH.
    destruct (run_machine step l1 s') as [o1 s1].
    destruct (run_machine step l2 s1) as [o2 s2]. by rewrite app_assoc.
Qed.

(** A relation between the state of a machine and an observer of its output that every step
    keeps is kept by every run. *)
Lemma run_machine_observer {S I O Q} (step : I → St S (list O)) (obs : Q → O → Q)
    (R : S → Q → Prop) :
  (∀ i s q, R s q → R (step i s).2 (foldl obs q (step i s).1)) →
  ∀ inputs s q, R s q →
    R (run_machine step inputs s).2 (foldl obs q (run_machine step inputs s).1).
Proof.
  intros Hstep inputs. induction inputs as [|i inputs IH]; intros s q H; simpl; [done|].
  unfold mbind, St_bind, mret, St_ret. specialize (Hstep i s q H).
  destruct (step i s) as [o s']; simpl in *. specialize (IH s' _ Hstep).
  destruct (run_machine step inputs s') as [os s'']; simpl in *. by rewrite foldl_app.
Qed.

(** *** Triples

    A machine step [h] that is entered with [P] of the state and of what was emitted so far is
    left with [R]. *)
Section Triples.
Context {X O : Type}.

Definition triple (P : X → list O → Prop) (h : St X (list O)) (R : X → list O → Prop) : Prop :=
  ∀ x out, P x out → R (h x).2 (out ++ (h x).1).

Lemma triple_ret P : triple P (mret []) P.
Proof. intros x out H. cbn. by rewrite app_nil_r. Qed.

Lemma triple_emits P Q R a b : triple P a Q → triple Q b R → triple P (emits a b) R.
Proof.
  intros Ha Hb x out H. specialize (Ha x out H). unfold emits, mbind, St_bind, mret, St_ret.
  destruct (a x) as [o1 x1]. specialize (Hb x1 _ Ha). destruct (b x1) as [o2 x2].
  cbn [fst snd] in *. by rewrite app_assoc.
Qed.

(** A command that emits nothing. *)
Lemma triple_seq {A} (c : St X A) (k : A → St X (list O)) P Q R :
  (∀ x out, P x out → Q (c x).1 (c x).2 out) → (∀ a, triple (Q a) (k a) R) →
  triple P (c ≫= k) R.
Proof.
  intros Hc Hk x out H. specialize (Hc x out H). unfold mbind, St_bind.
  destruct (c x) as [a x1]. by apply Hk.
Qed.

Lemma triple_weaken P P' R R' h :
  (∀ x out, P' x out → P x out) → (∀ x out, R x out → R' x out) →
  triple P h R → triple P' h R'.
Proof. unfold triple. eauto. Qed.

Lemma triple_if (b : bool) P R h1 h2 :
  (b = true → triple P h1 R) → (b = false → triple P h2 R) → triple P (if b then h1 else h2) R.
Proof. destruct b; auto. Qed.

(** A run, with a ghost account of the inputs. *)
Lemma triple_run {I G} (f : I → St X (list O)) (ghost : I → list G)
    (P : list G → X → list O → Prop) :
  (∀ i g, triple (P g) (f i) (P (g ++ ghost i))) →
  ∀ l g, triple (P g) (run_machine f l) (P (g ++ concat (ghost <$> l))).
Proof.
  intros Hf l. induction l as [|i l IH]; intros g.
  - cbn. rewrite app_nil_r. apply triple_ret.
  - cbn [fmap list_fmap concat]. rewrite app_assoc. by eapply triple_emits.
Qed.

Lemma triple_run_inv {I} (f : I → St X (list O)) P :
  (∀ i, triple P (f i) P) → ∀ l, triple P (run_machine f l) P.
Proof. intros H l. apply (triple_run f (λ _, []) (λ _ : list unit, P)) with (g := []). eauto. Qed.
End Triples.

#[export] Hint Resolve refines_ret refines_bind refines_if refines_option
  refines_mapM_ refines_mapSt : refine.
