(* ===== verification/GoLib.v ===== *)
(** * GoLib: the parts of Go's standard library the modelled code uses

    Decimal integers ([strconv]), byte strings ([strings]) and [time.Duration].  A Go string is a
    sequence of bytes, here Rocq's [string]. *)

From stdpp Require Import base tactics numbers list strings gmap pretty.
From Stdlib Require Import ZArith Lia Ascii String.
From S2P Require Import Prelude.

Local Open Scope Z_scope.

(** ** strconv *)

(** [strconv.FormatInt(z, 10)], and [%d]. *)
Definition FormatInt (z : Z) : string := pretty z.

Definition digit_val (c : ascii) : Z := Z.of_N (N_of_ascii c) - 48.

Fixpoint parse_digits (s : string) (acc : Z) : option Z :=
  match s with
  | EmptyString => Some acc
  | String c s' =>
      let d := digit_val c in
      if (0 <=? d) && (d <=? 9) then parse_digits s' (acc * 10 + d) else None
  end.

Definition in_int64 (z : Z) : bool := (- 2 ^ 63 <=? z) && (z <? 2 ^ 63).

(** [strconv.ParseInt(s, 10, 64)]; [None] stands for its error. *)
Definition ParseInt (s : string) : option Z :=
  let magnitude s' := match s' with EmptyString => None | _ => parse_digits s' 0 end in
  let signed := match s with
    | String "-" s' => Z.opp <$> magnitude s'
    | String "+" s' => magnitude s'
    | _ => magnitude s
    end in
  z ← signed; if in_int64 z then Some z else None.

(** ** strings *)

Definition HasPrefix (s p : string) : bool := String.prefix p s.

Section TrimSpace.
Local Open Scope N_scope.

(** The UTF-8 encodings of the runes for which [unicode.IsSpace] holds, by length. *)
Definition is_space1 (a : N) : bool := (9 <=? a) && (a <=? 13) || (a =? 32).
Definition is_space2 (a b : N) : bool := (a =? 194) && ((b =? 133) || (b =? 160)).
Definition is_space3 (a b c : N) : bool :=
  (a =? 225) && (b =? 154) && (c =? 128)
  || (a =? 226) && (b =? 128) &&
       ((128 <=? c) && (c <=? 138) || (c =? 168) || (c =? 169) || (c =? 175))
  || (a =? 226) && (b =? 129) && (c =? 159)
  || (a =? 227) && (b =? 128) && (c =? 128).

(** Drop the leading space runes; [flip] reads the bytes of a rune backwards, for the
    trailing spaces of a reversed string. *)
Fixpoint trim_spaces (flip : bool) (l : list ascii) : list ascii :=
  match l with
  | [] => []
  | a :: r1 =>
      if is_space1 (N_of_ascii a) then trim_spaces flip r1 else
      match r1 with
      | [] => l
      | b :: r2 =>
          let '(x, y) := if flip then (b, a) else (a, b) in
          if is_space2 (N_of_ascii x) (N_of_ascii y) then trim_spaces flip r2 else
          match r2 with
          | [] => l
          | c :: r3 =>
              let '(x, y) := if flip then (c, a) else (a, c) in
              if is_space3 (N_of_ascii x) (N_of_ascii b) (N_of_ascii y)
              then trim_spaces flip r3 else l
          end
      end
  end.
End TrimSpace.

Definition newline : string := String (ascii_of_nat 10) EmptyString.

(** [strings.TrimSpace] *)
Definition TrimSpace (s : string) : string :=
  string_of_list_ascii
    (rev (trim_spaces true (rev (trim_spaces false (list_ascii_of_string s))))).

(** ** time *)

(** A [time.Duration] is an [int64] of nanoseconds; [time.Time] values are compared and
    subtracted, so they are nanoseconds since the epoch. *)
Definition Millisecond : Z := 1000000.
Definition Second : Z := 1000000000.
Definition Minute : Z := 60000000000.

(** [int(d.Seconds())]: the float conversion truncates toward zero, exactly for every
    duration whose whole seconds fit a float's mantissa. *)
Definition int_seconds (d : Z) : Z := Z.quot d Second.

(** [a.Sub(b)]: a duration, at its bounds where the difference does not fit. *)
Definition time_sub (a b : Z) : Z := Z.min (2 ^ 63 - 1) (Z.max (- 2 ^ 63) (a - b)).

(** The zero [time.Time]: the first of January of the year 1. *)
Definition zeroTime : Z := -62135596800 * Second.

(** ** Errors

    A Go [error]: a message, possibly wrapped with [fmt.Errorf("ctx: %w", err)].  A method that
    returns [(v, error)] returns the pair [(v, None)] when the error is nil. *)
Inductive error : Type :=
| Err (msg : string)
| EWrap (ctx : string) (cause : error).

#[export] Instance error_eq_dec : EqDecision error.
Proof. solve_decision. Defined.

(** ** Facts *)

Lemma digit_val_char d : (d < 10)%N → digit_val (pretty_N_char d) = Z.of_N d.
Proof.
  intros Hd.
  assert (d = 0 ∨ d = 1 ∨ d = 2 ∨ d = 3 ∨ d = 4 ∨ d = 5 ∨ d = 6 ∨ d = 7 ∨ d = 8 ∨ d = 9)%N
    as Hcases by lia.
  by repeat destruct Hcases as [->|Hcases]; subst.
Qed.

Lemma parse_digits_pretty_go x s :
  parse_digits (pretty_N_go x s) 0 = parse_digits s (Z.of_N x).
Proof.
  revert s. induction (N.lt_wf_0 x) as [x _ IH]; intros s.
  destruct (decide (0 < x)%N) as [Hx|Hx].
  - rewrite pretty_N_go_step by done.
    rewrite IH by (apply N.div_lt; lia). simpl.
    pose proof (N.mod_lt x 10 ltac:(lia)) as Hr. pose proof (N.div_mod x 10 ltac:(lia)) as Hq.
    revert Hr Hq. generalize (x `mod` 10)%N (x `div` 10)%N. intros r q Hr ->.
    rewrite digit_val_char by done.
    rewrite (proj2 (Z.leb_le 0 (Z.of_N r))), (proj2 (Z.leb_le (Z.of_N r) 9)) by lia. simpl.
    f_equal. lia.
  - assert (x = 0%N) as -> by lia. by rewrite pretty_N_go_0.
Qed.

Lemma pretty_N_first x : ∃ c s, pretty (N.pos x) = String c s ∧ 0 ≤ digit_val c ≤ 9.
Proof.
  assert (Hgo : ∀ y s, (0 < y)%N →
    ∃ c s', pretty_N_go y s = String c s' ∧ 0 ≤ digit_val c ≤ 9).
  { intros y. induction (N.lt_wf_0 y) as [y _ IH]; intros s Hy.
    rewrite pretty_N_go_step by done.
    destruct (N.eq_0_gt_0_cases (y `div` 10)%N) as [->|Hd].
    2: apply IH; [apply N.div_lt; lia|done].
    - rewrite pretty_N_go_0.
      eexists _, _. split; [done|].
      unfold pretty_N_char. repeat case_match; vm_compute; split; congruence. }
  unfold pretty, pretty_N. case_decide; [lia|]. by apply Hgo.
Qed.

Lemma parse_digits_pretty_pos x : parse_digits (pretty (N.pos x)) 0 = Some (Z.pos x).
Proof.
  unfold pretty, pretty_N. case_decide; [lia|].
  by rewrite parse_digits_pretty_go.
Qed.

Lemma in_int64_spec z : in_int64 z = true ↔ int64_range z.
Proof. unfold in_int64, int64_range. rewrite andb_true_iff, Z.leb_le, Z.ltb_lt. lia. Qed.

Lemma digit_not_sign c : 0 ≤ digit_val c ≤ 9 → c ≠ "-"%char ∧ c ≠ "+"%char.
Proof. intros H. split; intros ->; vm_compute in H; destruct H; congruence. Qed.

Lemma ParseInt_digits c s z :
  0 ≤ digit_val c ≤ 9 → parse_digits (String c s) 0 = Some z → int64_range z →
  ParseInt (String c s) = Some z.
Proof.
  intros Hc Hz Hr. destruct (digit_not_sign c Hc) as [H1 H2]. unfold ParseInt.
  assert (E : match String c s with
    | String "-" s' => Z.opp <$> match s' with EmptyString => None | _ => parse_digits s' 0 end
    | String "+" s' => match s' with EmptyString => None | _ => parse_digits s' 0 end
    | _ => match String c s with EmptyString => None | _ => parse_digits (String c s) 0 end
    end = parse_digits (String c s) 0).
  { destruct c as [[] [] [] [] [] [] [] []]; try done; exfalso; by (apply H1 || apply H2). }
  cbv zeta. rewrite E, Hz. simpl. by rewrite (proj2 (in_int64_spec z) Hr).
Qed.

(** Decimal printing is inverted by parsing on every 64-bit integer. *)
Lemma ParseInt_FormatInt z : int64_range z → ParseInt (FormatInt z) = Some z.
Proof.
  intros Hr. destruct z as [|p|p]; [done| |].
  - destruct (pretty_N_first p) as (c & s & E & Hc).
    pose proof (parse_digits_pretty_pos p) as Hp.
    change (FormatInt (Z.pos p)) with (pretty (N.pos p)). rewrite E in *.
    by apply ParseInt_digits.
  - destruct (pretty_N_first p) as (c & s & E & Hc).
    pose proof (parse_digits_pretty_pos p) as Hp.
    change (FormatInt (Z.neg p)) with (String "-" (pretty (N.pos p))). rewrite E in *.
    unfold ParseInt. cbv zeta. rewrite Hp.
    cbv [mbind option_bind fmap option_fmap option_map].
    change (- Z.pos p) with (Z.neg p). by rewrite (proj2 (in_int64_spec (Z.neg p)) Hr).
Qed.

#[export] Instance FormatInt_inj : Inj (=) (=) FormatInt.
Proof. unfold FormatInt. apply _. Qed.

Lemma FormatInt_first z :
  0 ≤ z → ∃ c s, FormatInt z = String c s ∧ 0 ≤ digit_val c ≤ 9.
Proof.
  intros Hz. destruct z as [|p|p]; [|apply pretty_N_first|lia].
  exists "0"%char, ""%string. split; [done|]. vm_compute. split; congruence.
Qed.

Lemma string_app_inj_l (p a b : string) : (p ++ a)%string = (p ++ b)%string → a = b.
Proof. induction p as [|c p IH]; simpl; [done|]. intros [=]. by apply IH. Qed.

Lemma string_app_nil_r (s : string) : (s ++ "")%string = s.
Proof.
  induction s as [|c s IH]; [done|]. change (String c (s ++ "") = String c s)%string.
  by rewrite IH.
Qed.

Lemma string_app_assoc (a b c : string) : (a ++ (b ++ c))%string = ((a ++ b) ++ c)%string.
Proof.
  induction a as [|x a IH]; [done|].
  change (String x (a ++ (b ++ c)) = String x ((a ++ b) ++ c))%string. by rewrite IH.
Qed.

(** Numbers are told apart from what follows a colon. *)
Fixpoint free_of (c : ascii) (s : string) : bool :=
  match s with
  | EmptyString => true
  | String c' s' => negb (Ascii.eqb c c') && free_of c s'
  end.

Lemma digit_no_colon d : Ascii.eqb ":" (pretty_N_char d) = false.
Proof. unfold pretty_N_char. repeat case_match; reflexivity. Qed.

Lemma FormatInt_no_colon z : free_of ":" (FormatInt z) = true.
Proof.
  assert (Hgo : ∀ x s, free_of ":" s = true → free_of ":" (pretty_N_go x s) = true).
  { intros x. induction (N.lt_wf_0 x) as [x _ IH]. intros s Hs.
    destruct (decide (0 < x)%N) as [Hx|Hx].
    - rewrite pretty_N_go_step by done. apply IH; [by apply N.div_lt|].
      cbn [free_of]. by rewrite digit_no_colon, Hs.
    - assert (x = 0%N) as -> by lia. by rewrite pretty_N_go_0. }
  assert (Hp : ∀ p, free_of ":" (pretty (N.pos p)) = true).
  { intros p. unfold pretty, pretty_N. case_decide; [done|by apply Hgo]. }
  destruct z as [|p|p]; [done|exact (Hp p)|exact (Hp p)].
Qed.

Lemma split_at_colon a a' b b' :
  free_of ":" a = true → free_of ":" a' = true →
  a +:+ ":" +:+ b = a' +:+ ":" +:+ b' → a = a' ∧ b = b'.
Proof.
  revert a'. induction a as [|c a IH]; intros [|c' a'] Ha Ha' E; cbn in *.
  - by injection E.
  - injection E as <- _. done.
  - injection E as -> _. done.
  - apply andb_true_iff in Ha, Ha'. injection E as -> E.
    destruct (IH a') as [-> ->]; tauto.
Qed.

Lemma FormatInt_pair z z' b b' :
  FormatInt z +:+ ":" +:+ b = FormatInt z' +:+ ":" +:+ b' → z = z' ∧ b = b'.
Proof.
  intros E. apply split_at_colon in E; [|apply FormatInt_no_colon..].
  destruct E as [E ->]. split; [by apply (inj FormatInt)|done].
Qed.
