(* ===== verification/GoFloat.v ===== *)
(** * GoFloat: float64 and the NUMERIC columns that hold money

    A Go [float64] is an IEEE 754 binary64 number, given by the Standard Library's executable
    specification of floating point ([spec_float], precision 53, largest exponent 1024).
    PostgreSQL's NUMERIC values are rationals, and a column DECIMAL(20,8) or DECIMAL(20,10) is an
    integer of units of its scale, to which a value is rounded half away from zero.

    How a [float64] becomes a NUMERIC (the driver sends its shortest decimal) and back is code of
    others: the class [AmountCodec], with what is relied on in [AmountLaws].  NaN and infinities
    are not amounts; statements about SQL parameters are about finite ones. *)

From stdpp Require Import base tactics numbers list strings.
From Stdlib Require Import Ascii ZArith Lia QArith Qround Lqa.
From Stdlib Require Export SpecFloat.
From S2P Require Import Prelude GoLib.

Local Open Scope Z_scope.

(** ** float64 *)

Definition float64 : Type := spec_float.

Definition f64_prec : Z := 53.
Definition f64_emax : Z := 1024.

(** [float64(n)] *)
Definition f64_of_int (n : Z) : float64 := binary_normalize f64_prec f64_emax n 0 false.

Definition f64_zero : float64 := S754_zero false.
Definition f64_add (a b : float64) : float64 := SFadd f64_prec f64_emax a b.
Definition f64_sub (a b : float64) : float64 := SFsub f64_prec f64_emax a b.
Definition f64_mul (a b : float64) : float64 := SFmul f64_prec f64_emax a b.
Definition f64_div (a b : float64) : float64 := SFdiv f64_prec f64_emax a b.
Definition f64_ltb (a b : float64) : bool := SFltb a b.
Definition f64_leb (a b : float64) : bool := SFleb a b.

(** The constant [n / 10^d], both exact: what the compiler makes of a decimal literal. *)
Definition f64_decimal (n d : Z) : float64 := f64_div (f64_of_int n) (f64_of_int (10 ^ d)).

Definition f64_finite (f : float64) : bool :=
  match f with S754_zero _ | S754_finite _ _ _ => true | _ => false end.

(** The number a finite [float64] is. *)
Definition f64_Q (f : float64) : Q :=
  match f with
  | S754_finite s m e =>
      let n := if s then Z.neg m else Z.pos m in
      if 0 <=? e then inject_Z (n * 2 ^ e) else n # Z.to_pos (2 ^ (- e))
  | _ => 0%Q
  end.

(** [n / d] to the nearest integer, ties to even. *)
Definition div_half_even (n d : Z) : Z :=
  let q := n / d in
  let r := n mod d in
  if 2 * r <? d then q else if d <? 2 * r then q + 1 else if Z.even q then q else q + 1.

Fixpoint zeros (n : nat) : string :=
  match n with O => "" | S n => String "0"%char (zeros n) end.

(** [fmt.Sprintf("%0.10f", f)]: the exact value, rounded to ten decimals. *)
Definition format_10f (f : float64) : string :=
  let sign (s : bool) := if s then "-" else "" in
  match f with
  | S754_nan => "NaN"
  | S754_infinity s => if s then "-Inf" else "+Inf"
  | S754_zero s => sign s +:+ "0.0000000000"
  | S754_finite s m e =>
      let n := if 0 <=? e then Z.pos m * 2 ^ e * 10 ^ 10
               else div_half_even (Z.pos m * 10 ^ 10) (2 ^ (- e)) in
      let frac := FormatInt (n mod 10 ^ 10) in
      sign s +:+ FormatInt (n / 10 ^ 10) +:+ "." +:+ zeros (10 - String.length frac) +:+ frac
  end.

(** ** NUMERIC *)

(** A column DECIMAL(20,d): a whole number of 10^-d. *)
Definition units (d : positive) (z : Z) : Q := z # Pos.pow 10 d.

(** The nearest whole number, ties away from zero. *)
Definition round_half_away (q : Q) : Z :=
  if Qle_bool 0 q then Qfloor (q + (1 # 2)) else - Qfloor (- q + (1 # 2)).

(** What is stored of a value: the statement fails when it has more than twenty digits. *)
Definition store (d : positive) (q : Q) : option Z :=
  let z := round_half_away (q * inject_Z (Z.pos (Pos.pow 10 d))) in
  if Z.abs z <? 10 ^ 20 then Some z else None.

Class AmountCodec : Type := {
  (** the NUMERIC a statement's float64 parameter is *)
  numeric : float64 → Q;
  (** what a float64 reads of a NUMERIC *)
  scan_float : Q → float64;
  (** [decimal.NewFromFloat(v).Round(8).Float64()] *)
  decimal_round8 : float64 → float64
}.

Definition whole_units (d : positive) (q : Q) : Prop := ∃ z, (q == units d z)%Q.

Class AmountLaws (C : AmountCodec) : Prop := {
  numeric_pos f : f64_finite f = true → f64_ltb f64_zero f = true ↔ (0 < numeric f)%Q;
  numeric_zero s : (numeric (S754_zero s) == 0)%Q;
  decimal_round8_units f : f64_finite f = true →
    f64_finite (decimal_round8 f) = true ∧ whole_units 8 (numeric (decimal_round8 f))
}.

(** A float64 written to a column DECIMAL(20,10) or DECIMAL(10,4) and read back. *)
Definition column10 `{AmountCodec} (f : float64) : option float64 :=
  (λ z, scan_float (units 10 z)) <$> store 10 (numeric f).
Definition column4 `{AmountCodec} (f : float64) : option float64 :=
  z ← store 4 (numeric f);
  if Z.abs z <? 10 ^ 10 then Some (scan_float (units 4 z)) else None.

(** ** Rounding *)

Lemma Qle_bool_cases a b : if Qle_bool a b then (a <= b)%Q else (b < a)%Q.
Proof.
  destruct (Qle_bool a b) eqn:H; [by apply Qle_bool_iff|].
  apply Qnot_le_lt. intros Hle%Qle_bool_iff. congruence.
Qed.

Lemma Qfloor_half z q : (- (1 # 2) <= q < 1 # 2)%Q → Qfloor (inject_Z z + q + (1 # 2)) = z.
Proof.
  intros Hq. pose proof (Qfloor_le (inject_Z z + q + (1 # 2))) as Hle.
  pose proof (Qlt_floor (inject_Z z + q + (1 # 2))) as Hlt.
  set (f := Qfloor _) in *. rewrite inject_Z_plus in Hlt.
  assert (inject_Z f < inject_Z (z + 1))%Q as H1
    by (rewrite inject_Z_plus; change (inject_Z 1) with 1%Q in *; lra).
  assert (inject_Z z < inject_Z (f + 1))%Q as H2
    by (rewrite inject_Z_plus; change (inject_Z 1) with 1%Q in *; lra).
  rewrite <-Zlt_Qlt in H1, H2. lia.
Qed.

#[export] Instance round_half_away_proper : Proper (Qeq ==> eq) round_half_away.
Proof.
  intros a b Hab. unfold round_half_away.
  pose proof (Qle_bool_cases 0 a). pose proof (Qle_bool_cases 0 b).
  destruct (Qle_bool 0 a), (Qle_bool 0 b); try (exfalso; lra).
  - apply Qfloor_comp. lra.
  - f_equal. apply Qfloor_comp. lra.
Qed.

#[export] Instance store_proper d : Proper (Qeq ==> eq) (store d).
Proof.
  intros a b Hab. unfold store.
  assert (round_half_away (a * inject_Z (Z.pos (10 ^ d))) =
          round_half_away (b * inject_Z (Z.pos (10 ^ d)))) as -> by (apply round_half_away_proper; by rewrite Hab).
  done.
Qed.

Lemma round_half_away_int z : round_half_away (inject_Z z) = z.
Proof.
  unfold round_half_away. destruct (Qle_bool 0 (inject_Z z)).
  - rewrite <-(Qfloor_half z 0) at 2 by lra. apply Qfloor_comp. lra.
  - rewrite <-(Z.opp_involutive z) at 2. f_equal. rewrite <-(Qfloor_half (- z) 0) by lra.
    apply Qfloor_comp. rewrite inject_Z_opp. lra.
Qed.

Lemma units_scaled d z : (units d z * inject_Z (Z.pos (10 ^ d)) == inject_Z z)%Q.
Proof. unfold units, Qeq, inject_Z. cbn. lia. Qed.

Lemma units_add d a b : (units d a + units d b == units d (a + b))%Q.
Proof. unfold units, Qeq. cbn. lia. Qed.

Lemma units_sub d a b : (units d a - units d b == units d (a - b))%Q.
Proof. unfold units, Qeq. cbn. lia. Qed.

Lemma units_le d a b : (units d a <= units d b)%Q ↔ a <= b.
Proof. unfold units, Qle. cbn. nia. Qed.

Lemma units_lt d a b : (units d a < units d b)%Q ↔ a < b.
Proof. unfold units, Qlt. cbn. nia. Qed.

(** A value of the column's scale is stored as it is, unless it has too many digits. *)
Lemma store_units d z : store d (units d z) = if Z.abs z <? 10 ^ 20 then Some z else None.
Proof.
  unfold store.
  rewrite (round_half_away_proper _ (inject_Z z)) by apply units_scaled.
  by rewrite round_half_away_int.
Qed.

Lemma store_exact d q z : (q == units d z)%Q → ∀ z', store d q = Some z' → z' = z.
Proof. intros Hq z'. rewrite (store_proper d _ _ Hq), store_units. case_if; naive_solver. Qed.

(** Rounding moves a value by at most half a unit. *)
Lemma round_half_away_error q :
  (- (1 # 2) <= inject_Z (round_half_away q) - q <= 1 # 2)%Q.
Proof.
  unfold round_half_away. destruct (Qle_bool 0 q).
  - pose proof (Qfloor_le (q + (1 # 2))). pose proof (Qlt_floor (q + (1 # 2))) as Hlt.
    rewrite inject_Z_plus in Hlt. change (inject_Z 1) with 1%Q in Hlt. lra.
  - pose proof (Qfloor_le (- q + (1 # 2))). pose proof (Qlt_floor (- q + (1 # 2))) as Hlt.
    rewrite inject_Z_plus in Hlt. change (inject_Z 1) with 1%Q in Hlt.
    rewrite inject_Z_opp. lra.
Qed.
