(* ===== verification/Redis.v ===== *)
(** * Redis: the interface of the Redis server

    The caches of [backend/internal/repository] keep their state in a Redis server.  The server
    is not part of this repository: it is the parameter [S] of the caches, with the commands they
    send ([RedisOps]) and, as hypotheses, the documented effect of those commands ([RedisLaws]),
    stated against the data model [rdb] of the Redis documentation.  [MemRedis] is the data model
    itself seen as a server; it inhabits the interface and runs the witnesses.

    Keys hold the type the program gives them, so no command meets a key of another type. *)

From stdpp Require Import base tactics numbers list strings gmap sorting pretty.
From Stdlib Require Import ZArith Lia.
From S2P Require Import Prelude GoLib.

Local Open Scope Z_scope.

(** ** The commands *)

Class RedisOps (S : Type) : Type := {
  TIME : St S (Z * Z);                                (* seconds, microseconds *)
  ZADD : string → list (Z * string) → St S unit;
  ZREM : string → list string → St S Z;               (* members removed *)
  ZREMRANGEBYSCORE : string → Z → St S unit;          (* scores in [-inf, max] *)
  ZSCORE : string → string → St S (option Z);
  ZCARD : string → St S Z;
  ZRANGE : string → St S (list string);               (* 0 -1 *)
  ZRANGEBYSCORE : string → Z → Z → St S (list string); (* [-inf, max], LIMIT 0 count *)
  EXPIRE : string → Z → St S unit;                    (* seconds *)
  PEXPIRE : string → Z → St S unit;                   (* milliseconds *)
  PTTL : string → St S Z;
  GET : string → St S (option string);
  SET : string → string → option Z → St S unit;       (* PX milliseconds *)
  DEL : string → St S unit;
  EXISTS : string → St S bool;
  INCR : string → St S (option Z);                    (* None: not an integer *)
  DECR : string → St S (option Z);
  TICK : Z → St S unit                                (* not a command: time passes, microseconds *)
}.

(** ** The documented data model *)

Record rdb : Type := Rdb {
  zsets : gmap string (gmap string Z);   (* sorted sets; an empty one does not exist *)
  strs : gmap string string;
  deadlines : gmap string Z;             (* keys with a time to live: milliseconds *)
  micros : Z                             (* the server's clock, microseconds since the epoch *)
}.

Definition empty_rdb (now : Z) : rdb := Rdb ∅ ∅ ∅ now.

Definition now_s (m : rdb) : Z := micros m / 1000000.
Definition now_ms (m : rdb) : Z := micros m / 1000.

Definition zset (m : rdb) (k : string) : gmap string Z := default ∅ (zsets m !! k).

Definition zput (k : string) (z : gmap string Z) (m : rdb) : rdb :=
  if decide (z = ∅) then Rdb (delete k (zsets m)) (strs m) (delete k (deadlines m)) (micros m)
  else Rdb (<[k := z]> (zsets m)) (strs m) (deadlines m) (micros m).

Definition exists_key (m : rdb) (k : string) : bool :=
  bool_decide (is_Some (zsets m !! k)) || bool_decide (is_Some (strs m !! k)).

Definition remove_key (k : string) (m : rdb) : rdb :=
  Rdb (delete k (zsets m)) (delete k (strs m)) (delete k (deadlines m)) (micros m).

Definition set_deadline (k : string) (ms : Z) (m : rdb) : rdb :=
  if exists_key m k then
    if ms <=? 0 then remove_key k m
    else Rdb (zsets m) (strs m) (<[k := now_ms m + ms]> (deadlines m)) (micros m)
  else m.

(** Sorted sets are listed by score, and by member among equal scores. *)
Definition zorder (p q : string * Z) : Prop :=
  p.2 < q.2 ∨ (p.2 = q.2 ∧ String.le p.1 q.1).

#[export] Instance zorder_dec : RelDecision zorder.
Proof. intros p q. unfold zorder. apply _. Defined.

Definition zlist (z : gmap string Z) : list (string * Z) := merge_sort zorder (map_to_list z).

(** A key whose deadline has passed is gone. *)
Definition expired (m : rdb) (k : string) : bool :=
  match deadlines m !! k with Some d => d <? now_ms m | None => false end.

Definition tick (d : Z) (m : rdb) : rdb :=
  let m1 := Rdb (zsets m) (strs m) (deadlines m) (micros m + d) in
  Rdb (filter (λ kv, expired m1 kv.1 = false) (zsets m))
      (filter (λ kv, expired m1 kv.1 = false) (strs m))
      (filter (λ kv, expired m1 kv.1 = false) (deadlines m))
      (micros m + d).

Definition incr_by (d : Z) (k : string) (m : rdb) : option Z * rdb :=
  match ParseInt (default "0" (strs m !! k)) with
  | Some v =>
      if in_int64 (v + d) then
        (Some (v + d), Rdb (zsets m) (<[k := FormatInt (v + d)]> (strs m)) (deadlines m) (micros m))
      else (None, m)
  | None => (None, m)
  end.

#[export] Instance MemRedis : RedisOps rdb := {
  TIME := λ m, ((now_s m, micros m `mod` 1000000), m);
  ZADD := λ k l m, (tt, zput k (foldl (λ z p, <[p.2 := p.1]> z) (zset m k) l) m);
  ZREM := λ k l m,
    let z := zset m k in
    let z' := foldl (λ z x, delete x z) z l in
    (Z.of_nat (size z - size z'), zput k z' m);
  ZREMRANGEBYSCORE := λ k hi m, (tt, zput k (filter (λ kv, hi < kv.2) (zset m k)) m);
  ZSCORE := λ k x m, (zset m k !! x, m);
  ZCARD := λ k m, (Z.of_nat (size (zset m k)), m);
  ZRANGE := λ k m, (fst <$> zlist (zset m k), m);
  ZRANGEBYSCORE := λ k hi count m,
    (take (Z.to_nat count) (fst <$> filter (λ kv, kv.2 ≤ hi) (zlist (zset m k))), m);
  EXPIRE := λ k s m, (tt, set_deadline k (s * 1000) m);
  PEXPIRE := λ k ms m, (tt, set_deadline k ms m);
  PTTL := λ k m,
    (if exists_key m k then
       match deadlines m !! k with Some d => d - now_ms m | None => -1 end
     else -2, m);
  GET := λ k m, (strs m !! k, m);
  SET := λ k v px m,
    (tt, Rdb (zsets m) (<[k := v]> (strs m))
           (match px with Some ms => <[k := now_ms m + ms]> (deadlines m)
                        | None => delete k (deadlines m) end) (micros m));
  DEL := λ k m, (tt, remove_key k m);
  EXISTS := λ k m, (exists_key m k, m);
  INCR := λ k m, incr_by 1 k m;
  DECR := λ k m, incr_by (-1) k m;
  TICK := λ d m, (tt, tick d m)
}.

(** ** The documented behaviour, as hypotheses on a server

    [abs] reads the data of a server state; every command has the documented effect on it. *)
Class RedisLaws {S : Type} (R : RedisOps S) (abs : S → rdb) : Prop := {
  law_TIME : refines abs TIME TIME;
  law_ZADD k l : refines abs (ZADD k l) (ZADD k l);
  law_ZREM k l : refines abs (ZREM k l) (ZREM k l);
  law_ZREMRANGEBYSCORE k hi : refines abs (ZREMRANGEBYSCORE k hi) (ZREMRANGEBYSCORE k hi);
  law_ZSCORE k x : refines abs (ZSCORE k x) (ZSCORE k x);
  law_ZCARD k : refines abs (ZCARD k) (ZCARD k);
  law_ZRANGE k : refines abs (ZRANGE k) (ZRANGE k);
  law_ZRANGEBYSCORE k hi n : refines abs (ZRANGEBYSCORE k hi n) (ZRANGEBYSCORE k hi n);
  law_EXPIRE k s : refines abs (EXPIRE k s) (EXPIRE k s);
  law_PEXPIRE k ms : refines abs (PEXPIRE k ms) (PEXPIRE k ms);
  law_PTTL k : refines abs (PTTL k) (PTTL k);
  law_GET k : refines abs (GET k) (GET k);
  law_SET k v px : refines abs (SET k v px) (SET k v px);
  law_DEL k : refines abs (DEL k) (DEL k);
  law_EXISTS k : refines abs (EXISTS k) (EXISTS k);
  law_INCR k : refines abs (INCR k) (INCR k);
  law_DECR k : refines abs (DECR k) (DECR k);
  law_TICK d : refines abs (TICK d) (TICK d)
}.

(** ** Round trips

    Between two commands of one client other clients run and time passes; a command may fail
    before it reaches the server, or after, its reply lost. *)
Inductive cmd : Type :=
| CZadd (k : string) (l : list (Z * string))
| CZrem (k : string) (l : list string)
| CZremrange (k : string) (hi : Z)
| CExpire (k : string) (s : Z)
| CPexpire (k : string) (ms : Z)
| CSet (k v : string) (px : option Z)
| CDel (k : string)
| CIncr (k : string)
| CDecr (k : string)
| CTick (d : Z).

Inductive fate : Type :=
| Delivered
| ReplyLost (e : error)
| NotSent (e : error).

Record net_event : Type := NetEvent {
  ev_before : list cmd;          (* what others do before the round trip *)
  ev_between : list (list cmd);  (* and between the commands of a pipeline *)
  ev_fate : fate;
  ev_scan : list string * Z      (* the reply to SCAN: the keys of a batch, the next cursor *)
}.

Definition quiet : net_event := NetEvent [] [] Delivered ([], 0).

Record world (S : Type) : Type := World { w_db : S; w_net : list net_event }.
Arguments World {S} _ _.
Arguments w_db {S} _.
Arguments w_net {S} _.

(** A Go method that talks to Redis. *)
Definition IO (S A : Type) : Type := St (world S) A.

Section RoundTrip.
Context {S : Type} `{R : RedisOps S}.

Definition run_cmd (c : cmd) : St S unit :=
  match c with
  | CZadd k l => ZADD k l
  | CZrem k l => _ ← ZREM k l; mret tt
  | CZremrange k hi => ZREMRANGEBYSCORE k hi
  | CExpire k s => EXPIRE k s
  | CPexpire k ms => PEXPIRE k ms
  | CSet k v px => SET k v px
  | CDel k => DEL k
  | CIncr k => _ ← INCR k; mret tt
  | CDecr k => _ ← DECR k; mret tt
  | CTick d => TICK d
  end.

Definition next_event (w : world S) : net_event * world S :=
  match w_net w with
  | [] => (quiet, w)
  | e :: net => (e, World (w_db w) net)
  end.

Definition deliver {A} (f : fate) (c : St S A) : IO S (error + A) := λ w,
  match f with
  | NotSent err => (inl err, w)
  | ReplyLost err => (inl err, World (c (w_db w)).2 (w_net w))
  | Delivered => let '(a, s) := c (w_db w) in (inr a, World s (w_net w))
  end.

(** One command, one script or one MULTI/EXEC transaction: it runs atomically. *)
Definition roundtrip {A} (c : St S A) : IO S (error + A) := λ w,
  let '(e, w1) := next_event w in
  deliver (ev_fate e) (_ ← mapM_ run_cmd (ev_before e); c) w1.

(** The commands of a pipeline are sent together, but others may run between them. *)
Definition Pipe (A : Type) : Type := St (S * list (list cmd)) A.

Definition piped {A} (c : St S A) : Pipe A := λ '(s, between),
  let '(a, s') := (_ ← mapM_ run_cmd (default [] (head between)); c) s in
  (a, (s', tail between)).

Definition pipeline {A} (p : Pipe A) : IO S (error + A) := λ w,
  let '(e, w1) := next_event w in
  deliver (ev_fate e)
    (λ s, let '(a, (s', _)) := p ((mapM_ run_cmd (ev_before e) s).2, ev_between e) in (a, s')) w1.

(** SCAN with MATCH [prefix*]: the batches of an iteration are the server's choice, among the
    keys that match. *)
Definition scan_roundtrip (prefix : string) : IO S (error + list string * Z) := λ w,
  let '(e, w1) := next_event w in
  deliver (ev_fate e)
    (_ ← mapM_ run_cmd (ev_before e);
     mret (filter (λ k, HasPrefix k prefix = true) (ev_scan e).1, (ev_scan e).2)) w1.
End RoundTrip.

Definition abs_world {S} (abs : S → rdb) (w : world S) : world rdb :=
  World (abs (w_db w)) (w_net w).

(** The value a Lua script returns to Go: an integer or bulk string, or a flat array; a run-time
    error of the script comes back as an error reply. *)
Inductive lua_scalar : Type :=
| LInt (z : Z)
| LBulk (s : string).

Inductive lua_value : Type :=
| LScalar (v : lua_scalar)
| LArray (l : list lua_scalar)
| LError (msg : string).

(** [script.Run(ctx, rdb, keys, args...).Result()] *)
Definition runScript {S} `{R : RedisOps S} (script : St S lua_value)
    : IO S (error + lua_value) :=
  r ← roundtrip script;
  mret (match r with
        | inl e => inl e
        | inr (LError msg) => inl (Err msg)
        | inr v => inr v
        end).

(** [.Int()] on the result of a script. *)
Definition script_int (r : error + lua_value) : error + Z :=
  match r with
  | inl e => inl e
  | inr (LScalar (LInt z)) => inr z
  | inr (LScalar (LBulk s)) =>
      match ParseInt s with Some z => inr z | None => inl (Err "strconv.Atoi") end
  | inr _ => inl (Err "redis: unexpected type")
  end.

(** ** An undisturbed network *)

Lemma roundtrip_quiet {S} `{R : RedisOps S} {A} (c : St S A) s :
  roundtrip c (World s []) = let '(a, s') := c s in (inr a, World s' []).
Proof. done. Qed.

Lemma pipeline_quiet {S} `{R : RedisOps S} {A} (p : Pipe A) (s : S) :
  pipeline p (World s []) = let '(a, (s', _)) := p (s, []) in (inr a, World s' []).
Proof.
  unfold pipeline. cbn. unfold mret, St_ret. cbn. by destruct (p (s, [])) as [a [s' b]].
Qed.

(** ** Facts about the data model *)

#[export] Instance MemRedis_laws : RedisLaws MemRedis id.
Proof. split; intros; intros m; unfold id; apply surjective_pairing. Qed.

Lemma zset_zput k z m k' : zset (zput k z m) k' = if decide (k = k') then z else zset m k'.
Proof.
  unfold zput, zset. repeat case_decide; subst; simpl.
  - by rewrite lookup_delete_eq.
  - by rewrite lookup_delete_ne.
  - by rewrite lookup_insert_eq.
  - by rewrite lookup_insert_ne.
Qed.

Lemma zset_zput_eq k z m : zset (zput k z m) k = z.
Proof. rewrite zset_zput. by case_decide. Qed.

Lemma zset_zput_ne k z m k' : k ≠ k' → zset (zput k z m) k' = zset m k'.
Proof. intros. rewrite zset_zput. by case_decide. Qed.

Lemma zset_remove_key k m k' :
  zset (remove_key k m) k' = if decide (k = k') then ∅ else zset m k'.
Proof.
  unfold remove_key, zset; simpl. case_decide; subst.
  - by rewrite lookup_delete_eq.
  - by rewrite lookup_delete_ne.
Qed.

Lemma zset_set_deadline k ms m k' : 0 < ms → zset (set_deadline k ms m) k' = zset m k'.
Proof.
  intros Hms. unfold set_deadline. case_match; [|done].
  rewrite (proj2 (Z.leb_gt ms 0)) by lia. done.
Qed.

Lemma zset_set_deadline_ne k ms m k' : k ≠ k' → zset (set_deadline k ms m) k' = zset m k'.
Proof.
  intros Hne. unfold set_deadline. repeat case_match; try done.
  rewrite zset_remove_key. by case_decide.
Qed.

Lemma zset_incr_by d k m k' : zset (incr_by d k m).2 k' = zset m k'.
Proof. unfold incr_by. by repeat (case_match; simpl). Qed.

Lemma strs_zput k z m : strs (zput k z m) = strs m.
Proof. unfold zput. by case_decide. Qed.

Lemma strs_set_deadline k ms m : 0 < ms → strs (set_deadline k ms m) = strs m.
Proof.
  intros Hms. unfold set_deadline. case_match; [|done].
  by rewrite (proj2 (Z.leb_gt ms 0)) by lia.
Qed.

Lemma micros_zput k z m : micros (zput k z m) = micros m.
Proof. unfold zput. by case_decide. Qed.

Lemma micros_set_deadline k ms m : micros (set_deadline k ms m) = micros m.
Proof. unfold set_deadline. by repeat case_match. Qed.

Lemma now_s_zput k z m : now_s (zput k z m) = now_s m.
Proof. unfold now_s. by rewrite micros_zput. Qed.

Lemma now_s_set_deadline k ms m : now_s (set_deadline k ms m) = now_s m.
Proof. unfold now_s. by rewrite micros_set_deadline. Qed.

(** Time removes whole sorted sets, never single members. *)
Lemma zset_tick d m k : zset (tick d m) k = zset m k ∨ zset (tick d m) k = ∅.
Proof.
  unfold zset, tick; simpl. rewrite map_lookup_filter.
  destruct (zsets m !! k); simpl; [|by left].
  unfold guard. case_decide; simpl; auto.
Qed.

#[export] Hint Rewrite zset_zput_eq strs_zput micros_zput micros_set_deadline now_s_zput
  now_s_set_deadline : relay.
#[export] Hint Rewrite zset_zput_ne zset_set_deadline strs_set_deadline using (done || lia)
  : relay.

(** ** Refinement *)

Section RefineRoundTrip.
Context {S : Type} {R : RedisOps S} {abs : S → rdb} {L : RedisLaws R abs}.

Lemma refines_run_cmd c : refines abs (run_cmd c) (run_cmd (R:=MemRedis) c).
Proof.
  destruct c; unfold run_cmd; try apply refines_bind; try apply L;
    intros; apply refines_ret.
Qed.

Lemma refines_run_cmds l : refines abs (mapM_ run_cmd l) (mapM_ (run_cmd (R:=MemRedis)) l).
Proof. apply refines_mapM_, refines_run_cmd. Qed.

Lemma refines_deliver {A} f (c : St S A) c' :
  refines abs c c' → refines (abs_world abs) (deliver f c) (deliver f c').
Proof.
  intros Hc [s net]. unfold deliver, abs_world; simpl. destruct f; simpl; rewrite ?Hc; try done.
  by destruct (c s).
Qed.

Lemma refines_event {A} (f : net_event → St S A) f' :
  (∀ e, refines abs (f e) (f' e)) →
  refines (abs_world abs)
    (λ w, let '(e, w1) := next_event w in deliver (ev_fate e) (f e) w1)
    (λ w, let '(e, w1) := next_event w in deliver (ev_fate e) (f' e) w1).
Proof.
  intros Hf [s [|e net]].
  - exact (refines_deliver (ev_fate quiet) _ _ (Hf quiet) (World s [])).
  - exact (refines_deliver (ev_fate e) _ _ (Hf e) (World s net)).
Qed.

Lemma refines_roundtrip {A} (c : St S A) c' :
  refines abs c c' → refines (abs_world abs) (roundtrip c) (roundtrip (R:=MemRedis) c').
Proof.
  intros Hc. apply refines_event. intros e. apply refines_bind; [apply refines_run_cmds|done].
Qed.

Lemma refines_scan prefix :
  refines (abs_world abs) (scan_roundtrip prefix) (scan_roundtrip (R:=MemRedis) prefix).
Proof.
  apply refines_event. intros e.
  apply refines_bind; [apply refines_run_cmds|intros _; apply refines_ret].
Qed.

Definition abs_pipe (p : S * list (list cmd)) : rdb * list (list cmd) := (abs p.1, p.2).

Lemma refines_piped {A} (c : St S A) c' :
  refines abs c c' → refines abs_pipe (piped c) (piped (R:=MemRedis) c').
Proof.
  intros Hc [s b]. unfold piped, abs_pipe; simpl.
  rewrite (refines_bind abs (mapM_ run_cmd (default [] (head b))) _ (λ _, c) (λ _, c'));
    [|apply refines_run_cmds|done].
  by destruct ((mapM_ run_cmd (default [] (head b)) ≫= λ _, c) s).
Qed.

Lemma refines_pipeline {A} (p : Pipe A) p' :
  refines abs_pipe p p' → refines (abs_world abs) (pipeline p) (pipeline (R:=MemRedis) p').
Proof.
  intros Hp. apply refines_event. intros e s. rewrite refines_run_cmds. simpl.
  pose proof (Hp ((mapM_ run_cmd (ev_before e) s).2, ev_between e)) as H.
  unfold abs_pipe in H; simpl in H. rewrite H. by destruct (p _) as [? [? ?]].
Qed.
End RefineRoundTrip.

#[export] Hint Resolve refines_roundtrip refines_scan refines_piped refines_pipeline : refine.
#[export] Hint Resolve law_TIME law_ZADD law_ZREM law_ZREMRANGEBYSCORE law_ZSCORE law_ZCARD
  law_ZRANGE law_ZRANGEBYSCORE law_EXPIRE law_PEXPIRE law_PTTL law_GET law_SET law_DEL
  law_EXISTS law_INCR law_DECR law_TICK : refine.

(** A program built from the commands and round trips refines its reading over the data model. *)
Ltac solve_refines :=
  repeat first
    [ progress intros
    | simple apply refines_roundtrip
    | simple apply refines_scan
    | simple apply refines_pipeline
    | simple apply refines_piped
    | apply refines_ret
    | apply refines_bind
    | apply refines_mapM_
    | apply refines_mapSt
    | solve [eauto with refine]
    | match goal with |- refines _ (match ?x with _ => _ end) _ => destruct x end ].
