(* ===== verification/ConcurrencyCache.v ===== *)
(** * ConcurrencyCache: concurrency slots, leases and wait queues in Redis

    Models [backend/internal/repository/concurrency_cache.go]: the Lua scripts as computations
    over a server state, the methods of [concurrencyCache] as computations over a [world] (the
    server and what the network and the other clients do).  Log lines are left out; the client is
    never nil.  Lua numbers and ZSET scores are integers below 2^53 here, so they are exact. *)

From stdpp Require Import base tactics numbers list strings gmap sorting pretty.
From Stdlib Require Import ZArith Lia.
From S2P Require Import Prelude GoLib Redis.

Local Open Scope Z_scope.

(** ** Keys *)

Definition accountSlotKeyPrefix : string := "concurrency:account:".
Definition userSlotKeyPrefix : string := "concurrency:user:".
Definition apiKeySlotKeyPrefix : string := "concurrency:api_key:".
Definition liveAccountSlotKeyPrefix : string := "concurrency:live:account:".
Definition liveUserSlotKeyPrefix : string := "concurrency:live:user:".
Definition liveAPIKeySlotKeyPrefix : string := "concurrency:live:api_key:".
Definition openAIWSIngressLeaseKeyPrefix : string := "concurrency:openai_ws_ingress:api_key:".
Definition openAIWSIngressLeaseTTLSeconds : Z := 60.
Definition liveLeaseTTLSeconds : Z := 60.
Definition waitQueueKeyPrefix : string := "concurrency:wait:".
Definition accountWaitKeyPrefix : string := "wait:account:".
Definition defaultSlotTTLMinutes : Z := 15.
Definition accountActiveIndexKey : string := "concurrency:account:active_index".
Definition userActiveIndexKey : string := "concurrency:user:active_index".
Definition activeIndexCleanupBatchSize : Z := 1000.
Definition activeIndexPipelineChunkSize : nat := 500.
Definition legacyWaitSweepMarkerKey : string := "concurrency:startup:legacy_wait_sweep:v1".

Definition accountSlotKey (id : Z) : string := accountSlotKeyPrefix +:+ FormatInt id.
Definition userSlotKey (id : Z) : string := userSlotKeyPrefix +:+ FormatInt id.
Definition apiKeySlotKey (id : Z) : string := apiKeySlotKeyPrefix +:+ FormatInt id.
Definition liveAccountSlotKey (id : Z) : string := liveAccountSlotKeyPrefix +:+ FormatInt id.
Definition liveUserSlotKey (id : Z) : string := liveUserSlotKeyPrefix +:+ FormatInt id.
Definition liveAPIKeySlotKey (id : Z) : string := liveAPIKeySlotKeyPrefix +:+ FormatInt id.
Definition openAIWSIngressLeaseKey (id : Z) : string :=
  openAIWSIngressLeaseKeyPrefix +:+ FormatInt id.
Definition waitQueueKey (id : Z) : string := waitQueueKeyPrefix +:+ FormatInt id.
Definition accountWaitKey (id : Z) : string := accountWaitKeyPrefix +:+ FormatInt id.

Record slotIndexSpec : Type := SlotIndexSpec {
  indexKey : string;
  slotKey : Z → string;
  waitKey : Z → string
}.

Definition accountSlotIndex : slotIndexSpec :=
  SlotIndexSpec accountActiveIndexKey accountSlotKey accountWaitKey.
Definition userSlotIndex : slotIndexSpec :=
  SlotIndexSpec userActiveIndexKey userSlotKey waitQueueKey.

(** ** Lua scripts *)

Section Scripts.
Context {S : Type} `{R : RedisOps S}.

Definition acquireScript (key liveKey : string) (maxConcurrency ttl : Z) (requestID : string)
    : St S lua_value :=
  t ← TIME; let now := t.1 in let expireBefore := now - ttl in
  _ ← ZREMRANGEBYSCORE key expireBefore;
  _ ← ZREMRANGEBYSCORE liveKey (now - 60);
  found ← ZSCORE key requestID;
  match found with
  | Some _ =>
      _ ← ZADD key [(now, requestID)];
      _ ← EXPIRE key ttl;
      mret (LArray [LInt 1; LInt now])
  | None =>
      n1 ← ZCARD key; n2 ← ZCARD liveKey;
      if n1 + n2 <? maxConcurrency then
        _ ← ZADD key [(now, requestID)];
        _ ← EXPIRE key ttl;
        mret (LArray [LInt 1; LInt now])
      else mret (LArray [LInt 0; LInt now])
  end.

Definition getCountScript (key liveKey : string) (ttl : Z) : St S lua_value :=
  t ← TIME; let now := t.1 in let expireBefore := now - ttl in
  _ ← ZREMRANGEBYSCORE key expireBefore;
  _ ← ZREMRANGEBYSCORE liveKey (now - 60);
  n1 ← ZCARD key; n2 ← ZCARD liveKey;
  mret (LScalar (LInt (n1 + n2))).

Definition acquireLiveLeaseScript
    (accountRegular accountLive userRegular userLive apiLive : string)
    (accountMax userMax ttl : Z) (leaseID : string) (replacing : Z) : St S lua_value :=
  t ← TIME; let now := t.1 in let liveExpireBefore := now - ttl in
  _ ← ZREMRANGEBYSCORE accountLive liveExpireBefore;
  _ ← ZREMRANGEBYSCORE userLive liveExpireBefore;
  _ ← ZREMRANGEBYSCORE apiLive liveExpireBefore;
  found ← ZSCORE accountLive leaseID;
  match found with
  | Some _ => mret (LScalar (LInt 1))
  | None =>
      a1 ← ZCARD accountRegular; a2 ← ZCARD accountLive;
      u1 ← ZCARD userRegular; u2 ← ZCARD userLive;
      let accountCount := a1 + a2 in
      let userCount := u1 + u2 in
      let allowance := if replacing =? 1 then 1 else 0 in
      if (0 <? accountMax) && (accountMax + allowance <=? accountCount)
      then mret (LScalar (LInt 0))
      else if (0 <? userMax) && (userMax + allowance <=? userCount)
      then mret (LScalar (LInt 0))
      else
        _ ← ZADD accountLive [(now, leaseID)];
        _ ← ZADD userLive [(now, leaseID)];
        _ ← ZADD apiLive [(now, leaseID)];
        _ ← EXPIRE accountLive ttl;
        _ ← EXPIRE userLive ttl;
        _ ← EXPIRE apiLive ttl;
        mret (LScalar (LInt 1))
  end.

(** The first loop of [refreshLiveLeaseScript]: purge each key and look for the lease. *)
Fixpoint refreshLiveCheck (keys : list string) (expireBefore : Z) (leaseID : string)
    : St S bool :=
  match keys with
  | [] => mret true
  | key :: keys' =>
      _ ← ZREMRANGEBYSCORE key expireBefore;
      found ← ZSCORE key leaseID;
      match found with
      | None => mret false
      | Some _ => refreshLiveCheck keys' expireBefore leaseID
      end
  end.

Definition refreshLiveLeaseScript (keys : list string) (ttl : Z) (leaseID : string)
    : St S lua_value :=
  t ← TIME; let now := t.1 in
  ok ← refreshLiveCheck keys (now - ttl) leaseID;
  if ok : bool then
    _ ← mapM_ (λ key, _ ← ZADD key [(now, leaseID)]; EXPIRE key ttl) keys;
    mret (LScalar (LInt 1))
  else mret (LScalar (LInt 0)).

Definition trackSlotScript (key : string) (ttl : Z) (requestID : string) : St S lua_value :=
  t ← TIME; let now := t.1 in
  _ ← ZREMRANGEBYSCORE key (now - ttl);
  _ ← ZADD key [(now, requestID)];
  _ ← EXPIRE key ttl;
  mret (LScalar (LInt 1)).

Definition acquireOpenAIWSIngressLeaseScript (key : string) (maxConnections ttl : Z)
    (leaseID : string) : St S lua_value :=
  t ← TIME; let now := t.1 in
  _ ← ZREMRANGEBYSCORE key (now - ttl);
  found ← ZSCORE key leaseID;
  match found with
  | Some _ =>
      _ ← ZADD key [(now, leaseID)];
      _ ← EXPIRE key ttl;
      mret (LScalar (LInt 1))
  | None =>
      n ← ZCARD key;
      if n <? maxConnections then
        _ ← ZADD key [(now, leaseID)];
        _ ← EXPIRE key ttl;
        mret (LScalar (LInt 1))
      else mret (LScalar (LInt 0))
  end.

Definition refreshOpenAIWSIngressLeaseScript (key : string) (ttl : Z) (leaseID : string)
    : St S lua_value :=
  t ← TIME; let now := t.1 in
  _ ← ZREMRANGEBYSCORE key (now - ttl);
  found ← ZSCORE key leaseID;
  match found with
  | None => mret (LScalar (LInt 0))
  | Some _ =>
      _ ← ZADD key [(now, leaseID)];
      _ ← EXPIRE key ttl;
      mret (LScalar (LInt 1))
  end.

(** [tonumber] of a stored counter; Lua refuses to compare the nil of a value that is not a
    number, which ends the script with an error. *)
Definition counter_value (v : option string) : option Z :=
  match v with None => Some 0 | Some s => ParseInt s end.

Definition not_a_number : lua_value := LError "attempt to compare nil with number".

Definition incrementWaitScript (key : string) (maxWait ttl : Z) : St S lua_value :=
  v ← GET key;
  t ← TIME; let now := t.1 in
  match counter_value v with
  | None => mret not_a_number
  | Some current =>
      if maxWait <=? current then mret (LArray [LInt 0; LInt now])
      else
        _ ← INCR key;
        _ ← EXPIRE key ttl;
        mret (LArray [LInt 1; LInt now])
  end.

Definition incrementAccountWaitScript (key : string) (maxWait ttl : Z) : St S lua_value :=
  v ← GET key;
  t ← TIME; let now := t.1 in
  match counter_value v with
  | None => mret not_a_number
  | Some current =>
      if maxWait <=? current then mret (LArray [LInt 0; LInt now])
      else
        _ ← INCR key;
        _ ← EXPIRE key ttl;
        mret (LArray [LInt 1; LInt now])
  end.

Definition decrementWaitScript (key : string) : St S lua_value :=
  v ← GET key;
  match v with
  | None => mret (LScalar (LInt 1))
  | Some _ =>
      match counter_value v with
      | None => mret not_a_number
      | Some current =>
          _ ← (if 0 <? current then _ ← DECR key; mret tt else mret tt);
          mret (LScalar (LInt 1))
      end
  end.

Definition cleanupExpiredSlotsScript (key : string) (ttl : Z) : St S lua_value :=
  t ← TIME; let now := t.1 in
  _ ← ZREMRANGEBYSCORE key (now - ttl);
  n ← ZCARD key;
  _ ← (if n =? 0 then DEL key else EXPIRE key ttl);
  mret (LScalar (LInt 1)).

Fixpoint removeForeign (key activePrefix : string) (members : list string) (removed : Z)
    : St S Z :=
  match members with
  | [] => mret removed
  | member :: members' =>
      if HasPrefix member activePrefix then removeForeign key activePrefix members' removed
      else n ← ZREM key [member]; removeForeign key activePrefix members' (removed + n)
  end.

Definition startupCleanupSlotScript (key activePrefix : string) (slotTTL : Z)
    : St S lua_value :=
  members ← ZRANGE key;
  removed ← removeForeign key activePrefix members 0;
  remaining ← ZCARD key;
  _ ← (if remaining =? 0 then DEL key else EXPIRE key slotTTL);
  mret (LArray [LInt removed; LInt remaining]).
End Scripts.

(** ** Methods *)

(** [redisScriptInt64At] (user_msg_queue_cache.go): element [index] of a script's array. *)
Definition redisScriptInt64At (result : lua_value) (index : nat) : error + Z :=
  match result with
  | LArray values =>
      match values !! index with
      | None => inl (Err "redis script array missing index")
      | Some (LInt v) => inr v
      | Some (LBulk s) =>
          match ParseInt s with Some v => inr v | None => inl (Err "strconv.ParseInt") end
      end
  | _ => inl (Err "expected redis script array")
  end.

Record concurrencyCache : Type := ConcurrencyCacheCfg {
  slotTTLSeconds : Z;
  waitQueueTTLSeconds : Z
}.

Definition NewConcurrencyCache (slotTTLMinutes waitQueueTTLSeconds : Z) : concurrencyCache :=
  let slotTTLMinutes := if slotTTLMinutes <=? 0 then defaultSlotTTLMinutes else slotTTLMinutes in
  let waitQueueTTLSeconds :=
    if waitQueueTTLSeconds <=? 0 then int64_mul slotTTLMinutes 60 else waitQueueTTLSeconds in
  ConcurrencyCacheCfg (int64_mul slotTTLMinutes 60) waitQueueTTLSeconds.

Record activeIndexLoad : Type := ActiveIndexLoad {
  al_id : Z;
  al_member : string;
  al_slotCount : Z;
  al_waitCount : Z
}.

Record LoadInfo : Type := MkLoadInfo {
  li_ID : Z;
  CurrentConcurrency : Z;
  WaitingCount : Z;
  LoadRate : Z
}.

(** [AccountWithConcurrency] and [UserWithConcurrency]. *)
Record WithConcurrency : Type := MkWithConcurrency {
  wc_ID : Z;
  MaxConcurrency : Z
}.

(** [cmd.Int()] on a GET: redis.Nil when there is no value. *)
Definition get_int (v : option string) : option Z :=
  match v with None => None | Some s => ParseInt s end.

Section Methods.
Context {S : Type} `{R : RedisOps S}.
Variable c : concurrencyCache.
Local Open Scope go_scope.
Local Open Scope Z_scope.

Definition redisUnixSeconds : IO S (Z * option error) :=
  r ← roundtrip TIME;
  match r with
  | inl err => mret (0, Some (EWrap "redis TIME" err))
  | inr t => mret (t.1, None)
  end.

Definition touchActiveIndexAt (indexKey : string) (id expireAt : Z) : IO S unit :=
  if (id <=? 0) || (expireAt <=? 0) then mret tt
  else _ ← roundtrip (ZADD indexKey [(expireAt, FormatInt id)]); mret tt.

Definition activeIndexTTL (slotCount waitCount : Z) : Z :=
  let ttlSeconds := if 0 <? slotCount then slotTTLSeconds c else 0 in
  if (0 <? waitCount) && (ttlSeconds <? waitQueueTTLSeconds c)
  then waitQueueTTLSeconds c else ttlSeconds.

Definition readActiveLoadForKey (id : Z) (slotKey waitKey : string) (now : Z)
    : IO S (activeIndexLoad * option error) :=
  let cutoffTime := now -! slotTTLSeconds c in
  r ← pipeline (
    _ ← piped (ZREMRANGEBYSCORE slotKey cutoffTime);
    zcardCmd ← piped (ZCARD slotKey);
    getCmd ← piped (GET waitKey);
    mret (zcardCmd, getCmd));
  match r with
  | inl err => mret (ActiveIndexLoad 0 "" 0 0, Some (EWrap "pipeline exec" err))
  | inr (zcardCmd, getCmd) =>
      let waitCount := match get_int getCmd with
        | Some v => if 0 <? v then v else 0
        | None => 0
        end in
      mret (ActiveIndexLoad id (FormatInt id) zcardCmd waitCount, None)
  end.

Definition refreshActiveIndex (indexKey : string) (id : Z) (slotKey waitKey : string)
    : IO S unit :=
  if id <=? 0 then mret tt else
  '(now, err) ← redisUnixSeconds;
  match err with
  | Some _ => mret tt
  | None =>
      '(load, err) ← readActiveLoadForKey id slotKey waitKey now;
      match err with
      | Some _ => mret tt
      | None =>
          let member := FormatInt id in
          if (al_slotCount load =? 0) && (al_waitCount load <=? 0) then
            _ ← roundtrip (ZREM indexKey [member]); mret tt
          else
            let ttlSeconds := activeIndexTTL (al_slotCount load) (al_waitCount load) in
            if ttlSeconds <=? 0 then mret tt
            else touchActiveIndexAt indexKey id (now +! ttlSeconds)
      end
  end.

Definition refreshAccountActiveIndex (accountID : Z) : IO S unit :=
  refreshActiveIndex accountActiveIndexKey accountID (accountSlotKey accountID)
    (accountWaitKey accountID).

Definition refreshUserActiveIndex (userID : Z) : IO S unit :=
  refreshActiveIndex userActiveIndexKey userID (userSlotKey userID) (waitQueueKey userID).

Definition runScriptInt64Pair (script : St S lua_value) : IO S (Z * Z * option error) :=
  raw ← runScript script;
  match raw with
  | inl err => mret (0, 0, Some err)
  | inr raw =>
      match redisScriptInt64At raw 0 with
      | inl err => mret (0, 0, Some (EWrap "parse script value 0" err))
      | inr first =>
          match redisScriptInt64At raw 1 with
          | inl err => mret (0, 0, Some (EWrap "parse script value 1" err))
          | inr second => mret (first, second, None)
          end
      end
  end.

Definition AcquireAccountSlot (accountID maxConcurrency : Z) (requestID : string)
    : IO S (bool * option error) :=
  let key := accountSlotKey accountID in
  '(result, now, err) ← runScriptInt64Pair
    (acquireScript key (liveAccountSlotKey accountID) maxConcurrency (slotTTLSeconds c)
      requestID);
  match err with
  | Some err => mret (false, Some err)
  | None =>
      _ ← (if result =? 1
           then touchActiveIndexAt accountActiveIndexKey accountID (now +! slotTTLSeconds c)
           else mret tt);
      mret (result =? 1, None)
  end.

Definition ReleaseAccountSlot (accountID : Z) (requestID : string) : IO S (option error) :=
  r ← roundtrip (ZREM (accountSlotKey accountID) [requestID]);
  match r with
  | inl err => mret (Some err)
  | inr _ => _ ← refreshAccountActiveIndex accountID; mret None
  end.

Definition GetAccountConcurrency (accountID : Z) : IO S (Z * option error) :=
  r ← runScript (getCountScript (accountSlotKey accountID) (liveAccountSlotKey accountID)
    (slotTTLSeconds c));
  match script_int r with
  | inl err => mret (0, Some err)
  | inr n => mret (n, None)
  end.

Definition AcquireUserSlot (userID maxConcurrency : Z) (requestID : string)
    : IO S (bool * option error) :=
  let key := userSlotKey userID in
  '(result, now, err) ← runScriptInt64Pair
    (acquireScript key (liveUserSlotKey userID) maxConcurrency (slotTTLSeconds c) requestID);
  match err with
  | Some err => mret (false, Some err)
  | None =>
      _ ← (if result =? 1
           then touchActiveIndexAt userActiveIndexKey userID (now +! slotTTLSeconds c)
           else mret tt);
      mret (result =? 1, None)
  end.

Definition ReleaseUserSlot (userID : Z) (requestID : string) : IO S (option error) :=
  r ← roundtrip (ZREM (userSlotKey userID) [requestID]);
  match r with
  | inl err => mret (Some err)
  | inr _ => _ ← refreshUserActiveIndex userID; mret None
  end.

Definition GetUserConcurrency (userID : Z) : IO S (Z * option error) :=
  r ← runScript (getCountScript (userSlotKey userID) (liveUserSlotKey userID)
    (slotTTLSeconds c));
  match script_int r with
  | inl err => mret (0, Some err)
  | inr n => mret (n, None)
  end.

Definition TrackAPIKeySlot (apiKeyID : Z) (requestID : string) : IO S (option error) :=
  r ← runScript (trackSlotScript (apiKeySlotKey apiKeyID) (slotTTLSeconds c) requestID);
  match r with inl err => mret (Some err) | inr _ => mret None end.

Definition ReleaseAPIKeySlot (apiKeyID : Z) (requestID : string) : IO S (option error) :=
  r ← roundtrip (ZREM (apiKeySlotKey apiKeyID) [requestID]);
  match r with inl err => mret (Some err) | inr _ => mret None end.

(** *** WebSocket ingress leases and Live leases *)

Definition int_reply (r : error + lua_value) : bool * option error :=
  match script_int r with
  | inl err => (false, Some err)
  | inr n => (n =? 1, None)
  end.

Definition AcquireOpenAIWSIngressLease (apiKeyID maxConnections : Z) (leaseID : string)
    : IO S (bool * option error) :=
  if (apiKeyID <=? 0) || (maxConnections <=? 0) || (leaseID =? "")%string
  then mret (false, None)
  else
    r ← runScript (acquireOpenAIWSIngressLeaseScript (openAIWSIngressLeaseKey apiKeyID)
      maxConnections openAIWSIngressLeaseTTLSeconds leaseID);
    mret (int_reply r).

Definition RefreshOpenAIWSIngressLease (apiKeyID : Z) (leaseID : string)
    : IO S (bool * option error) :=
  if (apiKeyID <=? 0) || (leaseID =? "")%string then mret (false, None)
  else
    r ← runScript (refreshOpenAIWSIngressLeaseScript (openAIWSIngressLeaseKey apiKeyID)
      openAIWSIngressLeaseTTLSeconds leaseID);
    mret (int_reply r).

Definition ReleaseOpenAIWSIngressLease (apiKeyID : Z) (leaseID : string)
    : IO S (option error) :=
  if (apiKeyID <=? 0) || (leaseID =? "")%string then mret None
  else
    r ← roundtrip (ZREM (openAIWSIngressLeaseKey apiKeyID) [leaseID]);
    match r with inl err => mret (Some err) | inr _ => mret None end.

Definition AcquireLiveLease (accountID accountMax userID userMax apiKeyID : Z)
    (leaseID : string) (replacingRegularSlots : bool) : IO S (bool * option error) :=
  if (accountID <=? 0) || (userID <=? 0) || (apiKeyID <=? 0) || (leaseID =? "")%string
  then mret (false, None)
  else
    let replacing := if replacingRegularSlots then 1 else 0 in
    r ← runScript (acquireLiveLeaseScript (accountSlotKey accountID)
      (liveAccountSlotKey accountID) (userSlotKey userID) (liveUserSlotKey userID)
      (liveAPIKeySlotKey apiKeyID) accountMax userMax liveLeaseTTLSeconds leaseID replacing);
    mret (int_reply r).

Definition RefreshLiveLease (accountID userID apiKeyID : Z) (leaseID : string)
    : IO S (bool * option error) :=
  if (leaseID =? "")%string then mret (false, None)
  else
    r ← runScript (refreshLiveLeaseScript [liveAccountSlotKey accountID;
      liveUserSlotKey userID; liveAPIKeySlotKey apiKeyID] liveLeaseTTLSeconds leaseID);
    mret (int_reply r).

Definition ReleaseLiveLease (accountID userID apiKeyID : Z) (leaseID : string)
    : IO S (option error) :=
  if (leaseID =? "")%string then mret None
  else
    r ← roundtrip (
      _ ← ZREM (liveAccountSlotKey accountID) [leaseID];
      _ ← ZREM (liveUserSlotKey userID) [leaseID];
      ZREM (liveAPIKeySlotKey apiKeyID) [leaseID]);
    match r with inl err => mret (Some err) | inr _ => mret None end.

(** *** Batch reads *)

(** The two purges and the two ZCARDs every batch read queues for an id. *)
Definition queueCounts (slotKey liveKey : string) (cutoffTime liveCutoff : Z) : Pipe (Z * Z) :=
  _ ← piped (ZREMRANGEBYSCORE slotKey cutoffTime);
  _ ← piped (ZREMRANGEBYSCORE liveKey liveCutoff);
  zcardCmd ← piped (ZCARD slotKey);
  liveCmd ← piped (ZCARD liveKey);
  mret (zcardCmd, liveCmd).

Definition GetAccountConcurrencyBatch (accountIDs : list Z)
    : IO S (gmap Z Z * option error) :=
  match accountIDs with
  | [] => mret (∅, None)
  | _ =>
      '(now, err) ← redisUnixSeconds;
      match err with
      | Some err => mret (∅, Some err)
      | None =>
          let cutoffTime := now -! slotTTLSeconds c in
          r ← pipeline (mapSt (λ accountID,
            n ← queueCounts (accountSlotKeyPrefix +:+ FormatInt accountID)
                  (liveAccountSlotKeyPrefix +:+ FormatInt accountID) cutoffTime
                  (now -! liveLeaseTTLSeconds);
            mret (accountID, n)) accountIDs);
          match r with
          | inl err => mret (∅, Some (EWrap "pipeline exec" err))
          | inr cmds =>
              mret (foldl (λ result cmd, <[cmd.1 := cmd.2.1 +! cmd.2.2]> result) ∅ cmds, None)
          end
      end
  end.

Definition GetAPIKeyConcurrencyBatch (apiKeyIDs : list Z) : IO S (gmap Z Z * option error) :=
  match apiKeyIDs with
  | [] => mret (∅, None)
  | _ =>
      '(now, err) ← redisUnixSeconds;
      match err with
      | Some err => mret (∅, Some err)
      | None =>
          let cutoffTime := now -! slotTTLSeconds c in
          r ← pipeline (mapSt (λ apiKeyID,
            n ← queueCounts (apiKeySlotKeyPrefix +:+ FormatInt apiKeyID)
                  (liveAPIKeySlotKeyPrefix +:+ FormatInt apiKeyID) cutoffTime
                  (now -! liveLeaseTTLSeconds);
            mret (apiKeyID, n)) apiKeyIDs);
          match r with
          | inl err => mret (∅, Some (EWrap "pipeline exec" err))
          | inr cmds =>
              mret (foldl (λ result cmd, <[cmd.1 := cmd.2.1 +! cmd.2.2]> result) ∅ cmds, None)
          end
      end
  end.

(** The load of one id, as both load queries compute it. *)
Definition loadInfo (id maxConcurrency : Z) (zcardCmd liveCmd : Z) (getCmd : option string)
    : LoadInfo :=
  let currentConcurrency := zcardCmd +! liveCmd in
  let waitingCount := default 0 (get_int getCmd) in
  let loadRate :=
    if 0 <? maxConcurrency
    then ((currentConcurrency +! waitingCount) *! 100) /! maxConcurrency else 0 in
  MkLoadInfo id currentConcurrency waitingCount loadRate.

Definition GetAccountsLoadBatch (accounts : list WithConcurrency)
    : IO S (gmap Z LoadInfo * option error) :=
  match accounts with
  | [] => mret (∅, None)
  | _ =>
      '(now, err) ← redisUnixSeconds;
      match err with
      | Some err => mret (∅, Some err)
      | None =>
          let cutoffTime := now -! slotTTLSeconds c in
          r ← pipeline (mapSt (λ acc,
            n ← queueCounts (accountSlotKeyPrefix +:+ FormatInt (wc_ID acc))
                  (liveAccountSlotKeyPrefix +:+ FormatInt (wc_ID acc)) cutoffTime
                  (now -! liveLeaseTTLSeconds);
            getCmd ← piped (GET (accountWaitKeyPrefix +:+ FormatInt (wc_ID acc)));
            mret (acc, n, getCmd)) accounts);
          match r with
          | inl err => mret (∅, Some (EWrap "pipeline exec" err))
          | inr cmds =>
              mret (foldl (λ loadMap '(acc, n, getCmd),
                <[wc_ID acc := loadInfo (wc_ID acc) (MaxConcurrency acc) n.1 n.2 getCmd]>
                  loadMap) ∅ cmds, None)
          end
      end
  end.

Definition GetUsersLoadBatch (users : list WithConcurrency)
    : IO S (gmap Z LoadInfo * option error) :=
  match users with
  | [] => mret (∅, None)
  | _ =>
      '(now, err) ← redisUnixSeconds;
      match err with
      | Some err => mret (∅, Some err)
      | None =>
          let cutoffTime := now -! slotTTLSeconds c in
          r ← pipeline (mapSt (λ u,
            n ← queueCounts (userSlotKeyPrefix +:+ FormatInt (wc_ID u))
                  (liveUserSlotKeyPrefix +:+ FormatInt (wc_ID u)) cutoffTime
                  (now -! liveLeaseTTLSeconds);
            getCmd ← piped (GET (waitQueueKeyPrefix +:+ FormatInt (wc_ID u)));
            mret (u, n, getCmd)) users);
          match r with
          | inl err => mret (∅, Some (EWrap "pipeline exec" err))
          | inr cmds =>
              mret (foldl (λ loadMap '(u, n, getCmd),
                <[wc_ID u := loadInfo (wc_ID u) (MaxConcurrency u) n.1 n.2 getCmd]>
                  loadMap) ∅ cmds, None)
          end
      end
  end.

(** *** Wait queues *)

Definition IncrementWaitCount (userID maxWait : Z) : IO S (bool * option error) :=
  '(result, now, err) ← runScriptInt64Pair
    (incrementWaitScript (waitQueueKey userID) maxWait (waitQueueTTLSeconds c));
  match err with
  | Some err => mret (false, Some err)
  | None =>
      _ ← (if result =? 1
           then touchActiveIndexAt userActiveIndexKey userID (now +! waitQueueTTLSeconds c)
           else mret tt);
      mret (result =? 1, None)
  end.

Definition DecrementWaitCount (userID : Z) : IO S (option error) :=
  r ← runScript (decrementWaitScript (waitQueueKey userID));
  match r with
  | inl err => mret (Some err)
  | inr _ => _ ← refreshUserActiveIndex userID; mret None
  end.

Definition IncrementAccountWaitCount (accountID maxWait : Z) : IO S (bool * option error) :=
  '(result, now, err) ← runScriptInt64Pair
    (incrementAccountWaitScript (accountWaitKey accountID) maxWait (waitQueueTTLSeconds c));
  match err with
  | Some err => mret (false, Some err)
  | None =>
      _ ← (if result =? 1
           then touchActiveIndexAt accountActiveIndexKey accountID
                  (now +! waitQueueTTLSeconds c)
           else mret tt);
      mret (result =? 1, None)
  end.

Definition DecrementAccountWaitCount (accountID : Z) : IO S (option error) :=
  r ← runScript (decrementWaitScript (accountWaitKey accountID));
  match r with
  | inl err => mret (Some err)
  | inr _ => _ ← refreshAccountActiveIndex accountID; mret None
  end.

Definition GetAccountWaitingCount (accountID : Z) : IO S (Z * option error) :=
  r ← roundtrip (GET (accountWaitKey accountID));
  match r with
  | inl err => mret (0, Some err)
  | inr None => mret (0, None)
  | inr (Some v) =>
      match ParseInt v with
      | Some val => mret (val, None)
      | None => mret (0, Some (Err "strconv.Atoi"))
      end
  end.

(** *** Cleanup *)

Definition CleanupExpiredAccountSlots (accountID : Z) : IO S (option error) :=
  r ← runScript (cleanupExpiredSlotsScript (accountSlotKey accountID) (slotTTLSeconds c));
  match r with
  | inl err => mret (Some err)
  | inr _ => _ ← refreshAccountActiveIndex accountID; mret None
  end.

(** Split the members of an index: ids to read, and members that are not ids. *)
Definition splitMembers (members : list string) : list (Z * string) * list string :=
  foldl (λ '(candidates, staleMembers) member,
    match ParseInt member with
    | Some id =>
        if id <=? 0 then (candidates, staleMembers ++ [member])
        else (candidates ++ [(id, member)], staleMembers)
    | None => (candidates, staleMembers ++ [member])
    end) ([], []) members.

(** The chunk loop of [readIndexLoads]; a chunk is at least one candidate, so as much fuel as
    candidates is enough. *)
Fixpoint readChunks (fuel : nat) (spec : slotIndexSpec) (cutoffTime : Z)
    (candidates : list (Z * string)) (loads : list activeIndexLoad)
    : IO S (list activeIndexLoad * option error) :=
  match fuel, candidates with
  | _, [] => mret (loads, None)
  | O, _ => mret (loads, None)
  | Datatypes.S fuel', _ =>
      let chunk := take activeIndexPipelineChunkSize candidates in
      r ← pipeline (mapSt (λ candidate,
        _ ← piped (ZREMRANGEBYSCORE (slotKey spec candidate.1) cutoffTime);
        zcardCmd ← piped (ZCARD (slotKey spec candidate.1));
        getCmd ← piped (GET (waitKey spec candidate.1));
        mret (candidate, zcardCmd, getCmd)) chunk);
      match r with
      | inl err => mret ([], Some (EWrap "pipeline exec" err))
      | inr cmds =>
          let chunkLoads := (λ '(candidate, zcardCmd, getCmd),
            let waitCount := match get_int getCmd with
              | Some v => if 0 <? v then v else 0
              | None => 0
              end in
            ActiveIndexLoad candidate.1 candidate.2 zcardCmd waitCount) <$> cmds in
          readChunks fuel' spec cutoffTime (drop activeIndexPipelineChunkSize candidates)
            (loads ++ chunkLoads)
      end
  end.

Definition readIndexLoads (spec : slotIndexSpec) (members : list string) (now : Z)
    : IO S (list activeIndexLoad * list string * option error) :=
  let '(candidates, staleMembers) := splitMembers members in
  let cutoffTime := now -! slotTTLSeconds c in
  '(loads, err) ← readChunks (length candidates) spec cutoffTime candidates [];
  match err with
  | Some err => mret ([], [], Some err)
  | None => mret (loads, staleMembers, None)
  end.

Definition removeActiveIndexMembers (indexKey : string) (members : list string) : IO S unit :=
  match members with
  | [] => mret tt
  | _ => _ ← roundtrip (ZREM indexKey members); mret tt
  end.

(** Write back the members still in use and drop the others; both are best effort. *)
Definition writeBackIndex (indexKey : string) (refreshed : list (Z * string))
    (staleMembers : list string) : IO S unit :=
  _ ← (match refreshed with
       | [] => mret tt
       | _ => _ ← roundtrip (ZADD indexKey refreshed); mret tt
       end);
  removeActiveIndexMembers indexKey staleMembers.

Definition reconcileExpiredIndexCandidates (spec : slotIndexSpec) : IO S (option error) :=
  '(now, err) ← redisUnixSeconds;
  match err with
  | Some err => mret (Some err)
  | None =>
      r ← roundtrip (ZRANGEBYSCORE (indexKey spec) now activeIndexCleanupBatchSize);
      match r with
      | inl err => mret (Some (EWrap "read expired index" err))
      | inr members =>
          '(loads, staleMembers, err) ← readIndexLoads spec members now;
          match err with
          | Some err => mret (Some err)
          | None =>
              let '(refreshed, staleMembers) :=
                foldl (λ '(refreshed, staleMembers) load,
                  if (al_slotCount load =? 0) && (al_waitCount load <=? 0)
                  then (refreshed, staleMembers ++ [al_member load])
                  else (refreshed ++ [(now +! activeIndexTTL (al_slotCount load)
                                         (al_waitCount load), al_member load)], staleMembers))
                  ([], staleMembers) loads in
              _ ← writeBackIndex (indexKey spec) refreshed staleMembers;
              mret None
          end
      end
  end.

Definition CleanupExpiredAccountSlotKeys : IO S (option error) :=
  err ← reconcileExpiredIndexCandidates accountSlotIndex;
  match err with
  | Some err => mret (Some err)
  | None => reconcileExpiredIndexCandidates userSlotIndex
  end.

(** The SCAN loop of [sweepLegacyWaitKeysOnce] for one pattern.  Every turn takes one event of
    the network and the quiet network ends the iteration, so a turn per event is enough. *)
Fixpoint sweepPattern (fuel : nat) (prefix : string) : IO S (option error) :=
  match fuel with
  | O => mret None
  | Datatypes.S fuel' =>
      r ← scan_roundtrip prefix;
      match r with
      | inl err => mret (Some (EWrap "scan legacy wait keys" err))
      | inr (keys, next) =>
          del ← (match keys with
                 | [] => mret (inr tt)
                 | _ => roundtrip (mapM_ DEL keys)
                 end);
          match del with
          | inl err => mret (Some (EWrap "delete legacy wait keys" err))
          | inr _ => if next =? 0 then mret None else sweepPattern fuel' prefix
          end
      end
  end.

Definition sweepLegacyWaitKeysOnce : IO S (option error) :=
  r ← roundtrip (EXISTS legacyWaitSweepMarkerKey);
  match r with
  | inl err => mret (Some (EWrap "check legacy wait sweep marker" err))
  | inr true => mret None
  | inr false =>
      fuel ← (λ w, (Datatypes.S (length (w_net w)), w));
      err ← sweepPattern fuel accountWaitKeyPrefix;
      match err with
      | Some err => mret (Some err)
      | None =>
          err ← sweepPattern fuel waitQueueKeyPrefix;
          match err with
          | Some err => mret (Some err)
          | None =>
              r ← roundtrip (SET legacyWaitSweepMarkerKey "1" None);
              match r with
              | inl err => mret (Some (EWrap "set legacy wait sweep marker" err))
              | inr _ => mret None
              end
          end
      end
  end.

Definition allIndexMembers (indexKey : string) : IO S (list string * option error) :=
  r ← roundtrip (ZRANGE indexKey);
  match r with
  | inl err => mret ([], Some (EWrap "read active index" err))
  | inr members => mret (members, None)
  end.

(** The loop of [cleanupStaleProcessSlotsForIndex] over the members of an index. *)
Fixpoint cleanupMembers (spec : slotIndexSpec) (members : list string)
    (activeRequestPrefix : string) (now : Z) (staleMembers : list string)
    (refreshed : list (Z * string))
    : IO S (list string * list (Z * string) * option error) :=
  match members with
  | [] => mret (staleMembers, refreshed, None)
  | member :: members' =>
      let recur := cleanupMembers spec members' activeRequestPrefix now in
      match ParseInt member with
      | None => recur (staleMembers ++ [member]) refreshed
      | Some id =>
          if id <=? 0 then recur (staleMembers ++ [member]) refreshed
          else
            '(_, remaining, err) ← runScriptInt64Pair
              (startupCleanupSlotScript (slotKey spec id) activeRequestPrefix
                (slotTTLSeconds c));
            match err with
            | Some err => mret ([], [], Some (EWrap "cleanup stale process slots" err))
            | None =>
                r ← roundtrip (DEL (waitKey spec id));
                match r with
                | inl err => mret ([], [], Some (EWrap "delete stale wait key" err))
                | inr _ =>
                    if 0 <? remaining
                    then recur staleMembers (refreshed ++ [(now +! slotTTLSeconds c, member)])
                    else recur (staleMembers ++ [member]) refreshed
                end
            end
      end
  end.

Definition cleanupStaleProcessSlotsForIndex (spec : slotIndexSpec) (members : list string)
    (activeRequestPrefix : string) (now : Z) : IO S (option error) :=
  '(staleMembers, refreshed, err) ← cleanupMembers spec members activeRequestPrefix now [] [];
  match err with
  | Some err => mret (Some err)
  | None => _ ← writeBackIndex (indexKey spec) refreshed staleMembers; mret None
  end.

Definition CleanupStaleProcessSlots (activeRequestPrefix : string) : IO S (option error) :=
  if (activeRequestPrefix =? "")%string then mret None
  else
    err ← sweepLegacyWaitKeysOnce;
    match err with
    | Some err => mret (Some err)
    | None =>
        '(now, err) ← redisUnixSeconds;
        match err with
        | Some err => mret (Some err)
        | None =>
            '(accountMembers, err) ← allIndexMembers accountActiveIndexKey;
            match err with
            | Some err => mret (Some err)
            | None =>
                err ← cleanupStaleProcessSlotsForIndex accountSlotIndex accountMembers
                  activeRequestPrefix now;
                match err with
                | Some err => mret (Some err)
                | None =>
                    '(userMembers, err) ← allIndexMembers userActiveIndexKey;
                    match err with
                    | Some err => mret (Some err)
                    | None =>
                        cleanupStaleProcessSlotsForIndex userSlotIndex userMembers
                          activeRequestPrefix now
                    end
                end
            end
        end
    end.
End Methods.
