(* ===== verification/SlotFacts.v ===== *)
(** * SlotFacts: the slot and lease scripts

    What the scripts of ConcurrencyCache.v do to the sorted sets, the bound on concurrent slots
    as an invariant of every interleaving, and the life of a lease. *)

From stdpp Require Import base tactics numbers list strings gmap sorting pretty relations.
From Stdlib Require Import ZArith Lia.
From S2P Require Import Prelude GoLib Redis ConcurrencyCache.

Local Open Scope Z_scope.

(** ** Vocabulary of the statements *)

(** The members of a sorted set newer than [hi]. *)
Definition fresh (hi : Z) (z : gmap string Z) : gmap string Z := filter (λ kv, hi < kv.2) z.

(** Slots of an account or user: the ordinary ones and the Live leases. *)
Definition slot_load (m : rdb) (key live : string) : Z :=
  Z.of_nat (size (zset m key)) + Z.of_nat (size (zset m live)).

(** The keys a command of another component writes. *)
Definition cmd_key (c : cmd) : option string :=
  match c with
  | CZadd k _ | CZrem k _ | CZremrange k _ | CExpire k _ | CPexpire k _ | CSet k _ _ | CDel k
  | CIncr k | CDecr k => Some k
  | CTick _ => None
  end.

Section Steps.
Context {S : Type} `{R : RedisOps S}.
Variables (key live : string) (maxConcurrency : Z) (allow : bool).

(** The operations that touch the slots of one account (or user), each atomic: an acquisition,
    a Live acquisition (which may replace an ordinary slot when [allow]), releases and
    refreshes, the purges of the reads and of the cleanups, and whatever else happens on other
    keys or by the passing of time. *)
Inductive slot_step : S → S → Prop :=
| step_acquire ttl id s : slot_step s (acquireScript key live maxConcurrency ttl id s).2
| step_count ttl s : slot_step s (getCountScript key live ttl s).2
| step_release id s : slot_step s (ZREM key [id] s).2
| step_live userKey userLive apiLive userMax id replacing s :
    NoDup [live; userLive; apiLive] → key ≠ userLive → key ≠ apiLive →
    (replacing = 1 → allow = true) →
    slot_step s (acquireLiveLeaseScript key live userKey userLive apiLive maxConcurrency
      userMax liveLeaseTTLSeconds id replacing s).2
| step_live_user acctKey acctLive apiLive acctMax id replacing s :
    NoDup [acctLive; live; apiLive] → key ≠ acctLive → key ≠ apiLive →
    (replacing = 1 → allow = true) →
    slot_step s (acquireLiveLeaseScript acctKey acctLive key live apiLive acctMax
      maxConcurrency liveLeaseTTLSeconds id replacing s).2
| step_live_release id s : slot_step s (ZREM live [id] s).2
| step_live_refresh userLive apiLive id s :
    NoDup [live; userLive; apiLive] → key ≠ userLive → key ≠ apiLive →
    slot_step s
      (refreshLiveLeaseScript [live; userLive; apiLive] liveLeaseTTLSeconds id s).2
| step_cleanup ttl s : slot_step s (cleanupExpiredSlotsScript key ttl s).2
| step_startup ttl prefix s : slot_step s (startupCleanupSlotScript key prefix ttl s).2
| step_other c s :
    cmd_key c ≠ Some key → cmd_key c ≠ Some live → slot_step s (run_cmd c s).2.
End Steps.

(** ** The scripts over the data model *)

Lemma size_fresh_le hi z : (size (fresh hi z) ≤ size z)%nat.
Proof. apply map_size_filter. Qed.

Lemma size_insert_le (z : gmap string Z) k v :
  (size (<[k := v]> z) ≤ Datatypes.S (size z))%nat.
Proof. rewrite map_size_insert. destruct (z !! k); simpl; lia. Qed.

Lemma size_insert_member (z : gmap string Z) k v :
  is_Some (z !! k) → size (<[k := v]> z) = size z.
Proof. intros [x Hx]. by rewrite map_size_insert, Hx. Qed.

Lemma size_delete_le (z : gmap string Z) k : (size (delete k z) ≤ size z)%nat.
Proof. rewrite map_size_delete. destruct (z !! k); simpl; lia. Qed.

Ltac zsets := repeat first
  [ rewrite zset_zput_eq | rewrite zset_zput_ne by congruence
  | rewrite zset_set_deadline by lia ].

Lemma deadlines_zput k z m j :
  deadlines (zput k z m) !! j =
    if bool_decide (j = k) && bool_decide (z = ∅) then None else deadlines m !! j.
Proof.
  unfold zput. destruct (decide (z = ∅)) as [Hz|Hz].
  - rewrite (bool_decide_true _ Hz), andb_true_r. cbn. destruct (decide (j = k)) as [->|Hj].
    + by rewrite bool_decide_true, lookup_delete_eq.
    + by rewrite bool_decide_false, lookup_delete_ne.
  - by rewrite (bool_decide_false _ Hz), andb_false_r.
Qed.

Lemma deadlines_set_member k ms z m j :
  0 < ms → z ≠ ∅ →
  deadlines (set_deadline k ms (zput k z m)) !! j =
    if bool_decide (j = k) then Some (now_ms m + ms) else deadlines m !! j.
Proof.
  intros Hms Hz. unfold zput. rewrite decide_False by done. unfold set_deadline, exists_key.
  cbn [zsets]. rewrite lookup_insert_eq, bool_decide_true by (by eexists). cbn [orb].
  replace (ms <=? 0) with false by lia. cbn. destruct (decide (j = k)) as [->|Hj].
  - by rewrite bool_decide_true, lookup_insert_eq.
  - by rewrite bool_decide_false, lookup_insert_ne.
Qed.

(** [acquireScript] in one equation: the expired members go, then the request takes a slot when
    it has one already or there is room. *)
Lemma acquire_run key live maxConcurrency ttl id m :
  key ≠ live →
  let now := now_s m in
  let zk := fresh (now - ttl) (zset m key) in
  let zl := fresh (now - 60) (zset m live) in
  let m1 := zput live zl (zput key zk m) in
  acquireScript key live maxConcurrency ttl id m =
    if bool_decide (is_Some (zk !! id)) || (Z.of_nat (size zk) + Z.of_nat (size zl) <? maxConcurrency)
    then (LArray [LInt 1; LInt now],
          set_deadline key (ttl * 1000) (zput key (<[id := now]> zk) m1))
    else (LArray [LInt 0; LInt now], m1).
Proof.
  intros Hne. cbv zeta. unfold acquireScript, mbind, St_bind. cbn -[set_deadline Z.mul].
  fold (fresh (now_s m - ttl) (zset m key)).
  rewrite (zset_zput_ne key _ _ live) by done.
  fold (fresh (now_s m - 60) (zset m live)).
  set (m1 := zput live _ _).
  assert (Hk : zset m1 key = fresh (now_s m - ttl) (zset m key))
    by (unfold m1; by zsets).
  assert (Hl : zset m1 live = fresh (now_s m - 60) (zset m live)) by (unfold m1; by zsets).
  rewrite Hk. destruct (fresh (now_s m - ttl) (zset m key) !! id); cbn -[set_deadline Z.mul].
  - by rewrite Hk.
  - rewrite Hk, Hl. case_match; [by rewrite Hk|done].
Qed.

(** The state after the purge of [acquireLiveLeaseScript]. *)
Definition purge_live (aL uL pL : string) (hi : Z) (m : rdb) : rdb :=
  zput pL (fresh hi (zset m pL)) (zput uL (fresh hi (zset m uL)) (zput aL (fresh hi (zset m aL)) m)).

Definition grant_live (aL uL pL id : string) (ttl : Z) (m1 : rdb) : rdb :=
  let now := now_s m1 in
  let add k m := zput k (<[id := now]> (zset m1 k)) m in
  set_deadline pL (ttl * 1000) (set_deadline uL (ttl * 1000) (set_deadline aL (ttl * 1000)
    (add pL (add uL (add aL m1))))).

(** [acquireLiveLeaseScript] in one equation. *)
Lemma live_run aR aL uR uL pL accountMax userMax ttl id replacing m :
  NoDup [aL; uL; pL] →
  let m1 := purge_live aL uL pL (now_s m - ttl) m in
  let allowance := if replacing =? 1 then 1 else 0 in
  let full max r l := (0 <? max) && (max + allowance <=? slot_load m1 r l) in
  acquireLiveLeaseScript aR aL uR uL pL accountMax userMax ttl id replacing m =
    if bool_decide (is_Some (zset m1 aL !! id)) then (LScalar (LInt 1), m1)
    else if full accountMax aR aL || full userMax uR uL then (LScalar (LInt 0), m1)
    else (LScalar (LInt 1), grant_live aL uL pL id ttl m1).
Proof.
  intros Hnd. cbv zeta.
  apply NoDup_cons in Hnd as [H1 [H2 _]%NoDup_cons].
  assert (aL ≠ uL ∧ aL ≠ pL ∧ uL ≠ pL) as (? & ? & ?) by set_solver. clear H1 H2.
  unfold acquireLiveLeaseScript, mbind, St_bind. cbn -[set_deadline Z.mul].
  match goal with |- context [ZSCORE _ _ ?x] => idtac | |- context [zset ?x aL !! id] =>
    replace x with (purge_live aL uL pL (now_s m - ttl) m)
      by (unfold purge_live; by zsets) end.
  assert (Hn : now_s (purge_live aL uL pL (now_s m - ttl) m) = now_s m)
    by (unfold purge_live; by rewrite !now_s_zput).
  unfold grant_live. rewrite Hn. generalize dependent (purge_live aL uL pL (now_s m - ttl) m).
  intros m1 Hn. unfold slot_load.
  destruct (zset m1 aL !! id); cbn -[set_deadline Z.mul]; [done|].
  destruct ((0 <? accountMax) && _); cbn -[set_deadline Z.mul]; [done|].
  destruct ((0 <? userMax) && _); cbn -[set_deadline Z.mul]; [done|].
  by zsets.
Qed.

(** ** Sorted sets that only lose members *)

Definition lighter (m m' : rdb) : Prop := ∀ k, (size (zset m' k) ≤ size (zset m k))%nat.

#[export] Instance lighter_preorder : PreOrder lighter.
Proof.
  split; [by intros m k|]. intros m1 m2 m3 H1 H2 k. by etrans; [apply H2|apply H1].
Qed.

Lemma lighter_zput k z m : (size z ≤ size (zset m k))%nat → lighter m (zput k z m).
Proof. intros Hz k'. rewrite zset_zput. case_decide; by subst. Qed.

Lemma lighter_fresh k hi m : lighter m (zput k (fresh hi (zset m k)) m).
Proof. apply lighter_zput, size_fresh_le. Qed.

Lemma lighter_remove_key k m : lighter m (remove_key k m).
Proof. intros k'. rewrite zset_remove_key. case_decide; [rewrite map_size_empty|]; lia. Qed.

Lemma lighter_set_deadline k ms m : lighter m (set_deadline k ms m).
Proof.
  unfold set_deadline. case_match; [|done].
  case_match; [apply lighter_remove_key|intros k'; reflexivity].
Qed.

Lemma lighter_tick d m : lighter m (tick d m).
Proof. intros k. destruct (zset_tick d m k) as [->| ->]; [|rewrite map_size_empty]; lia. Qed.

Lemma lighter_zrem k l m : lighter m (ZREM k l m).2.
Proof.
  simpl. apply lighter_zput. generalize (zset m k) as z.
  induction l as [|x l IH]; intros z; simpl; [done|].
  etrans; [apply IH|apply size_delete_le].
Qed.

Lemma lighter_load m m' key live :
  lighter m m' → slot_load m' key live ≤ slot_load m key live.
Proof. intros H. unfold slot_load. pose proof (H key). pose proof (H live). lia. Qed.

#[export] Hint Resolve lighter_zput lighter_fresh lighter_remove_key lighter_set_deadline
  lighter_tick lighter_zrem : relay.

Lemma lighter_purge_live aL uL pL hi m :
  NoDup [aL; uL; pL] → lighter m (purge_live aL uL pL hi m).
Proof.
  intros Hnd. apply NoDup_cons in Hnd as [H1 [H2 _]%NoDup_cons].
  assert (aL ≠ uL ∧ aL ≠ pL ∧ uL ≠ pL) as (? & ? & ?) by set_solver.
  unfold purge_live. intros k. rewrite !zset_zput.
  repeat case_decide; subst; try done; apply size_fresh_le.
Qed.

Lemma lighter_removeForeign key prefix members removed m :
  lighter m (removeForeign key prefix members removed m).2.
Proof.
  revert removed m. induction members as [|x l IH]; intros removed m; simpl; [done|].
  case_match; [apply IH|]. unfold mbind, St_bind; cbn. etrans; [|apply IH].
  apply lighter_zput. apply size_delete_le.
Qed.

Lemma lighter_startup key prefix ttl m : lighter m (startupCleanupSlotScript key prefix ttl m).2.
Proof.
  unfold startupCleanupSlotScript, mbind, St_bind; cbn -[removeForeign set_deadline].
  pose proof (lighter_removeForeign key prefix (fst <$> zlist (zset m key)) 0 m) as H.
  destruct (removeForeign _ _ _ _ _) as [r m1]; cbn -[set_deadline] in *.
  etrans; [apply H|]. case_if; simpl; auto with relay.
Qed.

Lemma lighter_cleanup key ttl m : lighter m (cleanupExpiredSlotsScript key ttl m).2.
Proof.
  unfold cleanupExpiredSlotsScript, mbind, St_bind; cbn -[set_deadline].
  etrans; [apply (lighter_fresh key (now_s m - ttl))|]. unfold fresh.
  case_if; simpl; auto with relay.
Qed.

Lemma lighter_count key live ttl m : lighter m (getCountScript key live ttl m).2.
Proof.
  unfold getCountScript, mbind, St_bind; cbn.
  etrans; [apply (lighter_fresh key (now_s m - ttl))|]. apply lighter_fresh.
Qed.

(** ** Renewing a lease *)

Lemma refreshLiveCheck_lighter keys hi id m :
  lighter m (refreshLiveCheck keys hi id m).2.
Proof.
  revert m. induction keys as [|k keys IH]; intros m; simpl; [done|].
  unfold mbind, St_bind; cbn. etrans; [apply (lighter_fresh k hi)|].
  unfold fresh. case_match; [apply IH|done].
Qed.

Lemma refreshLiveCheck_frame keys hi id m k :
  k ∉ keys → zset (refreshLiveCheck keys hi id m).2 k = zset m k.
Proof.
  revert m. induction keys as [|k' keys IH]; intros m Hk; simpl; [done|].
  assert (k' ≠ k ∧ k ∉ keys) as [? ?] by set_solver.
  unfold mbind, St_bind; cbn. case_match; simpl; rewrite ?IH by done; by zsets.
Qed.

(** A successful check has found the lease under every key. *)
Lemma refreshLiveCheck_true keys hi id m :
  NoDup keys → (refreshLiveCheck keys hi id m).1 = true →
  ∀ k, k ∈ keys → is_Some (zset (refreshLiveCheck keys hi id m).2 k !! id).
Proof.
  revert m. induction keys as [|k' keys IH]; intros m Hnd; simpl; [set_solver|].
  apply NoDup_cons in Hnd as [Hk' Hnd]. unfold mbind, St_bind; cbn.
  rewrite zset_zput_eq. intros Ht k Hin. case_match eqn:E; simpl in Ht; [|done].
  destruct (decide (k = k')) as [->|].
  - rewrite refreshLiveCheck_frame by done. rewrite zset_zput_eq, E. eauto.
  - apply IH; try done. set_solver.
Qed.

Lemma renew_lighter keys now ttl id m :
  (∀ k, k ∈ keys → is_Some (zset m k !! id)) → NoDup keys →
  lighter m (mapM_ (λ key, _ ← ZADD key [(now, id)]; EXPIRE key ttl) keys m).2.
Proof.
  revert m. induction keys as [|k keys IH]; intros m Hin Hnd; simpl; [done|].
  apply NoDup_cons in Hnd as [Hk Hnd]. unfold mbind, St_bind; cbn -[set_deadline].
  set (m1 := set_deadline _ _ _).
  assert (H1 : lighter m m1).
  { unfold m1. etrans; [|apply lighter_set_deadline]. apply lighter_zput.
    rewrite size_insert_member; [done|]. apply Hin. set_solver. }
  etrans; [apply H1|]. apply IH; [|done]. intros k' Hk'.
  assert (k ≠ k') by set_solver. unfold m1. rewrite zset_set_deadline_ne by done.
  rewrite zset_zput_ne by done. apply Hin. set_solver.
Qed.

Lemma lighter_refresh keys ttl id m :
  NoDup keys → lighter m (refreshLiveLeaseScript keys ttl id m).2.
Proof.
  intros Hnd. unfold refreshLiveLeaseScript, mbind, St_bind; cbn -[refreshLiveCheck mapM_].
  pose proof (refreshLiveCheck_lighter keys (now_s m - ttl) id m) as Hl.
  pose proof (refreshLiveCheck_true keys (now_s m - ttl) id m Hnd) as Ht.
  destruct (refreshLiveCheck _ _ _ _) as [[] m1]; cbn -[mapM_] in *; [|done].
  etrans; [apply Hl|].
  pose proof (renew_lighter keys (now_s m) ttl id m1 (Ht eq_refl) Hnd) as Hr.
  unfold mbind, St_bind in Hr; cbn -[mapM_ set_deadline] in Hr.
  by destruct (mapM_ _ _ _).
Qed.

(** ** One step keeps the bound *)

Lemma run_cmd_other k c m : cmd_key c ≠ Some k → (size (zset (run_cmd c m).2 k) ≤ size (zset m k))%nat.
Proof.
  intros Hk. assert (∀ k', cmd_key c = Some k' → k' ≠ k) as Hne by congruence.
  destruct c; simpl in Hne; unfold run_cmd, mbind, St_bind;
    cbn -[set_deadline incr_by tick]; rewrite ?zset_zput_ne by auto; try done.
  - apply lighter_set_deadline.
  - apply lighter_set_deadline.
  - rewrite zset_remove_key. case_decide; [|done]. rewrite map_size_empty. lia.
  - pose proof (zset_incr_by 1 k0 m k) as E. destruct (incr_by 1 k0 m); simpl in *. by rewrite E.
  - pose proof (zset_incr_by (-1) k0 m k) as E. destruct (incr_by (-1) k0 m); simpl in *.
    by rewrite E.
  - apply lighter_tick.
Qed.

Section Bound.
Variables (key live : string) (M : Z) (allow : bool).
Hypothesis key_live : key ≠ live.
Hypothesis M_pos : 0 < M.

Let bound := M + (if allow then 1 else 0).

Lemma acquire_bound ttl id m :
  slot_load m key live ≤ bound →
  slot_load (acquireScript key live M ttl id m).2 key live ≤ bound.
Proof.
  intros Hm. rewrite acquire_run by done.
  set (zk := fresh _ (zset m key)). set (zl := fresh _ (zset m live)).
  assert (Hk : (size zk ≤ size (zset m key))%nat) by apply size_fresh_le.
  assert (Hl : (size zl ≤ size (zset m live))%nat) by apply size_fresh_le.
  unfold slot_load in Hm.
  destruct (bool_decide _ || _) eqn:E; simpl.
  - etrans; [apply lighter_load, lighter_set_deadline|]. unfold slot_load. zsets.
    apply orb_true_iff in E as [E|E]; bool_props.
    + rewrite size_insert_member by done. lia.
    + pose proof (size_insert_le zk id (now_s m)). subst bound. destruct allow; lia.
  - unfold slot_load. zsets. lia.
Qed.

(** A Live acquisition adds one member to each set it names, and only below the limit. *)
Lemma grant_load aL uL pL id ttl m r l :
  NoDup [aL; uL; pL] → r ∉ [aL; uL; pL] →
  slot_load (grant_live aL uL pL id ttl m) r l ≤ slot_load m r l + 1.
Proof.
  intros Hnd Hr. apply NoDup_cons in Hnd as [H1 [H2 _]%NoDup_cons].
  assert (aL ≠ uL ∧ aL ≠ pL ∧ uL ≠ pL) as (? & ? & ?) by set_solver.
  assert (r ≠ aL ∧ r ≠ uL ∧ r ≠ pL) as (? & ? & ?) by set_solver.
  unfold grant_live. etrans; [apply lighter_load, lighter_set_deadline|].
  etrans; [apply lighter_load, lighter_set_deadline|].
  etrans; [apply lighter_load, lighter_set_deadline|].
  unfold slot_load. rewrite !(zset_zput_ne _ _ _ r) by done. rewrite !zset_zput.
  pose proof (size_insert_le (zset m l) id (now_s m)).
  repeat case_decide; subst; try done; lia.
Qed.

Lemma live_bound aR aL uR uL pL aMax uMax id replacing m :
  NoDup [aL; uL; pL] → key ∉ [aL; uL; pL] →
  (aR = key ∧ aL = live ∧ aMax = M ∨ uR = key ∧ uL = live ∧ uMax = M) →
  (replacing = 1 → allow = true) →
  slot_load m key live ≤ bound →
  slot_load (acquireLiveLeaseScript aR aL uR uL pL aMax uMax liveLeaseTTLSeconds id
    replacing m).2 key live ≤ bound.
Proof.
  intros Hnd Hkey Hpair Hallow Hm. rewrite live_run by done.
  set (m1 := purge_live _ _ _ _ _).
  assert (Hm1 : slot_load m1 key live ≤ bound)
    by (etrans; [apply lighter_load, lighter_purge_live|]; done).
  case_match; [done|]. case_match eqn:E; [done|]. simpl.
  etrans; [by apply grant_load|].
  apply orb_false_iff in E as [Ea Eu].
  assert ((if replacing =? 1 then 1 else 0) ≤ (if allow then 1 else 0)).
  { destruct (Z.eqb_spec replacing 1); [by rewrite Hallow|]. by destruct allow. }
  destruct Hpair as [(-> & -> & ->)|(-> & -> & ->)].
  - rewrite (proj2 (Z.ltb_lt 0 M) M_pos) in Ea. simpl in Ea. bool_props. subst bound. lia.
  - rewrite (proj2 (Z.ltb_lt 0 M) M_pos) in Eu. simpl in Eu. bool_props. subst bound. lia.
Qed.

Lemma step_bound m m' :
  slot_step key live M allow m m' → slot_load m key live ≤ bound →
  slot_load m' key live ≤ bound.
Proof.
  intros Hstep Hm. destruct Hstep.
  - by apply acquire_bound.
  - by etrans; [apply lighter_load, lighter_count|].
  - by etrans; [apply lighter_load, lighter_zrem|].
  - apply live_bound; try done; [|by left]. set_solver.
  - apply live_bound; try done; [|by right]. set_solver.
  - by etrans; [apply lighter_load, lighter_zrem|].
  - by etrans; [apply lighter_load, lighter_refresh|].
  - by etrans; [apply lighter_load, lighter_cleanup|].
  - by etrans; [apply lighter_load, lighter_startup|].
  - etrans; [|exact Hm]. unfold slot_load.
    assert (size (zset (run_cmd c s).2 key) ≤ size (zset s key))%nat
      by (apply run_cmd_other; done).
    assert (size (zset (run_cmd c s).2 live) ≤ size (zset s live))%nat
      by (apply run_cmd_other; done).
    lia.
Qed.
End Bound.

(** ** The scripts on a server that obeys the laws *)

Section RefineScripts.
Context {S : Type} {R : RedisOps S} {abs : S → rdb} {L : RedisLaws R abs}.

Lemma refines_acquire key live M ttl id :
  refines abs (acquireScript key live M ttl id) (acquireScript key live M ttl id).
Proof. unfold acquireScript. solve_refines. Qed.

Lemma refines_getCount key live ttl :
  refines abs (getCountScript key live ttl) (getCountScript key live ttl).
Proof. unfold getCountScript. solve_refines. Qed.

Lemma refines_acquireLive aR aL uR uL pL aM uM ttl id rep :
  refines abs (acquireLiveLeaseScript aR aL uR uL pL aM uM ttl id rep)
    (acquireLiveLeaseScript aR aL uR uL pL aM uM ttl id rep).
Proof. unfold acquireLiveLeaseScript. cbv zeta. solve_refines. Qed.

Lemma refines_refreshCheck keys hi id :
  refines abs (refreshLiveCheck keys hi id) (refreshLiveCheck keys hi id).
Proof. induction keys; simpl; solve_refines. Qed.

Lemma refines_refreshLive keys ttl id :
  refines abs (refreshLiveLeaseScript keys ttl id) (refreshLiveLeaseScript keys ttl id).
Proof.
  unfold refreshLiveLeaseScript. cbv zeta.
  apply refines_bind; [eauto with refine|intros t].
  apply refines_bind; [apply refines_refreshCheck|intros b]. solve_refines.
Qed.

Lemma refines_track key ttl id : refines abs (trackSlotScript key ttl id) (trackSlotScript key ttl id).
Proof. unfold trackSlotScript. solve_refines. Qed.

Lemma refines_acquireWS key M ttl id :
  refines abs (acquireOpenAIWSIngressLeaseScript key M ttl id)
    (acquireOpenAIWSIngressLeaseScript key M ttl id).
Proof. unfold acquireOpenAIWSIngressLeaseScript. solve_refines. Qed.

Lemma refines_refreshWS key ttl id :
  refines abs (refreshOpenAIWSIngressLeaseScript key ttl id)
    (refreshOpenAIWSIngressLeaseScript key ttl id).
Proof. unfold refreshOpenAIWSIngressLeaseScript. solve_refines. Qed.

Lemma refines_incrementWait key M ttl :
  refines abs (incrementWaitScript key M ttl) (incrementWaitScript key M ttl).
Proof. unfold incrementWaitScript. solve_refines. Qed.

Lemma refines_decrementWait key :
  refines abs (decrementWaitScript key) (decrementWaitScript key).
Proof. unfold decrementWaitScript. solve_refines. Qed.

Lemma refines_cleanup key ttl :
  refines abs (cleanupExpiredSlotsScript key ttl) (cleanupExpiredSlotsScript key ttl).
Proof. unfold cleanupExpiredSlotsScript. solve_refines. Qed.

Lemma refines_removeForeign key prefix l n :
  refines abs (removeForeign key prefix l n) (removeForeign key prefix l n).
Proof. revert n. induction l; intros n; simpl; solve_refines. Qed.

Lemma refines_startup key prefix ttl :
  refines abs (startupCleanupSlotScript key prefix ttl) (startupCleanupSlotScript key prefix ttl).
Proof.
  unfold startupCleanupSlotScript.
  apply refines_bind; [eauto with refine|intros l].
  apply refines_bind; [apply refines_removeForeign|intros n]. solve_refines.
Qed.
End RefineScripts.

#[export] Hint Resolve refines_acquire refines_getCount refines_acquireLive refines_refreshLive
  refines_track refines_acquireWS refines_refreshWS refines_incrementWait
  refines_decrementWait refines_cleanup refines_startup refines_run_cmd : refine.

(** A step of the server is a step of its data. *)
Lemma slot_step_abs {S} {R : RedisOps S} {abs} {L : RedisLaws R abs} key live M allow s s' :
  slot_step key live M allow s s' → slot_step key live M allow (abs s) (abs s').
Proof.
  intros []; erewrite refines_snd by eauto with refine; econstructor; eauto.
Qed.

Lemma slot_steps_bound {S} {R : RedisOps S} {abs} {L : RedisLaws R abs} key live M allow s s' :
  key ≠ live → 0 < M → rtc (slot_step key live M allow) s s' →
  slot_load (abs s) key live ≤ M + (if allow then 1 else 0) →
  slot_load (abs s') key live ≤ M + (if allow then 1 else 0).
Proof.
  intros Hne HM Hsteps. induction Hsteps as [|s s1 s2 Hs _ IH]; [done|].
  intros H. apply IH. eapply step_bound; eauto. by apply slot_step_abs.
Qed.

(** ** Keys never collide *)

(** The slot keys of an account (or user) and its Live twin. *)
Definition slot_pair (key live : string) : Prop :=
  (∃ id, key = accountSlotKey id ∧ live = liveAccountSlotKey id) ∨
  (∃ id, key = userSlotKey id ∧ live = liveUserSlotKey id).

Lemma slot_pair_ne key live : slot_pair key live → key ≠ live.
Proof. intros [(id & -> & ->)|(id & -> & ->)]; unfold accountSlotKey, userSlotKey; discriminate. Qed.

#[export] Hint Resolve slot_pair_ne : relay.

Lemma live_keys_distinct a u p :
  NoDup [liveAccountSlotKey a; liveUserSlotKey u; liveAPIKeySlotKey p].
Proof. repeat constructor; unfold liveAccountSlotKey; set_unfold; naive_solver. Qed.

(** ** Properties *)

(** Whether [acquireScript] gives the request a slot. *)
Definition grants (m : rdb) (key live : string) (maxConcurrency ttl : Z) (id : string) : bool :=
  let zk := fresh (now_s m - ttl) (zset m key) in
  let zl := fresh (now_s m - 60) (zset m live) in
  bool_decide (is_Some (zk !! id)) ||
  (Z.of_nat (size zk) + Z.of_nat (size zl) <? maxConcurrency).

Section Properties.
Context {S : Type} {R : RedisOps S} {abs : S → rdb} {L : RedisLaws R abs}.


(** C29: [acquireScript] purges the expired slots and leases, then grants exactly when the
    request already holds a slot (a retry) or there is room; a grant stamps the request with
    the server's time and makes the set of slots live for another time to live, a refusal adds
    nothing and prolongs nothing, a set left empty is gone with its deadline, and no other key
    and no other deadline changes. *)
Theorem acquireScript_spec key live M ttl id s :
  slot_pair key live → 0 < ttl →
  let m := abs s in
  let g := grants m key live M ttl id in
  let zk := fresh (now_s m - ttl) (zset m key) in
  let zl := fresh (now_s m - 60) (zset m live) in
  let m' := abs (acquireScript key live M ttl id s).2 in
  (acquireScript key live M ttl id s).1 = LArray [LInt (if g then 1 else 0); LInt (now_s m)] ∧
  zset m' key = (if g then <[id := now_s m]> zk else zk) ∧
  zset m' live = zl ∧
  (∀ k, k ≠ key → k ≠ live → zset m' k = zset m k) ∧ strs m' = strs m ∧
  (∀ k, deadlines m' !! k =
     if bool_decide (k = key) then
       if g then Some (now_ms m + ttl * 1000)
       else if bool_decide (zk = ∅) then None else deadlines m !! k
     else if bool_decide (k = live) && bool_decide (zl = ∅) then None else deadlines m !! k).
Proof.
  intros Hp%slot_pair_ne Httl. cbv zeta.
  rewrite (refines_fst _ _ _ s (refines_acquire key live M ttl id)).
  rewrite (refines_snd _ _ _ s (refines_acquire key live M ttl id)).
  rewrite acquire_run by done. unfold grants. destruct (_ || _); simpl.
  - split; [done|]. rewrite strs_set_deadline, !strs_zput by lia.
    split; [by zsets|]. split; [by zsets|]. split; [intros k ??; by zsets|]. split; [done|].
    intros k. rewrite deadlines_set_member by (lia || apply insert_non_empty).
    rewrite !deadlines_zput. repeat case_bool_decide; simplify_eq/=; try done;
      unfold now_ms, zput; repeat case_decide; done.
  - rewrite !strs_zput.
    split; [done|]. split; [by zsets|]. split; [by zsets|]. split; [intros k ??; by zsets|].
    split; [done|]. intros k. rewrite !deadlines_zput.
    repeat case_bool_decide; by simplify_eq/=.
Qed.

(** Slots whose holders vanished never block an account for longer than the time to live:
    once every slot and lease is that old, the next request is granted. *)
Theorem stale_slots_do_not_block key live M ttl id s :
  slot_pair key live → 0 < M →
  map_Forall (λ _ t, t ≤ now_s (abs s) - ttl) (zset (abs s) key) →
  map_Forall (λ _ t, t ≤ now_s (abs s) - 60) (zset (abs s) live) →
  (acquireScript key live M ttl id s).1 = LArray [LInt 1; LInt (now_s (abs s))].
Proof.
  intros Hp%slot_pair_ne HM Hk Hl.
  rewrite (refines_fst _ _ _ s (refines_acquire key live M ttl id)), acquire_run by done.
  assert (He : ∀ hi z, map_Forall (λ (_ : string) t, t ≤ hi) z → fresh hi z = ∅).
  { intros hi z Hz. apply map_eq. intros k. unfold fresh.
    rewrite map_lookup_filter, lookup_empty. destruct (z !! k) as [t|] eqn:E; simpl; [|done].
    rewrite option_guard_False; [done|]. specialize (Hz k t E). simpl in *. lia. }
  rewrite (He _ _ Hk), (He _ _ Hl), map_size_empty.
  rewrite (proj2 (Z.ltb_lt _ M)) by lia. by rewrite orb_true_r.
Qed.
End Properties.

(** A server with one account: two live slots, one of them expired. *)
Definition demo_db : rdb :=
  Rdb {[ accountSlotKey 7 := {[ "r1-1" := 100; "r1-2" := 990 ]} ]} ∅ ∅ 1000000000.


Lemma acquireScript_spec_witness :
  let m' := (acquireScript (accountSlotKey 7) (liveAccountSlotKey 7) 2 900 "r1-3" demo_db).2 in
  zset m' (accountSlotKey 7) = {[ "r1-2" := 990; "r1-3" := 1000 ]} ∧
  deadlines m' !! accountSlotKey 7 = Some 1900000.
Proof.
  cbv zeta.
  destruct (acquireScript_spec (L:=MemRedis_laws) (accountSlotKey 7) (liveAccountSlotKey 7) 2 900
    "r1-3" demo_db) as (_ & H & _ & _ & _ & Hd); [left; by exists 7|lia|].
  unfold id in H, Hd. rewrite H, Hd. split; vm_compute; reflexivity.
Defined.

Lemma stale_slots_do_not_block_witness :
  (acquireScript (accountSlotKey 7) (liveAccountSlotKey 7) 1 5 "r1-3" demo_db).1
    = LArray [LInt 1; LInt 1000].
Proof.
  apply (stale_slots_do_not_block (L:=MemRedis_laws) (accountSlotKey 7) (liveAccountSlotKey 7) 1 5
    "r1-3" demo_db); [left; by exists 7|lia| |].
  - intros k t H.
    assert (H' : (bool_decide (map_Forall (λ _ t, t ≤ 995) (zset demo_db (accountSlotKey 7)))) = true)
      by (vm_compute; reflexivity).
    bool_props. specialize (H' k t H). simpl in H'. change (now_s (id demo_db)) with 1000. lia.
  - intros k t H. vm_compute in H. discriminate.
Defined.
