(* ===== verification/ConcurrencyService.v ===== *)
(** * ConcurrencyService: slots, leases and load for the gateway

    Models [backend/internal/service/concurrency_service.go] against the interface of the cache it
    is given; the Redis cache of [ConcurrencyCache] is one instance.  Readings of the clock are
    arguments; the timeouts of contexts show as errors of the cache.  Callers that share a flight
    of [singleflight] get the result of the one that flies. *)

From stdpp Require Import base tactics numbers list strings gmap.
From Stdlib Require Import ZArith Lia Ascii.
From coqutil Require Export Datatypes.RecordSetters.
From S2P Require Import Prelude GoLib Redis ConcurrencyCache.

Export DoubleBraceUpdate.

Local Open Scope go_scope.
Local Open Scope Z_scope.

(** ** The interface of the cache

    The parts a cache may lack are the optional interfaces the code asserts. *)

Record APIKeyConcurrencyCache (W : Type) : Type := MkAPIKeyConcurrencyCache {
  kc_TrackAPIKeySlot : Z → string → St W (option error);
  kc_ReleaseAPIKeySlot : Z → string → St W (option error);
  kc_GetAPIKeyConcurrencyBatch : list Z → St W (gmap Z Z * option error)
}.

Record OpenAIWSIngressLeaseCache (W : Type) : Type := MkOpenAIWSIngressLeaseCache {
  lc_Acquire : Z → Z → string → St W (bool * option error);
  lc_Refresh : Z → string → St W (bool * option error);
  lc_Release : Z → string → St W (option error)
}.

Class ConcurrencyCacheOps (W : Type) : Type := {
  cc_AcquireAccountSlot : Z → Z → string → St W (bool * option error);
  cc_ReleaseAccountSlot : Z → string → St W (option error);
  cc_GetAccountConcurrency : Z → St W (Z * option error);
  cc_GetAccountConcurrencyBatch : list Z → St W (gmap Z Z * option error);
  cc_IncrementAccountWaitCount : Z → Z → St W (bool * option error);
  cc_DecrementAccountWaitCount : Z → St W (option error);
  cc_GetAccountWaitingCount : Z → St W (Z * option error);
  cc_AcquireUserSlot : Z → Z → string → St W (bool * option error);
  cc_ReleaseUserSlot : Z → string → St W (option error);
  cc_GetUserConcurrency : Z → St W (Z * option error);
  cc_IncrementWaitCount : Z → Z → St W (bool * option error);
  cc_DecrementWaitCount : Z → St W (option error);
  cc_GetAccountsLoadBatch : list WithConcurrency → St W (gmap Z LoadInfo * option error);
  cc_GetUsersLoadBatch : list WithConcurrency → St W (gmap Z LoadInfo * option error);
  cc_CleanupExpiredAccountSlots : Z → St W (option error);
  cc_CleanupExpiredAccountSlotKeys : St W (option error);
  cc_CleanupStaleProcessSlots : string → St W (option error);
  cc_apiKeys : option (APIKeyConcurrencyCache W);
  cc_leases : option (OpenAIWSIngressLeaseCache W)
}.

#[export] Instance RedisConcurrencyCache {S} `{R : RedisOps S} (c : concurrencyCache)
    : ConcurrencyCacheOps (world S) := {
  cc_AcquireAccountSlot := AcquireAccountSlot c;
  cc_ReleaseAccountSlot := ReleaseAccountSlot c;
  cc_GetAccountConcurrency := GetAccountConcurrency c;
  cc_GetAccountConcurrencyBatch := GetAccountConcurrencyBatch c;
  cc_IncrementAccountWaitCount := IncrementAccountWaitCount c;
  cc_DecrementAccountWaitCount := DecrementAccountWaitCount c;
  cc_GetAccountWaitingCount := GetAccountWaitingCount;
  cc_AcquireUserSlot := AcquireUserSlot c;
  cc_ReleaseUserSlot := ReleaseUserSlot c;
  cc_GetUserConcurrency := GetUserConcurrency c;
  cc_IncrementWaitCount := IncrementWaitCount c;
  cc_DecrementWaitCount := DecrementWaitCount c;
  cc_GetAccountsLoadBatch := GetAccountsLoadBatch c;
  cc_GetUsersLoadBatch := GetUsersLoadBatch c;
  cc_CleanupExpiredAccountSlots := CleanupExpiredAccountSlots c;
  cc_CleanupExpiredAccountSlotKeys := CleanupExpiredAccountSlotKeys c;
  cc_CleanupStaleProcessSlots := CleanupStaleProcessSlots c;
  cc_apiKeys := Some (MkAPIKeyConcurrencyCache _ (TrackAPIKeySlot c) ReleaseAPIKeySlot
                        (GetAPIKeyConcurrencyBatch c));
  cc_leases := Some (MkOpenAIWSIngressLeaseCache _ AcquireOpenAIWSIngressLease
                       RefreshOpenAIWSIngressLease ReleaseOpenAIWSIngressLease)
}.

(** ** Request identifiers *)

Definition base36_char (d : N) : ascii :=
  ascii_of_N (if (d <? 10)%N then 48 + d else 87 + d)%N.

Fixpoint base36_go (fuel : nat) (x : N) (s : string) : string :=
  match fuel with
  | O => s
  | S fuel' =>
      if (x =? 0)%N then s else base36_go fuel' (x / 36) (String (base36_char (x mod 36)) s)
  end.

(** [strconv.FormatUint(x, 36)]: a number of 64 bits has at most 13 digits. *)
Definition FormatUint36 (x : Z) : string :=
  if x =? 0 then "0" else base36_go 64 (Z.to_N x) "".

(** The prefix of a process: eight random bytes, or the clock and the process when there are
    none. *)
Definition initRequestIDPrefix (random : option Z) (unixNano pid : Z) : string :=
  match random with
  | Some u => "r" +:+ FormatUint36 u
  | None =>
      let fallback := Z.lxor (unixNano `mod` 2 ^ 64) (Z.shiftl (pid `mod` 2 ^ 64) 16 `mod` 2 ^ 64) in
      "r" +:+ FormatUint36 fallback
  end.

(** ** The service *)

Definition openAIWSIngressLeaseTTL : Z := 60 * Second.
Definition openAIWSIngressLeaseRefreshInterval : Z := 20 * Second.
Definition defaultExtraWaitSlots : Z := 20.
Definition defaultAccountLoadBatchCacheTTL : Z := 200 * Millisecond.
Definition maxAccountLoadBatchCacheEntries : nat := 256.

Definition ErrOpenAIWSIngressLeaseLost : error := Err "openai websocket ingress lease lost".

Record cachedAccountLoadBatch : Type := MkCachedBatch {
  cb_loadMap : gmap Z LoadInfo;
  cb_expiresAt : Z
}.

(** The service, the process's request identifiers, and the world its cache lives in. *)
Record ConcurrencyService (W : Type) : Type := MkConcurrencyService {
  sv_requestIDPrefix : string;
  sv_requestIDCounter : Z;
  sv_accountLoadCacheTTL : Z;
  sv_accountLoadCache : gmap string cachedAccountLoadBatch;
  sv_world : W
}.
Arguments MkConcurrencyService {W} _ _ _ _ _.
Arguments sv_requestIDPrefix {W} _.
Arguments sv_requestIDCounter {W} _.
Arguments sv_accountLoadCacheTTL {W} _.
Arguments sv_accountLoadCache {W} _.
Arguments sv_world {W} _.

Definition NewConcurrencyService {W} (prefix : string) (w : W) : ConcurrencyService W :=
  MkConcurrencyService prefix 0 defaultAccountLoadBatchCacheTTL ∅ w.

(** A method of the service; [on_cache] is a call of its cache. *)
Definition Svc (W A : Type) : Type := St (ConcurrencyService W) A.

Definition on_cache {W A} (f : St W A) : Svc W A := λ s,
  let '(a, w) := f (sv_world s) in
  (a, MkConcurrencyService (sv_requestIDPrefix s) (sv_requestIDCounter s)
        (sv_accountLoadCacheTTL s) (sv_accountLoadCache s) w).

Definition generateRequestID {W} : Svc W string := λ s,
  let seq := (sv_requestIDCounter s + 1) `mod` 2 ^ 64 in
  (sv_requestIDPrefix s +:+ "-" +:+ FormatUint36 seq,
   MkConcurrencyService (sv_requestIDPrefix s) seq (sv_accountLoadCacheTTL s)
     (sv_accountLoadCache s) (sv_world s)).

Definition with_loads {W} (loads : gmap string cachedAccountLoadBatch) (s : ConcurrencyService W)
    : ConcurrencyService W :=
  MkConcurrencyService (sv_requestIDPrefix s) (sv_requestIDCounter s)
    (sv_accountLoadCacheTTL s) loads (sv_world s).

Definition SetAccountLoadBatchCacheTTL {W} (ttl : Z) : Svc W unit := λ s,
  (tt, MkConcurrencyService (sv_requestIDPrefix s) (sv_requestIDCounter s) ttl
         (if ttl <=? 0 then ∅ else sv_accountLoadCache s) (sv_world s)).

(** A result of acquiring a slot; its release function acts on the service's cache. *)
Record AcquireResult (W : Type) : Type := MkAcquireResult {
  Acquired : bool;
  ReleaseFunc : option (Svc W unit)
}.
Arguments MkAcquireResult {W} _ _.
Arguments Acquired {W} _.
Arguments ReleaseFunc {W} _.

(** ** Slots *)

Section Slots.
Context {W : Type} {C : ConcurrencyCacheOps W}.

Definition discard {A} (f : St W A) : Svc W unit := _ ← on_cache f; mret tt.

(** [AcquireAccountSlot] and [AcquireUserSlot], which differ in the methods of the cache. *)
Definition acquire_slot (acquire : Z → Z → string → St W (bool * option error))
    (release : Z → string → St W (option error)) (id maxConcurrency : Z)
    : Svc W (error + AcquireResult W) :=
  if maxConcurrency <=? 0 then mret (inr (MkAcquireResult true (Some (mret tt)))) else
  requestID ← generateRequestID;
  '(acquired, err) ← on_cache (acquire id maxConcurrency requestID);
  match err with
  | Some err => mret (inl err)
  | None =>
      if (acquired : bool)
      then mret (inr (MkAcquireResult true (Some (discard (release id requestID)))))
      else mret (inr (MkAcquireResult false None))
  end.

Definition AcquireAccountSlot (accountID maxConcurrency : Z)
    : Svc W (error + AcquireResult W) :=
  acquire_slot cc_AcquireAccountSlot cc_ReleaseAccountSlot accountID maxConcurrency.

Definition AcquireUserSlot (userID maxConcurrency : Z) : Svc W (error + AcquireResult W) :=
  acquire_slot cc_AcquireUserSlot cc_ReleaseUserSlot userID maxConcurrency.

(** The function that releases the tracked slot: nothing when it was not tracked. *)
Definition TrackAPIKeySlot (apiKeyID : Z) : Svc W (Svc W unit) :=
  if apiKeyID <=? 0 then mret (mret tt) else
  match cc_apiKeys with
  | None => mret (mret tt)
  | Some cache =>
      requestID ← generateRequestID;
      err ← on_cache (kc_TrackAPIKeySlot W cache apiKeyID requestID);
      match err with
      | Some _ => mret (mret tt)
      | None => mret (discard (kc_ReleaseAPIKeySlot W cache apiKeyID requestID))
      end
  end.

Definition zeroAPIKeyConcurrencyMap (apiKeyIDs : list Z) : gmap Z Z :=
  foldl (λ m id, <[id := 0]> m) ∅ apiKeyIDs.

Definition GetAPIKeyConcurrencyBatch (apiKeyIDs : list Z) : Svc W (gmap Z Z) :=
  let result := zeroAPIKeyConcurrencyMap apiKeyIDs in
  match apiKeyIDs with
  | [] => mret result
  | _ =>
      match cc_apiKeys with
      | None => mret result
      | Some cache =>
          '(counts, err) ← on_cache (kc_GetAPIKeyConcurrencyBatch W cache apiKeyIDs);
          match (err : option error) with
          | Some _ => mret result
          | None =>
              mret (foldl (λ m id, <[id := default 0 ((counts : gmap Z Z) !! id)]> m)
                      result apiKeyIDs)
          end
      end
  end.

Definition GetAccountConcurrencyBatch (accountIDs : list Z) : Svc W (gmap Z Z * option error) :=
  match accountIDs with
  | [] => mret (∅, None)
  | _ => on_cache (cc_GetAccountConcurrencyBatch accountIDs)
  end.

(** ** Waiting *)

(** The queue is left open when the cache fails. *)
Definition fail_open (r : bool * option error) : bool :=
  match r.2 with Some _ => true | None => r.1 end.

Definition IncrementWaitCount (userID maxWait : Z) : Svc W bool :=
  r ← on_cache (cc_IncrementWaitCount userID maxWait); mret (fail_open r).
Definition DecrementWaitCount (userID : Z) : Svc W unit := discard (cc_DecrementWaitCount userID).
Definition IncrementAccountWaitCount (accountID maxWait : Z) : Svc W bool :=
  r ← on_cache (cc_IncrementAccountWaitCount accountID maxWait); mret (fail_open r).
Definition DecrementAccountWaitCount (accountID : Z) : Svc W unit :=
  discard (cc_DecrementAccountWaitCount accountID).
Definition GetAccountWaitingCount (accountID : Z) : Svc W (Z * option error) :=
  on_cache (cc_GetAccountWaitingCount accountID).

Definition CalculateMaxWait (userConcurrency : Z) : Z :=
  let userConcurrency := if userConcurrency <=? 0 then 1 else userConcurrency in
  userConcurrency +! defaultExtraWaitSlots.

(** ** Cleanup *)

Definition CleanupStaleProcessSlots : Svc W (option error) := λ s,
  on_cache (cc_CleanupStaleProcessSlots (sv_requestIDPrefix s)) s.

Definition CleanupExpiredAccountSlots (accountID : Z) : Svc W (option error) :=
  on_cache (cc_CleanupExpiredAccountSlots accountID).

(** The worker cleans at once and then at every tick. *)
Definition StartSlotCleanupWorker (interval : Z) (ticks : nat) : Svc W unit :=
  if interval <=? 0 then mret tt
  else mapM_ (λ _, discard cc_CleanupExpiredAccountSlotKeys) (replicate (S ticks) tt).
End Slots.

(** ** WebSocket ingress leases *)

Record OpenAIWSIngressLease : Type := MkLease {
  ls_apiKeyID : Z;
  ls_leaseID : string;
  ls_released : bool        (* stopOnce *)
}.

(** What wakes the refresh loop: a tick of its timer, or the end of its context or lease. *)
Inductive lease_event : Type :=
| LeaseTick (now : Z)
| LeaseDone.

(** The loop runs, its lease last confirmed at a time; was stopped; or lost the lease. *)
Inductive loop_state : Type :=
| Running (lastConfirmedAt : Z)
| Stopped
| Lost.

Section Leases.
Context {W : Type} {C : ConcurrencyCacheOps W}.

Definition AcquireOpenAIWSIngressLease (apiKeyID maxConnections : Z)
    : Svc W (option OpenAIWSIngressLease * bool * option error) :=
  if maxConnections <=? 0 then mret (None, true, None) else
  if apiKeyID <=? 0
  then mret (None, false, Some (Err "openai websocket ingress lease cache is unavailable")) else
  match cc_leases with
  | None => mret (None, false, Some (Err "openai websocket ingress lease cache is unsupported"))
  | Some cache =>
      leaseID ← generateRequestID;
      '(acquired, err) ← on_cache (lc_Acquire W cache apiKeyID maxConnections leaseID);
      match (err : option error) with
      | Some _ => mret (None, acquired, err)
      | None =>
          if (acquired : bool) then mret (Some (MkLease apiKeyID leaseID false), true, None)
          else mret (None, acquired, err)
      end
  end.

Fixpoint errors_Is (err target : error) : bool :=
  bool_decide (err = target) ||
  match err with EWrap _ inner => errors_Is inner target | _ => false end.

(** [now] is the clock after the cache has answered. *)
Definition refresh (cache : OpenAIWSIngressLeaseCache W) (l : OpenAIWSIngressLease)
    (lastConfirmedAt now : Z) : St W (Z * bool) :=
  '(owned, err) ← lc_Refresh W cache (ls_apiKeyID l) (ls_leaseID l);
  match (err : option error) with
  | None => if (owned : bool) then mret (now, false) else mret (lastConfirmedAt, true)
  | Some err =>
      let elapsed := time_sub now lastConfirmedAt in
      if errors_Is err ErrOpenAIWSIngressLeaseLost || (openAIWSIngressLeaseTTL <=? elapsed)
      then mret (lastConfirmedAt, true) else mret (lastConfirmedAt, false)
  end.

Fixpoint refreshLoop (cache : OpenAIWSIngressLeaseCache W) (l : OpenAIWSIngressLease)
    (lastConfirmedAt : Z) (events : list lease_event) : St W loop_state :=
  match events with
  | [] => mret (Running lastConfirmedAt)
  | LeaseDone :: _ => mret Stopped
  | LeaseTick now :: events' =>
      '(lastConfirmedAt, lost) ← refresh cache l lastConfirmedAt now;
      if (lost : bool) then mret Lost else refreshLoop cache l lastConfirmedAt events'
  end.

(** The lease is given back once, at the first call. *)
Definition Release (cache : OpenAIWSIngressLeaseCache W) (l : OpenAIWSIngressLease)
    : St W OpenAIWSIngressLease :=
  if ls_released l then mret l else
  let l := MkLease (ls_apiKeyID l) (ls_leaseID l) true in
  if (ls_apiKeyID l <=? 0) || (ls_leaseID l ≟ "") then mret l else
  _ ← lc_Release W cache (ls_apiKeyID l) (ls_leaseID l);
  mret l.
End Leases.

(** ** The load of the accounts, cached for a moment *)

(** Eight bytes, the least significant first. *)
Fixpoint little_endian (n : nat) (x : Z) : string :=
  match n with
  | O => ""
  | S n' => String (ascii_of_N (Z.to_N (x `mod` 256))) (little_endian n' (x / 256))
  end.

Definition account_bytes (account : WithConcurrency) : string :=
  little_endian 8 (wc_ID account `mod` 2 ^ 64) +:+
  little_endian 8 (MaxConcurrency account `mod` 2 ^ 64).

Definition batch_bytes (accounts : list WithConcurrency) : string :=
  foldr (λ account s, account_bytes account +:+ s) "" accounts.

Section Loads.
Context {W : Type} {C : ConcurrencyCacheOps W}.

(** SHA-256 in hexadecimal, and the key with which Go's range over a map starts. *)
Context (sha256 : string → string).
Context (any_key : gmap string cachedAccountLoadBatch → option string).

Definition accountLoadBatchCacheKey (accounts : list WithConcurrency) : string :=
  FormatInt (Z.of_nat (length accounts)) +:+ ":" +:+ sha256 (batch_bytes accounts).

Definition cloneAccountLoadMap (loadMap : gmap Z LoadInfo) : gmap Z LoadInfo :=
  if decide (loadMap = ∅) then ∅ else loadMap.

Definition fetchAccountsLoadBatch (accounts : list WithConcurrency)
    : Svc W (gmap Z LoadInfo * option error) :=
  on_cache (cc_GetAccountsLoadBatch accounts).

Definition getCachedAccountLoadBatch (key : string) (now : Z)
    : Svc W (option (gmap Z LoadInfo)) := λ s,
  match sv_accountLoadCache s !! key with
  | None => (None, s)
  | Some cached =>
      if negb (now <? cb_expiresAt cached)
      then (None, with_loads (delete key (sv_accountLoadCache s)) s)
      else (Some (cb_loadMap cached), s)
  end.

(** Entries go, whichever the range starts with, until there is room for one more. *)
Fixpoint evict (fuel : nat) (loads : gmap string cachedAccountLoadBatch)
    : gmap string cachedAccountLoadBatch :=
  match fuel with
  | O => loads
  | S fuel' =>
      if (size loads <? maxAccountLoadBatchCacheEntries)%nat then loads else
      match any_key loads with
      | Some k => evict fuel' (delete k loads)
      | None => loads
      end
  end.

Definition make_room (now : Z) (loads : gmap string cachedAccountLoadBatch)
    : gmap string cachedAccountLoadBatch :=
  if (size loads <? maxAccountLoadBatchCacheEntries)%nat then loads else
  let loads := filter (λ kv, now < cb_expiresAt kv.2) loads in
  evict (size loads) loads.

(** [now] is read only when the cache is full. *)
Definition storeCachedAccountLoadBatch (key : string) (loadMap : gmap Z LoadInfo)
    (expiresAt now : Z) : Svc W unit := λ s,
  (tt, with_loads (<[key := MkCachedBatch loadMap expiresAt]>
                     (make_room now (sv_accountLoadCache s))) s).

(** The clock is read before the flight, at its start, and when it stores. *)
Definition getAccountsLoadBatch (accounts : list WithConcurrency) (allowCache : bool)
    (now now' now'' : Z) : Svc W (gmap Z LoadInfo * option error) := λ s,
  match accounts with
  | [] => ((∅, None), s)
  | _ =>
      let ttl := sv_accountLoadCacheTTL s in
      if negb allowCache || (ttl <=? 0) then fetchAccountsLoadBatch accounts s else
      let key := accountLoadBatchCacheKey accounts in
      let flight : Svc W (gmap Z LoadInfo * option error) :=
        cached ← getCachedAccountLoadBatch key now';
        match cached with
        | Some m => mret (m, None)
        | None =>
            '(loadMap, fetchErr) ← fetchAccountsLoadBatch accounts;
            match (fetchErr : option error) with
            | Some err => mret (∅, Some err)
            | None =>
                let cached := cloneAccountLoadMap loadMap in
                _ ← storeCachedAccountLoadBatch key cached (now' + ttl) now'';
                mret (cached, None)
            end
        end in
      (cached ← getCachedAccountLoadBatch key now;
       match cached with Some m => mret (m, None) | None => flight end) s
  end.

Definition GetAccountsLoadBatch (accounts : list WithConcurrency) (now now' now'' : Z)
    : Svc W (gmap Z LoadInfo * option error) :=
  getAccountsLoadBatch accounts true now now' now''.

Definition GetAccountsLoadBatchFresh (accounts : list WithConcurrency) (now now' now'' : Z)
    : Svc W (gmap Z LoadInfo * option error) :=
  getAccountsLoadBatch accounts false now now' now''.

Definition GetUsersLoadBatch (users : list WithConcurrency)
    : Svc W (gmap Z LoadInfo * option error) :=
  on_cache (cc_GetUsersLoadBatch users).
End Loads.
