(* ===== verification/ServiceFacts.v ===== *)
(** * ServiceFacts: what the concurrency service promises *)

From stdpp Require Import base tactics numbers list strings gmap.
From Stdlib Require Import ZArith Lia Ascii.
From S2P Require Import Prelude GoLib Redis ConcurrencyCache SlotFacts ConcurrencyService.

Local Open Scope Z_scope.

(** ** Request identifiers *)

Definition base36_digit (c : ascii) : Z :=
  let n := Z.of_N (N_of_ascii c) in if n <? 58 then n - 48 else n - 87.

Fixpoint base36_val (s : string) (acc : Z) : Z :=
  match s with
  | EmptyString => acc
  | String c s' => base36_val s' (acc * 36 + base36_digit c)
  end.

Lemma base36_digit_char d : (d < 36)%N → base36_digit (base36_char d) = Z.of_N d.
Proof.
  intros Hd. unfold base36_digit, base36_char.
  destruct (N.ltb_spec d 10).
  - rewrite N_ascii_embedding by lia. destruct (Z.ltb_spec (Z.of_N (48 + d)) 58); lia.
  - rewrite N_ascii_embedding by lia. destruct (Z.ltb_spec (Z.of_N (87 + d)) 58); lia.
Qed.

Lemma base36_val_go fuel x s :
  (x < 36 ^ N.of_nat fuel)%N → base36_val (base36_go fuel x s) 0 = base36_val s (Z.of_N x).
Proof.
  revert x s. induction fuel as [|fuel IH]; intros x s Hx.
  - cbn in Hx. by assert (x = 0%N) as -> by lia.
  - cbn [base36_go]. destruct (N.eqb_spec x 0) as [->|H0]; [done|].
    rewrite Nat2N.inj_succ, N.pow_succ_r' in Hx.
    pose proof (N.div_mod x 36 ltac:(lia)) as E. pose proof (N.mod_lt x 36 ltac:(lia)) as Hm.
    rewrite IH by (apply N.Div0.div_lt_upper_bound; lia).
    cbn [base36_val]. rewrite base36_digit_char by done. f_equal. lia.
Qed.

(** The text of a number below [36^64] is read back as the number. *)
Lemma FormatUint36_val x : 0 ≤ x < 2 ^ 64 → base36_val (FormatUint36 x) 0 = x.
Proof.
  intros Hx. unfold FormatUint36. destruct (Z.eqb_spec x 0) as [->|H0]; [done|].
  rewrite base36_val_go; [cbn [base36_val]; lia|].
  assert (Z.to_N x < 2 ^ 64)%N by lia. change (N.of_nat 64) with 64%N. lia.
Qed.

(** The identifiers a process makes, in order. *)
Definition ids_from {W} (n : nat) : Svc W (list string) :=
  mapSt (λ _ : nat, generateRequestID) (seq 0 n).

Lemma string_app_inj (p a b : string) : p +:+ a = p +:+ b → a = b.
Proof. apply string_app_inj_l. Qed.

Lemma ids_from_run {W} (l : list nat) (s : ConcurrencyService W) :
  (mapSt (λ _ : nat, generateRequestID) l s).1 =
    (λ k, sv_requestIDPrefix s +:+ "-" +:+
       FormatUint36 ((sv_requestIDCounter s + 1 + Z.of_nat k) `mod` 2 ^ 64)) <$> seq 0 (length l).
Proof.
  revert s. induction l as [|x l IH]; intros s; [done|]. cbn [mapSt]. unfold mbind, St_bind.
  specialize (IH (generateRequestID s).2).
  destruct (generateRequestID s) as [id s'] eqn:E. injection E as <- <-. cbn [snd] in IH.
  destruct (mapSt _ l _) as [ids s2]. cbn [fst] in *. subst ids.
  cbn [length seq fmap list_fmap sv_requestIDPrefix sv_requestIDCounter mret St_ret fst].
  f_equal; [by rewrite Z.add_0_r|].
  rewrite <- fmap_S_seq, <- list_fmap_compose. apply list_fmap_ext. intros i k _. cbn.
  do 3 f_equal. rewrite <- !Z.add_assoc, Zplus_mod_idemp_l. f_equal. lia.
Qed.

(** A process never uses a request identifier twice: as many identifiers as its counter can
    count are pairwise different, wherever the counter starts. *)
Theorem request_ids_distinct {W} n (s : ConcurrencyService W) :
  Z.of_nat n ≤ 2 ^ 64 → NoDup (ids_from n s).1.
Proof.
  intros Hn. unfold ids_from. rewrite ids_from_run, length_seq. apply NoDup_fmap_2_strong.
  2: apply NoDup_seq.
  intros i j Hi Hj E. apply elem_of_seq in Hi, Hj.
  apply string_app_inj, string_app_inj in E. apply (f_equal (λ s, base36_val s 0)) in E.
  assert (Hm : ∀ z, 0 ≤ z `mod` 2 ^ 64 < 2 ^ 64) by (intros z; apply Z.mod_pos_bound; lia).
  rewrite !FormatUint36_val in E by apply Hm.
  apply (f_equal (λ z, (z - (sv_requestIDCounter s + 1)) `mod` 2 ^ 64)) in E.
  rewrite !Zminus_mod_idemp_l in E.
  replace (sv_requestIDCounter s + 1 + Z.of_nat i - (sv_requestIDCounter s + 1))
    with (Z.of_nat i) in E by lia.
  replace (sv_requestIDCounter s + 1 + Z.of_nat j - (sv_requestIDCounter s + 1))
    with (Z.of_nat j) in E by lia.
  rewrite !Z.mod_small in E by lia. lia.
Qed.

(** ** Leases *)

Section Lease.
Context {W : Type} {C : ConcurrencyCacheOps W}.
Variables (cache : OpenAIWSIngressLeaseCache W) (l : OpenAIWSIngressLease).

(** A round of the loop at which the cache confirmed the lease. *)
Definition confirms (w w' : W) : Prop :=
  lc_Refresh W cache (ls_apiKeyID l) (ls_leaseID l) w = ((true, None), w').

Lemma refresh_cases last now w :
  let '(r, w') := refresh cache l last now w in
  (r = (now, false) ∧ confirms w w') ∨
  (r = (last, false) ∧ time_sub now last < openAIWSIngressLeaseTTL) ∨ r = (last, true).
Proof.
  unfold refresh, confirms, mbind, St_bind.
  destruct (lc_Refresh W cache _ _ w) as [[owned [err|]] w'].
  - destruct (errors_Is err ErrOpenAIWSIngressLeaseLost); cbn [orb]; [by right; right|].
    destruct (Z.leb_spec openAIWSIngressLeaseTTL (time_sub now last)).
    + by right; right.
    + by right; left.
  - destruct owned; [by left|by right; right].
Qed.

(** A loop that still runs was confirmed less than a time to live before its last tick, at its
    start or at a tick. *)
Lemma loop_confirmed ts : ∀ last t w last' w',
  refreshLoop cache l last (LeaseTick <$> ts ++ [t]) w = (Running last', w') →
  (last' = t ∨ time_sub t last' < openAIWSIngressLeaseTTL) ∧
  (last' = last ∨ ∃ ts1 ts2 w1 w2, ts ++ [t] = ts1 ++ last' :: ts2 ∧
     (∃ la, refreshLoop cache l last (LeaseTick <$> ts1) w = (Running la, w1)) ∧
     confirms w1 w2 ∧
     refreshLoop cache l last' (LeaseTick <$> ts2) w2 = (Running last', w')).
Proof.
  induction ts as [|t0 ts IH]; intros last t w last' w'.
  - cbn [app fmap list_fmap refreshLoop]. unfold mbind, St_bind, mret, St_ret.
    pose proof (refresh_cases last t w) as H. destruct (refresh cache l last t w) as [[la lost] w1].
    destruct H as [[[= -> ->] Hc]|[[[= -> ->] Ht]|[= -> ->]]]; intros [= <- <-].
    + split; [by left|]. right. exists [], [], w, w1. split_and!; try done. by exists last.
    + split; [by right|by left].
  - change (LeaseTick <$> (t0 :: ts) ++ [t]) with (LeaseTick t0 :: (LeaseTick <$> ts ++ [t])).
    cbn [refreshLoop]. unfold mbind, St_bind.
    pose proof (refresh_cases last t0 w) as H.
    destruct (refresh cache l last t0 w) as [[la lost] w1] eqn:Er.
    destruct H as [[[= -> ->] Hc]|[[[= -> ->] Ht]|[= -> ->]]]; [| |by intros [=]].
    + intros H. destruct (IH _ _ _ _ _ H) as [H1 [->|H2]]; (split; [done|right]).
      * exists [], (ts ++ [t]), w, w1. split_and!; try done. by exists last.
      * destruct H2 as (ts1 & ts2 & wa & wb & E & (lb & Hb) & Hcf & Hr).
        exists (t0 :: ts1), ts2, wa, wb. split_and!; [exact (f_equal (cons t0) E)| |done|done].
        exists lb. change (LeaseTick <$> t0 :: ts1) with (LeaseTick t0 :: (LeaseTick <$> ts1)).
        cbn [refreshLoop]. unfold mbind, St_bind. by rewrite Er.
    + intros H. destruct (IH _ _ _ _ _ H) as [H1 [->|H2]]; (split; [done|]); [by left|right].
      destruct H2 as (ts1 & ts2 & wa & wb & E & (lb & Hb) & Hcf & Hr).
      exists (t0 :: ts1), ts2, wa, wb. split_and!; [exact (f_equal (cons t0) E)| |done|done].
      exists lb. change (LeaseTick <$> t0 :: ts1) with (LeaseTick t0 :: (LeaseTick <$> ts1)).
      cbn [refreshLoop]. unfold mbind, St_bind. by rewrite Er.
Qed.
End Lease.

Section RedisLease.
Context {S : Type} {R : RedisOps S} {abs : S → rdb} {L : RedisLaws R abs}.

(** A round trip that came back ran on the server last. *)
Lemma roundtrip_delivered {A} (c : St S A) w a w' :
  roundtrip c w = (inr a, w') → ∃ s, c s = (a, w_db w').
Proof.
  unfold roundtrip. destruct (next_event w) as [e w1]. unfold deliver, mbind, St_bind.
  destruct (ev_fate e); [|done|done].
  destruct (mapM_ run_cmd (ev_before e) (w_db w1)) as [u s1].
  destruct (c s1) as [b s2] eqn:E. intros [= <- <-]. by exists s1.
Qed.

Lemma refresh_script_held key ttl id m v m' :
  0 < ttl → refreshOpenAIWSIngressLeaseScript key ttl id m = (v, m') →
  v = LScalar (LInt 0) ∨ v = LScalar (LInt 1) ∧ zset m' key !! id = Some (now_s m').
Proof.
  intros Ht. unfold refreshOpenAIWSIngressLeaseScript, mbind, St_bind. cbn -[set_deadline Z.mul].
  fold (fresh (now_s m - ttl) (zset m key)). rewrite zset_zput_eq.
  destruct (fresh _ _ !! id); cbn -[set_deadline Z.mul]; intros [= <- <-]; [right|by left].
  split; [done|]. rewrite zset_set_deadline by lia. rewrite zset_zput_eq, lookup_insert_eq.
  by rewrite now_s_set_deadline, !now_s_zput.
Qed.

Lemma confirmed_held apiKeyID leaseID (w w' : world S) :
  RefreshOpenAIWSIngressLease apiKeyID leaseID w = ((true, None), w') →
  zset (abs (w_db w')) (openAIWSIngressLeaseKey apiKeyID) !! leaseID =
    Some (now_s (abs (w_db w'))).
Proof.
  unfold RefreshOpenAIWSIngressLease. destruct ((apiKeyID <=? 0) || _); [done|].
  unfold runScript, mbind, St_bind.
  destruct (roundtrip _ w) as [[e|v] w1] eqn:E; [done|].
  apply roundtrip_delivered in E as [s0 E].
  pose proof (refines_refreshWS (openAIWSIngressLeaseKey apiKeyID)
    openAIWSIngressLeaseTTLSeconds leaseID s0) as H. rewrite E in H. cbn [fst snd] in H.
  apply refresh_script_held in H as [->|[-> H]]; [done| |done].
  intros [= <-]. done.
Qed.

Lemma confirms_refresh (cache : OpenAIWSIngressLeaseCache (world S)) l last now w w' :
  confirms cache l w w' → refresh cache l last now w = ((now, false), w').
Proof. unfold confirms, refresh, mbind, St_bind. by intros ->. Qed.

(** C36: a process never works on a lease it cannot prove: while the refresh loop of a lease
    still runs, whatever the network did, the last time it was confirmed is less than a time to
    live back at the last tick, and it is the time of the acquisition or of a tick of this run:
    the refresh of that tick left the lease in Redis under the process's identifier, stamped with
    the server's time, and the run went on from that tick to where it is. *)
Theorem lease_never_outlives_confirmation c cache l last ts t (w : world S) last' w' :
  cc_leases (ConcurrencyCacheOps:=RedisConcurrencyCache c) = Some cache →
  refreshLoop cache l last (LeaseTick <$> ts ++ [t]) w = (Running last', w') →
  (last' = t ∨ time_sub t last' < openAIWSIngressLeaseTTL) ∧
  (last' = last ∨ ∃ ts1 ts2 la (w1 w2 : world S), ts ++ [t] = ts1 ++ last' :: ts2 ∧
     refreshLoop cache l last (LeaseTick <$> ts1) w = (Running la, w1) ∧
     refresh cache l la last' w1 = ((last', false), w2) ∧
     zset (abs (w_db w2)) (openAIWSIngressLeaseKey (ls_apiKeyID l)) !! ls_leaseID l =
       Some (now_s (abs (w_db w2))) ∧
     refreshLoop cache l last' (LeaseTick <$> ts2) w2 = (Running last', w')).
Proof.
  intros [= <-] H. apply loop_confirmed in H as [H1 [H2|H2]]; (split; [done|]); [by left|right].
  destruct H2 as (ts1 & ts2 & w1 & w2 & E & [la Hla] & Hc & Hrest).
  exists ts1, ts2, la, w1, w2. split_and!; [done|done|by apply confirms_refresh| |done].
  by apply (confirmed_held _ _ w1).
Qed.
End RedisLease.

(** ** The cache of loads *)

Section LoadCache.
Context {W : Type} {C : ConcurrencyCacheOps W}.
Context (sha256 : string → string).
Context (any_key : gmap string cachedAccountLoadBatch → option string).

(** A range over a map that is not empty starts with one of its keys. *)
Hypothesis any_key_spec : ∀ m, m ≠ ∅ → ∃ k, any_key m = Some k ∧ is_Some (m !! k).

Lemma evict_spec fuel loads :
  (size loads ≤ fuel)%nat →
  (size (evict any_key fuel loads) < maxAccountLoadBatchCacheEntries)%nat ∧
  evict any_key fuel loads ⊆ loads ∧
  ∀ more, evict any_key (fuel + more) loads = evict any_key fuel loads.
Proof.
  unfold maxAccountLoadBatchCacheEntries in *.
  revert loads. induction fuel as [|fuel IH]; intros loads Hs.
  - assert (Hz : size loads = 0%nat) by lia. split_and!; [cbn; lia|done|].
    intros [|more]; [done|]. cbn. unfold maxAccountLoadBatchCacheEntries. by rewrite Hz.
  - cbn [evict Nat.add]. unfold maxAccountLoadBatchCacheEntries.
    destruct (Nat.ltb_spec (size loads) 256) as [Hlt|Hge]; [done|].
    destruct (any_key_spec loads) as (k & -> & [b Hb]).
    { intros ->. rewrite map_size_empty in Hge. lia. }
    assert (Hd : size (delete k loads) = (size loads - 1)%nat).
    { rewrite map_size_delete, Hb. lia. }
    destruct (IH (delete k loads) ltac:(lia)) as (H1 & H2 & H3).
    split_and!; [done| |done]. etrans; [done|apply delete_subseteq].
Qed.

Lemma make_room_spec now loads :
  (size (make_room any_key now loads) < maxAccountLoadBatchCacheEntries)%nat ∧
  make_room any_key now loads ⊆ loads.
Proof.
  unfold make_room. destruct (Nat.ltb_spec (size loads) maxAccountLoadBatchCacheEntries); [done|].
  set (live := filter _ loads). destruct (evict_spec (size live) live) as (H1 & H2 & _); [done|].
  split; [done|]. etrans; [done|]. apply map_filter_subseteq.
Qed.

(** What callers do with the cache of loads. *)
Inductive load_call : Type :=
| LoadBatch (accounts : list WithConcurrency) (allowCache : bool) (now now' now'' : Z)
| LoadTTL (ttl : Z).

Definition load_do (e : load_call) : Svc W unit :=
  match e with
  | LoadBatch accounts allow t t' t'' =>
      _ ← getAccountsLoadBatch sha256 any_key accounts allow t t' t''; mret tt
  | LoadTTL ttl => SetAccountLoadBatchCacheTTL ttl
  end.

(** The look-up of a key misses: nothing is cached, or it has expired. *)
Definition misses (s : ConcurrencyService W) (key : string) (now : Z) : bool :=
  match sv_accountLoadCache s !! key with
  | Some b => negb (now <? cb_expiresAt b)
  | None => true
  end.

Lemma with_loads_id (s : ConcurrencyService W) : with_loads (sv_accountLoadCache s) s = s.
Proof. by destruct s. Qed.

(** A query that may use the cache, undisturbed: it answers from an entry that has not expired,
    or drops it, fetches, and stores what it fetched. *)
Lemma query_run accounts t t' t'' (s : ConcurrencyService W) :
  accounts ≠ [] → 0 < sv_accountLoadCacheTTL s →
  let key := accountLoadBatchCacheKey sha256 accounts in
  let loads := delete key (sv_accountLoadCache s) in
  getAccountsLoadBatch sha256 any_key accounts true t t' t'' s =
    if misses s key t then
      let '((m, err), s1) := fetchAccountsLoadBatch accounts (with_loads loads s) in
      match err with
      | Some err => ((∅, Some err), s1)
      | None =>
          ((cloneAccountLoadMap m, None),
           with_loads (<[key := MkCachedBatch (cloneAccountLoadMap m)
                                  (t' + sv_accountLoadCacheTTL s)]>
                         (make_room any_key t'' loads)) s1)
      end
    else ((cb_loadMap (default (MkCachedBatch ∅ 0) (sv_accountLoadCache s !! key)), None), s).
Proof.
  intros Ha Ht key loads. unfold getAccountsLoadBatch. destruct accounts as [|a accounts]; [done|].
  fold key. rewrite (proj2 (Z.leb_gt _ 0)) by done. cbn [negb orb].
  unfold misses, mbind, St_bind, getCachedAccountLoadBatch at 1.
  destruct (sv_accountLoadCache s !! key) as [b|] eqn:E.
  - destruct (t <? cb_expiresAt b); cbn [negb]; [done|].
    unfold getCachedAccountLoadBatch, mbind, St_bind. cbn [with_loads sv_accountLoadCache].
    rewrite lookup_delete_eq. fold loads.
    unfold fetchAccountsLoadBatch, on_cache. cbn [with_loads sv_world].
    by destruct (cc_GetAccountsLoadBatch _ (sv_world s)) as [[m [err|]] w].
  - unfold getCachedAccountLoadBatch, mbind, St_bind. rewrite E.
    unfold loads. rewrite delete_id by done. rewrite with_loads_id.
    unfold fetchAccountsLoadBatch, on_cache.
    by destruct (cc_GetAccountsLoadBatch _ (sv_world s)) as [[m [err|]] w].
Qed.

Lemma fetch_service accounts (s : ConcurrencyService W) :
  sv_accountLoadCache (fetchAccountsLoadBatch accounts s).2 = sv_accountLoadCache s ∧
  sv_accountLoadCacheTTL (fetchAccountsLoadBatch accounts s).2 = sv_accountLoadCacheTTL s ∧
  (fetchAccountsLoadBatch accounts s).1 = (cc_GetAccountsLoadBatch accounts (sv_world s)).1.
Proof.
  unfold fetchAccountsLoadBatch, on_cache. by destruct (cc_GetAccountsLoadBatch accounts _).
Qed.

(** A load that was fetched to be cached: its key, the load, when, and for how long. *)
Definition load_record : Type := string * gmap Z LoadInfo * Z * Z.

(** What a query fetches for the cache. *)
Definition fetched (accounts : list WithConcurrency) (t t' : Z) (s : ConcurrencyService W)
    : list load_record :=
  let key := accountLoadBatchCacheKey sha256 accounts in
  if misses s key t then
    match (cc_GetAccountsLoadBatch accounts (sv_world s)).1 with
    | (m, None) => [(key, cloneAccountLoadMap m, t', sv_accountLoadCacheTTL s)]
    | _ => []
    end
  else [].

(** The histories of a service, with the loads fetched for the cache in them. *)
Inductive load_history : ConcurrencyService W → list load_record → Prop :=
| history_new prefix w : load_history (NewConcurrencyService prefix w) []
| history_ttl ttl s h : load_history s h → load_history (SetAccountLoadBatchCacheTTL ttl s).2 h
| history_past accounts t t' t'' allow s h :
    load_history s h → accounts = [] ∨ allow = false ∨ sv_accountLoadCacheTTL s ≤ 0 →
    load_history (getAccountsLoadBatch sha256 any_key accounts allow t t' t'' s).2 h
| history_query accounts t t' t'' s h :
    load_history s h → accounts ≠ [] → 0 < sv_accountLoadCacheTTL s →
    load_history (getAccountsLoadBatch sha256 any_key accounts true t t' t'' s).2
      (fetched accounts t t' s ++ h).

(** Every entry was fetched, and expires when its time to live is over. *)
Definition cache_ok (s : ConcurrencyService W) (h : list load_record) : Prop :=
  (size (sv_accountLoadCache s) ≤ maxAccountLoadBatchCacheEntries)%nat ∧
  map_Forall (λ k b, ∃ t ttl, (k, cb_loadMap b, t, ttl) ∈ h ∧ cb_expiresAt b = t + ttl)
    (sv_accountLoadCache s).

Lemma cache_ok_smaller (s s' : ConcurrencyService W) h h' :
  cache_ok s h → sv_accountLoadCache s' ⊆ sv_accountLoadCache s → cache_ok s' (h' ++ h).
Proof.
  intros [Hs He] Hsub. split; [etrans; [by apply map_subseteq_size|done]|].
  intros k b Hb. destruct (He k b) as (t & ttl & Hin & Hx); [by eapply lookup_weaken|].
  exists t, ttl. split; [set_solver|done].
Qed.

Lemma past_cache accounts t t' t'' allow (s : ConcurrencyService W) :
  accounts = [] ∨ allow = false ∨ sv_accountLoadCacheTTL s ≤ 0 →
  sv_accountLoadCache (getAccountsLoadBatch sha256 any_key accounts allow t t' t'' s).2 =
    sv_accountLoadCache s.
Proof.
  intros H. unfold getAccountsLoadBatch. destruct accounts as [|a accounts]; [done|].
  assert (E : negb allow || (sv_accountLoadCacheTTL s <=? 0) = true).
  { destruct H as [H|[->|H]]; [done|done|]. rewrite (proj2 (Z.leb_le _ 0)) by done.
    by rewrite orb_true_r. }
  rewrite E. apply fetch_service.
Qed.

Lemma history_cache_ok s h : load_history s h → cache_ok s h.
Proof.
  induction 1 as [prefix w|ttl s h _ IH|accounts t t' t'' allow s h _ IH Hp
    |accounts t t' t'' s h _ IH Ha Ht].
  - split; [cbn; rewrite map_size_empty; unfold maxAccountLoadBatchCacheEntries; lia|].
    apply map_Forall_empty.
  - apply (cache_ok_smaller s _ h []); [done|]. cbn. case_if; [apply map_empty_subseteq|done].
  - apply (cache_ok_smaller s _ h []); [done|]. by rewrite past_cache.
  - rewrite query_run by done. cbv zeta. unfold fetched. cbv zeta.
    set (key := accountLoadBatchCacheKey sha256 accounts).
    destruct (misses s key t); [|by apply (cache_ok_smaller s _ h [])].
    destruct (fetch_service accounts (with_loads (delete key (sv_accountLoadCache s)) s))
      as (E1 & E2 & E3).
    destruct (fetchAccountsLoadBatch accounts _) as [[m err] s1]. cbn [fst snd] in *.
    cbn [with_loads sv_world] in E3. rewrite <- E3. destruct err as [err|]; cbn [snd].
    { apply (cache_ok_smaller s _ h []); [done|]. rewrite E1. apply delete_subseteq. }
    destruct (make_room_spec t'' (delete key (sv_accountLoadCache s))) as [Hsz Hsub].
    destruct IH as [_ He]. split; cbn [with_loads sv_accountLoadCache].
    + rewrite map_size_insert. case_match; unfold id; lia.
    + apply map_Forall_insert_2.
      { exists t', (sv_accountLoadCacheTTL s). split; [set_solver|done]. }
      intros k b Hb. destruct (He k b) as (tf & ttl & Hin & Hx).
      { eapply lookup_weaken; [by eapply lookup_weaken|apply delete_subseteq]. }
      exists tf, ttl. split; [set_solver|done].
Qed.

(** C37: the cache of account loads stays small: it never holds more than its 256 entries,
    whatever is asked and however Go picks the entries to evict, and the eviction comes to an
    end. *)
Theorem load_cache_bounded s h loads fuel :
  load_history s h →
  (size (sv_accountLoadCache s) ≤ maxAccountLoadBatchCacheEntries)%nat ∧
  ((size loads ≤ fuel)%nat →
   (size (evict any_key fuel loads) < maxAccountLoadBatchCacheEntries)%nat ∧
   evict any_key fuel loads = evict any_key (size loads) loads).
Proof.
  intros Hh. split; [by apply history_cache_ok in Hh as [? _]|]. intros Hf.
  destruct (evict_spec fuel loads Hf) as (H & _). split; [done|].
  destruct (evict_spec (size loads) loads) as (_ & _ & Hm); [done|].
  rewrite <- (Hm (fuel - size loads)%nat). f_equal. lia.
Qed.

(** A cached load is never older than its time to live: what a query answers without
    fetching was fetched, for the same key, less than its time to live before. *)
Theorem cached_loads_are_recent s h accounts t t' t'' :
  load_history s h → accounts ≠ [] → 0 < sv_accountLoadCacheTTL s →
  let key := accountLoadBatchCacheKey sha256 accounts in
  misses s key t = false →
  ∃ m tf ttl, (key, m, tf, ttl) ∈ h ∧ t < tf + ttl ∧
    getAccountsLoadBatch sha256 any_key accounts true t t' t'' s = ((m, None), s).
Proof.
  intros Hh Ha Ht key Hm. apply history_cache_ok in Hh as [_ He].
  rewrite query_run by done. cbv zeta. fold key. rewrite Hm. unfold misses in Hm.
  destruct (sv_accountLoadCache s !! key) as [b|] eqn:E; [|done]. bool_props.
  destruct (He key b E) as (tf & ttl & Hin & Hx).
  exists (cb_loadMap b), tf, ttl. split_and!; [done|lia|done].
Qed.
End LoadCache.

(** ** The key of a batch *)

Lemma little_endian_inj n x y s s' :
  0 ≤ x < 256 ^ Z.of_nat n → 0 ≤ y < 256 ^ Z.of_nat n →
  little_endian n x +:+ s = little_endian n y +:+ s' → x = y ∧ s = s'.
Proof.
  revert x y. induction n as [|n IH]; intros x y Hx Hy E.
  - cbn in *. split; [lia|done].
  - rewrite Nat2Z.inj_succ, Z.pow_succ_r in Hx, Hy by lia. cbn in E. injection E as Ec E.
    pose proof (Z.mod_pos_bound x 256 ltac:(lia)). pose proof (Z.mod_pos_bound y 256 ltac:(lia)).
    apply (f_equal N_of_ascii) in Ec. rewrite !N_ascii_embedding in Ec by lia.
    destruct (IH (x / 256) (y / 256)) as [Ed ->]; [split..|exact E|].
    { apply Z.div_pos; lia. } { apply Z.div_lt_upper_bound; lia. }
    { apply Z.div_pos; lia. } { apply Z.div_lt_upper_bound; lia. }
    split; [|done]. rewrite (Z.div_mod x 256), (Z.div_mod y 256) by lia. lia.
Qed.

Lemma int64_mod_inj x y :
  int64_range x → int64_range y → x `mod` 2 ^ 64 = y `mod` 2 ^ 64 → x = y.
Proof.
  unfold int64_range. intros Hx Hy E.
  pose proof (Z.div_mod x (2 ^ 64) ltac:(lia)). pose proof (Z.div_mod y (2 ^ 64) ltac:(lia)).
  assert (x / 2 ^ 64 = -1 ∨ x / 2 ^ 64 = 0) by
    (assert (-1 ≤ x / 2 ^ 64) by (apply Z.div_le_lower_bound; lia);
     assert (x / 2 ^ 64 < 1) by (apply Z.div_lt_upper_bound; lia); lia).
  assert (y / 2 ^ 64 = -1 ∨ y / 2 ^ 64 = 0) by
    (assert (-1 ≤ y / 2 ^ 64) by (apply Z.div_le_lower_bound; lia);
     assert (y / 2 ^ 64 < 1) by (apply Z.div_lt_upper_bound; lia); lia).
  lia.
Qed.

Definition account_range (a : WithConcurrency) : Prop :=
  int64_range (wc_ID a) ∧ int64_range (MaxConcurrency a).

Lemma account_bytes_inj a b s s' :
  account_range a → account_range b → account_bytes a +:+ s = account_bytes b +:+ s' →
  a = b ∧ s = s'.
Proof.
  intros [Ha1 Ha2] [Hb1 Hb2]. unfold account_bytes. rewrite <- !string_app_assoc. intros E.
  assert (Hm : ∀ z, 0 ≤ z `mod` 2 ^ 64 < 256 ^ Z.of_nat 8)
    by (intros z; apply Z.mod_pos_bound; lia).
  apply little_endian_inj in E as [E1 E]; [|apply Hm..].
  apply little_endian_inj in E as [E2 E]; [|apply Hm..].
  apply int64_mod_inj in E1, E2; try done. split; [|done].
  destruct a, b; cbn in *; congruence.
Qed.

(** Two batches share a cached load only if they are the same batch, or SHA-256 collides:
    the bytes that are hashed determine the accounts and their limits. *)
Theorem batch_keys_tell_apart (sha256 : string → string) accounts accounts' :
  Forall account_range accounts → Forall account_range accounts' →
  accountLoadBatchCacheKey sha256 accounts = accountLoadBatchCacheKey sha256 accounts' →
  accounts = accounts' ∨
  (batch_bytes accounts ≠ batch_bytes accounts' ∧
   sha256 (batch_bytes accounts) = sha256 (batch_bytes accounts')).
Proof.
  intros Ha Ha' E. unfold accountLoadBatchCacheKey in E.
  apply FormatInt_pair in E as [Hl Hs]. apply Nat2Z.inj in Hl.
  destruct (decide (batch_bytes accounts = batch_bytes accounts')) as [Eb|]; [left|by right].
  clear Hs. revert accounts' Ha' Hl Eb.
  induction Ha as [|a accounts Hr _ IH]; intros [|a' accounts'] Ha' Hl Eb; try done.
  inversion_clear Ha' as [|?? Hr' Hrs].
  change (account_bytes a +:+ batch_bytes accounts =
          account_bytes a' +:+ batch_bytes accounts') in Eb.
  apply account_bytes_inj in Eb as [-> Eb]; [|done..]. f_equal. apply IH; [done| |done].
  by injection Hl.
Qed.

(** ** A slot and its release, over an undisturbed Redis *)

Lemma piped_quiet {S} `{R : RedisOps S} {A} (c : St S A) s :
  piped c (s, []) = let '(a, s') := c s in (a, (s', [])).
Proof. done. Qed.

(** Only the listed sorted sets may differ, and the clock stands still. *)
Definition frame (keys : list string) (m m' : rdb) : Prop :=
  (∀ k, k ∉ keys → zset m' k = zset m k) ∧ micros m' = micros m.

Lemma frame_refl keys m : frame keys m m.
Proof. by split. Qed.

Lemma frame_zput k z m : frame [k] m (zput k z m).
Proof. split; [|apply micros_zput]. intros k' Hk. rewrite zset_zput_ne; [done|set_solver]. Qed.

Lemma frame_trans keys keys' m m' m'' :
  frame keys m m' → frame keys' m' m'' → frame (keys ++ keys') m m''.
Proof.
  intros [H1 H2] [H3 H4]. split; [|congruence]. intros k Hk. rewrite H3, H1; [done|set_solver..].
Qed.

Lemma touch_frame idx id t m :
  ∃ m', touchActiveIndexAt idx id t (World m []) = (tt, World m' []) ∧ frame [idx] m m'.
Proof.
  unfold touchActiveIndexAt. destruct (_ || _).
  - exists m. split; [done|apply frame_refl].
  - unfold mbind, St_bind. rewrite roundtrip_quiet. cbn. eexists. split; [done|].
    apply frame_zput.
Qed.

Lemma read_load_run c id slotKey waitKey now m :
  ∃ load, readActiveLoadForKey c id slotKey waitKey now (World m []) =
    ((load, None),
     World (zput slotKey (fresh (int64_sub now (slotTTLSeconds c)) (zset m slotKey)) m) []).
Proof.
  unfold readActiveLoadForKey, mbind, St_bind. rewrite pipeline_quiet.
  rewrite piped_quiet. cbn [ZREMRANGEBYSCORE MemRedis]. rewrite piped_quiet.
  cbn [ZCARD MemRedis]. rewrite piped_quiet. cbn [GET MemRedis]. unfold mret, St_ret.
  by eexists.
Qed.

Lemma refresh_index_run c idx id slotKey waitKey m :
  0 < id → idx ≠ slotKey →
  ∃ m', refreshActiveIndex c idx id slotKey waitKey (World m []) = (tt, World m' []) ∧
    zset m' slotKey = fresh (int64_sub (now_s m) (slotTTLSeconds c)) (zset m slotKey) ∧
    frame [slotKey; idx] m m'.
Proof.
  intros Hid Hne. unfold refreshActiveIndex. destruct (Z.leb_spec id 0); [lia|].
  unfold redisUnixSeconds, mbind at 1, St_bind at 1.
  unfold mbind at 1, St_bind at 1. rewrite roundtrip_quiet. cbn [TIME MemRedis mret St_ret fst].
  unfold mret, St_ret. unfold mbind at 1, St_bind at 1.
  destruct (read_load_run c id slotKey waitKey (now_s m) m) as [load ->].
  set (zk := fresh _ (zset m slotKey)).
  assert (Hend : ∀ m', frame [idx] (zput slotKey zk m) m' →
    zset m' slotKey = zk ∧ frame [slotKey; idx] m m').
  { intros m' Hf. split.
    - destruct Hf as [Hf _]. rewrite Hf by set_solver. apply zset_zput_eq.
    - apply (frame_trans [slotKey] [idx] _ _ _ (frame_zput slotKey zk m) Hf). }
  destruct (_ && _).
  { unfold mbind, St_bind. rewrite roundtrip_quiet. cbn [ZREM MemRedis].
    eexists. split; [done|]. apply Hend, frame_zput. }
  destruct (_ <=? 0).
  { eexists. split; [done|]. apply Hend, frame_refl. }
  destruct (touch_frame idx id (int64_add (now_s m)
    (activeIndexTTL c (al_slotCount load) (al_waitCount load))) (zput slotKey zk m)) as (m' & -> & Hf).
  eexists. split; [done|]. by apply Hend.
Qed.

Lemma digit_not_letter z s t : FormatInt z +:+ s ≠ String "a" t.
Proof.
  destruct (decide (0 ≤ z)) as [Hz|Hz].
  - destruct (FormatInt_first z Hz) as (ch & s' & -> & Hc). cbn. intros [= -> _].
    change (digit_val "a") with 49 in Hc. lia.
  - destruct z as [|p|p]; try lia. by cbn.
Qed.

Lemma index_not_slot a : accountActiveIndexKey ≠ accountSlotKey a.
Proof.
  unfold accountActiveIndexKey, accountSlotKey, accountSlotKeyPrefix. intros E.
  change "concurrency:account:active_index" with ("concurrency:account:" +:+ "active_index") in E.
  apply string_app_inj in E. symmetry in E. rewrite <- (string_app_nil_r (FormatInt a)) in E.
  by apply digit_not_letter in E.
Qed.

Lemma acquire_slot_run c a M id m :
  0 < slotTTLSeconds c →
  let key := accountSlotKey a in
  let zk := fresh (now_s m - slotTTLSeconds c) (zset m key) in
  let g := grants m key (liveAccountSlotKey a) M (slotTTLSeconds c) id in
  ∃ m', ConcurrencyCache.AcquireAccountSlot c a M id (World m []) = ((g, None), World m' []) ∧
    zset m' key = (if g then <[id := now_s m]> zk else zk) ∧ micros m' = micros m.
Proof.
  intros Ht key zk g. unfold ConcurrencyCache.AcquireAccountSlot, runScriptInt64Pair, runScript.
  unfold mbind, St_bind. rewrite roundtrip_quiet, acquire_run by discriminate.
  fold key. fold zk. change (bool_decide _ || _) with g. destruct g; cbn -[set_deadline touchActiveIndexAt].
  - unfold mret, St_ret. cbn -[set_deadline touchActiveIndexAt].
    edestruct touch_frame as (m' & Em & Hf). rewrite Em. exists m'. split; [done|].
    destruct Hf as [Hz Hm]. split.
    + rewrite Hz by (rewrite list_elem_of_singleton; apply not_eq_sym, index_not_slot).
      rewrite zset_set_deadline by lia. apply zset_zput_eq.
    + by rewrite Hm, micros_set_deadline, !micros_zput.
  - unfold mret, St_ret. cbn. eexists. split; [done|]. split.
    + rewrite zset_zput_ne by discriminate. apply zset_zput_eq.
    + by rewrite !micros_zput.
Qed.

Lemma release_slot_run c a id m :
  0 < a →
  let key := accountSlotKey a in
  ∃ m', ConcurrencyCache.ReleaseAccountSlot c a id (World m []) = (None, World m' []) ∧
    zset m' key = fresh (int64_sub (now_s m) (slotTTLSeconds c)) (delete id (zset m key)).
Proof.
  intros Ha key. unfold ConcurrencyCache.ReleaseAccountSlot, mbind, St_bind.
  rewrite roundtrip_quiet. cbn [ZREM MemRedis foldl]. fold key.
  set (m1 := zput key (delete id (zset m key)) m).
  destruct (refresh_index_run c accountActiveIndexKey a key (accountWaitKey a) m1 Ha
    (index_not_slot a)) as (m' & E & Hz & _).
  unfold refreshAccountActiveIndex. fold key. rewrite E. exists m'. split; [done|].
  rewrite Hz. unfold m1. by rewrite zset_zput_eq, now_s_zput.
Qed.

Lemma fresh_idem t z : fresh t (fresh t z) = fresh t z.
Proof.
  apply map_filter_id. intros k x Hk. by apply map_lookup_filter_Some in Hk as [_ Hk].
Qed.

Section SlotLifecycle.
Context {S : Type} {R : RedisOps S} {abs : S → rdb} {L : RedisLaws R abs}.

Lemma refines_acquire_slot c a M id :
  refines (abs_world abs) (ConcurrencyCache.AcquireAccountSlot c a M id)
    (ConcurrencyCache.AcquireAccountSlot c a M id).
Proof.
  unfold ConcurrencyCache.AcquireAccountSlot, runScriptInt64Pair, runScript, touchActiveIndexAt.
  pose proof refines_acquire. solve_refines.
Qed.

Lemma refines_release_slot c a id :
  refines (abs_world abs) (ConcurrencyCache.ReleaseAccountSlot c a id)
    (ConcurrencyCache.ReleaseAccountSlot c a id).
Proof.
  unfold ConcurrencyCache.ReleaseAccountSlot, refreshAccountActiveIndex, refreshActiveIndex,
    redisUnixSeconds, readActiveLoadForKey, touchActiveIndexAt. solve_refines.
Qed.

(** What is known over the data model holds of the server. *)
Lemma on_server {A} (f : IO S A) f' (w : world S) r m' :
  refines (abs_world abs) f f' → w_net w = [] →
  f' (World (abs (w_db w)) []) = (r, World m' []) →
  ∃ w', f w = (r, w') ∧ w_net w' = [] ∧ abs (w_db w') = m'.
Proof.
  intros Hr Hn E. specialize (Hr w).
  assert (Ew : abs_world abs w = World (abs (w_db w)) []) by (unfold abs_world; by rewrite Hn).
  rewrite Ew, E in Hr. destruct (f w) as [r' w']. injection Hr as -> Hm Hn'.
  by exists w'.
Qed.

(** The data in Redis, as the service sees it. *)
Definition data (sv : ConcurrencyService (world S)) : rdb := abs (w_db (sv_world sv)).

(** C35: a slot is given back: over an undisturbed Redis, [AcquireAccountSlot] takes a slot
    exactly when there is room, under an identifier of its own and beside the slots of others;
    its release function leaves just those; and without a limit Redis is not asked. *)
Theorem slot_is_given_back (c : concurrencyCache) accountID maxConcurrency
    (sv : ConcurrencyService (world S)) :
  w_net (sv_world sv) = [] → 0 < accountID →
  0 < slotTTLSeconds c < 2 ^ 62 → 0 ≤ now_s (data sv) < 2 ^ 62 →
  let key := accountSlotKey accountID in
  let id := (generateRequestID sv).1 in
  let now := now_s (data sv) in
  let slots := fresh (now - slotTTLSeconds c) (zset (data sv) key) in
  let leases := fresh (now - 60) (zset (data sv) (liveAccountSlotKey accountID)) in
  zset (data sv) key !! id = None →
  let '(r, sv1) := AcquireAccountSlot (C:=RedisConcurrencyCache c) accountID maxConcurrency sv in
  if maxConcurrency <=? 0 then r = inr (MkAcquireResult true (Some (mret tt))) ∧ sv1 = sv
  else if Z.of_nat (size slots) + Z.of_nat (size leases) <? maxConcurrency then
    ∃ release, r = inr (MkAcquireResult true (Some release)) ∧
      zset (data sv1) key = <[id := now]> slots ∧ zset (data (release sv1).2) key = slots
  else r = inr (MkAcquireResult false None) ∧ zset (data sv1) key = slots.
Proof.
  intros Hnet Ha Httl Hnow key id now slots leases Hid.
  unfold AcquireAccountSlot, acquire_slot. destruct (maxConcurrency <=? 0); [done|].
  unfold mbind, St_bind. destruct (generateRequestID sv) as [rid sv0] eqn:Eg.
  assert (Ew : sv_world sv0 = sv_world sv) by (by injection Eg as _ <-).
  cbn [fst] in id. subst id. unfold on_cache. rewrite Ew.
  cbn [cc_AcquireAccountSlot RedisConcurrencyCache].
  destruct (acquire_slot_run c accountID maxConcurrency rid (data sv)) as (m1 & E1 & Hz1 & Hm1);
    [lia|].
  apply (on_server _ _ _ _ _ (refines_acquire_slot c accountID maxConcurrency rid) Hnet)
    in E1 as (w1 & -> & Hn1 & <-).
  fold key in Hz1. fold now slots in Hz1.
  assert (Hg : grants (data sv) key (liveAccountSlotKey accountID) maxConcurrency
    (slotTTLSeconds c) rid = (Z.of_nat (size slots) + Z.of_nat (size leases) <? maxConcurrency)).
  { unfold grants. fold now slots leases. rewrite bool_decide_eq_false_2; [done|].
    unfold slots, fresh. intros [x Hx]. apply map_lookup_filter_Some in Hx as [Hx _]. congruence. }
  fold key. rewrite Hg in *. clear Hg.
  destruct (Z.of_nat (size slots) + Z.of_nat (size leases) <? maxConcurrency); [|by split].
  eexists. split; [done|]. split; [done|].
  destruct (release_slot_run c accountID rid (abs (w_db w1)) Ha) as (m2 & E2 & Hz2).
  apply (on_server _ _ _ _ _ (refines_release_slot c accountID rid) Hn1)
    in E2 as (w2 & E2 & _ & <-).
  unfold data, discard, mbind, St_bind, on_cache. cbn [sv_world].
  cbn [cc_ReleaseAccountSlot RedisConcurrencyCache]. rewrite E2. cbn [snd mret St_ret sv_world].
  fold key in Hz2. rewrite Hz2, Hz1.
  assert (Hnow1 : now_s (abs (w_db w1)) = now) by (unfold now, now_s; by rewrite Hm1).
  rewrite Hnow1. unfold int64_sub. rewrite int64_wrap_id by (unfold int64_range; lia).
  rewrite delete_insert_id; [by apply fresh_idem|].
  unfold slots, fresh. apply map_lookup_filter_None. by left.
Qed.
End SlotLifecycle.

(** ** Samples *)

Definition sample_cache : concurrencyCache := NewConcurrencyCache 15 0.

Definition sample_service : ConcurrencyService (world rdb) :=
  NewConcurrencyService "r1" (World (empty_rdb 5000000000) []).

Lemma request_ids_distinct_witness : NoDup (ids_from 3 sample_service).1.
Proof. apply (request_ids_distinct 3 sample_service). vm_compute. discriminate. Defined.

Definition sample_lease : OpenAIWSIngressLease := MkLease 7 "r1-1" false.

Definition lease_cache : OpenAIWSIngressLeaseCache (world rdb) :=
  MkOpenAIWSIngressLeaseCache _ ConcurrencyCache.AcquireOpenAIWSIngressLease
    RefreshOpenAIWSIngressLease
    ReleaseOpenAIWSIngressLease.

(** Redis holds the lease; the second refresh does not reach it. *)
Definition leased_world : world rdb :=
  World (lc_Acquire _ lease_cache 7 2 "r1-1" (World (empty_rdb 5000000000) [])).2.(w_db)
    [quiet; NetEvent [] [] (NotSent (Err "i/o timeout")) ([], 0)].

Definition leased_later : world rdb :=
  (refreshLoop lease_cache sample_lease 0
     (LeaseTick <$> [20 * Second] ++ [40 * Second]) leased_world).2.

Lemma lease_never_outlives_confirmation_witness :
  ∃ ts1 ts2 la (w1 w2 : world rdb), [20 * Second; 40 * Second] = ts1 ++ 20 * Second :: ts2 ∧
    refreshLoop lease_cache sample_lease 0 (LeaseTick <$> ts1) leased_world = (Running la, w1) ∧
    refresh lease_cache sample_lease la (20 * Second) w1 = ((20 * Second, false), w2) ∧
    zset (w_db w2) (openAIWSIngressLeaseKey 7) !! "r1-1" = Some (now_s (w_db w2)).
Proof.
  destruct (lease_never_outlives_confirmation (L:=MemRedis_laws) sample_cache lease_cache
    sample_lease 0 [20 * Second] (40 * Second) leased_world (20 * Second) leased_later)
    as [_ [H|(ts1 & ts2 & la & w1 & w2 & E & Hrun & Hr & Hz & _)]].
  - reflexivity.
  - vm_compute. reflexivity.
  - vm_compute in H. discriminate H.
  - exists ts1, ts2, la, w1, w2. split; [exact E|]. split; [exact Hrun|]. split; [exact Hr|].
    exact Hz.
Defined.

Definition some_key (m : gmap string cachedAccountLoadBatch) : option string :=
  fst <$> head (map_to_list m).

Lemma some_key_spec m : m ≠ ∅ → ∃ k, some_key m = Some k ∧ is_Some (m !! k).
Proof.
  intros Hm. unfold some_key. destruct (map_to_list m) as [|[k b] l] eqn:E.
  - by apply map_to_list_empty_iff in E.
  - exists k. split; [done|]. exists b. apply elem_of_map_to_list. rewrite E. left.
Qed.

#[local] Instance sample_cache_ops : ConcurrencyCacheOps (world rdb) :=
  RedisConcurrencyCache sample_cache.

Definition sample_batch : list WithConcurrency := [MkWithConcurrency 7 2].

Definition asked_once : ConcurrencyService (world rdb) :=
  (getAccountsLoadBatch id some_key sample_batch true 1000 2000 3000 sample_service).2.

Definition asked_once_history : list load_record :=
  fetched id sample_batch 1000 2000 sample_service ++ [].

Lemma asked_once_reached : load_history id some_key asked_once asked_once_history.
Proof.
  apply history_query; [apply history_new|discriminate|vm_compute; reflexivity].
Qed.

Lemma load_cache_bounded_witness :
  (size (sv_accountLoadCache asked_once) ≤ maxAccountLoadBatchCacheEntries)%nat ∧
  ((size (∅ : gmap string cachedAccountLoadBatch) ≤ 0)%nat →
   (size (evict some_key 0 ∅) < maxAccountLoadBatchCacheEntries)%nat ∧
   evict some_key 0 ∅ = evict some_key (size (∅ : gmap string cachedAccountLoadBatch)) ∅).
Proof.
  apply (load_cache_bounded id some_key some_key_spec asked_once asked_once_history ∅ 0).
  apply asked_once_reached.
Defined.

Lemma cached_loads_are_recent_witness :
  ∃ m tf ttl, (accountLoadBatchCacheKey id sample_batch, m, tf, ttl) ∈ asked_once_history ∧
    5000 < tf + ttl ∧
    getAccountsLoadBatch id some_key sample_batch true 5000 6000 7000 asked_once =
      ((m, None), asked_once).
Proof.
  apply (cached_loads_are_recent id some_key some_key_spec asked_once asked_once_history
    sample_batch 5000 6000 7000).
  - apply asked_once_reached.
  - discriminate.
  - vm_compute. reflexivity.
  - vm_compute. reflexivity.
Defined.

Lemma batch_keys_tell_apart_witness :
  sample_batch = [MkWithConcurrency 7 2] ∨
  (batch_bytes sample_batch ≠ batch_bytes [MkWithConcurrency 7 2] ∧
   id (batch_bytes sample_batch) = id (batch_bytes [MkWithConcurrency 7 2])).
Proof.
  apply (batch_keys_tell_apart id sample_batch [MkWithConcurrency 7 2]).
  - repeat constructor; vm_compute; (discriminate || reflexivity).
  - repeat constructor; vm_compute; (discriminate || reflexivity).
  - reflexivity.
Defined.

Lemma slot_is_given_back_witness :
  let key := accountSlotKey 7 in
  let id := (generateRequestID sample_service).1 in
  let now := now_s (data (abs:=Datatypes.id) sample_service) in
  let slots := fresh (now - slotTTLSeconds sample_cache)
    (zset (data (abs:=Datatypes.id) sample_service) key) in
  let leases := fresh (now - 60)
    (zset (data (abs:=Datatypes.id) sample_service) (liveAccountSlotKey 7)) in
  let '(r, sv1) := AcquireAccountSlot (C:=RedisConcurrencyCache sample_cache) 7 2 sample_service in
  if 2 <=? 0 then r = inr (MkAcquireResult true (Some (mret tt))) ∧ sv1 = sample_service
  else if Z.of_nat (size slots) + Z.of_nat (size leases) <? 2 then
    ∃ release, r = inr (MkAcquireResult true (Some release)) ∧
      zset (data (abs:=Datatypes.id) sv1) key = <[id := now]> slots ∧
      zset (data (abs:=Datatypes.id) (release sv1).2) key = slots
  else r = inr (MkAcquireResult false None) ∧ zset (data (abs:=Datatypes.id) sv1) key = slots.
Proof.
  apply (slot_is_given_back (L:=MemRedis_laws) sample_cache 7 2 sample_service).
  - reflexivity.
  - lia.
  - vm_compute. split; reflexivity.
  - vm_compute. split; [discriminate|reflexivity].
  - vm_compute. reflexivity.
Defined.
