(* ===== verification/SessionLimit.v ===== *)
(** * SessionLimit: sessions and window costs of accounts

    Models [backend/internal/repository/session_limit_cache.go].  A cost is a [float64], which
    the cache only stores and reads back: its type and [strconv]'s conversions are parameters. *)

From stdpp Require Import base tactics numbers list strings gmap.
From Stdlib Require Import ZArith Lia.
From S2P Require Import Prelude GoLib Redis.

Local Open Scope Z_scope.

Definition sessionLimitKeyPrefix : string := "session_limit:account:".
Definition windowCostKeyPrefix : string := "window_cost:account:".
Definition windowCostCacheTTL : Z := 30 * Second.

Definition sessionLimitKey (accountID : Z) : string := sessionLimitKeyPrefix +:+ FormatInt accountID.
Definition windowCostKey (accountID : Z) : string := windowCostKeyPrefix +:+ FormatInt accountID.

Section Scripts.
Context {S : Type} `{R : RedisOps S}.

Definition registerSessionScript (key : string) (maxSessions idleTimeout : Z)
    (sessionUUID : string) : St S lua_value :=
  t ← TIME; let now := t.1 in
  let expireBefore := now - idleTimeout in
  _ ← ZREMRANGEBYSCORE key expireBefore;
  found ← ZSCORE key sessionUUID;
  match found with
  | Some _ =>
      _ ← ZADD key [(now, sessionUUID)];
      _ ← EXPIRE key (idleTimeout + 60);
      mret (LScalar (LInt 1))
  | None =>
      count ← ZCARD key;
      if count <? maxSessions then
        _ ← ZADD key [(now, sessionUUID)];
        _ ← EXPIRE key (idleTimeout + 60);
        mret (LScalar (LInt 1))
      else mret (LScalar (LInt 0))
  end.

Definition refreshSessionScript (key : string) (idleTimeout : Z) (sessionUUID : string)
    : St S lua_value :=
  t ← TIME; let now := t.1 in
  found ← ZSCORE key sessionUUID;
  _ ← (match found with
       | Some _ => _ ← ZADD key [(now, sessionUUID)]; EXPIRE key (idleTimeout + 60)
       | None => mret tt
       end);
  mret (LScalar (LInt 1)).

Definition getActiveSessionCountScript (key : string) (idleTimeout : Z) : St S lua_value :=
  t ← TIME; let now := t.1 in
  let expireBefore := now - idleTimeout in
  _ ← ZREMRANGEBYSCORE key expireBefore;
  n ← ZCARD key;
  mret (LScalar (LInt n)).

Definition isSessionActiveScript (key : string) (idleTimeout : Z) (sessionUUID : string)
    : St S lua_value :=
  t ← TIME; let now := t.1 in
  let expireBefore := now - idleTimeout in
  score ← ZSCORE key sessionUUID;
  match score with
  | None => mret (LScalar (LInt 0))
  | Some score =>
      if score <=? expireBefore then mret (LScalar (LInt 0)) else mret (LScalar (LInt 1))
  end.
End Scripts.

Record sessionLimitCache : Type := MkSessionLimitCache {
  defaultIdleTimeout : Z
}.

(** The scripts are loaded beforehand, so a pipeline finds them. *)
Definition NewSessionLimitCache (defaultIdleTimeoutMinutes : Z) : sessionLimitCache :=
  let minutes := if defaultIdleTimeoutMinutes <=? 0 then 5 else defaultIdleTimeoutMinutes in
  MkSessionLimitCache (int64_mul minutes Minute).

Section Methods.
Context {S : Type} `{R : RedisOps S}.
Variable c : sessionLimitCache.
Local Open Scope go_scope.
Local Open Scope Z_scope.

(** The idle timeout in seconds, the default when it is not positive. *)
Definition idle_seconds (idleTimeout : Z) : Z :=
  let s := int_seconds idleTimeout in
  if s <=? 0 then int_seconds (defaultIdleTimeout c) else s.

Definition RegisterSession (accountID : Z) (sessionUUID : string) (maxSessions idleTimeout : Z)
    : IO S (bool * option error) :=
  if (sessionUUID ≟ "") || (maxSessions <=? 0) then mret (true, None) else
  let key := sessionLimitKey accountID in
  r ← runScript (registerSessionScript key maxSessions (idle_seconds idleTimeout) sessionUUID);
  match script_int r with
  | inl err => mret (true, Some err)
  | inr result => mret (result =? 1, None)
  end.

Definition RefreshSession (accountID : Z) (sessionUUID : string) (idleTimeout : Z)
    : IO S (option error) :=
  if sessionUUID ≟ "" then mret None else
  let key := sessionLimitKey accountID in
  r ← runScript (refreshSessionScript key (idle_seconds idleTimeout) sessionUUID);
  mret (match r with inl err => Some err | inr _ => None end).

Definition GetActiveSessionCount (accountID : Z) : IO S (Z * option error) :=
  let key := sessionLimitKey accountID in
  let idleTimeoutSeconds := int_seconds (defaultIdleTimeout c) in
  r ← runScript (getActiveSessionCountScript key idleTimeoutSeconds);
  match script_int r with
  | inl err => mret (0, Some err)
  | inr result => mret (result, None)
  end.

(** The timeout the batch uses for an account. *)
Definition batch_timeout (idleTimeouts : gmap Z Z) (accountID : Z) : Z :=
  match idleTimeouts !! accountID with
  | Some t => if 0 <? t then t else defaultIdleTimeout c
  | None => defaultIdleTimeout c
  end.

(** The results are keyed by account: of an account listed twice, the last reply counts.  A
    failed pipeline leaves every command without a reply. *)
Definition GetActiveSessionCountBatch (accountIDs : list Z) (idleTimeouts : gmap Z Z)
    : IO S (gmap Z Z) :=
  match accountIDs with
  | [] => mret ∅
  | _ =>
      r ← pipeline (mapSt (λ accountID,
            v ← piped (getActiveSessionCountScript (sessionLimitKey accountID)
                         (int_seconds (batch_timeout idleTimeouts accountID)));
            mret (accountID, v)) accountIDs);
      mret (match r with
            | inl _ => ∅
            | inr cmds =>
                foldl (λ m p, match script_int (inr p.2) with
                              | inr n => <[p.1 := n]> m | inl _ => m end) ∅ cmds
            end)
  end.

Definition IsSessionActive (accountID : Z) (sessionUUID : string) : IO S (bool * option error) :=
  if sessionUUID ≟ "" then mret (false, None) else
  let key := sessionLimitKey accountID in
  let idleTimeoutSeconds := int_seconds (defaultIdleTimeout c) in
  r ← runScript (isSessionActiveScript key idleTimeoutSeconds sessionUUID);
  match script_int r with
  | inl err => mret (false, Some err)
  | inr result => mret (result =? 1, None)
  end.

(** ** Window costs *)

Context {F : Type} (zero : F) (FormatFloat : F → string) (ParseFloat : string → option F).

Definition GetWindowCost (accountID : Z) : IO S (F * bool * option error) :=
  r ← roundtrip (GET (windowCostKey accountID));
  match r with
  | inl err => mret (zero, false, Some err)
  | inr None => mret (zero, false, None)
  | inr (Some v) =>
      match ParseFloat v with
      | None => mret (zero, false, Some (Err "strconv.ParseFloat: invalid syntax"))
      | Some val => mret (val, true, None)
      end
  end.

Definition SetWindowCost (accountID : Z) (cost : F) : IO S (option error) :=
  r ← roundtrip (SET (windowCostKey accountID) (FormatFloat cost)
                   (Some (Z.quot windowCostCacheTTL Millisecond)));
  mret (match r with inl err => Some err | inr _ => None end).

(** MGET reads its keys at one point in time. *)
Definition GetWindowCostBatch (accountIDs : list Z) : IO S (gmap Z F * option error) :=
  match accountIDs with
  | [] => mret (∅, None)
  | _ =>
      r ← roundtrip (mapSt GET (windowCostKey <$> accountIDs));
      mret (match r with
            | inl err => (∅, Some err)
            | inr vals =>
                (foldl (λ m p, match p.2 ≫= ParseFloat with
                               | Some cost => <[p.1 := cost]> m | None => m end)
                   ∅ (zip accountIDs vals), None)
            end)
  end.
End Methods.
