(* ===== verification/SessionFacts.v ===== *)
(** * SessionFacts: the limit on an account's sessions

    What [registerSessionScript] answers, the limit as an invariant of every interleaving, and
    that a broken cache never refuses a request. *)

From stdpp Require Import base tactics numbers list strings gmap sorting pretty relations.
From Stdlib Require Import ZArith Lia.
From S2P Require Import Prelude GoLib Redis ConcurrencyCache SlotFacts SessionLimit.

Local Open Scope Z_scope.

(** ** The scripts over the data model *)

(** The sessions of an account that are still active. *)
Definition active (m : rdb) (key : string) (idle : Z) : gmap string Z :=
  fresh (now_s m - idle) (zset m key).

(** Whether [registerSessionScript] lets the session in. *)
Definition admits (m : rdb) (key : string) (maxSessions idle : Z) (uuid : string) : bool :=
  let z := active m key idle in
  bool_decide (is_Some (z !! uuid)) || (Z.of_nat (size z) <? maxSessions).

Lemma register_run key maxSessions idle uuid m :
  let z := active m key idle in
  registerSessionScript key maxSessions idle uuid m =
    if admits m key maxSessions idle uuid
    then (LScalar (LInt 1),
          set_deadline key ((idle + 60) * 1000) (zput key (<[uuid := now_s m]> z) (zput key z m)))
    else (LScalar (LInt 0), zput key z m).
Proof.
  cbv zeta. unfold registerSessionScript, admits, active, mbind, St_bind. cbn -[set_deadline Z.mul].
  fold (fresh (now_s m - idle) (zset m key)). rewrite zset_zput_eq.
  destruct (fresh (now_s m - idle) (zset m key) !! uuid); cbn -[set_deadline Z.mul];
    rewrite ?zset_zput_eq; [done|]. by case_match; rewrite ?zset_zput_eq.
Qed.

Lemma refresh_run key idle uuid m :
  refreshSessionScript key idle uuid m =
    (LScalar (LInt 1),
     match zset m key !! uuid with
     | Some _ => set_deadline key ((idle + 60) * 1000) (zput key (<[uuid := now_s m]> (zset m key)) m)
     | None => m
     end).
Proof.
  unfold refreshSessionScript, mbind, St_bind. cbn -[set_deadline Z.mul].
  by destruct (zset m key !! uuid).
Qed.

Lemma count_run key idle m :
  getActiveSessionCountScript key idle m =
    (LScalar (LInt (Z.of_nat (size (active m key idle)))), zput key (active m key idle) m).
Proof.
  unfold getActiveSessionCountScript, mbind, St_bind. cbn.
  fold (fresh (now_s m - idle) (zset m key)). by rewrite zset_zput_eq.
Qed.

Lemma is_active_run key idle uuid m :
  isSessionActiveScript key idle uuid m =
    (LScalar (LInt (if bool_decide (is_Some (active m key idle !! uuid)) then 1 else 0)), m).
Proof.
  unfold isSessionActiveScript, active, fresh, mbind, St_bind. cbn. rewrite map_lookup_filter.
  destruct (zset m key !! uuid) as [t|]; cbn; [|done].
  unfold guard. destruct (decide (now_s m - idle < t)) as [Ht|Ht]; cbn;
    destruct (Z.leb_spec t (now_s m - idle)); cbn; try lia; done.
Qed.

(** ** Everything that happens to the sessions of one account *)

Section Steps.
Context {S : Type} `{R : RedisOps S}.
Variables (key : string) (maxSessions : Z).

Inductive session_step : S → S → Prop :=
| step_register idle uuid s :
    session_step s (registerSessionScript key maxSessions idle uuid s).2
| step_refresh idle uuid s : session_step s (refreshSessionScript key idle uuid s).2
| step_session_count idle s : session_step s (getActiveSessionCountScript key idle s).2
| step_is_active idle uuid s : session_step s (isSessionActiveScript key idle uuid s).2
| step_elsewhere c s : cmd_key c ≠ Some key → session_step s (run_cmd c s).2.
End Steps.

Definition sessions (m : rdb) (key : string) : Z := Z.of_nat (size (zset m key)).

Lemma sessions_lighter m m' key : lighter m m' → sessions m' key ≤ sessions m key.
Proof. intros H. unfold sessions. specialize (H key). lia. Qed.

Lemma session_step_bound key maxSessions (m m' : rdb) :
  session_step key maxSessions m m' → sessions m key ≤ maxSessions →
  sessions m' key ≤ maxSessions.
Proof.
  intros Hs Hm. destruct Hs as [idle uuid m|idle uuid m|idle m|idle uuid m|c m Hc].
  - rewrite register_run. cbv zeta.
    assert (Hz : Z.of_nat (size (active m key idle)) ≤ sessions m key)
      by (unfold sessions, active; pose proof (size_fresh_le (now_s m - idle) (zset m key)); lia).
    destruct (admits m key maxSessions idle uuid) eqn:Ea; cbn [snd].
    + etrans; [apply sessions_lighter, lighter_set_deadline|].
      unfold sessions. rewrite zset_zput_eq. unfold admits in Ea.
      apply orb_true_iff in Ea as [Hin|Hlt].
      * apply bool_decide_eq_true in Hin. rewrite size_insert_member by done. lia.
      * apply Z.ltb_lt in Hlt.
        pose proof (size_insert_le (active m key idle) uuid (now_s m)). lia.
    + unfold sessions. rewrite zset_zput_eq. lia.
  - rewrite refresh_run. cbn [snd]. destruct (zset m key !! uuid) as [t|] eqn:E; [|done].
    etrans; [apply sessions_lighter, lighter_set_deadline|].
    unfold sessions in *. rewrite zset_zput_eq, size_insert_member by done. done.
  - rewrite count_run. cbn [snd]. etrans; [apply sessions_lighter, lighter_fresh|done].
  - by rewrite is_active_run.
  - etrans; [|exact Hm]. unfold sessions. pose proof (run_cmd_other key c m Hc). lia.
Qed.

(** ** On a server that obeys the laws *)

Section Properties.
Context {S : Type} {R : RedisOps S} {abs : S → rdb} {L : RedisLaws R abs}.

Lemma refines_register key M idle uuid :
  refines abs (registerSessionScript key M idle uuid) (registerSessionScript key M idle uuid).
Proof. unfold registerSessionScript. solve_refines. Qed.

Lemma refines_refresh_session key idle uuid :
  refines abs (refreshSessionScript key idle uuid) (refreshSessionScript key idle uuid).
Proof. unfold refreshSessionScript. solve_refines. Qed.

Lemma refines_session_count key idle :
  refines abs (getActiveSessionCountScript key idle) (getActiveSessionCountScript key idle).
Proof. unfold getActiveSessionCountScript. solve_refines. Qed.

Lemma refines_is_active key idle uuid :
  refines abs (isSessionActiveScript key idle uuid) (isSessionActiveScript key idle uuid).
Proof. unfold isSessionActiveScript. solve_refines. Qed.

Lemma session_step_abs key M s s' :
  session_step key M s s' → session_step key M (abs s) (abs s').
Proof.
  intros [].
  - rewrite (refines_snd _ _ _ _ (refines_register key M idle uuid)). apply step_register.
  - rewrite (refines_snd _ _ _ _ (refines_refresh_session key idle uuid)). apply step_refresh.
  - rewrite (refines_snd _ _ _ _ (refines_session_count key idle)). apply step_session_count.
  - rewrite (refines_snd _ _ _ _ (refines_is_active key idle uuid)). apply step_is_active.
  - rewrite (refines_snd _ _ _ _ (refines_run_cmd c)). by apply step_elsewhere.
Qed.

(** C16: whatever the order in which any number of processes register, refresh, count and look
    up sessions of an account, and however time passes, no more sessions than the limit are
    kept for it. *)
Theorem sessions_never_exceed_limit accountID M s s' :
  rtc (session_step (sessionLimitKey accountID) M) s s' →
  sessions (abs s) (sessionLimitKey accountID) ≤ M →
  sessions (abs s') (sessionLimitKey accountID) ≤ M.
Proof.
  intros Hs. induction Hs as [|s s1 s2 H1 _ IH]; [done|].
  intros H. apply IH. eapply session_step_bound; [by apply session_step_abs|done].
Qed.

(** a session is let in exactly when it is active already or an active session's place is
    free; let in, it is active from then on and no other session is affected; refused, nothing
    but expired sessions is dropped. *)
Theorem register_session_spec accountID M idle uuid s :
  0 ≤ idle →
  let key := sessionLimitKey accountID in
  let m := abs s in
  let ok := admits m key M idle uuid in
  let m' := abs (registerSessionScript key M idle uuid s).2 in
  (registerSessionScript key M idle uuid s).1 = LScalar (LInt (if ok then 1 else 0)) ∧
  zset m' key = (if ok then <[uuid := now_s m]> (active m key idle) else active m key idle) ∧
  (∀ k, k ≠ key → zset m' k = zset m k) ∧ strs m' = strs m ∧ now_s m' = now_s m.
Proof.
  intros Hidle. cbv zeta.
  rewrite (refines_fst _ _ _ s (refines_register (sessionLimitKey accountID) M idle uuid)).
  rewrite (refines_snd _ _ _ s (refines_register (sessionLimitKey accountID) M idle uuid)).
  rewrite register_run. cbv zeta. destruct (admits _ _ M idle uuid); cbn [fst snd].
  - rewrite strs_set_deadline, !strs_zput, now_s_set_deadline, !now_s_zput by lia.
    split_and!; try done; [by zsets|]. intros k Hk. by zsets.
  - rewrite strs_zput, now_s_zput. split_and!; try done; [by zsets|]. intros k Hk. by zsets.
Qed.

(** The cache fails open: whenever [RegisterSession] reports an error, whatever the network
    did, the request is let through; and without a session or a limit it never asks. *)
Theorem register_session_fails_open c accountID uuid M idle (w : world S) :
  let '(ok, err) := (RegisterSession c accountID uuid M idle w).1 in
  (err ≠ None → ok = true) ∧
  (uuid = ""%string ∨ M ≤ 0 →
   (ok, err) = (true, None) ∧ (RegisterSession c accountID uuid M idle w).2 = w).
Proof.
  unfold RegisterSession.
  destruct ((uuid =? "")%string || (M <=? 0)) eqn:E; [by split|].
  unfold mbind, St_bind. destruct (runScript _ w) as [r w'].
  assert (Hno : ¬ (uuid = ""%string ∨ M ≤ 0)).
  { apply orb_false_iff in E as [E1 E2]. apply String.eqb_neq in E1. apply Z.leb_gt in E2.
    intros [?|?]; [done|lia]. }
  destruct (script_int r); cbn; by split.
Qed.
End Properties.

Lemma sessions_never_exceed_limit_witness :
  sessions (registerSessionScript (sessionLimitKey 7) 1 300 "b"
    (registerSessionScript (sessionLimitKey 7) 1 300 "a" (empty_rdb 1000000000)).2).2
    (sessionLimitKey 7) ≤ 1.
Proof.
  apply (sessions_never_exceed_limit (L:=MemRedis_laws) 7 1 (empty_rdb 1000000000)
    (registerSessionScript (sessionLimitKey 7) 1 300 "b"
      (registerSessionScript (sessionLimitKey 7) 1 300 "a" (empty_rdb 1000000000)).2).2).
  - eapply rtc_l; [apply (step_register _ _ 300 "a")|].
    apply rtc_once. apply (step_register _ _ 300 "b").
  - vm_compute. congruence.
Defined.

Lemma register_session_spec_witness :
  (registerSessionScript (sessionLimitKey 7) 1 300 "b"
    (Rdb {[ sessionLimitKey 7 := {[ "a" := 900 ]} ]} ∅ ∅ 1000000000)).1 = LScalar (LInt 0).
Proof.
  destruct (register_session_spec (L:=MemRedis_laws) 7 1 300 "b"
    (Rdb {[ sessionLimitKey 7 := {[ "a" := 900 ]} ]} ∅ ∅ 1000000000)) as [H _]; [lia|].
  rewrite H. vm_compute. reflexivity.
Defined.
