(* ===== verification/UserMsgQueue.v ===== *)
(** * UserMsgQueue: the serial lock of an account's user messages

    Models [backend/internal/repository/user_msg_queue_cache.go].  Warnings that are only logged
    leave no trace. *)

From stdpp Require Import base tactics numbers list strings gmap.
From Stdlib Require Import ZArith Lia.
From S2P Require Import Prelude GoLib Redis ConcurrencyCache.

Local Open Scope Z_scope.

Definition umqKeyPrefix : string := "umq:".
Definition umqLockSuffix : string := ":lock".
Definition umqLastSuffix : string := ":last".
Definition umqLockIndexKey : string := "umq:lock:index".
Definition umqLockIndexCleanupBatchSize : Z := 1000.

Definition umqLockKey (accountID : Z) : string :=
  umqKeyPrefix +:+ "{" +:+ FormatInt accountID +:+ "}" +:+ umqLockSuffix.
Definition umqLastKey (accountID : Z) : string :=
  umqKeyPrefix +:+ "{" +:+ FormatInt accountID +:+ "}" +:+ umqLastSuffix.

Section Scripts.
Context {S : Type} `{R : RedisOps S}.

(** Milliseconds of the server's clock, as the scripts compute them. *)
Definition time_ms (t : Z * Z) : Z := t.1 * 1000 + t.2 / 1000.

(** SET with an expiry that is not positive is an error of the server. *)
Definition acquireLockScript (key requestID : string) (ttl : Z) : St S lua_value :=
  cur ← GET key;
  match cur with
  | Some holder =>
      if (holder =? requestID)%string then
        _ ← PEXPIRE key ttl;
        t ← TIME;
        mret (LArray [LInt 1; LInt (time_ms t + ttl)])
      else
        t ← TIME;
        pttl ← PTTL key;
        if 0 <? pttl then mret (LArray [LInt 0; LInt (time_ms t + pttl)])
        else mret (LArray [LInt 0; LInt (time_ms t)])
  | None =>
      if ttl <=? 0 then mret (LError "ERR invalid expire time in 'set' command") else
      _ ← SET key requestID (Some ttl);
      t ← TIME;
      mret (LArray [LInt 1; LInt (time_ms t + ttl)])
  end.

Definition releaseLockScript (lockKey lastKey requestID : string) : St S lua_value :=
  cur ← GET lockKey;
  match cur with
  | Some holder =>
      if (holder =? requestID)%string then
        _ ← DEL lockKey;
        t ← TIME;
        _ ← SET lastKey (FormatInt (time_ms t)) (Some 60000);
        mret (LScalar (LInt 1))
      else mret (LScalar (LInt 0))
  | None => mret (LScalar (LInt 0))
  end.

Definition reconcileLockScript (key : string) : St S lua_value :=
  pttl ← PTTL key;
  if pttl =? -2 then mret (LArray [LInt (-2); LInt 0]) else
  if pttl =? -1 then _ ← DEL key; mret (LArray [LInt (-1); LInt 0]) else
  mret (LArray [LInt 1; LInt pttl]).
End Scripts.

Section Methods.
Context {S : Type} `{R : RedisOps S}.

Definition AcquireLock (accountID : Z) (requestID : string) (lockTtlMs : Z)
    : IO S (bool * option error) :=
  let key := umqLockKey accountID in
  result ← runScript (acquireLockScript key requestID lockTtlMs);
  match result with
  | inl err => mret (false, Some (EWrap "umq acquire lock" err))
  | inr result =>
      match redisScriptInt64At result 0 with
      | inl err => mret (false, Some (EWrap "umq parse acquire lock result" err))
      | inr acquired =>
          match redisScriptInt64At result 1 with
          | inl err => mret (false, Some (EWrap "umq parse acquire lock expire" err))
          | inr expireAtMs =>
              _ ← (if 0 <? expireAtMs
                   then _ ← roundtrip (ZADD umqLockIndexKey [(expireAtMs, FormatInt accountID)]);
                        mret tt
                   else mret tt);
              mret (acquired =? 1, None)
          end
      end
  end.

Definition ReleaseLock (accountID : Z) (requestID : string) : IO S (bool * option error) :=
  r ← runScript (releaseLockScript (umqLockKey accountID) (umqLastKey accountID) requestID);
  match script_int r with
  | inl err => mret (false, Some (EWrap "umq release lock" err))
  | inr result =>
      _ ← (if result =? 1
           then _ ← roundtrip (ZREM umqLockIndexKey [FormatInt accountID]); mret tt
           else mret tt);
      mret (result =? 1, None)
  end.

Definition GetLastCompletedMs (accountID : Z) : IO S (Z * option error) :=
  r ← roundtrip (GET (umqLastKey accountID));
  match r with
  | inl err => mret (0, Some (EWrap "umq get last completed" err))
  | inr None => mret (0, None)
  | inr (Some val) =>
      match ParseInt val with
      | None => mret (0, Some (EWrap "umq parse last completed" (Err "strconv.ParseInt")))
      | Some ms => mret (ms, None)
      end
  end.

Definition GetCurrentTimeMs : IO S (Z * option error) :=
  r ← roundtrip TIME;
  match r with
  | inl err => mret (0, Some (EWrap "umq get redis time" err))
  | inr t => mret (time_ms t, None)
  end.

Definition removeLockIndexMember (member : string) : IO S unit :=
  _ ← roundtrip (ZREM umqLockIndexKey [member]); mret tt.

(** The loop over the candidates: the number of locks cleaned, and the error that ended it. *)
Fixpoint reconcileMembers (nowMs : Z) (members : list string) (cleaned : Z)
    : IO S (Z * option error) :=
  match members with
  | [] => mret (cleaned, None)
  | member :: members' =>
      match ParseInt member with
      | None => _ ← removeLockIndexMember member; reconcileMembers nowMs members' cleaned
      | Some accountID =>
          if accountID <=? 0 then
            _ ← removeLockIndexMember member; reconcileMembers nowMs members' cleaned
          else
            result ← runScript (reconcileLockScript (umqLockKey accountID));
            match result with
            | inl err => mret (cleaned, Some (EWrap "umq reconcile lock" err))
            | inr result =>
                match redisScriptInt64At result 0 with
                | inl err => mret (cleaned, Some (EWrap "umq parse reconcile status" err))
                | inr status =>
                    match redisScriptInt64At result 1 with
                    | inl err => mret (cleaned, Some (EWrap "umq parse reconcile pttl" err))
                    | inr pttl =>
                        if status =? -2 then
                          _ ← removeLockIndexMember member;
                          reconcileMembers nowMs members' cleaned
                        else if status =? -1 then
                          _ ← removeLockIndexMember member;
                          reconcileMembers nowMs members' (int64_add cleaned 1)
                        else if status =? 1 then
                          _ ← roundtrip (ZADD umqLockIndexKey [(int64_add nowMs pttl, member)]);
                          reconcileMembers nowMs members' cleaned
                        else reconcileMembers nowMs members' cleaned
                    end
                end
            end
      end
  end.

Definition ReconcileExpiredLockCandidates (maxCount : Z) : IO S (Z * option error) :=
  let maxCount := if maxCount <=? 0 then umqLockIndexCleanupBatchSize else maxCount in
  '(nowMs, err) ← GetCurrentTimeMs;
  match err with
  | Some err => mret (0, Some err)
  | None =>
      members ← roundtrip (ZRANGEBYSCORE umqLockIndexKey nowMs maxCount);
      match members with
      | inl err => mret (0, Some (EWrap "umq read lock index" err))
      | inr members => reconcileMembers nowMs members 0
      end
  end.
End Methods.
