(* ===== verification/UserMsgQueueFacts.v ===== *)
(** * UserMsgQueueFacts: the serial lock of an account

    Mutual exclusion for the lock's time to live against everything other requests, the cleanup
    and time can do, and what the scripts answer. *)

From stdpp Require Import base tactics numbers list strings gmap sorting pretty relations.
From Stdlib Require Import ZArith Lia.
From S2P Require Import Prelude GoLib Redis ConcurrencyCache SlotFacts UserMsgQueue.

Local Open Scope Z_scope.

(** ** The scripts over the data model *)

Lemma time_ms_now m : time_ms (now_s m, micros m `mod` 1000000) = now_ms m.
Proof.
  unfold time_ms, now_s, now_ms. cbn [fst snd].
  rewrite <- (Z.div_add_l _ 1000) by lia. f_equal.
  pose proof (Z.div_mod (micros m) 1000000). lia.
Qed.

(** The lock is held by a request until a time in milliseconds. *)
Definition held (m : rdb) (key requestID : string) (until : Z) : Prop :=
  strs m !! key = Some requestID ∧ deadlines m !! key = Some until.

Definition with_lock (key requestID : string) (until : Z) (m : rdb) : rdb :=
  Rdb (zsets m) (<[key := requestID]> (strs m)) (<[key := until]> (deadlines m)) (micros m).

Lemma acquire_lock_free key requestID ttl m :
  strs m !! key = None → 0 < ttl →
  acquireLockScript key requestID ttl m =
    (LArray [LInt 1; LInt (now_ms m + ttl)], with_lock key requestID (now_ms m + ttl) m).
Proof.
  intros Hf Ht. unfold acquireLockScript, mbind, St_bind. cbn. rewrite Hf.
  destruct (Z.leb_spec ttl 0); [lia|]. cbn. fold (now_ms m).
  change (now_s (Rdb _ _ _ (micros m))) with (now_s m).
  by rewrite time_ms_now.
Qed.

Lemma acquire_lock_busy key requestID other ttl m until :
  held m key other until → other ≠ requestID → now_ms m < until →
  acquireLockScript key requestID ttl m = (LArray [LInt 0; LInt until], m).
Proof.
  intros [Hs Hd] Hne Hn. unfold acquireLockScript, mbind, St_bind. cbn. rewrite Hs.
  apply String.eqb_neq in Hne. rewrite Hne. cbn.
  assert (E : exists_key m key = true).
  { unfold exists_key. rewrite Hs. by rewrite orb_true_r. }
  rewrite E, Hd. destruct (Z.ltb_spec 0 (until - now_ms m)); [|lia].
  cbn. rewrite time_ms_now. do 2 f_equal. f_equal. f_equal. f_equal. lia.
Qed.

Lemma release_other key last requestID other m until :
  held m key other until → other ≠ requestID →
  releaseLockScript key last requestID m = (LScalar (LInt 0), m).
Proof.
  intros [Hs _] Hne. unfold releaseLockScript, mbind, St_bind. cbn. rewrite Hs.
  apply String.eqb_neq in Hne. by rewrite Hne.
Qed.

Lemma release_own key last requestID m :
  strs m !! key = Some requestID → key ≠ last →
  (releaseLockScript key last requestID m).1 = LScalar (LInt 1) ∧
  strs (releaseLockScript key last requestID m).2 !! key = None ∧
  strs (releaseLockScript key last requestID m).2 !! last = Some (FormatInt (now_ms m)).
Proof.
  intros Hs Hne. unfold releaseLockScript, mbind, St_bind. cbn. rewrite Hs, String.eqb_refl. cbn.
  change (now_s (remove_key key m), micros m `mod` 1000000) with
    (now_s m, micros m `mod` 1000000). rewrite time_ms_now.
  by rewrite lookup_insert_ne, lookup_delete_eq, lookup_insert_eq by done.
Qed.

(** The cleanup deletes a lock without a deadline and leaves every other as it is. *)
Lemma reconcile_run key m :
  reconcileLockScript key m =
    if exists_key m key then
      match deadlines m !! key with
      | None => (LArray [LInt (-1); LInt 0], remove_key key m)
      | Some d =>
          let pttl := d - now_ms m in
          if pttl =? -2 then (LArray [LInt (-2); LInt 0], m)
          else if pttl =? -1 then (LArray [LInt (-1); LInt 0], remove_key key m)
          else (LArray [LInt 1; LInt pttl], m)
      end
    else (LArray [LInt (-2); LInt 0], m).
Proof.
  unfold reconcileLockScript, mbind, St_bind. cbn.
  destruct (exists_key m key); [|done]. destruct (deadlines m !! key) as [d|]; [|done].
  cbv zeta. destruct (d - now_ms m =? -2); [done|]. by destruct (d - now_ms m =? -1).
Qed.

(** ** What others can do while a request holds the lock *)

Section Steps.
Context {S : Type} `{R : RedisOps S}.
Variables (key owner : string).

(** Acquisitions and releases of other requests (of this lock), the cleanup, commands on other
    keys, and time. *)
Inductive lock_step : S → S → Prop :=
| step_contend requestID ttl s :
    requestID ≠ owner → lock_step s (acquireLockScript key requestID ttl s).2
| step_other_release last requestID s :
    requestID ≠ owner → lock_step s (releaseLockScript key last requestID s).2
| step_reconcile s : lock_step s (reconcileLockScript key s).2
| step_unrelated c s :
    cmd_key c ≠ Some key → (∀ d, c = CTick d → 0 ≤ d) → lock_step s (run_cmd c s).2.
End Steps.

Lemma incr_by_key d k m key :
  k ≠ key → strs (incr_by d k m).2 !! key = strs m !! key ∧
  deadlines (incr_by d k m).2 !! key = deadlines m !! key.
Proof.
  intros Hne. unfold incr_by. destruct (ParseInt _) as [v|]; [|done].
  destruct (in_int64 (v + d)); [|done]. cbn. by rewrite lookup_insert_ne.
Qed.

Lemma held_set_deadline k ms m key r until :
  k ≠ key → held m key r until → held (set_deadline k ms m) key r until.
Proof.
  intros Hne [Hs Hd]. unfold set_deadline. destruct (exists_key m k); [|done].
  destruct (ms <=? 0); split; cbn; rewrite ?lookup_delete_ne, ?lookup_insert_ne by done; done.
Qed.

Lemma held_zput k z m key r until : k ≠ key → held m key r until → held (zput k z m) key r until.
Proof.
  intros Hne [Hs Hd]. unfold zput. destruct (decide (z = ∅)); split; cbn;
    rewrite ?lookup_delete_ne by done; done.
Qed.

(** Commands on other keys, and time before the deadline, leave the lock alone. *)
Lemma held_run_cmd c m key r until :
  cmd_key c ≠ Some key → held m key r until → now_ms (run_cmd c m).2 ≤ until →
  held (run_cmd c m).2 key r until.
Proof.
  intros Hk Hh Hn.
  assert (Hne : ∀ k, cmd_key c = Some k → k ≠ key) by congruence.
  destruct c as [k l|k l|k hi|k s|k ms|k v px|k|k|k|d]; cbn [cmd_key] in Hne;
    unfold run_cmd, mbind, St_bind in *; cbn -[set_deadline incr_by tick] in *;
    try specialize (Hne k eq_refl).
  - by apply held_zput.
  - by apply held_zput.
  - by apply held_zput.
  - by apply held_set_deadline.
  - by apply held_set_deadline.
  - destruct Hh as [Hs Hd]. split; cbn; [by rewrite lookup_insert_ne|].
    destruct px; by rewrite ?lookup_insert_ne, ?lookup_delete_ne.
  - destruct Hh as [Hs Hd]. split; cbn; by rewrite lookup_delete_ne.
  - destruct Hh as [Hs Hd]. destruct (incr_by_key 1 k m key Hne) as [E1 E2].
    destruct (incr_by 1 k m) as [o m']. split; cbn in *; congruence.
  - destruct Hh as [Hs Hd]. destruct (incr_by_key (-1) k m key Hne) as [E1 E2].
    destruct (incr_by (-1) k m) as [o m']. split; cbn in *; congruence.
  - destruct Hh as [Hs Hd]. unfold tick in *. cbn in Hn.
    assert (E : ∀ (A : Type) (x : A), expired (Rdb (zsets m) (strs m) (deadlines m) (micros m + d))
      ((key, x).1) = false).
    { intros A x. unfold expired. cbn. rewrite Hd. apply Z.ltb_ge. exact Hn. }
    split; cbn; apply map_lookup_filter_Some; split; try done; apply E.
Qed.

Lemma now_ms_run_cmd c m : (∀ d, c = CTick d → 0 ≤ d) → now_ms m ≤ now_ms (run_cmd c m).2.
Proof.
  intros Ht.
  assert (Hd : ∀ k ms, now_ms (set_deadline k ms m) = now_ms m)
    by (intros; unfold now_ms; by rewrite micros_set_deadline).
  assert (Hz : ∀ k z, now_ms (zput k z m) = now_ms m)
    by (intros; unfold now_ms; by rewrite micros_zput).
  assert (Hi : ∀ d k, now_ms (incr_by d k m).2 = now_ms m)
    by (intros; unfold incr_by, now_ms; by repeat (case_match; cbn)).
  destruct c as [k l|k l|k hi|k s|k ms|k v px|k|k|k|d]; unfold run_cmd, mbind, St_bind;
    cbn -[set_deadline incr_by tick]; rewrite ?Hd, ?Hz; try done.
  - specialize (Hi 1 k). destruct (incr_by 1 k m); cbn in *. by rewrite Hi.
  - specialize (Hi (-1) k). destruct (incr_by (-1) k m); cbn in *. by rewrite Hi.
  - specialize (Ht d eq_refl). unfold now_ms, tick. cbn. apply Z.div_le_mono; lia.
Qed.

Lemma held_step key owner until m m' :
  lock_step key owner m m' → held m key owner until → now_ms m' < until →
  held m' key owner until ∧ now_ms m ≤ now_ms m'.
Proof.
  intros Hs Hh Hn. destruct Hs as [requestID ttl m Hne|last requestID m Hne|m|c m Hk Ht].
  - assert (Hm : now_ms m < until).
    { revert Hn. unfold acquireLockScript, mbind, St_bind. cbn. destruct Hh as [Hs _].
      rewrite Hs. destruct (String.eqb_spec owner requestID); [congruence|].
      cbn. by case_match. }
    rewrite (acquire_lock_busy key requestID owner ttl m until) in * by done. by split.
  - rewrite (release_other key last requestID owner m until) in * by done. by split.
  - rewrite reconcile_run in *. destruct Hh as [Hs Hd].
    assert (E : exists_key m key = true) by (unfold exists_key; rewrite Hs; by rewrite orb_true_r).
    rewrite E, Hd in *. cbv zeta in *.
    destruct (Z.eqb_spec (until - now_ms m) (-2)); [by cbn in *; split|].
    destruct (Z.eqb_spec (until - now_ms m) (-1)) as [E1|]; [|by cbn in *; split].
    cbn in Hn. change (now_ms (remove_key key m)) with (now_ms m) in Hn. lia.
  - split; [apply held_run_cmd; [done|done|lia]|by apply now_ms_run_cmd].
Qed.

(** ** On a server that obeys the laws *)

Lemma lock_last_ne accountID : umqLockKey accountID ≠ umqLastKey accountID.
Proof.
  unfold umqLockKey, umqLastKey. intros E. apply string_app_inj_l in E.
  apply string_app_inj_l in E. apply string_app_inj_l in E. apply string_app_inj_l in E.
  discriminate.
Qed.

Section Properties.
Context {S : Type} {R : RedisOps S} {abs : S → rdb} {L : RedisLaws R abs}.

Lemma refines_acquire_lock key r ttl :
  refines abs (acquireLockScript key r ttl) (acquireLockScript key r ttl).
Proof. unfold acquireLockScript. solve_refines. Qed.

Lemma refines_release_lock key last r :
  refines abs (releaseLockScript key last r) (releaseLockScript key last r).
Proof. unfold releaseLockScript. solve_refines. Qed.

Lemma refines_reconcile key :
  refines abs (reconcileLockScript key) (reconcileLockScript key).
Proof. unfold reconcileLockScript. solve_refines. Qed.

Lemma lock_step_abs key owner s s' :
  lock_step key owner s s' → lock_step key owner (abs s) (abs s').
Proof.
  intros [r ttl s0 Hne|k r s0 Hne|s0|c s0 Hk Ht].
  - rewrite (refines_snd _ _ _ _ (refines_acquire_lock key r ttl)). by apply step_contend.
  - rewrite (refines_snd _ _ _ _ (refines_release_lock key k r)).
    by apply step_other_release.
  - rewrite (refines_snd _ _ _ _ (refines_reconcile key)). apply step_reconcile.
  - rewrite (refines_snd _ _ _ _ (refines_run_cmd c)). by apply step_unrelated.
Qed.

Lemma held_steps key owner until s s' :
  rtc (lock_step key owner) s s' → held (abs s) key owner until → now_ms (abs s') < until →
  held (abs s') key owner until ∧ now_ms (abs s) ≤ now_ms (abs s').
Proof.
  intros Hs Hh Hn. induction Hs as [|s s1 s2 H1 Hs IH]; [by split|].
  apply lock_step_abs in H1.
  assert (Hmid : now_ms (abs s1) ≤ now_ms (abs s2)).
  { clear IH Hh H1. induction Hs as [|a b c Hab _ IH]; [done|].
    etrans; [|by apply IH]. apply lock_step_abs in Hab.
    destruct Hab as [requestID ttl m _|last requestID m _|m|cm m _ Ht].
    - unfold acquireLockScript, mbind, St_bind. cbn.
      repeat (case_match; cbn -[set_deadline]; try done).
      unfold now_ms. by rewrite micros_set_deadline.
    - unfold releaseLockScript, mbind, St_bind. cbn. by repeat (case_match; cbn; try done).
    - rewrite reconcile_run. cbv zeta. by repeat (case_match; cbn; try done).
    - by apply now_ms_run_cmd. }
  destruct (held_step key owner until _ _ H1 Hh ltac:(lia)) as [Hh1 Hle].
  destruct (IH Hh1 Hn). split; [done|lia].
Qed.

(** C12: the serial lock of an account excludes: from the moment a request holds it until its
    time to live is over, whatever other requests, the cleanup and other users of Redis do, the
    lock stays its own; any other request that asks for it is refused and told when it ends, and
    any other request's release does nothing. *)
Theorem message_lock_excludes accountID owner other ttl until s s' :
  other ≠ owner → held (abs s) (umqLockKey accountID) owner until →
  rtc (lock_step (umqLockKey accountID) owner) s s' → now_ms (abs s') < until →
  held (abs s') (umqLockKey accountID) owner until ∧
  (acquireLockScript (umqLockKey accountID) other ttl s').1 = LArray [LInt 0; LInt until] ∧
  (releaseLockScript (umqLockKey accountID) (umqLastKey accountID) other s').1 =
    LScalar (LInt 0).
Proof.
  intros Hne Hh Hs Hn. destruct (held_steps _ _ _ _ _ Hs Hh Hn) as [Hh' _]. split; [done|].
  rewrite (refines_fst _ _ _ s' (refines_acquire_lock _ other ttl)).
  rewrite (refines_fst _ _ _ s' (refines_release_lock _ _ other)).
  rewrite (acquire_lock_busy _ other owner ttl (abs s') until) by done.
  by rewrite (release_other _ _ other owner (abs s') until).
Qed.

(** A free lock is taken by the first request that asks, for its time to live; its own
    release frees it and records when the message was done. *)
Theorem message_lock_lifecycle accountID owner ttl s :
  strs (abs s) !! umqLockKey accountID = None → 0 < ttl →
  let '(reply, s1) := acquireLockScript (umqLockKey accountID) owner ttl s in
  let '(reply', s2) := releaseLockScript (umqLockKey accountID) (umqLastKey accountID) owner s1 in
  reply = LArray [LInt 1; LInt (now_ms (abs s) + ttl)] ∧
  held (abs s1) (umqLockKey accountID) owner (now_ms (abs s) + ttl) ∧
  reply' = LScalar (LInt 1) ∧ strs (abs s2) !! umqLockKey accountID = None ∧
  strs (abs s2) !! umqLastKey accountID = Some (FormatInt (now_ms (abs s))).
Proof.
  intros Hf Ht.
  pose proof (refines_acquire_lock (umqLockKey accountID) owner ttl s) as Ha.
  destruct (acquireLockScript (umqLockKey accountID) owner ttl s) as [reply s1].
  rewrite (acquire_lock_free _ owner ttl (abs s) Hf Ht) in Ha. injection Ha as Hr Hs1.
  pose proof (refines_release_lock (umqLockKey accountID) (umqLastKey accountID) owner s1) as Hb.
  destruct (releaseLockScript _ _ owner s1) as [reply' s2]. cbn [fst snd] in *.
  rewrite <- Hr, <- Hs1 in *.
  set (m1 := with_lock (umqLockKey accountID) owner (now_ms (abs s) + ttl) (abs s)) in *.
  assert (Hown : strs m1 !! umqLockKey accountID = Some owner) by (cbn; by rewrite lookup_insert_eq).
  destruct (release_own _ (umqLastKey accountID) owner m1 Hown (lock_last_ne accountID))
    as (H1 & H2 & H3).
  rewrite Hb in H1, H2, H3. cbn [fst snd] in *.
  split_and!; try done. split; cbn; by rewrite lookup_insert_eq.
Qed.

(** The cleanup cannot take a lock that is about to end by itself, and always removes one
    that never would: a lock without a deadline is deleted, one with a deadline to come is left. *)
Theorem reconcile_removes_only_stuck_locks accountID owner s :
  strs (abs s) !! umqLockKey accountID = Some owner →
  let m' := abs (reconcileLockScript (umqLockKey accountID) s).2 in
  match deadlines (abs s) !! umqLockKey accountID with
  | None => strs m' !! umqLockKey accountID = None
  | Some until => now_ms (abs s) ≤ until → m' = abs s
  end.
Proof.
  intros Hs. cbv zeta. rewrite (refines_snd _ _ _ s (refines_reconcile _)), reconcile_run.
  assert (E : exists_key (abs s) (umqLockKey accountID) = true)
    by (unfold exists_key; rewrite Hs; by rewrite orb_true_r).
  rewrite E. destruct (deadlines (abs s) !! umqLockKey accountID) as [until|].
  - intros Hn. cbv zeta.
    destruct (Z.eqb_spec (until - now_ms (abs s)) (-2)); [lia|].
    by destruct (Z.eqb_spec (until - now_ms (abs s)) (-1)); [lia|].
  - cbn. by rewrite lookup_delete_eq.
Qed.
End Properties.

(** ** Samples *)

Definition locked_db : rdb :=
  Rdb ∅ {[ umqLockKey 7 := "req-1" ]} {[ umqLockKey 7 := 5000 ]} 1000000.

Definition contended_db : rdb :=
  (run_cmd (CTick 2000000) (acquireLockScript (umqLockKey 7) "req-2" 30000 locked_db).2).2.

Lemma message_lock_excludes_witness :
  held contended_db (umqLockKey 7) "req-1" 5000 ∧
  (acquireLockScript (umqLockKey 7) "req-3" 30000 contended_db).1 = LArray [LInt 0; LInt 5000] ∧
  (releaseLockScript (umqLockKey 7) (umqLastKey 7) "req-3" contended_db).1 = LScalar (LInt 0).
Proof.
  apply (message_lock_excludes (L:=MemRedis_laws) 7 "req-1" "req-3" 30000 5000 locked_db
    contended_db).
  - done.
  - by split.
  - eapply rtc_l; [apply (step_contend _ _ "req-2" 30000); done|].
    apply rtc_once. apply (step_unrelated _ _ (CTick 2000000)); [done|].
    intros d [= <-]. lia.
  - vm_compute. reflexivity.
Defined.

Lemma message_lock_lifecycle_witness :
  let '(reply, s1) := acquireLockScript (umqLockKey 7) "req-1" 30000 (empty_rdb 1000000) in
  let '(reply', s2) := releaseLockScript (umqLockKey 7) (umqLastKey 7) "req-1" s1 in
  reply = LArray [LInt 1; LInt (now_ms (id (empty_rdb 1000000)) + 30000)] ∧
  held (id s1) (umqLockKey 7) "req-1" (now_ms (id (empty_rdb 1000000)) + 30000) ∧
  reply' = LScalar (LInt 1) ∧ strs (id s2) !! umqLockKey 7 = None ∧
  strs (id s2) !! umqLastKey 7 = Some (FormatInt (now_ms (id (empty_rdb 1000000)))).
Proof.
  apply (message_lock_lifecycle (L:=MemRedis_laws) 7 "req-1" 30000 (empty_rdb 1000000));
    [done|lia].
Defined.

Lemma reconcile_removes_only_stuck_locks_witness :
  let m' := id (reconcileLockScript (umqLockKey 7) locked_db).2 in
  match deadlines (id locked_db) !! umqLockKey 7 with
  | None => strs m' !! umqLockKey 7 = None
  | Some until => now_ms (id locked_db) ≤ until → m' = id locked_db
  end.
Proof.
  apply (reconcile_removes_only_stuck_locks (L:=MemRedis_laws) 7 "req-1" locked_db). done.
Defined.
