(* ===== verification/RpmCache.v ===== *)
(** * RpmCache: requests per minute

    Models [backend/internal/repository/rpm_cache.go] and
    [backend/internal/repository/user_rpm_cache.go]. *)

From stdpp Require Import base tactics numbers list strings gmap.
From Stdlib Require Import ZArith Lia.
From S2P Require Import Prelude GoLib Redis.

Local Open Scope Z_scope.

Definition rpmKeyPrefix : string := "rpm:".
Definition rpmKeyTTL : Z := 120 * Second.
Definition userGroupRPMKeyPrefix : string := "rpm:ug:".
Definition userRPMKeyPrefix : string := "rpm:u:".
Definition userRPMKeyTTL : Z := 120 * Second.

Definition rpm_key (accountID minute : Z) : string :=
  rpmKeyPrefix +:+ FormatInt accountID +:+ ":" +:+ FormatInt minute.
Definition user_group_rpm_key (userID groupID minute : Z) : string :=
  userGroupRPMKeyPrefix +:+ FormatInt userID +:+ ":" +:+ FormatInt groupID +:+ ":" +:+
  FormatInt minute.
Definition user_rpm_key (userID minute : Z) : string :=
  userRPMKeyPrefix +:+ FormatInt userID +:+ ":" +:+ FormatInt minute.

(** The reply to GET as [.Int()] reads it: redis.Nil, an error, or the number. *)
Definition read_count (ctx : string) (r : error + option string) : Z * option error :=
  match r with
  | inl err => (0, Some (EWrap ctx err))
  | inr None => (0, None)
  | inr (Some v) =>
      match ParseInt v with
      | Some n => (n, None)
      | None => (0, Some (EWrap ctx (Err "strconv.Atoi: invalid syntax")))
      end
  end.

Section Methods.
Context {S : Type} `{R : RedisOps S}.

(** INCR and EXPIRE in one MULTI/EXEC transaction. *)
Definition count_txn (key : string) (ttl : Z) : St S (option Z) :=
  n ← INCR key;
  _ ← EXPIRE key (int_seconds ttl);
  mret n.

(** An INCR of what is no integer is its error. *)
Definition count_up (key : string) (ttl : Z) : IO S (error + Z) :=
  r ← roundtrip (count_txn key ttl);
  mret (match r with
        | inl err => inl err
        | inr None => inl (Err "ERR value is not an integer or out of range")
        | inr (Some n) => inr n
        end).

Definition serverMinute : IO S (Z * option error) :=
  r ← roundtrip TIME;
  match r with
  | inl err => mret (0, Some (EWrap "redis TIME" err))
  | inr t => mret (Z.quot t.1 60, None)
  end.

Definition currentMinuteKey (accountID : Z) : IO S (string * option error) :=
  '(minuteTS, err) ← serverMinute;
  match err with
  | Some err => mret ("", Some err)
  | None => mret (rpm_key accountID minuteTS, None)
  end.

Definition currentMinuteSuffix : IO S (string * option error) :=
  '(minuteTS, err) ← serverMinute;
  match err with
  | Some err => mret ("", Some err)
  | None => mret (FormatInt minuteTS, None)
  end.

Definition IncrementRPM (accountID : Z) : IO S (Z * option error) :=
  '(key, err) ← currentMinuteKey accountID;
  match err with
  | Some err => mret (0, Some (EWrap "rpm increment" err))
  | None =>
      r ← count_up key rpmKeyTTL;
      match r with
      | inl err => mret (0, Some (EWrap "rpm increment" err))
      | inr n => mret (n, None)
      end
  end.

Definition GetRPM (accountID : Z) : IO S (Z * option error) :=
  '(key, err) ← currentMinuteKey accountID;
  match err with
  | Some err => mret (0, Some (EWrap "rpm get" err))
  | None => r ← roundtrip (GET key); mret (read_count "rpm get" r)
  end.

(** The result is keyed by account; a reply that is no number counts as zero. *)
Definition GetRPMBatch (accountIDs : list Z) : IO S (gmap Z Z * option error) :=
  match accountIDs with
  | [] => mret (∅, None)
  | _ =>
      '(minuteSuffix, err) ← currentMinuteSuffix;
      match err with
      | Some err => mret (∅, Some (EWrap "rpm batch get" err))
      | None =>
          r ← pipeline (mapSt (λ id,
                v ← piped (GET (rpmKeyPrefix +:+ FormatInt id +:+ ":" +:+ minuteSuffix));
                mret (id, v)) accountIDs);
          match r with
          | inl err => mret (∅, Some (EWrap "rpm batch get" err))
          | inr cmds =>
              mret (foldl (λ m p, <[p.1 := default 0 (p.2 ≫= ParseInt)]> m) ∅ cmds, None)
          end
      end
  end.

(** ** Users and groups *)

Definition minuteTS : IO S (Z * option error) := serverMinute.

Definition atomicIncr (key : string) : IO S (Z * option error) :=
  r ← count_up key userRPMKeyTTL;
  match r with
  | inl err => mret (0, Some (EWrap "user rpm increment" err))
  | inr n => mret (n, None)
  end.

Definition IncrementUserGroupRPM (userID groupID : Z) : IO S (Z * option error) :=
  '(minute, err) ← minuteTS;
  match err with
  | Some err => mret (0, Some err)
  | None => atomicIncr (user_group_rpm_key userID groupID minute)
  end.

Definition IncrementUserRPM (userID : Z) : IO S (Z * option error) :=
  '(minute, err) ← minuteTS;
  match err with
  | Some err => mret (0, Some err)
  | None => atomicIncr (user_rpm_key userID minute)
  end.

Definition GetUserGroupRPM (userID groupID : Z) : IO S (Z * option error) :=
  '(minute, err) ← minuteTS;
  match err with
  | Some err => mret (0, Some err)
  | None =>
      r ← roundtrip (GET (user_group_rpm_key userID groupID minute));
      mret (read_count "user group rpm get" r)
  end.

Definition GetUserRPM (userID : Z) : IO S (Z * option error) :=
  '(minute, err) ← minuteTS;
  match err with
  | Some err => mret (0, Some err)
  | None =>
      r ← roundtrip (GET (user_rpm_key userID minute));
      mret (read_count "user rpm get" r)
  end.
End Methods.
