(* ===== verification/RpmFacts.v ===== *)
(** * RpmFacts: the request counters count every request

    Counters of different accounts, users, groups and minutes never share a key, and within the
    life of a key the replies to its requests are 1, 2, 3, ... whatever else goes on. *)

From stdpp Require Import base tactics numbers list strings gmap pretty.
From Stdlib Require Import ZArith Lia Ascii.
From S2P Require Import Prelude GoLib Redis SlotFacts RpmCache UserMsgQueueFacts.

Local Open Scope Z_scope.

(** ** Keys *)

(** What a request counts towards. *)
Inductive counter : Type :=
| AccountMinute (accountID minute : Z)
| UserGroupMinute (userID groupID minute : Z)
| UserMinute (userID minute : Z).

#[export] Instance counter_eq_dec : EqDecision counter.
Proof. solve_decision. Defined.

Definition counter_key (c : counter) : string :=
  match c with
  | AccountMinute a t => rpm_key a t
  | UserGroupMinute u g t => user_group_rpm_key u g t
  | UserMinute u t => user_rpm_key u t
  end.

Lemma digits_not_u z s t : FormatInt z +:+ s ≠ String "u" t.
Proof.
  destruct (decide (0 ≤ z)) as [Hz|Hz].
  - destruct (FormatInt_first z Hz) as (c & s' & -> & Hc). cbn. intros [= -> _].
    change (digit_val "u") with 69 in Hc. lia.
  - destruct z as [|p|p]; try lia. by cbn.
Qed.

#[export] Instance counter_key_inj : Inj (=) (=) counter_key.
Proof.
  assert (Hu : ∀ a t s, rpm_key a t ≠ rpmKeyPrefix +:+ String "u" s).
  { intros a t s E. apply string_app_inj_l in E. by apply digits_not_u in E. }
  intros [a t|u g t|u t] [a' t'|u' g' t'|u' t'] E; cbn in E; try (by apply Hu in E);
    try (symmetry in E; by apply Hu in E); try discriminate E.
  - apply string_app_inj_l, FormatInt_pair in E as [-> E]. by apply (inj FormatInt) in E as ->.
  - apply string_app_inj_l, FormatInt_pair in E as [-> E].
    apply FormatInt_pair in E as [-> E]. by apply (inj FormatInt) in E as ->.
  - apply string_app_inj_l, FormatInt_pair in E as [-> E]. by apply (inj FormatInt) in E as ->.
Qed.

(** ** Counting *)

Section Counting.
Context {S : Type} `{R : RedisOps S}.

(** A request that counts, a command on another key, time. *)
Inductive rpm_event : Type :=
| Counted (c : counter)
| Unrelated (c : cmd).

(** The reply to a counting request; the life of all counters is the same. *)
Definition rpm_do (e : rpm_event) : St S (option (counter * option Z)) :=
  match e with
  | Counted c => n ← count_txn (counter_key c) rpmKeyTTL; mret (Some (c, n))
  | Unrelated c => _ ← run_cmd c; mret None
  end.

Definition rpm_run (l : list rpm_event) : St S (list (option (counter * option Z))) :=
  mapSt rpm_do l.
End Counting.

(** The replies the requests of a counter got, in order. *)
Definition replies (c : counter) (l : list (option (counter * option Z))) : list (option Z) :=
  omap (λ r, match r with
             | Some (c', n) => if decide (c' = c) then Some n else None
             | None => None
             end) l.

Definition elapsed (e : rpm_event) : Z := match e with Unrelated (CTick d) => d | _ => 0 end.

Definition elapsed_total (l : list rpm_event) : Z := foldr Z.add 0 (elapsed <$> l).

(** Others do not touch the counter's key, and time does not run backwards. *)
Definition leaves_alone (key : string) (e : rpm_event) : Prop :=
  match e with
  | Counted _ => True
  | Unrelated c => cmd_key c ≠ Some key ∧ 0 ≤ elapsed e
  end.

Definition requests (c : counter) (l : list rpm_event) : nat :=
  length (omap (λ e, match e with
                     | Counted c' => if decide (c' = c) then Some tt else None
                     | Unrelated _ => None
                     end) l).

(** [n] requests are counted on a key that lives until [until] at least. *)
Definition counted (m : rdb) (key : string) (n : nat) (until : Z) : Prop :=
  match n with
  | O => strs m !! key = None
  | _ => ∃ d, held m key (FormatInt (Z.of_nat n)) d ∧ until ≤ d
  end.

Lemma micros_run_cmd c m : micros (run_cmd c m).2 = micros m + elapsed (Unrelated c).
Proof.
  assert (Hi : ∀ d k, micros (incr_by d k m).2 = micros m)
    by (intros; unfold incr_by; by repeat (case_match; cbn)).
  destruct c as [k l|k l|k hi|k s|k ms|k v px|k|k|k|d]; unfold run_cmd, mbind, St_bind;
    cbn -[set_deadline incr_by tick]; rewrite ?micros_set_deadline, ?micros_zput; try lia.
  - specialize (Hi 1 k). destruct (incr_by 1 k m). cbn in *. lia.
  - specialize (Hi (-1) k). destruct (incr_by (-1) k m). cbn in *. lia.
  - done.
Qed.

Lemma absent_run_cmd c m key :
  cmd_key c ≠ Some key → strs m !! key = None → strs (run_cmd c m).2 !! key = None.
Proof.
  intros Hk Hs. assert (Hne : ∀ k, cmd_key c = Some k → k ≠ key) by congruence.
  assert (Hz : ∀ k z, strs (zput k z m) = strs m) by (intros; unfold zput; by case_decide).
  assert (Hd : ∀ k ms, k ≠ key → strs (set_deadline k ms m) !! key = None).
  { intros k ms Hkk. unfold set_deadline. repeat case_match; cbn; try done.
    by rewrite lookup_delete_ne. }
  destruct c as [k l|k l|k hi|k s|k ms|k v px|k|k|k|d]; cbn [cmd_key] in Hne;
    unfold run_cmd, mbind, St_bind; cbn -[set_deadline incr_by tick];
    try specialize (Hne k eq_refl); rewrite ?Hz; auto.
  - by rewrite lookup_insert_ne.
  - by rewrite lookup_delete_ne.
  - destruct (incr_by_key 1 k m key Hne) as [E _]. destruct (incr_by 1 k m). cbn in *. congruence.
  - destruct (incr_by_key (-1) k m key Hne) as [E _]. destruct (incr_by (-1) k m). cbn in *.
    congruence.
  - cbn. apply map_lookup_filter_None. by left.
Qed.

Lemma counted_run_cmd c m key n until :
  cmd_key c ≠ Some key → counted m key n until → now_ms (run_cmd c m).2 ≤ until →
  counted (run_cmd c m).2 key n until.
Proof.
  intros Hk Hc Hn. destruct n as [|n]; [by apply absent_run_cmd|].
  destruct Hc as (d & Hh & Hd). exists d. split; [|done]. apply held_run_cmd; [done..|lia].
Qed.

(** INCR and EXPIRE on another key are commands of others. *)
Lemma count_txn_cmds key ttl m :
  (count_txn key ttl m).2 =
    (run_cmd (CExpire key (int_seconds ttl)) (run_cmd (CIncr key) m).2).2.
Proof.
  unfold count_txn, run_cmd, mbind, St_bind. cbn -[set_deadline incr_by].
  by destruct (incr_by 1 key m).
Qed.

Lemma count_txn_next key m n until :
  counted m key n until → Z.of_nat n + 1 < 2 ^ 63 → until ≤ now_ms m + 120000 →
  (count_txn key rpmKeyTTL m).1 = Some (Z.of_nat n + 1) ∧
  counted (count_txn key rpmKeyTTL m).2 key (n + 1)%nat until ∧
  micros (count_txn key rpmKeyTTL m).2 = micros m.
Proof.
  intros Hc Hn Hu.
  assert (E : incr_by 1 key m = (Some (Z.of_nat n + 1),
    Rdb (zsets m) (<[key := FormatInt (Z.of_nat n + 1)]> (strs m)) (deadlines m) (micros m))).
  { unfold incr_by.
    assert (ParseInt (default "0" (strs m !! key)) = Some (Z.of_nat n)) as ->.
    { destruct n as [|n]; [by rewrite Hc|]. destruct Hc as (d & [-> _] & _). cbn [default from_option].
      apply ParseInt_FormatInt. unfold int64_range. lia. }
    assert (in_int64 (Z.of_nat n + 1) = true) as -> by (apply in_int64_spec; unfold int64_range; lia).
    done. }
  set (m1 := Rdb _ _ _ _) in E.
  assert (Hex : exists_key m1 key = true).
  { unfold exists_key, m1. cbn [strs]. rewrite (lookup_insert_eq (strs m)). by rewrite orb_true_r. }
  assert (Er : count_txn key rpmKeyTTL m =
    (Some (Z.of_nat n + 1), set_deadline key 120000 m1)).
  { unfold count_txn, mbind, St_bind. change (INCR key m) with (incr_by 1 key m).
    rewrite E. done. }
  rewrite Er. unfold set_deadline. rewrite Hex. change (120000 <=? 0) with false. cbn [fst snd micros].
  split_and!; [done| |done]. replace (n + 1)%nat with (Datatypes.S n) by lia.
  exists (now_ms m + 120000). split; [|done].
  split; unfold m1; cbn [strs deadlines]; rewrite lookup_insert_eq; [|done].
  by replace (Z.of_nat (Datatypes.S n)) with (Z.of_nat n + 1) by lia.
Qed.

Lemma requests_one c c' : requests c [Counted c'] = if decide (c' = c) then 1%nat else 0%nat.
Proof. unfold requests. simpl. by destruct (decide (c' = c)). Qed.

Lemma replies_one c c' n :
  replies c [Some (c', n)] = if decide (c' = c) then [n] else [].
Proof. unfold replies. simpl. by destruct (decide (c' = c)). Qed.

Lemma micros_rpm_do e m : micros (rpm_do e m).2 = micros m + elapsed e.
Proof.
  destruct e as [c|c]; unfold rpm_do, mbind, St_bind.
  - pose proof (count_txn_cmds (counter_key c) rpmKeyTTL m) as E.
    destruct (count_txn (counter_key c) rpmKeyTTL m). cbn [fst snd mret St_ret elapsed] in *.
    rewrite E, !micros_run_cmd. cbn. lia.
  - pose proof (micros_run_cmd c m) as E. by destruct (run_cmd c m).
Qed.

(** One event: the reply, and the count afterwards. *)
Lemma rpm_do_step c e m n until :
  leaves_alone (counter_key c) e → counted m (counter_key c) n until →
  Z.of_nat (n + requests c [e]) < 2 ^ 63 → now_ms (rpm_do e m).2 ≤ until → until ≤ now_ms m + 120000 →
  counted (rpm_do e m).2 (counter_key c) (n + requests c [e]) until ∧
  replies c [(rpm_do e m).1] = (λ k, Some (Z.of_nat k)) <$> seq (n + 1) (requests c [e]).
Proof.
  intros Hl Hc Hn Ht Hu. destruct e as [c'|cm].
  - unfold rpm_do, mbind, St_bind in *. rewrite requests_one.
    destruct (decide (c' = c)) as [->|Hne].
    + rewrite requests_one, decide_True in Hn by done.
      destruct (count_txn_next (counter_key c) m n until Hc ltac:(lia) Hu) as (E1 & E2 & _).
      destruct (count_txn (counter_key c) rpmKeyTTL m) as [r m'].
      cbn [fst snd mret St_ret] in *. subst r. rewrite replies_one, decide_True by done.
      split; [done|]. cbn. do 2 f_equal. lia.
    + assert (Hk : counter_key c' ≠ counter_key c) by (intros E; by apply (inj counter_key) in E).
      pose proof (count_txn_cmds (counter_key c') rpmKeyTTL m) as E.
      pose proof (micros_run_cmd (CIncr (counter_key c')) m) as Hm1.
      pose proof (micros_run_cmd (CExpire (counter_key c') (int_seconds rpmKeyTTL))
        (run_cmd (CIncr (counter_key c')) m).2) as Hm2.
      rewrite Hm1, <- E in Hm2. cbn [elapsed] in *.
      destruct (count_txn (counter_key c') rpmKeyTTL m) as [r m'].
      cbn [fst snd mret St_ret] in *. rewrite replies_one, !decide_False by done. split; [|done].
      rewrite Nat.add_0_r, E.
      assert (Hn1 : now_ms (run_cmd (CIncr (counter_key c')) m).2 ≤ until)
        by (unfold now_ms in *; rewrite Hm1; cbn [elapsed]; rewrite Hm2, !Z.add_0_r in Ht;
          by rewrite Z.add_0_r).
      apply counted_run_cmd; [cbn; congruence| |by rewrite <- E].
      apply counted_run_cmd; [cbn; congruence|done|done].
  - destruct Hl as [Hk He]. unfold rpm_do, mbind, St_bind in *.
    pose proof (counted_run_cmd cm m _ n until Hk Hc) as Hr.
    destruct (run_cmd cm m) as [u m']. cbn in *. rewrite Nat.add_0_r. auto.
Qed.

Lemma replies_cons c r l : replies c (r :: l) = replies c [r] ++ replies c l.
Proof. unfold replies. by rewrite <- omap_app. Qed.

Lemma requests_cons c e l : requests c (e :: l) = (requests c [e] + requests c l)%nat.
Proof. unfold requests. change (e :: l) with ([e] ++ l) at 1. by rewrite omap_app, length_app. Qed.

Lemma elapsed_nonneg key l : Forall (leaves_alone key) l → 0 ≤ elapsed_total l.
Proof.
  unfold elapsed_total. induction 1 as [|[c|c] l He _ IH]; cbn in *; [lia..|].
  destruct He as [_ He]. lia.
Qed.

Lemma rpm_run_counts c l m n until :
  counted m (counter_key c) n until → Forall (leaves_alone (counter_key c)) l →
  (micros m + elapsed_total l) / 1000 ≤ until → until ≤ now_ms m + 120000 →
  Z.of_nat (n + requests c l) < 2 ^ 63 →
  replies c (rpm_run l m).1 = (λ k, Some (Z.of_nat k)) <$> seq (n + 1) (requests c l) ∧
  counted (rpm_run l m).2 (counter_key c) (n + requests c l) until.
Proof.
  intros Hc Hl. revert m n Hc. induction Hl as [|e l He Hl IH]; intros m n Hc Ht Hu Hn.
  { cbn. by rewrite Nat.add_0_r. }
  pose proof (elapsed_nonneg _ _ Hl) as H0.
  assert (He0 : 0 ≤ elapsed e) by (destruct e; [done|apply He]).
  change (elapsed_total (e :: l)) with (elapsed e + elapsed_total l) in Ht.
  rewrite requests_cons in *.
  pose proof (micros_rpm_do e m) as Hd.
  assert (Hle : (micros m + elapsed e) / 1000 ≤ until)
    by (etrans; [apply Z.div_le_mono; [lia|]|exact Ht]; lia).
  destruct (rpm_do_step c e m n until He Hc) as (Hc1 & Hr); [lia| |done|].
  { unfold now_ms. by rewrite Hd. }
  specialize (IH (rpm_do e m).2 (n + requests c [e])%nat Hc1).
  unfold rpm_run in *. cbn [mapSt]. unfold mbind, St_bind.
  destruct (rpm_do e m) as [r m1]. cbn [fst snd] in *.
  destruct IH as [IH1 IH2].
  { rewrite Hd. by replace (micros m + elapsed e + elapsed_total l) with
      (micros m + (elapsed e + elapsed_total l)) by lia. }
  { unfold now_ms in *. rewrite Hd. transitivity (micros m / 1000 + 120000); [done|].
    apply Z.add_le_mono_r, Z.div_le_mono; lia. }
  { lia. }
  destruct (mapSt rpm_do l m1) as [rs m2]. cbn [fst snd mret St_ret] in *.
  split; [|by rewrite Nat.add_assoc].
  rewrite replies_cons, Hr, IH1, <- fmap_app, seq_app. do 3 f_equal. lia.
Qed.

(** ** The methods, undisturbed *)

Definition account_key (accountID : Z) (m : rdb) : string :=
  rpm_key accountID (now_s m `quot` 60).

Lemma get_rpm_run accountID m :
  GetRPM accountID (World m []) =
    (read_count "rpm get" (inr (strs m !! account_key accountID m)), World m []).
Proof. done. Qed.

Lemma increment_rpm_run accountID m :
  let '(r, m') := count_txn (account_key accountID m) rpmKeyTTL m in
  IncrementRPM accountID (World m []) =
    (match r with
     | Some n => (n, None)
     | None =>
         (0, Some (EWrap "rpm increment" (Err "ERR value is not an integer or out of range")))
     end, World m' []).
Proof.
  unfold IncrementRPM, currentMinuteKey, serverMinute, count_up, mbind, St_bind. cbn -[count_txn].
  unfold mbind, St_bind, mret, St_ret, account_key. cbv beta iota.
  rewrite roundtrip_quiet. cbn [fst]. by destruct (count_txn _ rpmKeyTTL m) as [[n|] m'].
Qed.

Lemma read_count_some n v :
  ParseInt (default "0" v) = Some n → read_count "rpm get" (inr v) = (n, None).
Proof.
  destruct v as [v|]; unfold read_count; cbn [default from_option].
  - intros E. change (ParseInt v = Some n) in E. by rewrite E.
  - intros E. by injection E as <-.
Qed.

Lemma strs_keeps_deadline k ms m : 0 < ms → strs (set_deadline k ms m) = strs m.
Proof.
  intros H. unfold set_deadline. destruct (exists_key m k); [|done].
  by destruct (Z.leb_spec ms 0); [lia|].
Qed.

Section Properties.
Context {S : Type} {R : RedisOps S} {abs : S → rdb} {L : RedisLaws R abs}.

Lemma refines_count_txn key ttl : refines abs (count_txn key ttl) (count_txn key ttl).
Proof. unfold count_txn. solve_refines. Qed.

Lemma refines_rpm_run l : refines abs (rpm_run l) (rpm_run l).
Proof.
  apply refines_mapSt. intros [c|c]; unfold rpm_do.
  - apply refines_bind; [apply refines_count_txn|]. intros n. apply refines_ret.
  - apply refines_bind; [apply refines_run_cmd|]. intros u. apply refines_ret.
Qed.

(** C24: the requests-per-minute counters neither lose nor share requests: however requests of
    accounts, users and groups, commands of others and time interleave within the life of a
    minute's counter, the requests of that counter are answered 1, 2, 3, ..., and the counter
    ends at their number. *)
Theorem rpm_counts_every_request c l s :
  strs (abs s) !! counter_key c = None →
  Forall (leaves_alone (counter_key c)) l →
  elapsed_total l ≤ 120 * 1000000 →
  Z.of_nat (requests c l) < 2 ^ 63 →
  replies c (rpm_run l s).1 = (λ k, Some (Z.of_nat k)) <$> seq 1 (requests c l) ∧
  (GET (counter_key c) (rpm_run l s).2).1 =
    match requests c l with O => None | n => Some (FormatInt (Z.of_nat n)) end.
Proof.
  intros Hf Hl Ht Hn.
  rewrite (refines_fst _ _ _ s (refines_rpm_run l)), (refines_fst _ _ _ _ (law_GET _)),
    (refines_snd _ _ _ s (refines_rpm_run l)).
  destruct (rpm_run_counts c l (abs s) 0 (now_ms (abs s) + 120000) Hf Hl) as [Hr Hc]; [|lia..|].
  { unfold now_ms. rewrite <- Z.div_add by lia. apply Z.div_le_mono; lia. }
  split; [done|]. cbn [Nat.add] in Hc. unfold counted in Hc. cbn.
  destruct (requests c l); [done|]. by destruct Hc as (d & [Hs _] & _).
Qed.

Lemma refines_read_minute accountID :
  refines (abs_world abs) (currentMinuteKey accountID) (currentMinuteKey accountID).
Proof. unfold currentMinuteKey, serverMinute. solve_refines. Qed.

Lemma refines_get_rpm accountID :
  refines (abs_world abs) (GetRPM accountID) (GetRPM accountID).
Proof. pose proof refines_read_minute. unfold GetRPM. solve_refines. Qed.

Lemma refines_increment_rpm accountID :
  refines (abs_world abs) (IncrementRPM accountID) (IncrementRPM accountID).
Proof.
  pose proof refines_read_minute. pose proof refines_count_txn.
  unfold IncrementRPM, count_up. solve_refines.
Qed.

(** The methods count on the minute of the server's clock: undisturbed, [IncrementRPM]
    answers one more than [GetRPM] did and leaves that for the next; a counter at the largest
    64-bit integer, or a value that is no number, is an error and stays as it is. *)
Theorem increment_follows_get accountID n s :
  let key := rpm_key accountID (now_s (abs s) `quot` 60) in
  ParseInt (default "0" (strs (abs s) !! key)) = Some n →
  let '(r, w) := IncrementRPM accountID (World s []) in
  (GetRPM accountID (World s [])).1 = (n, None) ∧
  (if in_int64 (n + 1) then r = (n + 1, None) ∧ (GetRPM accountID w).1 = (n + 1, None)
   else r.2 ≠ None ∧ (GetRPM accountID w).1 = (n, None)).
Proof.
  intros key Hp.
  pose proof (refines_increment_rpm accountID (World s [])) as Ei.
  destruct (IncrementRPM accountID (World s [])) as [r w]. cbn [fst snd] in Ei.
  rewrite !(refines_fst _ _ _ _ (refines_get_rpm accountID)).
  change (abs_world abs (World s [])) with (World (abs s) []) in *.
  change key with (account_key accountID (abs s)) in *.
  rewrite get_rpm_run, (read_count_some n _ Hp). split; [done|].
  pose proof (increment_rpm_run accountID (abs s)) as Ec. rewrite Ei in Ec.
  revert Ec. generalize (abs_world abs w). intros w' Ec.
  unfold count_txn, mbind, St_bind in Ec. cbn -[incr_by set_deadline] in Ec.
  unfold incr_by in Ec. rewrite Hp in Ec. destruct (in_int64 (n + 1)) eqn:Hi;
    injection Ec as -> ->; rewrite get_rpm_run; unfold account_key;
    rewrite strs_keeps_deadline by done; unfold now_s; rewrite micros_set_deadline; cbn [strs micros].
  - split; [done|]. fold (now_s (abs s)). fold (account_key accountID (abs s)).
    rewrite lookup_insert_eq. cbn. apply in_int64_spec in Hi. by rewrite ParseInt_FormatInt.
  - split; [done|]. by apply read_count_some.
Qed.
End Properties.

(** ** Samples *)

Definition busy_minute : list rpm_event :=
  [Counted (AccountMinute 7 100); Unrelated (CTick 30000000); Counted (UserMinute 7 100);
   Counted (AccountMinute 7 100); Counted (AccountMinute 8 100);
   Unrelated (CSet "rpm:7:99" "5" None); Unrelated (CTick 80000000);
   Counted (AccountMinute 7 100)].

Lemma rpm_counts_every_request_witness :
  replies (AccountMinute 7 100) (rpm_run busy_minute (empty_rdb 6000000000)).1 =
    (λ k, Some (Z.of_nat k)) <$> seq 1 (requests (AccountMinute 7 100) busy_minute) ∧
  (GET (counter_key (AccountMinute 7 100)) (rpm_run busy_minute (empty_rdb 6000000000)).2).1 =
    match requests (AccountMinute 7 100) busy_minute with
    | O => None | n => Some (FormatInt (Z.of_nat n)) end.
Proof.
  apply (rpm_counts_every_request (L:=MemRedis_laws) (AccountMinute 7 100) busy_minute
    (empty_rdb 6000000000)).
  - done.
  - repeat constructor; cbn; try lia; discriminate.
  - vm_compute. discriminate.
  - vm_compute. reflexivity.
Defined.

Lemma increment_follows_get_witness :
  let '(r, w) := IncrementRPM 7 (World (empty_rdb 6000000000) []) in
  (GetRPM 7 (World (empty_rdb 6000000000) [])).1 = (0, None) ∧
  (if in_int64 (0 + 1) then r = (0 + 1, None) ∧ (GetRPM 7 w).1 = (0 + 1, None)
   else r.2 ≠ None ∧ (GetRPM 7 w).1 = (0, None)).
Proof.
  apply (increment_follows_get (L:=MemRedis_laws) 7 0 (empty_rdb 6000000000)). reflexivity.
Defined.
