(* ===== verification/GoJson.v ===== *)
(** * GoJson: the parts of encoding/json, encoding/hex and crypto/rand the modelled code uses

    [json.Valid], [json.Unmarshal] into a [map[string]json.RawMessage], and [json.Marshal] of a
    string, of a [map[string]string] and of a [map[string]json.RawMessage]; [json.Unmarshal] into a
    string, a slice and structs.  JSON text and Go
    strings are byte strings. *)

From stdpp Require Import base tactics numbers list strings gmap sorting.
From Stdlib Require Import ZArith Lia Ascii String.
From S2P Require Import Prelude GoLib.

Local Open Scope N_scope.

(** ** Characters *)

Definition byte_of (c : ascii) : N := N_of_ascii c.
Definition quote : ascii := "034"%char.
Definition backslash : ascii := "\"%char.

Definition is_ws (c : ascii) : bool :=
  (byte_of c =? 32) || (byte_of c =? 9) || (byte_of c =? 10) || (byte_of c =? 13).

Definition is_digit (c : ascii) : bool := (48 <=? byte_of c) && (byte_of c <=? 57).

Definition hex_val (c : ascii) : option N :=
  let b := byte_of c in
  if is_digit c then Some (b - 48)
  else if (97 <=? b) && (b <=? 102) then Some (b - 87)
  else if (65 <=? b) && (b <=? 70) then Some (b - 55)
  else None.

Definition hex4 (a b c d : ascii) : option N :=
  x ← hex_val a; y ← hex_val b; z ← hex_val c; w ← hex_val d;
  Some (((x * 16 + y) * 16 + z) * 16 + w).

(** Lower case, as [hex.EncodeToString] and the encoder write it. *)
Definition hex_char (n : N) : ascii := ascii_of_N (if n <? 10 then n + 48 else n + 87).

Fixpoint skip_ws (s : string) : string :=
  match s with
  | EmptyString => EmptyString
  | String c s' => if is_ws c then skip_ws s' else s
  end.

Fixpoint skip_digits (s : string) : string :=
  match s with
  | EmptyString => EmptyString
  | String c s' => if is_digit c then skip_digits s' else s
  end.

(** ** The scanner

    Each function returns what is left of the text behind the construct it recognises. *)

(** A string, its opening quote already read. *)
Fixpoint scan_string (s : string) : option string :=
  match s with
  | EmptyString => None
  | String c s1 =>
      if Ascii.eqb c quote then Some s1
      else if Ascii.eqb c backslash then
        match s1 with
        | String "u" (String a (String b (String c (String d s2)))) =>
            match hex4 a b c d with Some _ => scan_string s2 | None => None end
        | String e s2 =>
            if existsb (Ascii.eqb e) [quote; backslash; "/"; "b"; "f"; "n"; "r"; "t"]%char
            then scan_string s2 else None
        | EmptyString => None
        end
      else if byte_of c <? 32 then None
      else scan_string s1
  end.

Definition scan_digits1 (s : string) : option string :=
  match s with
  | String c s' => if is_digit c then Some (skip_digits s') else None
  | EmptyString => None
  end.

Definition scan_number (s : string) : option string :=
  let s := match s with String "-" s' => s' | _ => s end in
  s ← match s with String "0" s' => Some s' | _ => scan_digits1 s end;
  s ← match s with String "." s' => scan_digits1 s' | _ => Some s end;
  match s with
  | String "e" s' | String "E" s' =>
      scan_digits1 (match s' with String "+" s'' | String "-" s'' => s'' | _ => s' end)
  | _ => Some s
  end.

Fixpoint scan_literal (lit s : string) : option string :=
  match lit, s with
  | EmptyString, _ => Some s
  | String a lit', String b s' => if Ascii.eqb a b then scan_literal lit' s' else None
  | _, EmptyString => None
  end.

(** The decoder gives up on values nested deeper than this. *)
Definition maxNestingDepth : N := 10000.

(** Every call reads a character, so more fuel than the text is long is enough. *)
Fixpoint scan_value (fuel : nat) (depth : N) (s : string) : option string :=
  match fuel with
  | O => None
  | S fuel =>
      match s with
      | String "{" s1 =>
          if maxNestingDepth <? depth + 1 then None else
          match skip_ws s1 with
          | String "}" s2 => Some s2
          | s2 => scan_members fuel (depth + 1) s2
          end
      | String "[" s1 =>
          if maxNestingDepth <? depth + 1 then None else
          match skip_ws s1 with
          | String "]" s2 => Some s2
          | s2 => scan_elements fuel (depth + 1) s2
          end
      | String "t" s1 => scan_literal "rue" s1
      | String "f" s1 => scan_literal "alse" s1
      | String "n" s1 => scan_literal "ull" s1
      | String c s1 => if Ascii.eqb c quote then scan_string s1 else scan_number s
      | EmptyString => None
      end
  end
with scan_members (fuel : nat) (depth : N) (s : string) : option string :=
  match fuel with
  | O => None
  | S fuel =>
      match s with
      | String c s1 =>
          if Ascii.eqb c quote then
            s2 ← scan_string s1;
            match skip_ws s2 with
            | String ":" s3 =>
                s4 ← scan_value fuel depth (skip_ws s3);
                match skip_ws s4 with
                | String "}" s5 => Some s5
                | String "," s5 => scan_members fuel depth (skip_ws s5)
                | _ => None
                end
            | _ => None
            end
          else None
      | EmptyString => None
      end
  end
with scan_elements (fuel : nat) (depth : N) (s : string) : option string :=
  match fuel with
  | O => None
  | S fuel =>
      s1 ← scan_value fuel depth s;
      match skip_ws s1 with
      | String "]" s2 => Some s2
      | String "," s2 => scan_elements fuel depth (skip_ws s2)
      | _ => None
      end
  end.

Definition json_fuel (s : string) : nat := S (S (String.length s)).

(** [json.Valid] *)
Definition Valid (s : string) : bool :=
  match scan_value (json_fuel s) 0 (skip_ws s) with
  | Some r => bool_decide (skip_ws r = EmptyString)
  | None => false
  end.

(** ** UTF-8 *)

Definition cont (c : ascii) : bool := (128 <=? byte_of c) && (byte_of c <=? 191).

Definition between (lo hi : N) (c : ascii) : bool := (lo <=? byte_of c) && (byte_of c <=? hi).

(** The length of the well-formed encoding of a rune at the head of a string; [None] where
    [utf8.DecodeRune] answers [RuneError] of width 1. *)
Definition rune_len (s : string) : option nat :=
  match s with
  | EmptyString => None
  | String a r1 =>
      if byte_of a <? 128 then Some 1%nat else
      match r1 with
      | EmptyString => None
      | String b r2 =>
          if between 194 223 a then if cont b then Some 2%nat else None else
          match r2 with
          | EmptyString => None
          | String c r3 =>
              if between 224 239 a then
                if (if byte_of a =? 224 then between 160 191 b
                    else if byte_of a =? 237 then between 128 159 b else cont b) && cont c
                then Some 3%nat else None
              else
              match r3 with
              | EmptyString => None
              | String d _ =>
                  if between 240 244 a &&
                     (if byte_of a =? 240 then between 144 191 b
                      else if byte_of a =? 244 then between 128 143 b else cont b) &&
                     cont c && cont d
                  then Some 4%nat else None
              end
          end
      end
  end.

Definition str1 (n : N) : string := String (ascii_of_N n) EmptyString.

(** [utf8.AppendRune] for a code point that is not a surrogate. *)
Definition encode_rune (r : N) : string :=
  if r <? 128 then str1 r
  else if r <? 2048 then (str1 (192 + r / 64) ++ str1 (128 + r mod 64))%string
  else if r <? 65536 then
    (str1 (224 + r / 4096) ++ str1 (128 + r / 64 mod 64) ++ str1 (128 + r mod 64))%string
  else
    (str1 (240 + r / 262144) ++ str1 (128 + r / 4096 mod 64) ++ str1 (128 + r / 64 mod 64)
       ++ str1 (128 + r mod 64))%string.

Definition replacement : string := encode_rune 65533.

(** ** Reading *)

Definition simple_escape (e : ascii) : option N :=
  if Ascii.eqb e "b" then Some 8
  else if Ascii.eqb e "f" then Some 12
  else if Ascii.eqb e "n" then Some 10
  else if Ascii.eqb e "r" then Some 13
  else if Ascii.eqb e "t" then Some 9
  else if existsb (Ascii.eqb e) [quote; backslash; "/"]%char then Some (byte_of e)
  else None.

Definition is_surrogate (r : N) : bool := (55296 <=? r) && (r <=? 57343).

(** The value of a string literal without its quotes; every turn takes a character.  Escapes are
    resolved, surrogate pairs joined, and what is not UTF-8 becomes U+FFFD. *)
Fixpoint unquote (fuel : nat) (s : string) : string :=
  match fuel, s with
  | O, _ | _, EmptyString => EmptyString
  | S fuel, String c s1 =>
      if Ascii.eqb c backslash then
        match s1 with
        | String "u" (String a (String b (String c (String d s2)))) =>
            let r := default 0 (hex4 a b c d) in
            if is_surrogate r then
              match s2 with
              | String x (String "u" (String a' (String b' (String c' (String d' s3))))) =>
                  let r' := default 0 (hex4 a' b' c' d') in
                  if Ascii.eqb x backslash && (r <=? 56319) && (56320 <=? r') && (r' <=? 57343)
                  then (encode_rune (65536 + (r - 55296) * 1024 + (r' - 56320))
                          ++ unquote fuel s3)%string
                  else (replacement ++ unquote fuel s2)%string
              | _ => (replacement ++ unquote fuel s2)%string
              end
            else (encode_rune r ++ unquote fuel s2)%string
        | String e s2 => (str1 (default 0 (simple_escape e)) ++ unquote fuel s2)%string
        | EmptyString => EmptyString
        end
      else
        match rune_len s with
        | Some n =>
            (String.substring 0 n s ++ unquote fuel (String.substring n (String.length s - n) s))%string
        | None => (replacement ++ unquote fuel s1)%string
        end
  end.

(** The text read when [s] has become [rest]. *)
Definition consumed (s rest : string) : string :=
  String.substring 0 (String.length s - String.length rest) s.

(** The text of a string literal whose opening quote was read, without the closing one. *)
Definition literal_body (s rest : string) : string :=
  String.substring 0 (String.length s - String.length rest - 1) s.

(** The members of an object that the scanner accepts, in order; at a key. *)
Fixpoint read_members (fuel : nat) (s : string) : list (string * string) :=
  match fuel with
  | O => []
  | S fuel' =>
      match s with
      | String _ s1 =>
          match scan_string s1 with
          | Some s2 =>
              let key := unquote (String.length s1) (literal_body s1 s2) in
              match skip_ws s2 with
              | String _ s3 =>
                  let v := skip_ws s3 in
                  match scan_value (json_fuel v) 1 v with
                  | Some s4 =>
                      (key, consumed v s4) ::
                      match skip_ws s4 with
                      | String "," s5 => read_members fuel' (skip_ws s5)
                      | _ => []
                      end
                  | None => []
                  end
              | EmptyString => []
              end
          | None => []
          end
      | EmptyString => []
      end
  end.

(** [json.Unmarshal] into a [map[string]json.RawMessage]; [None] stands for its error.  A later
    member replaces an earlier one of the same key, and [null] leaves the map nil. *)
Definition UnmarshalRawMap (s : string) : option (gmap string string) :=
  if Valid s then
    match skip_ws s with
    | String "{" s1 =>
        Some (foldl (λ m kv, <[kv.1 := kv.2]> m) ∅ (read_members (json_fuel s) (skip_ws s1)))
    | String "n" _ => Some ∅
    | _ => None
    end
  else None.

(** [json.Unmarshal] into a [string] that was empty: [null] leaves it so. *)
Definition UnmarshalString (s : string) : option string :=
  if Valid s then
    match skip_ws s with
    | String c s1 =>
        if Ascii.eqb c quote then
          s2 ← scan_string s1; Some (unquote (String.length s1) (literal_body s1 s2))
        else if Ascii.eqb c "n" then Some EmptyString
        else None
    | EmptyString => None
    end
  else None.

(** The elements of an array that the scanner accepts, in order; at an element. *)
Fixpoint read_elements (fuel : nat) (s : string) : list string :=
  match fuel with
  | O => []
  | S fuel =>
      match scan_value (json_fuel s) 1 s with
      | Some s1 =>
          consumed s s1 ::
          match skip_ws s1 with
          | String "," s2 => read_elements fuel (skip_ws s2)
          | _ => []
          end
      | None => []
      end
  end.

(** [json.Unmarshal] into a slice that was nil, as the raw elements. *)
Definition UnmarshalRawList (s : string) : option (list string) :=
  if Valid s then
    match skip_ws s with
    | String "[" s1 => Some (read_elements (json_fuel s) (skip_ws s1))
    | String "n" _ => Some []
    | _ => None
    end
  else None.

(** *** Structs

    The decoding of an element or member that was scanned: [raw] is its text, without white space
    around it.  [None] stands for a mismatch of types, which makes [json.Unmarshal] fail. *)

Definition ascii_lower (c : ascii) : ascii :=
  if (65 <=? byte_of c) && (byte_of c <=? 90) then ascii_of_N (byte_of c + 32) else c.

(** The name a member is matched under.  [encoding/json] folds case; beyond ASCII only U+017F and
    U+212A fold to letters, s and k, which no field name decoded here has. *)
Fixpoint fold_name (s : string) : string :=
  match s with
  | EmptyString => EmptyString
  | String c s1 => String (ascii_lower c) (fold_name s1)
  end.

Definition is_null (raw : string) : bool := String.eqb raw "null".

Definition decode_string (cur raw : string) : option string :=
  if is_null raw then Some cur else UnmarshalString raw.

(** A struct: [field] updates it by one member, whose folded name and text it is given. *)
Definition decode_struct {A : Type} (field : string → string → A → option A) (cur : A)
    (raw : string) : option A :=
  match raw with
  | String "{" s1 =>
      foldl (λ acc kv, a ← acc; field (fold_name kv.1) kv.2 a) (Some cur)
        (read_members (json_fuel raw) (skip_ws s1))
  | _ => if is_null raw then Some cur else None
  end.

(** A pointer to a struct whose zero value is [zero]. *)
Definition decode_pointer {A : Type} (field : string → string → A → option A) (zero : A)
    (cur : option A) (raw : string) : option (option A) :=
  if is_null raw then Some None
  else a ← decode_struct field (default zero cur) raw; Some (Some a).

(** ** Writing *)

Definition u00 (b : N) : string :=
  (String backslash "u00" ++ String (hex_char (b / 16)) (String (hex_char (b mod 16)) EmptyString))%string.

Definition html_byte (b : N) : bool := (b =? 60) || (b =? 62) || (b =? 38).

(** The escape of an ASCII byte inside a string literal, [None] when it stands for itself. *)
Definition escape_ascii (b : N) : option string :=
  if (b =? 34) || (b =? 92) then Some (String backslash (str1 b))
  else if b =? 8 then Some (String backslash "b")
  else if b =? 12 then Some (String backslash "f")
  else if b =? 10 then Some (String backslash "n")
  else if b =? 13 then Some (String backslash "r")
  else if b =? 9 then Some (String backslash "t")
  else if (b <? 32) || html_byte b then Some (u00 b)
  else None.

(** U+2028 and U+2029, which JavaScript refuses in strings. *)
Definition line_separator (s : string) : option string :=
  match s with
  | String a (String b (String c _)) =>
      if (byte_of a =? 226) && (byte_of b =? 128) && ((byte_of c =? 168) || (byte_of c =? 169))
      then Some (String backslash "u202" ++ str1 (byte_of c - 112))%string
      else None
  | _ => None
  end.

Fixpoint escape_string (fuel : nat) (s : string) : string :=
  match fuel, s with
  | O, _ | _, EmptyString => EmptyString
  | S fuel, String c s1 =>
      match rune_len s with
      | None => (String backslash "ufffd" ++ escape_string fuel s1)%string
      | Some n =>
          let rest := String.substring n (String.length s - n) s in
          let text :=
            if byte_of c <? 128
            then default (String c EmptyString) (escape_ascii (byte_of c))
            else default (String.substring 0 n s) (line_separator s) in
          (text ++ escape_string fuel rest)%string
      end
  end.

(** [json.Marshal] of a string. *)
Definition MarshalString (s : string) : string :=
  String quote (escape_string (String.length s) s ++ String quote EmptyString).

(** The compact form of valid JSON text inside a larger value: no white space outside strings,
    HTML characters and line separators escaped. *)
Fixpoint compact (in_string : bool) (s : string) : string :=
  match s with
  | EmptyString => EmptyString
  | String c s1 =>
      if html_byte (byte_of c) then (u00 (byte_of c) ++ compact in_string s1)%string
      else if in_string then
        if Ascii.eqb c quote then String c (compact false s1)
        else if Ascii.eqb c backslash then
          match s1 with
          | String e s2 =>
              if html_byte (byte_of e) then String c (u00 (byte_of e) ++ compact true s2)
              else String c (String e (compact true s2))
          | EmptyString => String c EmptyString
          end
        else
          match s1 with
          | String _ (String _ s3) =>
              match line_separator s with
              | Some t => (t ++ compact true s3)%string
              | None => String c (compact true s1)
              end
          | _ => String c (compact true s1)
          end
      else if is_ws c then compact false s1
      else String c (compact (Ascii.eqb c quote) s1)
  end.

Fixpoint comma_join (l : list string) : string :=
  match l with
  | [] => EmptyString
  | [x] => x
  | x :: l' => (x ++ String "," (comma_join l'))%string
  end.

Definition key_order (p q : string * string) : Prop := String.le p.1 q.1.

#[export] Instance key_order_dec : RelDecision key_order.
Proof. intros p q. unfold key_order. apply _. Defined.

(** An object with its members sorted by key. *)
Definition marshal_object (value : string → string) (m : gmap string string) : string :=
  ("{" ++ comma_join ((λ kv, MarshalString kv.1 ++ String ":" (value kv.2))
            <$> merge_sort key_order (map_to_list m)) ++ "}")%string.

(** [json.Marshal] of a [map[string]json.RawMessage] and of a [map[string]string]. *)
Definition MarshalRawMap (m : gmap string string) : string := marshal_object (compact false) m.
Definition MarshalStringMap (m : gmap string string) : string := marshal_object MarshalString m.

(** ** encoding/hex *)

Fixpoint hex_encode (l : list N) : string :=
  match l with
  | [] => EmptyString
  | b :: l' => String (hex_char (b / 16)) (String (hex_char (b mod 16)) (hex_encode l'))
  end.

(** ** crypto/rand

    The random source as an oracle: the blocks of twelve bytes it will hand out, and how many it
    has handed out.  What names things threads it. *)
Record rng : Type := Rng {
  rng_block : nat → list N;
  rng_next : nat
}.

(** Twelve fresh random bytes, in hexadecimal. *)
Definition rand_hex : St rng string := λ r,
  (hex_encode (rng_block r (rng_next r)), Rng (rng_block r) (S (rng_next r))).
