(* ===== verification/ApiTypes.v ===== *)
(** * ApiTypes: the messages of the Anthropic, Responses and Chat Completions APIs

    The structs of [backend/internal/pkg/apicompat/types.go] the response bridges exchange.  Each
    field carries its struct's initials; [<Struct>0] is the zero value, from which values are
    built as Go's struct literals build them.  A pointer is an option, a slice a list (the bridges
    never tell a nil slice from an empty one), a [json.RawMessage] a byte string. *)

From stdpp Require Import base tactics numbers list strings gmap.
From Stdlib Require Import ZArith.
From coqutil Require Export Datatypes.RecordSetters.
From S2P Require Import Prelude GoLib.

Export DoubleBraceUpdate.

#[global] Arguments constant {E} _ _ /.

Local Open Scope Z_scope.
Local Open Scope string_scope.

(** ** Anthropic Messages *)

Record AnthropicCacheControl : Type := MkAnthropicCacheControl {
  cc_Type : string;
  cc_TTL : string
}.

Record AnthropicImageSource : Type := MkAnthropicImageSource {
  is_Type : string;
  is_MediaType : string;
  is_Data : string
}.

Record AnthropicContentBlock : Type := MkAnthropicContentBlock {
  cb_Type : string;
  cb_CacheControl : option AnthropicCacheControl;
  cb_Text : string;
  cb_Thinking : string;
  cb_Signature : string;
  cb_Source : option AnthropicImageSource;
  cb_ID : string;
  cb_Name : string;
  cb_Input : string;
  cb_ToolUseID : string;
  cb_Content : string;
  cb_IsError : bool
}.

Definition AnthropicContentBlock0 : AnthropicContentBlock :=
  MkAnthropicContentBlock "" None "" "" "" None "" "" "" "" "" false.

Record AnthropicPromptTokensDetails : Type := MkAnthropicPromptTokensDetails {
  apt_CachedTokens : Z
}.

Record AnthropicUsage : Type := MkAnthropicUsage {
  au_InputTokens : Z;
  au_OutputTokens : Z;
  au_CacheCreationInputTokens : Z;
  au_CacheReadInputTokens : Z;
  au_PromptTokens : Z;
  au_CachedTokens : Z;
  au_PromptTokensDetails : option AnthropicPromptTokensDetails;
  au_PromptCacheHitTokens : option Z;
  au_PromptCacheMissTokens : option Z
}.

Definition AnthropicUsage0 : AnthropicUsage := MkAnthropicUsage 0 0 0 0 0 0 None None None.

Record AnthropicResponse : Type := MkAnthropicResponse {
  am_ID : string;
  am_Type : string;
  am_Role : string;
  am_Content : list AnthropicContentBlock;
  am_Model : string;
  am_StopReason : option string;
  am_StopSequence : option string;
  am_Usage : AnthropicUsage
}.

Definition AnthropicResponse0 : AnthropicResponse :=
  MkAnthropicResponse "" "" "" [] "" None None AnthropicUsage0.

Definition AnthropicStopReasonPtr (s : string) : option string := Some s.
Definition AnthropicStopReasonString (p : option string) : string :=
  match p with None => "" | Some s => s end.

Record AnthropicDelta : Type := MkAnthropicDelta {
  ad_Type : string;
  ad_Text : string;
  ad_PartialJSON : string;
  ad_Thinking : string;
  ad_Signature : string;
  ad_StopReason : string;
  ad_StopSequence : option string
}.

Definition AnthropicDelta0 : AnthropicDelta := MkAnthropicDelta "" "" "" "" "" "" None.

Record AnthropicStreamEvent : Type := MkAnthropicStreamEvent {
  ae_Type : string;
  ae_Message : option AnthropicResponse;
  ae_Index : option Z;
  ae_ContentBlock : option AnthropicContentBlock;
  ae_Delta : option AnthropicDelta;
  ae_Usage : option AnthropicUsage
}.

Definition AnthropicStreamEvent0 : AnthropicStreamEvent :=
  MkAnthropicStreamEvent "" None None None None None.

(** ** Responses *)

Record ResponsesContentPart : Type := MkResponsesContentPart {
  rp_Type : string;
  rp_Text : string;
  rp_ImageURL : string;
  rp_Filename : string;
  rp_FileData : string;
  rp_FileID : string
}.

Definition ResponsesContentPart0 : ResponsesContentPart := MkResponsesContentPart "" "" "" "" "" "".

Record ResponsesSummary : Type := MkResponsesSummary {
  rs_Type : string;
  rs_Text : string
}.

Record WebSearchAction : Type := MkWebSearchAction {
  ws_Type : string;
  ws_Query : string
}.

Record ResponsesOutput : Type := MkResponsesOutput {
  ro_Type : string;
  ro_ID : string;
  ro_Role : string;
  ro_Content : list ResponsesContentPart;
  ro_Status : string;
  ro_EncryptedContent : string;
  ro_Summary : list ResponsesSummary;
  ro_CallID : string;
  ro_Name : string;
  ro_Arguments : string;
  ro_Namespace : string;
  ro_Input : string;
  ro_Action : option WebSearchAction
}.

Definition ResponsesOutput0 : ResponsesOutput :=
  MkResponsesOutput "" "" "" [] "" "" [] "" "" "" "" "" None.

Record ResponsesInputTokensDetails : Type := MkResponsesInputTokensDetails {
  rid_CachedTokens : Z;
  rid_AudioTokens : Z;
  rid_CacheCreationTokens : Z;
  rid_CacheWriteTokens : Z
}.

Definition ResponsesInputTokensDetails0 : ResponsesInputTokensDetails :=
  MkResponsesInputTokensDetails 0 0 0 0.

Record ResponsesOutputTokensDetails : Type := MkResponsesOutputTokensDetails {
  rod_ReasoningTokens : Z;
  rod_AudioTokens : Z;
  rod_AcceptedPredictionTokens : Z;
  rod_RejectedPredictionTokens : Z
}.

Record ResponsesUsage : Type := MkResponsesUsage {
  ru_InputTokens : Z;
  ru_OutputTokens : Z;
  ru_TotalTokens : Z;
  ru_CacheCreationInputTokens : Z;
  ru_InputTokensDetails : option ResponsesInputTokensDetails;
  ru_OutputTokensDetails : option ResponsesOutputTokensDetails
}.

Definition ResponsesUsage0 : ResponsesUsage := MkResponsesUsage 0 0 0 0 None None.

Record ResponsesError : Type := MkResponsesError {
  rerr_Code : string;
  rerr_Message : string
}.

Record ResponsesIncompleteDetails : Type := MkResponsesIncompleteDetails {
  rinc_Reason : string
}.

Record ResponsesResponse : Type := MkResponsesResponse {
  rr_ID : string;
  rr_Object : string;
  rr_CreatedAt : Z;
  rr_Model : string;
  rr_Status : string;
  rr_Output : list ResponsesOutput;
  rr_Usage : option ResponsesUsage;
  rr_ServiceTier : string;
  rr_IncompleteDetails : option ResponsesIncompleteDetails;
  rr_Error : option ResponsesError
}.

Definition ResponsesResponse0 : ResponsesResponse :=
  MkResponsesResponse "" "" 0 "" "" [] None "" None None.

Record ResponsesStreamEvent : Type := MkResponsesStreamEvent {
  re_Type : string;
  re_Response : option ResponsesResponse;
  re_Usage : option ResponsesUsage;
  re_Item : option ResponsesOutput;
  re_OutputIndex : Z;
  re_ContentIndex : Z;
  re_Delta : string;
  re_Text : string;
  re_ItemID : string;
  re_CallID : string;
  re_Name : string;
  re_Arguments : string;
  re_Input : string;
  re_SummaryIndex : Z;
  re_Part : option ResponsesContentPart;
  re_Code : string;
  re_Param : string;
  re_SequenceNumber : Z
}.

Definition ResponsesStreamEvent0 : ResponsesStreamEvent :=
  MkResponsesStreamEvent "" None None None 0 0 "" "" "" "" "" "" "" 0 None "" "" 0.

(** ** Chat Completions *)

Record ChatImageURL : Type := MkChatImageURL {
  ci_URL : string;
  ci_Detail : string
}.

Record ChatFile : Type := MkChatFile {
  cf_Filename : string;
  cf_FileData : string;
  cf_FileID : string
}.

Record ChatContentPart : Type := MkChatContentPart {
  cp_Type : string;
  cp_Text : string;
  cp_ImageURL : option ChatImageURL;
  cp_File : option ChatFile
}.

Definition ChatContentPart0 : ChatContentPart := MkChatContentPart "" "" None None.

Record ChatFunctionCall : Type := MkChatFunctionCall {
  fc_Name : string;
  fc_Arguments : string
}.

Record ChatToolCall : Type := MkChatToolCall {
  tc_Index : option Z;
  tc_ID : string;
  tc_Type : string;
  tc_Function : ChatFunctionCall
}.

Record ChatMessage : Type := MkChatMessage {
  cm_Role : string;
  cm_Content : string;
  cm_ReasoningContent : string;
  cm_Reasoning : string;
  cm_Name : string;
  cm_ToolCalls : list ChatToolCall;
  cm_ToolCallID : string;
  cm_FunctionCall : option ChatFunctionCall
}.

Definition ChatMessage0 : ChatMessage := MkChatMessage "" "" "" "" "" [] "" None.

Record ChatTokenDetails : Type := MkChatTokenDetails {
  td_CachedTokens : Z;
  td_AudioTokens : Z;
  td_CacheCreationTokens : Z;
  td_CacheWriteTokens : Z;
  td_ReasoningTokens : Z;
  td_AcceptedPredictionTokens : Z;
  td_RejectedPredictionTokens : Z
}.

Definition ChatTokenDetails0 : ChatTokenDetails := MkChatTokenDetails 0 0 0 0 0 0 0.

Record ChatUsage : Type := MkChatUsage {
  cu_PromptTokens : Z;
  cu_CompletionTokens : Z;
  cu_TotalTokens : Z;
  cu_PromptTokensDetails : option ChatTokenDetails;
  cu_CompletionTokensDetails : option ChatTokenDetails
}.

Record ChatChoice : Type := MkChatChoice {
  ch_Index : Z;
  ch_Message : ChatMessage;
  ch_FinishReason : string
}.

Record ChatCompletionsResponse : Type := MkChatCompletionsResponse {
  cr_ID : string;
  cr_Object : string;
  cr_Created : Z;
  cr_Model : string;
  cr_Choices : list ChatChoice;
  cr_Usage : option ChatUsage;
  cr_SystemFingerprint : string;
  cr_ServiceTier : string
}.

Definition ChatCompletionsResponse0 : ChatCompletionsResponse :=
  MkChatCompletionsResponse "" "" 0 "" [] None "" "".

Record ChatDelta : Type := MkChatDelta {
  cd_Role : string;
  cd_Content : option string;
  cd_ReasoningContent : option string;
  cd_Reasoning : option string;
  cd_ToolCalls : list ChatToolCall
}.

Definition ChatDelta0 : ChatDelta := MkChatDelta "" None None None [].

Record ChatChunkChoice : Type := MkChatChunkChoice {
  ck_Index : Z;
  ck_Delta : ChatDelta;
  ck_FinishReason : option string
}.

Record ChatCompletionsChunk : Type := MkChatCompletionsChunk {
  cx_ID : string;
  cx_Object : string;
  cx_Created : Z;
  cx_Model : string;
  cx_Choices : list ChatChunkChoice;
  cx_Usage : option ChatUsage;
  cx_SystemFingerprint : string;
  cx_ServiceTier : string
}.

Definition ChatCompletionsChunk0 : ChatCompletionsChunk :=
  MkChatCompletionsChunk "" "" 0 "" [] None "" "".

(** [ChatMessage.reasoningText] and [ChatDelta.reasoningText]: the field's two spellings. *)
Definition message_reasoningText (m : ChatMessage) : string :=
  if (cm_ReasoningContent m =? "")%string then cm_Reasoning m else cm_ReasoningContent m.

Definition delta_reasoningText (d : ChatDelta) : option string :=
  match cd_ReasoningContent d with Some s => Some s | None => cd_Reasoning d end.
