(* ===== verification/Upstream.v ===== *)
(** * Upstream: the stream of a Responses API upstream

    An upstream that produces the output items of a response one after the other, each in
    fragments, as the Responses API documents it; the converters' theorems quantify over it. *)

From stdpp Require Import base tactics numbers list strings gmap.
From Stdlib Require Import ZArith.
From S2P Require Import Prelude GoLib ApiTypes.

Local Open Scope go_scope.
Local Open Scope Z_scope.

(** The events that end a stream. *)
Definition is_terminal (evt : ResponsesStreamEvent) : bool :=
  existsb (String.eqb (re_Type evt))
    ["response.completed"; "response.done"; "response.incomplete"; "response.failed"].

(** An output item with the fragments its content comes in. *)
Inductive upstream_item : Type :=
| UReasoning (summary : list string) (encrypted : string)
| UMessage (parts : list (list string))
| UFunctionCall (callID name : string) (fragments : list string) (arguments : string)
| UWebSearch (id query : string).

Definition join (l : list string) : string := foldr String.append "" l.

Lemma join_app l1 l2 : join (l1 ++ l2) = join l1 +:+ join l2.
Proof.
  induction l1 as [|x l1 IH]; [done|]. change (join ((x :: l1) ++ l2)) with (x +:+ join (l1 ++ l2)).
  by rewrite IH, string_app_assoc.
Qed.

(** What the elements of a stream have of one kind, joined. *)
Definition said {A} (f : A → string) (l : list A) : string := join (f <$> l).

Lemma said_app {A} (f : A → string) l1 l2 : said f (l1 ++ l2) = said f l1 +:+ said f l2.
Proof. unfold said. by rewrite fmap_app, join_app. Qed.

Lemma said_cons {A} (f : A → string) x l : said f (x :: l) = f x +:+ said f l.
Proof. done. Qed.

Lemma said_one {A} (f : A → string) x : said f [x] = f x.
Proof. apply string_app_nil_r. Qed.

Lemma said_snoc {A} (f : A → string) l x : said f (l ++ [x]) = said f l +:+ f x.
Proof. by rewrite said_app, said_one. Qed.

Lemma said_silent {A} (f : A → string) l1 l2 : said f l2 = "" → said f (l1 ++ l2) = said f l1.
Proof. intros H. by rewrite said_app, H, string_app_nil_r. Qed.

(** The item in the output of the whole response. *)
Definition item_output (it : upstream_item) : ResponsesOutput :=
  match it with
  | UReasoning summary encrypted =>
      ResponsesOutput0{{ ro_Type := "reasoning";
                         ro_EncryptedContent := encrypted;
                         ro_Summary := [MkResponsesSummary "summary_text" (join summary)] }}
  | UMessage parts =>
      ResponsesOutput0{{ ro_Type := "message";
                         ro_Role := "assistant";
                         ro_Status := "completed";
                         ro_Content := (λ p, ResponsesContentPart0{{ rp_Type := "output_text";
                                                                     rp_Text := join p }}) <$> parts }}
  | UFunctionCall callID name _ arguments =>
      ResponsesOutput0{{ ro_Type := "function_call";
                         ro_CallID := callID;
                         ro_Name := name;
                         ro_Arguments := arguments;
                         ro_Status := "completed" }}
  | UWebSearch id query =>
      ResponsesOutput0{{ ro_Type := "web_search_call";
                         ro_ID := id;
                         ro_Status := "completed";
                         ro_Action := Some (MkWebSearchAction "search" query) }}
  end.

(** The item while it is being produced. *)
Definition item_started (it : upstream_item) : ResponsesOutput :=
  match it with
  | UReasoning _ _ => ResponsesOutput0{{ ro_Type := "reasoning" }}
  | UMessage _ => ResponsesOutput0{{ ro_Type := "message"; ro_Role := "assistant" }}
  | UFunctionCall callID name _ _ =>
      ResponsesOutput0{{ ro_Type := "function_call"; ro_CallID := callID; ro_Name := name }}
  | UWebSearch id _ => ResponsesOutput0{{ ro_Type := "web_search_call"; ro_ID := id }}
  end.

Definition ev_item (ty : string) (oi : Z) (item : ResponsesOutput) : ResponsesStreamEvent :=
  ResponsesStreamEvent0{{ re_Type := ty; re_OutputIndex := oi; re_Item := Some item }}.

Definition ev_delta (ty : string) (oi : Z) (text : string) : ResponsesStreamEvent :=
  ResponsesStreamEvent0{{ re_Type := ty; re_OutputIndex := oi; re_Delta := text }}.

Definition item_body (oi : Z) (it : upstream_item) : list ResponsesStreamEvent :=
  match it with
  | UReasoning summary _ =>
      (ev_delta "response.reasoning_summary_text.delta" oi <$> summary) ++
      [ev_delta "response.reasoning_summary_text.done" oi ""]
  | UMessage parts =>
      concat ((λ p, (ev_delta "response.output_text.delta" oi <$> p) ++
                    [ev_delta "response.output_text.done" oi ""]) <$> parts)
  | UFunctionCall _ _ fragments arguments =>
      (ev_delta "response.function_call_arguments.delta" oi <$> fragments) ++
      [ResponsesStreamEvent0{{ re_Type := "response.function_call_arguments.done";
                               re_OutputIndex := oi;
                               re_Arguments := arguments }}]
  | UWebSearch _ _ => []
  end.

Definition item_events (oi : Z) (it : upstream_item) : list ResponsesStreamEvent :=
  ev_item "response.output_item.added" oi (item_started it) ::
  item_body oi it ++ [ev_item "response.output_item.done" oi (item_output it)].

Fixpoint items_events (oi : Z) (items : list upstream_item) : list ResponsesStreamEvent :=
  match items with
  | [] => []
  | it :: items' => item_events oi it ++ items_events (oi + 1) items'
  end.

Definition response_of (id model status : string) (details : option ResponsesIncompleteDetails)
    (usage : option ResponsesUsage) (items : list upstream_item) : ResponsesResponse :=
  ResponsesResponse0{{ rr_ID := id;
                       rr_Model := model;
                       rr_Status := status;
                       rr_IncompleteDetails := details;
                       rr_Usage := usage;
                       rr_Output := item_output <$> items }}.

(** The stream that produces a response. *)
Definition upstream_body (resp : ResponsesResponse) (items : list upstream_item)
    : list ResponsesStreamEvent :=
  ResponsesStreamEvent0{{ re_Type := "response.created";
                          re_Response := Some (ResponsesResponse0{{ rr_ID := rr_ID resp;
                                                                    rr_Model := rr_Model resp }}) }}
  :: items_events 0 items.

Definition upstream (terminal : string) (resp : ResponsesResponse) (items : list upstream_item)
    : list ResponsesStreamEvent :=
  upstream_body resp items ++
  [ResponsesStreamEvent0{{ re_Type := terminal; re_Response := Some resp }}].

Lemma item_not_terminal oi it : Forall (λ e, is_terminal e = false) (item_events oi it).
Proof.
  assert (Hmap : ∀ ty l, is_terminal (ev_delta ty oi "") = false →
    Forall (λ e, is_terminal e = false) (ev_delta ty oi <$> l)).
  { intros ty l H. apply Forall_fmap, Forall_true. intros x. exact H. }
  unfold item_events. constructor; [done|]. apply Forall_app. split; [|by repeat constructor].
  destruct it as [summary encrypted|parts|callID name fragments arguments|id query]; cbn [item_body].
  - apply Forall_app. split; [by apply Hmap|by repeat constructor].
  - induction parts as [|p parts IH]; [constructor|]. rewrite fmap_cons. cbn [concat].
    apply Forall_app. split; [|done]. apply Forall_app. split; [by apply Hmap|by repeat constructor].
  - apply Forall_app. split; [by apply Hmap|by repeat constructor].
  - constructor.
Qed.

Lemma items_not_terminal oi items : Forall (λ e, is_terminal e = false) (items_events oi items).
Proof.
  revert oi. induction items as [|it items IH]; intros oi; [constructor|].
  cbn [items_events]. apply Forall_app. split; [apply item_not_terminal|apply IH].
Qed.

Lemma body_not_terminal resp items :
  Forall (λ e, is_terminal e = false) (upstream_body resp items).
Proof. constructor; [done|apply items_not_terminal]. Qed.
