(* ===== verification/ResponsesToAnthropic.v ===== *)
(** * ResponsesToAnthropic: Responses API answers and streams as Anthropic Messages

    Models [backend/internal/pkg/apicompat/responses_to_anthropic.go]: the conversion of a whole
    response, and the stateful conversion of a stream of server-sent events. *)

From stdpp Require Import base tactics numbers list strings gmap.
From Stdlib Require Import ZArith Lia.
From S2P Require Import Prelude GoLib GoJson ApiTypes.

Local Open Scope go_scope.
Local Open Scope Z_scope.

(** [fromResponsesCallID] (anthropic_to_responses.go) *)
Definition fromResponsesCallID (id : string) : string :=
  if HasPrefix id "fc_" then
    let after := String.substring 3 (String.length id - 3) id in
    if HasPrefix after "toolu_" || HasPrefix after "call_" then after else id
  else id.

(** ** Whole responses *)

Definition anthropicUsageFromResponsesUsage (usage : option ResponsesUsage) : AnthropicUsage :=
  match usage with
  | None => AnthropicUsage0
  | Some usage =>
      let cachedTokens :=
        match ru_InputTokensDetails usage with Some d => rid_CachedTokens d | None => 0 end in
      let inputTokens :=
        ru_InputTokens usage -! cachedTokens -! ru_CacheCreationInputTokens usage in
      let inputTokens := if inputTokens <? 0 then 0 else inputTokens in
      AnthropicUsage0{{ au_InputTokens := inputTokens;
                        au_OutputTokens := ru_OutputTokens usage;
                        au_CacheReadInputTokens := cachedTokens;
                        au_CacheCreationInputTokens := ru_CacheCreationInputTokens usage }}
  end.

Definition containsAnthropicToolUseBlock (blocks : list AnthropicContentBlock) : bool :=
  existsb (λ block, cb_Type block ≟ "tool_use") blocks.

Definition responsesStatusToAnthropicStopReason (status : string)
    (details : option ResponsesIncompleteDetails) (blocks : list AnthropicContentBlock) : string :=
  switch status
    [ (["incomplete"],
       match details with
       | Some d => if rinc_Reason d ≟ "max_output_tokens" then "max_tokens" else "end_turn"
       | None => "end_turn"
       end);
      (["completed"],
       if containsAnthropicToolUseBlock blocks then "tool_use" else "end_turn") ]
    "end_turn".

(** The two characters of an empty JSON string. *)
Definition empty_json_string : string := String quote (String quote EmptyString).

(** Claude's Read tool refuses an empty [pages], which some upstreams send. *)
Definition sanitizeAnthropicToolUseInput (name raw : string) : string :=
  if negb (name ≟ "Read") || (raw ≟ "") then raw
  else
    match UnmarshalRawMap raw with
    | None => raw
    | Some input =>
        match input !! "pages" with
        | None => raw
        | Some pages =>
            if negb (pages ≟ empty_json_string) then raw
            else MarshalRawMap (delete "pages" input)
        end
    end.

Definition empty_results : string := "[]".

Definition query_of (item : ResponsesOutput) : string :=
  match ro_Action item with Some a => ws_Query a | None => "" end.

(** The blocks of one output item, as the loop of [ResponsesToAnthropic] appends them. *)
Definition outputItemBlocks (item : ResponsesOutput) : list AnthropicContentBlock :=
  switch (ro_Type item)
    [ (["reasoning"],
       let summaryText :=
         foldl (λ acc s,
           if (rs_Type s ≟ "summary_text") && negb (rs_Text s ≟ "")
           then acc +:+ rs_Text s else acc) "" (ro_Summary item) in
       if negb (summaryText ≟ "") || negb (TrimSpace (ro_EncryptedContent item) ≟ "")
       then [AnthropicContentBlock0{{ cb_Type := "thinking";
                                      cb_Thinking := summaryText;
                                      cb_Signature := ro_EncryptedContent item }}]
       else []);
      (["message"],
       (λ part, AnthropicContentBlock0{{ cb_Type := "text"; cb_Text := rp_Text part }})
         <$> filter (λ part, (rp_Type part ≟ "output_text") && negb (rp_Text part ≟ "") = true)
               (ro_Content item));
      (["function_call"],
       [AnthropicContentBlock0{{ cb_Type := "tool_use";
                                 cb_ID := fromResponsesCallID (ro_CallID item);
                                 cb_Name := ro_Name item;
                                 cb_Input := sanitizeAnthropicToolUseInput (ro_Name item)
                                               (ro_Arguments item) }}]);
      (["web_search_call"],
       let toolUseID := "srvtoolu_" +:+ ro_ID item in
       let inputJSON := MarshalStringMap {[ "query" := query_of item ]} in
       [AnthropicContentBlock0{{ cb_Type := "server_tool_use";
                                 cb_ID := toolUseID;
                                 cb_Name := "web_search";
                                 cb_Input := inputJSON }};
        AnthropicContentBlock0{{ cb_Type := "web_search_tool_result";
                                 cb_ToolUseID := toolUseID;
                                 cb_Content := empty_results }}]) ]
    [].

Definition ResponsesToAnthropic (resp : ResponsesResponse) (model : string) : AnthropicResponse :=
  let blocks := concat (outputItemBlocks <$> rr_Output resp) in
  let blocks :=
    match blocks with
    | [] => [AnthropicContentBlock0{{ cb_Type := "text"; cb_Text := "" }}]
    | _ => blocks
    end in
  AnthropicResponse0{{ am_ID := rr_ID resp;
                       am_Type := "message";
                       am_Role := "assistant";
                       am_Model := model;
                       am_Content := blocks;
                       am_StopReason :=
                         AnthropicStopReasonPtr (responsesStatusToAnthropicStopReason
                           (rr_Status resp) (rr_IncompleteDetails resp) blocks);
                       am_Usage :=
                         match rr_Usage resp with
                         | Some _ => anthropicUsageFromResponsesUsage (rr_Usage resp)
                         | None => AnthropicUsage0
                         end }}.

(** ** Streams *)

Record ResponsesEventToAnthropicState : Type := MkResponsesEventToAnthropicState {
  ra_MessageStartSent : bool;
  ra_MessageStopSent : bool;
  ra_ContentBlockIndex : Z;
  ra_ContentBlockOpen : bool;
  ra_CurrentBlockType : string;
  ra_CurrentToolName : string;
  ra_CurrentToolArgs : string;
  ra_CurrentToolHadDelta : bool;
  ra_PendingThinkingSignature : string;
  ra_HasToolCall : bool;
  ra_OutputIndexToBlockIdx : gmap Z Z;
  ra_InputTokens : Z;
  ra_OutputTokens : Z;
  ra_CacheReadInputTokens : Z;
  ra_CacheCreationInputTokens : Z;
  ra_ResponseID : string;
  ra_Model : string;
  ra_Created : Z
}.

(** [now] is [time.Now().Unix()]. *)
Definition NewResponsesEventToAnthropicState (now : Z) : ResponsesEventToAnthropicState :=
  MkResponsesEventToAnthropicState false false 0 false "" "" "" false "" false ∅ 0 0 0 0 "" "" now.

(** A handler: the events it emits and the state it leaves. *)
Definition Conv : Type := St ResponsesEventToAnthropicState (list AnthropicStreamEvent).

Definition block_start (idx : Z) (block : AnthropicContentBlock) : AnthropicStreamEvent :=
  AnthropicStreamEvent0{{ ae_Type := "content_block_start";
                          ae_Index := Some idx;
                          ae_ContentBlock := Some block }}.

Definition block_delta (idx : Z) (delta : AnthropicDelta) : AnthropicStreamEvent :=
  AnthropicStreamEvent0{{ ae_Type := "content_block_delta";
                          ae_Index := Some idx;
                          ae_Delta := Some delta }}.

Definition block_stop (idx : Z) : AnthropicStreamEvent :=
  AnthropicStreamEvent0{{ ae_Type := "content_block_stop"; ae_Index := Some idx }}.

Definition json_delta (partial : string) : AnthropicDelta :=
  AnthropicDelta0{{ ad_Type := "input_json_delta"; ad_PartialJSON := partial }}.

Definition closeCurrentBlock : Conv := λ state,
  if negb (ra_ContentBlockOpen state) then ([], state) else
  let idx := ra_ContentBlockIndex state in
  let thinking := ra_CurrentBlockType state ≟ "thinking" in
  let sig := TrimSpace (ra_PendingThinkingSignature state) in
  let events :=
    if thinking && negb (sig ≟ "")
    then [block_delta idx
            (AnthropicDelta0{{ ad_Type := "signature_delta"; ad_Signature := sig }})]
    else [] in
  let state :=
    if thinking then state{{ ra_PendingThinkingSignature := "" }} else state in
  ((events ++ [block_stop idx]),
   state{{ ra_ContentBlockOpen := false;
           ra_ContentBlockIndex := idx +! 1;
           ra_CurrentToolName := "";
           ra_CurrentToolArgs := "";
           ra_CurrentToolHadDelta := false }}).

Definition final_usage (state : ResponsesEventToAnthropicState) : AnthropicUsage :=
  AnthropicUsage0{{ au_InputTokens := ra_InputTokens state;
                    au_OutputTokens := ra_OutputTokens state;
                    au_CacheReadInputTokens := ra_CacheReadInputTokens state;
                    au_CacheCreationInputTokens := ra_CacheCreationInputTokens state }}.

(** The last two events of a message. *)
Definition stop_events (stopReason : string) (state : ResponsesEventToAnthropicState)
    : list AnthropicStreamEvent :=
  [AnthropicStreamEvent0{{ ae_Type := "message_delta";
                           ae_Delta := Some (AnthropicDelta0{{ ad_StopReason := stopReason }});
                           ae_Usage := Some (final_usage state) }};
   AnthropicStreamEvent0{{ ae_Type := "message_stop" }}].

Definition FinalizeResponsesAnthropicStream : Conv := λ state,
  if negb (ra_MessageStartSent state) || ra_MessageStopSent state then ([], state) else
  let '(events, state) := closeCurrentBlock state in
  let stopReason := if ra_HasToolCall state then "tool_use" else "end_turn" in
  ((events ++ stop_events stopReason state), state{{ ra_MessageStopSent := true }}).

(** ** Handlers *)

Definition resToAnthHandleCreated (evt : ResponsesStreamEvent) : Conv := λ state,
  let state :=
    match re_Response evt with
    | Some response =>
        let state := state{{ ra_ResponseID := rr_ID response }} in
        if ra_Model state ≟ "" then state{{ ra_Model := rr_Model response }} else state
    | None => state
    end in
  if ra_MessageStartSent state then ([], state) else
  let state := state{{ ra_MessageStartSent := true }} in
  ([AnthropicStreamEvent0{{ ae_Type := "message_start";
      ae_Message := Some (AnthropicResponse0{{ am_ID := ra_ResponseID state;
                                               am_Type := "message";
                                               am_Role := "assistant";
                                               am_Content := [];
                                               am_Model := ra_Model state;
                                               am_StopReason := None;
                                               am_Usage := AnthropicUsage0 }}) }}], state).

Definition resToAnthHandleOutputItemAdded (evt : ResponsesStreamEvent) : Conv := λ state,
  match re_Item evt with
  | None => ([], state)
  | Some item =>
      switch (ro_Type item)
        [ (["function_call"; "custom_tool_call"],
           let '(events, state) := closeCurrentBlock state in
           let idx := ra_ContentBlockIndex state in
           ((events ++ [block_start idx
               (AnthropicContentBlock0{{ cb_Type := "tool_use";
                                         cb_ID := fromResponsesCallID (ro_CallID item);
                                         cb_Name := ro_Name item;
                                         cb_Input := "{}" }})]),
            state{{ ra_OutputIndexToBlockIdx :=
                      <[re_OutputIndex evt := idx]> (ra_OutputIndexToBlockIdx state);
                    ra_ContentBlockOpen := true;
                    ra_CurrentBlockType := "tool_use";
                    ra_CurrentToolName := ro_Name item;
                    ra_CurrentToolArgs := "";
                    ra_CurrentToolHadDelta := false;
                    ra_HasToolCall := true }}));
          (["reasoning"],
           let '(events, state) := closeCurrentBlock state in
           let idx := ra_ContentBlockIndex state in
           ((events ++ [block_start idx
               (AnthropicContentBlock0{{ cb_Type := "thinking"; cb_Thinking := "" }})]),
            state{{ ra_OutputIndexToBlockIdx :=
                      <[re_OutputIndex evt := idx]> (ra_OutputIndexToBlockIdx state);
                    ra_ContentBlockOpen := true;
                    ra_CurrentBlockType := "thinking";
                    ra_PendingThinkingSignature := TrimSpace (ro_EncryptedContent item) }}));
          (["message"], ([], state)) ]
        ([], state)
  end.

Definition resToAnthHandleTextDelta (evt : ResponsesStreamEvent) : Conv := λ state,
  if re_Delta evt ≟ "" then ([], state) else
  let '(events, state) :=
    if negb (ra_ContentBlockOpen state) || negb (ra_CurrentBlockType state ≟ "text") then
      let '(events, state) := closeCurrentBlock state in
      let idx := ra_ContentBlockIndex state in
      ((events ++ [block_start idx
          (AnthropicContentBlock0{{ cb_Type := "text"; cb_Text := "" }})]),
       state{{ ra_ContentBlockOpen := true; ra_CurrentBlockType := "text" }})
    else ([], state) in
  let idx := ra_ContentBlockIndex state in
  ((events ++ [block_delta idx
      (AnthropicDelta0{{ ad_Type := "text_delta"; ad_Text := re_Delta evt }})]), state).

Definition resToAnthHandleFuncArgsDelta (evt : ResponsesStreamEvent) : Conv := λ state,
  if re_Delta evt ≟ "" then ([], state) else
  if (ra_CurrentBlockType state ≟ "tool_use") && (ra_CurrentToolName state ≟ "Read") then
    let state := state{{ ra_CurrentToolArgs := ra_CurrentToolArgs state +:+ re_Delta evt }} in
    if ra_CurrentToolHadDelta state || negb (Valid (ra_CurrentToolArgs state))
    then ([], state) else
    match ra_OutputIndexToBlockIdx state !! re_OutputIndex evt with
    | None => ([], state)
    | Some blockIdx =>
        let state := state{{ ra_CurrentToolHadDelta := true }} in
        let sanitized :=
          sanitizeAnthropicToolUseInput (ra_CurrentToolName state) (ra_CurrentToolArgs state) in
        ([block_delta blockIdx (json_delta sanitized)], state)
    end
  else
    let state :=
      if ra_CurrentBlockType state ≟ "tool_use"
      then state{{ ra_CurrentToolHadDelta := true }} else state in
    match ra_OutputIndexToBlockIdx state !! re_OutputIndex evt with
    | None => ([], state)
    | Some blockIdx => ([block_delta blockIdx (json_delta (re_Delta evt))], state)
    end.

Definition resToAnthHandleBlockDone : Conv := λ state,
  if negb (ra_ContentBlockOpen state) then ([], state) else closeCurrentBlock state.

Definition resToAnthHandleFuncArgsDone (evt : ResponsesStreamEvent) : Conv := λ state,
  if negb (ra_ContentBlockOpen state) then ([], state) else
  if negb (ra_CurrentBlockType state ≟ "tool_use") then resToAnthHandleBlockDone state else
  let raw := re_Arguments evt in
  let raw := if raw ≟ "" then ra_CurrentToolArgs state else raw in
  if (raw ≟ "") || ra_CurrentToolHadDelta state then closeCurrentBlock state else
  let read := ra_CurrentToolName state ≟ "Read" in
  let sanitized := sanitizeAnthropicToolUseInput (ra_CurrentToolName state) raw in
  if read && (sanitized ≟ "") then closeCurrentBlock state else
  let raw := if read then sanitized else raw in
  let blockIdx :=
    match ra_OutputIndexToBlockIdx state !! re_OutputIndex evt with
    | Some blockIdx => blockIdx
    | None => ra_ContentBlockIndex state
    end in
  if negb (ra_ContentBlockOpen state) || negb (blockIdx =? ra_ContentBlockIndex state)
  then ([], state) else
  let '(events, state) := closeCurrentBlock state in
  (block_delta blockIdx (json_delta raw) :: events, state).

Definition resToAnthHandleReasoningDelta (evt : ResponsesStreamEvent) : Conv := λ state,
  if re_Delta evt ≟ "" then ([], state) else
  match ra_OutputIndexToBlockIdx state !! re_OutputIndex evt with
  | None => ([], state)
  | Some blockIdx =>
      ([block_delta blockIdx
          (AnthropicDelta0{{ ad_Type := "thinking_delta"; ad_Thinking := re_Delta evt }})], state)
  end.

Definition resToAnthHandleWebSearchDone (item : ResponsesOutput) : Conv := λ state,
  let '(events, state) := closeCurrentBlock state in
  let toolUseID := "srvtoolu_" +:+ ro_ID item in
  let inputJSON := MarshalStringMap {[ "query" := query_of item ]} in
  let idx1 := ra_ContentBlockIndex state in
  let idx2 := idx1 +! 1 in
  ((events ++
    [block_start idx1 (AnthropicContentBlock0{{ cb_Type := "server_tool_use";
                                                cb_ID := toolUseID;
                                                cb_Name := "web_search";
                                                cb_Input := inputJSON }});
     block_stop idx1;
     block_start idx2 (AnthropicContentBlock0{{ cb_Type := "web_search_tool_result";
                                                cb_ToolUseID := toolUseID;
                                                cb_Content := empty_results }});
     block_stop idx2]),
   state{{ ra_ContentBlockIndex := idx2 +! 1 }}).

Definition resToAnthHandleOutputItemDone (evt : ResponsesStreamEvent) : Conv := λ state,
  match re_Item evt with
  | None => ([], state)
  | Some item =>
      if (ro_Type item ≟ "web_search_call") && (ro_Status item ≟ "completed")
      then resToAnthHandleWebSearchDone item state else
      let sig := TrimSpace (ro_EncryptedContent item) in
      let state :=
        if (ro_Type item ≟ "reasoning") && negb (sig ≟ "")
        then state{{ ra_PendingThinkingSignature := sig }} else state in
      if ra_ContentBlockOpen state then closeCurrentBlock state else ([], state)
  end.

Definition record_usage (usage : AnthropicUsage) (state : ResponsesEventToAnthropicState)
    : ResponsesEventToAnthropicState :=
  state{{ ra_InputTokens := au_InputTokens usage;
          ra_OutputTokens := au_OutputTokens usage;
          ra_CacheReadInputTokens := au_CacheReadInputTokens usage;
          ra_CacheCreationInputTokens := au_CacheCreationInputTokens usage }}.

Definition resToAnthHandleCompleted (evt : ResponsesStreamEvent) : Conv := λ state,
  if ra_MessageStopSent state then ([], state) else
  let '(events, state) := closeCurrentBlock state in
  let state :=
    match re_Usage evt with
    | Some _ => record_usage (anthropicUsageFromResponsesUsage (re_Usage evt)) state
    | None => state
    end in
  let '(stopReason, state) :=
    match re_Response evt with
    | None => ("end_turn", state)
    | Some response =>
        let state :=
          match rr_Usage response with
          | Some _ => record_usage (anthropicUsageFromResponsesUsage (rr_Usage response)) state
          | None => state
          end in
        (switch (rr_Status response)
           [ (["incomplete"],
              match rr_IncompleteDetails response with
              | Some d =>
                  if rinc_Reason d ≟ "max_output_tokens" then "max_tokens" else "end_turn"
              | None => "end_turn"
              end);
             (["completed"], if ra_HasToolCall state then "tool_use" else "end_turn") ]
           "end_turn", state)
    end in
  ((events ++ stop_events stopReason state), state{{ ra_MessageStopSent := true }}).

Definition ResponsesEventToAnthropicEvents (evt : ResponsesStreamEvent) : Conv :=
  switch (re_Type evt)
    [ (["response.created"], resToAnthHandleCreated evt);
      (["response.output_item.added"], resToAnthHandleOutputItemAdded evt);
      (["response.output_text.delta"], resToAnthHandleTextDelta evt);
      (["response.output_text.done"], resToAnthHandleBlockDone);
      (["response.function_call_arguments.delta"; "response.custom_tool_call_input.delta"],
       resToAnthHandleFuncArgsDelta evt);
      (["response.function_call_arguments.done"], resToAnthHandleFuncArgsDone evt);
      (["response.output_item.done"], resToAnthHandleOutputItemDone evt);
      (["response.reasoning_summary_text.delta"; "response.reasoning_text.delta"],
       resToAnthHandleReasoningDelta evt);
      (["response.reasoning_summary_text.done"], mret []);
      (["response.completed"; "response.done"; "response.incomplete"; "response.failed"],
       resToAnthHandleCompleted evt) ]
    (mret []).

(** A whole stream: the events of the upstream, then the end of the connection. *)
Definition convertStream (evts : list ResponsesStreamEvent) : Conv :=
  events ← run_machine ResponsesEventToAnthropicEvents evts;
  rest ← FinalizeResponsesAnthropicStream;
  mret (events ++ rest).
