(* ===== verification/ResToAnthFacts.v ===== *)
(** * ResToAnthFacts: what a client of the converted Anthropic stream sees

    The discipline of content blocks as an observer of the emitted events, kept on every input;
    the full protocol on streams that start and end properly; and the text that comes through. *)

From stdpp Require Import base tactics numbers list strings gmap.
From Stdlib Require Import ZArith Lia.
From S2P Require Import Prelude GoLib GoJson ApiTypes Upstream ResponsesToAnthropic.

Local Open Scope go_scope.
Local Open Scope Z_scope.

(** ** The client's rules *)

(** A client of the Anthropic stream: the message has started, is ending or has stopped; the
    index of the open block or of the next one; the kind of the open block; the blocks announced
    so far. *)
Record client : Type := Client {
  c_started : bool;
  c_ending : bool;
  c_stopped : bool;
  c_next : Z;
  c_open : option string;
  c_seen : gset Z
}.

Definition new_client : client := Client false false false 0 None ∅.

Definition delta_ok (c : client) (i : Z) (d : AnthropicDelta) : bool :=
  switch (ad_Type d)
    [ (["text_delta"], bool_decide (c_open c = Some "text") && (i =? c_next c));
      (["signature_delta"], bool_decide (c_open c = Some "thinking") && (i =? c_next c));
      (["input_json_delta"; "thinking_delta"], bool_decide (i ∈ c_seen c)) ]
    false.

(** The rules; [None] when an event breaks one.  Under [strict] blocks come only between the
    start and the end of the message. *)
Definition observe (strict : bool) (q : option client) (e : AnthropicStreamEvent)
    : option client :=
  c ← q;
  let during := negb strict || (c_started c && negb (c_ending c)) in
  switch (ae_Type e)
    [ (["message_start"],
       if negb (c_started c) then Some (c{{ c_started := true }}) else None);
      (["content_block_start"],
       match ae_Index e, ae_ContentBlock e with
       | Some i, Some b =>
           if during && bool_decide (c_open c = None) && (i =? c_next c)
           then Some (c{{ c_open := Some (cb_Type b); c_seen := {[ i ]} ∪ c_seen c }})
           else None
       | _, _ => None
       end);
      (["content_block_delta"],
       match ae_Index e, ae_Delta e with
       | Some i, Some d => if during && delta_ok c i d then Some c else None
       | _, _ => None
       end);
      (["content_block_stop"],
       match ae_Index e, c_open c with
       | Some i, Some _ =>
           if during && (i =? c_next c)
           then Some (c{{ c_open := None; c_next := i +! 1 }}) else None
       | _, _ => None
       end);
      (["message_delta"],
       if during && negb (c_ending c) && bool_decide (c_open c = None)
       then Some (c{{ c_ending := true }}) else None);
      (["message_stop"],
       if c_ending c && negb (c_stopped c) then Some (c{{ c_stopped := true }}) else None) ]
    None.

Definition observes (strict : bool) : option client → list AnthropicStreamEvent → option client :=
  foldl (observe strict).

(** ** The converter's state as the client sees it *)

Definition view (s : ResponsesEventToAnthropicState) (seen : gset Z) : client :=
  Client (ra_MessageStartSent s) (ra_MessageStopSent s) (ra_MessageStopSent s)
    (ra_ContentBlockIndex s)
    (if ra_ContentBlockOpen s then Some (ra_CurrentBlockType s) else None) seen.

(** The blocks output items refer to were announced, and so was the open block. *)
Definition known (s : ResponsesEventToAnthropicState) (seen : gset Z) : Prop :=
  map_Forall (λ _ i, i ∈ seen) (ra_OutputIndexToBlockIdx s) ∧
  (ra_ContentBlockOpen s = true → ra_ContentBlockIndex s ∈ seen).

Definition during (strict : bool) (s : ResponsesEventToAnthropicState) : Prop :=
  strict = true → ra_MessageStartSent s = true ∧ ra_MessageStopSent s = false.

(** A handler that obeys the client's rules. *)
Definition obeys (strict : bool) (h : Conv) : Prop :=
  ∀ s seen, known s seen → during strict s →
    ∃ seen', observes strict (Some (view s seen)) (h s).1 = Some (view (h s).2 seen') ∧
             known (h s).2 seen'.

Lemma observes_app strict q l1 l2 :
  observes strict q (l1 ++ l2) = observes strict (observes strict q l1) l2.
Proof. apply foldl_app. Qed.

Lemma during_bool strict s :
  during strict s → negb strict || (ra_MessageStartSent s && negb (ra_MessageStopSent s)) = true.
Proof. destruct strict; [|done]. intros H. by destruct (H eq_refl) as [-> ->]. Qed.

(** ** One event *)

Definition during_c (strict : bool) (c : client) : bool :=
  negb strict || (c_started c && negb (c_ending c)).

Lemma observe_start strict c b :
  during_c strict c = true → c_open c = None →
  observe strict (Some c) (block_start (c_next c) b) =
    Some (c{{ c_open := Some (cb_Type b); c_seen := {[ c_next c ]} ∪ c_seen c }}).
Proof.
  unfold during_c. intros Hd Ho. unfold observe. cbn. rewrite Hd, Ho, Z.eqb_refl. done.
Qed.

Lemma observe_stop strict c ty :
  during_c strict c = true → c_open c = Some ty →
  observe strict (Some c) (block_stop (c_next c)) =
    Some (c{{ c_open := None; c_next := c_next c +! 1 }}).
Proof.
  unfold during_c. intros Hd Ho. unfold observe. cbn. rewrite Hd, Ho, Z.eqb_refl. done.
Qed.

Lemma observe_delta strict c i d :
  during_c strict c = true → delta_ok c i d = true →
  observe strict (Some c) (block_delta i d) = Some c.
Proof. unfold during_c. intros Hd Ho. unfold observe. cbn -[delta_ok]. by rewrite Hd, Ho. Qed.

Lemma observe_stop_events strict c reason s :
  during_c strict c = true → c_open c = None → c_ending c = false → c_stopped c = false →
  observes strict (Some c) (stop_events reason s) =
    Some (c{{ c_ending := true; c_stopped := true }}).
Proof.
  destruct c. unfold during_c. cbn. intros Hd -> -> ->. unfold observes, observe. cbn.
  cbn in Hd. by rewrite Hd.
Qed.

Lemma during_view strict s seen : during strict s → during_c strict (view s seen) = true.
Proof. apply during_bool. Qed.

#[export] Hint Resolve during_view : relay.

(** ** The handlers *)

(** The signature of a thinking block goes to that block. *)
Lemma signature_silent strict s seen sig :
  during_c strict (view s seen) = true → ra_ContentBlockOpen s = true →
  foldl (observe strict) (Some (view s seen))
    (if (ra_CurrentBlockType s ≟ "thinking") && negb (sig ≟ "")
     then [block_delta (ra_ContentBlockIndex s)
             (AnthropicDelta0{{ ad_Type := "signature_delta"; ad_Signature := sig }})]
     else []) = Some (view s seen).
Proof.
  intros Hd Ho. case_if; [|done]. bool_props. cbn -[observe view block_delta].
  apply observe_delta; [done|]. unfold delta_ok. cbn. rewrite Ho, Z.eqb_refl.
  by replace (ra_CurrentBlockType s) with "thinking".
Qed.

(** Closing the current block leaves no open block; it moves past it when there was one. *)
Lemma close_obeys strict s seen :
  during strict s →
  observes strict (Some (view s seen)) (closeCurrentBlock s).1
    = Some (view (closeCurrentBlock s).2 seen).
Proof.
  intros Hd%(during_view _ _ seen). unfold closeCurrentBlock.
  destruct (ra_ContentBlockOpen s) eqn:Ho; cbn [negb fst snd]; [|done].
  assert (Hopen : c_open (view s seen) = Some (ra_CurrentBlockType s)) by (cbn; by rewrite Ho).
  rewrite observes_app. unfold observes. rewrite signature_silent by done. cbn [foldl].
  change (ra_ContentBlockIndex s) with (c_next (view s seen)) at 1.
  rewrite (observe_stop _ _ _ Hd Hopen). by case_if.
Qed.

Lemma close_closed s :
  let s' := (closeCurrentBlock s).2 in
  ra_ContentBlockOpen s' = false ∧
  ra_MessageStartSent s' = ra_MessageStartSent s ∧
  ra_MessageStopSent s' = ra_MessageStopSent s ∧
  ra_OutputIndexToBlockIdx s' = ra_OutputIndexToBlockIdx s.
Proof.
  unfold closeCurrentBlock. destruct (ra_ContentBlockOpen s) eqn:Ho; cbn; [|done].
  by destruct (ra_CurrentBlockType s ≟ "thinking").
Qed.

(** Closing the current block and opening another. *)
Lemma open_obeys strict s seen b s2 :
  let s1 := (closeCurrentBlock s).2 in
  during strict s →
  view s2 seen = (view s1 seen){{ c_open := Some (cb_Type b) }} →
  observes strict (Some (view s seen))
    ((closeCurrentBlock s).1 ++ [block_start (ra_ContentBlockIndex s1) b])
    = Some (view s2 ({[ ra_ContentBlockIndex s1 ]} ∪ seen)).
Proof.
  intros s1 Hd Hv. rewrite observes_app, close_obeys by done. fold s1. cbn [observes foldl].
  destruct (close_closed s) as (Hc & Hs & Ht & _). fold s1 in Hc, Hs, Ht.
  assert (Hd1 : during strict s1) by (unfold during; rewrite Hs, Ht; done).
  change (ra_ContentBlockIndex s1) with (c_next (view s1 seen)) at 1.
  rewrite observe_start; [|by apply during_view|cbn; by rewrite Hc].
  change (view s2 ?seen') with ((view s2 seen){{ c_seen := seen' }}). by rewrite Hv.
Qed.

Lemma known_close s seen : known s seen → known (closeCurrentBlock s).2 seen.
Proof. unfold known. destruct (close_closed s) as (-> & _ & _ & ->). naive_solver. Qed.

(** The state after opening a block, its output item noted or not. *)
Lemma known_open s2 s1 seen :
  known s1 seen →
  ra_ContentBlockIndex s2 = ra_ContentBlockIndex s1 →
  (ra_OutputIndexToBlockIdx s2 = ra_OutputIndexToBlockIdx s1 ∨
   ∃ oi, ra_OutputIndexToBlockIdx s2 =
           <[oi := ra_ContentBlockIndex s1]> (ra_OutputIndexToBlockIdx s1)) →
  known s2 ({[ ra_ContentBlockIndex s1 ]} ∪ seen).
Proof.
  intros [Hk _] Hi Hm. split; [|rewrite Hi; set_solver].
  assert (Hk' : map_Forall (λ _ j, j ∈ ({[ ra_ContentBlockIndex s1 ]} ∪ seen))
                  (ra_OutputIndexToBlockIdx s1)).
  { intros k j Hj. specialize (Hk k j Hj). simpl in Hk. set_solver. }
  destruct Hm as [->|[oi ->]]; [done|]. apply map_Forall_insert_2; [set_solver|done].
Qed.

Lemma obeys_nothing strict : obeys strict (λ s, ([], s)).
Proof. intros s seen Hk _. by exists seen. Qed.

Lemma obeys_close strict : obeys strict closeCurrentBlock.
Proof.
  intros s seen Hk Hd. exists seen. split; [by apply close_obeys|by apply known_close].
Qed.

Lemma obeys_block_done strict : obeys strict resToAnthHandleBlockDone.
Proof.
  intros s seen Hk Hd. unfold resToAnthHandleBlockDone. case_if; [by exists seen|].
  by eapply obeys_close.
Qed.

(** A delta on a block that was announced. *)
Lemma known_delta_obeys strict s seen i d :
  during strict s → i ∈ seen →
  ad_Type d = "input_json_delta" ∨ ad_Type d = "thinking_delta" →
  observes strict (Some (view s seen)) [block_delta i d] = Some (view s seen).
Proof.
  intros Hd Hin Ht. cbn [observes foldl]. apply observe_delta; [by apply during_view|].
  unfold delta_ok. destruct Ht as [-> | ->]; cbn; by rewrite bool_decide_eq_true_2.
Qed.

Lemma json_delta_obeys strict s seen i text :
  during strict s → i ∈ seen →
  observes strict (Some (view s seen)) [block_delta i (json_delta text)] = Some (view s seen).
Proof. intros. apply known_delta_obeys; [done|done|by left]. Qed.

Lemma obeys_reasoning strict evt : obeys strict (resToAnthHandleReasoningDelta evt).
Proof.
  intros s seen Hk Hd. exists seen. unfold resToAnthHandleReasoningDelta.
  case_if; [done|]. destruct (_ !! _) eqn:Hi; [|done]. cbn [fst snd].
  split; [|done]. apply known_delta_obeys; [done|by eapply (proj1 Hk)|by right].
Qed.

Lemma obeys_args_delta strict evt : obeys strict (resToAnthHandleFuncArgsDelta evt).
Proof.
  intros s seen Hk Hd. exists seen. unfold resToAnthHandleFuncArgsDelta.
  case_if; [done|]. case_if.
  - case_if; [done|]. destruct (_ !! _) as [i|] eqn:Hi; [|done]. cbn [fst snd].
    split; [|exact Hk].
    exact (json_delta_obeys strict s seen i _ Hd (proj1 Hk _ _ Hi)).
  - set (s1 := if ra_CurrentBlockType s ≟ "tool_use" then _ else _).
    assert (Hv : view s1 seen = view s seen ∧ known s1 seen).
    { subst s1. case_if; split; done || exact Hk. }
    destruct (_ !! _) as [i|] eqn:Hi; cbn [fst snd]; [|split; [cbn [observes foldl]; f_equal; by rewrite (proj1 Hv)|apply Hv]].
    destruct Hv as [Hv Hk1]. rewrite Hv. split; [|done].
    apply json_delta_obeys; [done|by eapply (proj1 Hk1)].
Qed.

Lemma obeys_args_done strict evt : obeys strict (resToAnthHandleFuncArgsDone evt).
Proof.
  intros s seen Hk Hd. unfold resToAnthHandleFuncArgsDone.
  case_if; [by exists seen|]. case_if; [by eapply obeys_block_done|]. cbv zeta.
  do 2 (case_if; [by eapply obeys_close|]).
  match goal with |- context [block_delta ?i (json_delta ?r)] => set (idx := i); set (raw := r) end.
  case_if; [by exists seen|]. bool_props. exists seen.
  destruct (closeCurrentBlock s) as [ev s1] eqn:E. cbn [fst snd].
  pose proof (close_obeys strict s seen Hd) as Hc. pose proof (known_close s seen Hk) as Hk'.
  rewrite E in Hc, Hk'. split; [|done].
  assert (Hin : idx ∈ seen).
  { subst idx. destruct (_ !! _) eqn:Hi; [by eapply (proj1 Hk)|by apply Hk]. }
  change (block_delta idx (json_delta raw) :: ev) with ([block_delta idx (json_delta raw)] ++ ev).
  rewrite observes_app, json_delta_obeys by done. done.
Qed.

Lemma obeys_text strict evt : obeys strict (resToAnthHandleTextDelta evt).
Proof.
  intros s seen Hk Hd. unfold resToAnthHandleTextDelta.
  case_if; [by exists seen|]. case_if.
  - pose proof (known_close s seen Hk) as Hk1.
    pose proof (close_closed s) as (_ & Hs & Ht & _).
    rewrite (surjective_pairing (closeCurrentBlock s)). cbv zeta.
    set (s1 := (closeCurrentBlock s).2) in *. cbn [fst snd].
    set (s2 := s1{{ ra_ContentBlockOpen := true; ra_CurrentBlockType := "text" }}).
    exists ({[ ra_ContentBlockIndex s1 ]} ∪ seen).
    split; [|apply (known_open s2 s1 seen Hk1); [done|by left]].
    rewrite observes_app, (open_obeys strict s seen _ s2 Hd) by done. fold s1.
    cbn [observes foldl]. change (ra_ContentBlockIndex s2) with (c_next (view s2 seen)).
    assert (Hd1 : during strict s1) by (unfold during; by rewrite Hs, Ht).
    apply observe_delta; [apply during_view; exact Hd1|].
    unfold delta_ok. cbn. by rewrite Z.eqb_refl.
  - apply orb_false_iff in Heqb0 as [Ho Ht]. bool_props. exists seen. split; [|done].
    cbn [app fst snd observes foldl]. apply observe_delta; [by apply during_view|].
    unfold delta_ok. cbn. by rewrite Ho, Ht, Z.eqb_refl.
Qed.

Lemma obeys_item_added strict evt : obeys strict (resToAnthHandleOutputItemAdded evt).
Proof.
  intros s seen Hk Hd. unfold resToAnthHandleOutputItemAdded.
  destruct (re_Item evt) as [item|]; [|by exists seen].
  pose proof (known_close s seen Hk) as Hk1.
  rewrite (surjective_pairing (closeCurrentBlock s)). cbv zeta.
  set (s1 := (closeCurrentBlock s).2) in *.
  apply (switch_all (λ r, ∃ seen', observes strict (Some (view s seen)) r.1 =
    Some (view r.2 seen') ∧ known r.2 seen')); [|by exists seen].
  repeat constructor; cbn [fst snd]; try (by exists seen);
    (exists ({[ ra_ContentBlockIndex s1 ]} ∪ seen);
     split; [by apply open_obeys|apply (known_open _ s1); [done|done|right; by eexists]]).
Qed.

Lemma obeys_web_search strict item : obeys strict (resToAnthHandleWebSearchDone item).
Proof.
  intros s seen Hk Hd. unfold resToAnthHandleWebSearchDone.
  rewrite (surjective_pairing (closeCurrentBlock s)). cbv zeta.
  pose proof (known_close s seen Hk) as Hk1.
  pose proof (close_closed s) as (Hc & Hs & Ht & _).
  set (s1 := (closeCurrentBlock s).2) in *. cbn [fst snd].
  assert (Hd1 : during_c strict (view s1 seen) = true)
    by (apply during_view; unfold during; by rewrite Hs, Ht).
  set (i := ra_ContentBlockIndex s1).
  exists ({[ i +! 1 ]} ∪ ({[ i ]} ∪ seen)). split.
  - rewrite observes_app, close_obeys by done. fold s1. cbn [observes foldl].
    clear - Hd1 Hc. clearbody s1. destruct s1. cbn in Hc, i. subst ra_ContentBlockOpen.
    unfold during_c in Hd1. cbn in Hd1. unfold observe, view. cbn.
    do 4 (rewrite Hd1, Z.eqb_refl; cbn). done.
  - destruct Hk1 as [Hk1 _]. split;
      [|intros Ho; change (ra_ContentBlockOpen s1 = true) in Ho; congruence].
    intros k j Hj. specialize (Hk1 k j Hj). simpl in Hk1. set_solver.
Qed.

Lemma obeys_item_done strict evt : obeys strict (resToAnthHandleOutputItemDone evt).
Proof.
  intros s seen Hk Hd. unfold resToAnthHandleOutputItemDone.
  destruct (re_Item evt) as [item|]; [|by exists seen].
  case_if; [by eapply obeys_web_search|]. cbv zeta.
  set (s2 := if _ && negb _ then _ else s).
  assert (view s2 seen = view s seen ∧ known s2 seen ∧ during strict s2) as (Hv & Hk2 & Hd2)
    by (subst s2; case_if; exact (conj eq_refl (conj Hk Hd))).
  rewrite <- Hv. clearbody s2. case_if; [|by exists seen].
  by apply obeys_close.
Qed.

(** [message_start] is sent once, whenever [response.created] comes. *)
Lemma created_silent strict evt s seen :
  observes strict (Some (view s seen)) (resToAnthHandleCreated evt s).1
    = Some (view (resToAnthHandleCreated evt s).2 seen) ∧
  (known s seen → known (resToAnthHandleCreated evt s).2 seen).
Proof.
  unfold resToAnthHandleCreated.
  set (s1 := match re_Response evt with Some _ => _ | None => s end).
  assert (Hv : view s1 seen = view s seen ∧ (known s seen → known s1 seen)).
  { subst s1. destruct (re_Response evt); [|done]. case_if; exact (conj eq_refl (λ H, H)). }
  destruct Hv as [Hv Hk]. rewrite <- Hv. clearbody s1.
  destruct (ra_MessageStartSent s1) eqn:Hs; [done|]. split; [|exact Hk].
  cbn [fst snd observes foldl]. unfold observe, view. cbn. rewrite Hs. done.
Qed.

Lemma obeys_created strict evt : obeys strict (resToAnthHandleCreated evt).
Proof.
  intros s seen Hk _. exists seen. destruct (created_silent strict evt s seen). auto.
Qed.

(** Closing the current block and ending the message. *)
Lemma end_obeys strict s seen reason s2 s3 :
  during strict s → known s seen → ra_MessageStopSent s = false →
  view s2 seen = view (closeCurrentBlock s).2 seen →
  ra_OutputIndexToBlockIdx s2 = ra_OutputIndexToBlockIdx s →
  observes strict (Some (view s seen)) ((closeCurrentBlock s).1 ++ stop_events reason s3)
    = Some (view (s2{{ ra_MessageStopSent := true }}) seen) ∧
  known (s2{{ ra_MessageStopSent := true }}) seen.
Proof.
  intros Hd Hk Hst Hv Hm. destruct (close_closed s) as (Hc & Hs & Ht & _).
  rewrite Hst in Ht. set (s1 := (closeCurrentBlock s).2) in *.
  assert (Hd1 : during strict s1) by (intros H; rewrite Hs, Ht; split; [by apply Hd|done]).
  rewrite observes_app, close_obeys by done. fold s1.
  rewrite observe_stop_events;
    [|by apply during_view|cbn; by rewrite Hc|cbn; by rewrite Ht|cbn; by rewrite Ht].
  rewrite <- Hv. split; [done|].
  split; [change (map_Forall (λ _ i, i ∈ seen) (ra_OutputIndexToBlockIdx s2)); rewrite Hm;
          apply Hk|].
  intros Ho. assert (Ho2 : c_open (view s2 seen) = None) by (rewrite Hv; cbn; by rewrite Hc).
  cbn in Ho2. change (ra_ContentBlockOpen s2 = true) in Ho. by rewrite Ho in Ho2.
Qed.

(** What a terminal event records before it ends the message. *)
Lemma completed_run evt s :
  ra_MessageStopSent s = false →
  ∃ reason s3, resToAnthHandleCompleted evt s =
    ((closeCurrentBlock s).1 ++ stop_events reason s3, s3{{ ra_MessageStopSent := true }}) ∧
    (∀ seen, view s3 seen = view (closeCurrentBlock s).2 seen) ∧
    ra_OutputIndexToBlockIdx s3 = ra_OutputIndexToBlockIdx s.
Proof.
  intros Hst. unfold resToAnthHandleCompleted. rewrite Hst.
  destruct (close_closed s) as (_ & _ & _ & Hm).
  rewrite (surjective_pairing (closeCurrentBlock s)). cbv zeta.
  set (s1 := (closeCurrentBlock s).2) in *.
  set (s2 := match re_Usage evt with Some _ => _ | None => s1 end).
  assert (H2 : (∀ seen, view s2 seen = view s1 seen) ∧
               ra_OutputIndexToBlockIdx s2 = ra_OutputIndexToBlockIdx s)
    by (subst s2; by destruct (re_Usage evt)).
  set (r := match re_Response evt with Some _ => _ | None => _ end).
  assert (H3 : (∀ seen, view r.2 seen = view s1 seen) ∧
               ra_OutputIndexToBlockIdx r.2 = ra_OutputIndexToBlockIdx s).
  { subst r. destruct (re_Response evt) as [resp|]; [|exact H2].
    destruct (rr_Usage resp); exact H2. }
  clearbody r. destruct r as [reason s3]. by exists reason, s3.
Qed.

Lemma obeys_completed strict evt : obeys strict (resToAnthHandleCompleted evt).
Proof.
  intros s seen Hk Hd. exists seen. destruct (ra_MessageStopSent s) eqn:Hst.
  - unfold resToAnthHandleCompleted. by rewrite Hst.
  - destruct (completed_run evt s Hst) as (reason & s3 & -> & Hv & Hm). cbn [fst snd].
    by apply end_obeys.
Qed.

Lemma obeys_finalize strict : obeys strict FinalizeResponsesAnthropicStream.
Proof.
  intros s seen Hk Hd. exists seen. unfold FinalizeResponsesAnthropicStream.
  destruct (_ || _) eqn:E; [done|]. bool_props.
  rewrite (surjective_pairing (closeCurrentBlock s)). cbn [fst snd].
  apply end_obeys; try done. by destruct (close_closed s) as (_ & _ & _ & ->).
Qed.

Lemma obeys_event strict evt : obeys strict (ResponsesEventToAnthropicEvents evt).
Proof.
  unfold ResponsesEventToAnthropicEvents. apply switch_all.
  - repeat apply List.Forall_cons; try apply List.Forall_nil; cbn [snd].
    + apply obeys_created.
    + apply obeys_item_added.
    + apply obeys_text.
    + apply obeys_block_done.
    + apply obeys_args_delta.
    + apply obeys_args_done.
    + apply obeys_item_done.
    + apply obeys_reasoning.
    + apply obeys_nothing.
    + apply obeys_completed.
  - apply obeys_nothing.
Qed.

(** ** Whole streams *)

(** Only a terminal event ends the message, and nothing undoes its start. *)
Definition same_phase (s s' : ResponsesEventToAnthropicState) : Prop :=
  ra_MessageStopSent s' = ra_MessageStopSent s ∧
  (ra_MessageStartSent s = true → ra_MessageStartSent s' = true).

Lemma same_phase_close s : same_phase s (closeCurrentBlock s).2.
Proof. destruct (close_closed s) as (_ & Hs & Ht & _). split; by rewrite ?Hs, ?Ht. Qed.

Lemma same_phase_refl s : same_phase s s.
Proof. by split. Qed.

(** Case analysis on a handler that only closes the current block and updates other fields. *)
Ltac solve_phase s :=
  cbv zeta; try rewrite (surjective_pairing (closeCurrentBlock s));
  repeat first [case_if | match goal with |- context [match ?x !! ?i with _ => _ end] =>
                            destruct (x !! i) end];
  cbn [fst snd];
  first [exact (same_phase_refl s) | exact (same_phase_close s)].

Lemma event_same_phase evt s :
  is_terminal evt = false → same_phase s (ResponsesEventToAnthropicEvents evt s).2.
Proof.
  intros Ht. unfold ResponsesEventToAnthropicEvents.
  apply (switch_cases (λ h : Conv, same_phase s (h s).2)); [|done].
  repeat apply List.Forall_cons; try apply List.Forall_nil; cbn [snd fst]; intros Hl;
    try (unfold is_terminal in Ht; congruence); clear Ht Hl.
  - unfold resToAnthHandleCreated.
    destruct (re_Response evt); repeat case_if; split; done.
  - unfold resToAnthHandleOutputItemAdded. destruct (re_Item evt); [|done].
    rewrite (surjective_pairing (closeCurrentBlock s)).
    apply (switch_all (λ r, same_phase s r.2)); [|done].
    repeat apply List.Forall_cons; try apply List.Forall_nil;
      first [exact (same_phase_close s)|exact (same_phase_refl s)].
  - unfold resToAnthHandleTextDelta. solve_phase s.
  - unfold resToAnthHandleBlockDone. solve_phase s.
  - unfold resToAnthHandleFuncArgsDelta. solve_phase s.
  - unfold resToAnthHandleFuncArgsDone, resToAnthHandleBlockDone. solve_phase s.
  - unfold resToAnthHandleOutputItemDone, resToAnthHandleWebSearchDone.
    destruct (re_Item evt); [|done]. case_if; [solve_phase s|]. cbv zeta.
    set (s2 := if _ && negb _ then _ else s).
    assert (H2 : same_phase s s2) by (subst s2; case_if; exact (same_phase_refl s)).
    pose proof (same_phase_close s2) as [H3 H4]. destruct H2 as [H1 H2].
    case_if; [split; [congruence|auto]|done].
  - unfold resToAnthHandleReasoningDelta. solve_phase s.
  - exact (same_phase_refl s).
Qed.

Lemma run_same_phase evts s :
  Forall (λ e, is_terminal e = false) evts →
  same_phase s (run_machine ResponsesEventToAnthropicEvents evts s).2.
Proof.
  revert s. induction evts as [|e evts IH]; intros s Hf; [by split|].
  apply Forall_cons in Hf as [He Hf]. rewrite run_machine_cons.
  destruct (event_same_phase e s He) as [H1 H2].
  destruct (ResponsesEventToAnthropicEvents e s) as [o s1]. cbn [snd] in *.
  destruct (IH s1 Hf) as [H3 H4].
  destruct (run_machine ResponsesEventToAnthropicEvents evts s1) as [os s2]. cbn [snd] in *.
  split; cbn [snd]; [congruence|auto].
Qed.

(** A run in which every step obeys the rules obeys them. *)
Lemma run_obeys strict evts s seen :
  (strict = true → Forall (λ e, is_terminal e = false) evts) →
  known s seen → during strict s →
  ∃ seen', observes strict (Some (view s seen))
             (run_machine ResponsesEventToAnthropicEvents evts s).1
           = Some (view (run_machine ResponsesEventToAnthropicEvents evts s).2 seen') ∧
           known (run_machine ResponsesEventToAnthropicEvents evts s).2 seen' ∧
           during strict (run_machine ResponsesEventToAnthropicEvents evts s).2.
Proof.
  revert s seen. induction evts as [|e evts IH]; intros s seen Hf Hk Hd; [by exists seen|].
  rewrite run_machine_cons.
  destruct (obeys_event strict e s seen Hk Hd) as (seen1 & H1 & Hk1).
  assert (Hd1 : during strict (ResponsesEventToAnthropicEvents e s).2).
  { intros Hs. specialize (Hf Hs). apply Forall_cons in Hf as [He _].
    destruct (event_same_phase e s He) as [Ha Hb], (Hd Hs). split; [auto|congruence]. }
  destruct (ResponsesEventToAnthropicEvents e s) as [o s1]. cbn [fst snd] in *.
  destruct (IH s1 seen1) as (seen2 & H2 & Hk2 & Hd2); [|done..|].
  { intros Hs. specialize (Hf Hs). by apply Forall_cons in Hf as [_ ?]. }
  destruct (run_machine ResponsesEventToAnthropicEvents evts s1) as [os s2]. cbn [fst snd] in *.
  exists seen2. rewrite observes_app, H1. done.
Qed.

Lemma convertStream_obeys strict evts s seen :
  (strict = true → Forall (λ e, is_terminal e = false) evts) →
  known s seen → during strict s →
  ∃ seen', observes strict (Some (view s seen)) (convertStream evts s).1
           = Some (view (convertStream evts s).2 seen').
Proof.
  intros Hf Hk Hd. unfold convertStream, mbind, St_bind, mret, St_ret.
  destruct (run_obeys strict evts s seen Hf Hk Hd) as (seen1 & H1 & Hk1 & Hd1).
  destruct (run_machine _ evts s) as [o s1]. cbn [fst snd] in *.
  destruct (obeys_finalize strict s1 seen1 Hk1 Hd1) as (seen2 & H2 & _).
  destruct (FinalizeResponsesAnthropicStream s1) as [o2 s2]. cbn [fst snd] in *.
  exists seen2. by rewrite observes_app, H1.
Qed.

Lemma view_new now : view (NewResponsesEventToAnthropicState now) ∅ = new_client.
Proof. done. Qed.

Lemma known_new now : known (NewResponsesEventToAnthropicState now) ∅.
Proof. split; [apply map_Forall_empty|done]. Qed.

(** A message that starts and ends properly: [response.created] first, at most one terminal
    event, nothing behind it. *)
Definition proper_stream (evts : list ResponsesStreamEvent) : Prop :=
  ∃ first body last, evts = first :: body ++ last ∧
    re_Type first = "response.created" ∧ Forall (λ e, is_terminal e = false) body ∧
    (last = [] ∨ ∃ e, last = [e] ∧ is_terminal e = true).

Lemma created_starts evt s :
  re_Type evt = "response.created" →
  ResponsesEventToAnthropicEvents evt s = resToAnthHandleCreated evt s.
Proof. intros H. unfold ResponsesEventToAnthropicEvents. by rewrite H. Qed.

Lemma created_during evt s :
  ra_MessageStopSent s = false → during true (resToAnthHandleCreated evt s).2.
Proof.
  intros Hs _. unfold resToAnthHandleCreated.
  destruct (re_Response evt); repeat case_if; cbn [snd]; split; done.
Qed.

Lemma terminal_completes evt s :
  is_terminal evt = true →
  ResponsesEventToAnthropicEvents evt s = resToAnthHandleCompleted evt s.
Proof.
  unfold is_terminal, ResponsesEventToAnthropicEvents. cbn [existsb]. intros Ht.
  repeat match type of Ht with (?b || _)%bool = true => destruct b eqn:E;
    [apply String.eqb_eq in E as ->; done|clear E; cbn [orb] in Ht] end. done.
Qed.

(** ** Text *)

Definition delta_text (e : AnthropicStreamEvent) : string :=
  match ae_Delta e with
  | Some d => if ad_Type d ≟ "text_delta" then ad_Text d else ""
  | None => ""
  end.

(** The text a client of the stream reads. *)
Definition stream_text (l : list AnthropicStreamEvent) : string :=
  foldr (λ e acc, delta_text e +:+ acc) "" l.

(** The text the upstream sends. *)
Definition upstream_text (l : list ResponsesStreamEvent) : string :=
  foldr (λ e acc,
    (if re_Type e ≟ "response.output_text.delta" then re_Delta e else "") +:+ acc) "" l.

Lemma stream_text_app l1 l2 : stream_text (l1 ++ l2) = stream_text l1 +:+ stream_text l2.
Proof.
  induction l1 as [|e l1 IH]; [done|]. cbn [app stream_text foldr]. fold (stream_text l1).
  fold (stream_text (l1 ++ l2)). by rewrite IH, string_app_assoc.
Qed.

Lemma close_text s : stream_text (closeCurrentBlock s).1 = "".
Proof. unfold closeCurrentBlock. repeat case_if; done. Qed.

(** Text leaves the handlers of other events alone. *)
Definition textless (r : list AnthropicStreamEvent * ResponsesEventToAnthropicState) : Prop :=
  stream_text r.1 = "".

Lemma textless_close s : textless (closeCurrentBlock s).
Proof. apply close_text. Qed.

Lemma textless_after_close s l s' :
  stream_text l = "" → textless ((closeCurrentBlock s).1 ++ l, s').
Proof. intros H. unfold textless. cbn [fst]. by rewrite stream_text_app, close_text, H. Qed.

Ltac solve_textless s :=
  cbv zeta; try rewrite (surjective_pairing (closeCurrentBlock s));
  repeat first [case_if | match goal with |- context [match ?x !! ?i with _ => _ end] =>
                            destruct (x !! i) end];
  first [exact (textless_close s) | by apply textless_after_close | reflexivity].

Lemma textless_args_done evt s : textless (resToAnthHandleFuncArgsDone evt s).
Proof.
  unfold resToAnthHandleFuncArgsDone, resToAnthHandleBlockDone. cbv zeta.
  rewrite (surjective_pairing (closeCurrentBlock s)).
  assert (Hc := textless_close s). rewrite (surjective_pairing (closeCurrentBlock s)) in Hc.
  repeat case_if; first [exact Hc | reflexivity].
Qed.

Lemma textless_completed evt s : textless (resToAnthHandleCompleted evt s).
Proof.
  unfold resToAnthHandleCompleted. case_if; [done|].
  rewrite (surjective_pairing (closeCurrentBlock s)). cbv zeta.
  set (r := match re_Response evt with Some _ => _ | None => _ end). clearbody r.
  destruct r. by apply textless_after_close.
Qed.

Lemma text_delta_text evt s : stream_text (resToAnthHandleTextDelta evt s).1 = re_Delta evt.
Proof.
  unfold resToAnthHandleTextDelta. case_if; [by apply String.eqb_eq in Heqb as ->|].
  destruct (_ || _); [|cbn; apply string_app_nil_r].
  rewrite (surjective_pairing (closeCurrentBlock s)). cbn [fst snd].
  rewrite !stream_text_app, close_text. cbn. apply string_app_nil_r.
Qed.

Lemma other_event_text evt s :
  (re_Type evt ≟ "response.output_text.delta") = false →
  textless (ResponsesEventToAnthropicEvents evt s).
Proof.
  intros Ht. unfold ResponsesEventToAnthropicEvents.
  apply (switch_cases (λ h : Conv, textless (h s))); [|done].
  repeat apply List.Forall_cons; try apply List.Forall_nil; cbn [fst snd existsb];
    rewrite ?orb_false_r; intros Hl.
  - unfold resToAnthHandleCreated. repeat case_if; done.
  - unfold resToAnthHandleOutputItemAdded. destruct (re_Item evt); [|done].
    rewrite (surjective_pairing (closeCurrentBlock s)).
    apply (switch_all textless); [|done].
    repeat apply List.Forall_cons; try apply List.Forall_nil;
      first [by apply textless_after_close | reflexivity].
  - congruence.
  - unfold resToAnthHandleBlockDone. case_if; [done|]. apply close_text.
  - unfold resToAnthHandleFuncArgsDelta. solve_textless s.
  - apply textless_args_done.
  - unfold resToAnthHandleOutputItemDone, resToAnthHandleWebSearchDone.
    destruct (re_Item evt) as [item|]; [|done].
    case_if; [rewrite (surjective_pairing (closeCurrentBlock s)); by apply textless_after_close|].
    cbv zeta. case_if; [|done]. apply close_text.
  - unfold resToAnthHandleReasoningDelta. case_if; [done|]. by destruct (_ !! _).
  - done.
  - apply textless_completed.
Qed.

Lemma event_text evt s :
  stream_text (ResponsesEventToAnthropicEvents evt s).1 =
    if re_Type evt ≟ "response.output_text.delta" then re_Delta evt else "".
Proof.
  case_if; [|by apply other_event_text]. apply String.eqb_eq in Heqb.
  unfold ResponsesEventToAnthropicEvents. rewrite Heqb. apply text_delta_text.
Qed.

Lemma finalize_text s : stream_text (FinalizeResponsesAnthropicStream s).1 = "".
Proof.
  unfold FinalizeResponsesAnthropicStream. case_if; [done|].
  rewrite (surjective_pairing (closeCurrentBlock s)). by apply textless_after_close.
Qed.

Lemma run_text evts s :
  stream_text (run_machine ResponsesEventToAnthropicEvents evts s).1 = upstream_text evts.
Proof.
  revert s. induction evts as [|e evts IH]; intros s; [done|]. rewrite run_machine_cons.
  pose proof (event_text e s) as He.
  destruct (ResponsesEventToAnthropicEvents e s) as [o s1]. specialize (IH s1).
  destruct (run_machine _ evts s1) as [os s2]. cbn [fst] in *.
  rewrite stream_text_app, He, IH. done.
Qed.

(** Where the handlers that end a message leave it. *)
Lemma end_stops reason strict s seen s2 s3 :
  during strict s → known s seen → ra_MessageStopSent s = false →
  view s2 seen = view (closeCurrentBlock s).2 seen →
  ra_OutputIndexToBlockIdx s2 = ra_OutputIndexToBlockIdx s →
  ra_MessageStartSent s = true →
  ∃ c, observes strict (Some (view s seen)) ((closeCurrentBlock s).1 ++ stop_events reason s3)
         = Some c ∧ c_started c = true ∧ c_stopped c = true ∧ c_open c = None.
Proof.
  intros Hd Hk Hst Hv Hm Hs. destruct (close_closed s) as (Hc & Hs' & _ & _).
  destruct (end_obeys strict s seen reason s2 s3 Hd Hk Hst Hv Hm) as [H _].
  eexists. split; [exact H|].
  assert (Hv2 : view (s2{{ ra_MessageStopSent := true }}) seen =
    (view s2 seen){{ c_ending := true; c_stopped := true }}) by done.
  rewrite Hv2, Hv. cbn. by rewrite Hs', Hc.
Qed.

(** The end of a proper stream, by a terminal event or by the end of the connection. *)
Lemma end_of_stream last s seen :
  (last = [] ∨ ∃ e, last = [e] ∧ is_terminal e = true) →
  known s seen → during true s →
  ∃ c, observes true (Some (view s seen))
    (let '(o, s1) := run_machine ResponsesEventToAnthropicEvents last s in
     let '(o2, _) := FinalizeResponsesAnthropicStream s1 in o ++ o2) = Some c ∧
    c_started c = true ∧ c_stopped c = true ∧ c_open c = None.
Proof.
  intros Hl Hk Hd. destruct (Hd eq_refl) as [Hs Ht]. destruct Hl as [->|(e & -> & He)].
  - cbn [run_machine mret St_ret]. unfold FinalizeResponsesAnthropicStream. rewrite Hs, Ht.
    rewrite (surjective_pairing (closeCurrentBlock s)). cbn [negb orb app].
    destruct (close_closed s) as (_ & _ & _ & Hm). by apply (end_stops _ _ _ _ (closeCurrentBlock s).2).
  - rewrite run_machine_cons, terminal_completes by done.
    destruct (completed_run e s Ht) as (reason & s3 & -> & Hv & Hm).
    cbn [run_machine mret St_ret]. unfold FinalizeResponsesAnthropicStream.
    rewrite orb_true_r. rewrite !app_nil_r. by apply (end_stops _ _ _ _ s3).
Qed.

(** ** Properties *)

(** C15: Whatever the upstream sends, in whatever order, the client of the converted stream sees
    content blocks one after the other: each is opened under the next index when none is open,
    closed under that index, text and signatures go to the open block of their kind, arguments
    and reasoning to a block that was announced; the message starts once and stops once. *)
Theorem anthropic_blocks_disciplined now evts :
  is_Some (observes false (Some new_client)
    (convertStream evts (NewResponsesEventToAnthropicState now)).1).
Proof.
  destruct (convertStream_obeys false evts (NewResponsesEventToAnthropicState now) ∅)
    as [seen H]; [done|apply known_new|done|]. rewrite view_new in H. by rewrite H.
Qed.

(** C27: A message that starts with [response.created] and has at most one terminal event, its
    last, is converted into a complete Anthropic message: [message_start], whole blocks, then
    [message_delta] and [message_stop], with no block left open; also when the upstream breaks
    off without a terminal event. *)
Theorem anthropic_stream_protocol now evts :
  proper_stream evts →
  ∃ c, observes true (Some new_client)
         (convertStream evts (NewResponsesEventToAnthropicState now)).1 = Some c ∧
       c_started c = true ∧ c_stopped c = true ∧ c_open c = None.
Proof.
  intros (first & body & last & -> & Hf & Hb & Hl).
  set (s0 := NewResponsesEventToAnthropicState now).
  unfold convertStream, mbind, St_bind, mret, St_ret.
  rewrite run_machine_cons, (created_starts _ _ Hf).
  destruct (created_silent true first s0 ∅) as [H0 Hk0].
  assert (Hd0 : during true (resToAnthHandleCreated first s0).2) by by apply created_during.
  destruct (resToAnthHandleCreated first s0) as [o0 s1]. cbn [fst snd] in *.
  rewrite run_machine_app.
  destruct (run_obeys true body s1 ∅ (λ _, Hb) (Hk0 (known_new now)) Hd0)
    as (seen1 & H1 & Hk1 & Hd1).
  destruct (run_machine _ body s1) as [o1 s2]. cbn [fst snd] in *.
  destruct (Hd1 eq_refl) as [Hs2 Ht2].
  destruct (end_of_stream last s2 seen1 Hl Hk1 Hd1) as (c & Hc & Hrest).
  rewrite (surjective_pairing (run_machine _ last s2)) in Hc |- *.
  rewrite (surjective_pairing (FinalizeResponsesAnthropicStream _)) in Hc |- *.
  cbn [fst snd] in *. exists c. split; [|done].
  rewrite <- view_new with (now := now). fold s0.
  by rewrite !observes_app, H0, H1, <- observes_app.
Qed.

(** The text the client reads is the text the upstream sent: nothing is lost, doubled or
    reordered, whatever comes in between. *)
Theorem anthropic_text_preserved evts s :
  stream_text (convertStream evts s).1 = upstream_text evts.
Proof.
  unfold convertStream, mbind, St_bind, mret, St_ret. pose proof (run_text evts s) as H.
  destruct (run_machine _ evts s) as [o s1]. pose proof (finalize_text s1) as Hf.
  destruct (FinalizeResponsesAnthropicStream s1) as [o2 s2]. cbn [fst] in *.
  rewrite stream_text_app, H, Hf. apply string_app_nil_r.
Qed.

(** ** Witnesses *)

(** A stream that breaks off inside a text block. *)
Definition demo_broken_stream : list ResponsesStreamEvent :=
  [ResponsesStreamEvent0{{ re_Type := "response.created" }};
   ResponsesStreamEvent0{{ re_Type := "response.output_text.delta"; re_Delta := "hel" }};
   ResponsesStreamEvent0{{ re_Type := "response.output_text.delta"; re_Delta := "lo" }}].

Lemma anthropic_stream_protocol_witness :
  ∃ c, observes true (Some new_client)
         (convertStream demo_broken_stream (NewResponsesEventToAnthropicState 0)).1 = Some c ∧
       c_started c = true ∧ c_stopped c = true ∧ c_open c = None.
Proof.
  apply (anthropic_stream_protocol 0 demo_broken_stream).
  eexists _, (tail demo_broken_stream), []. split; [reflexivity|]. split; [reflexivity|].
  split; [repeat constructor|by left].
Defined.

(** A second tool call ends the block of the first; arguments of the first that come later are
    sent on a block that was already closed. *)
Definition demo_late_arguments : list ResponsesStreamEvent :=
  let call oi name := ResponsesStreamEvent0{{ re_Type := "response.output_item.added";
      re_OutputIndex := oi;
      re_Item := Some (ResponsesOutput0{{ ro_Type := "function_call"; ro_Name := name }}) }} in
  [ResponsesStreamEvent0{{ re_Type := "response.created" }}; call 0 "first"; call 1 "second";
   ResponsesStreamEvent0{{ re_Type := "response.function_call_arguments.delta";
                           re_OutputIndex := 0; re_Delta := "{}" }}].

Example late_arguments_on_closed_block :
  ∃ pre post,
    (convertStream demo_late_arguments (NewResponsesEventToAnthropicState 0)).1
      = pre ++ block_stop 0 :: post ∧
    block_delta 0 (json_delta "{}") ∈ post.
Proof.
  set (l := (convertStream demo_late_arguments (NewResponsesEventToAnthropicState 0)).1).
  exists (take 2 l), (drop 3 l).
  split; [vm_compute; reflexivity|]. vm_compute. right. left.
Qed.
