(* ===== verification/ResToAnthStream.v ===== *)
(** * ResToAnthStream: the streamed message equals the converted response

    An upstream that sends its output items one after the other, as the Responses API documents
    it, and a client that assembles the message from the Anthropic stream: the message is the one
    [ResponsesToAnthropic] makes of the whole response. *)

From stdpp Require Import base tactics numbers list strings gmap.
From Stdlib Require Import ZArith Lia.
From S2P Require Import Prelude GoLib GoJson ApiTypes Upstream ResponsesToAnthropic ResToAnthFacts.

Local Open Scope go_scope.
Local Open Scope Z_scope.

(** ** What a stream can show *)

(** What the streamed message can show of an item: fragments are not empty, a message part has
    text, a tool call has arguments, sent in fragments or at once; the arguments of Claude's Read
    tool are JSON, and no shorter run of fragments is. *)
Definition fragments_ok (name : string) (fragments : list string) (arguments : string) : bool :=
  negb (arguments ≟ "") && forallb (λ f, negb (f ≟ "")) fragments &&
  match fragments with
  | [] => true
  | _ =>
      (join fragments ≟ arguments) &&
      (negb (name ≟ "Read") ||
         Valid arguments &&
         forallb (λ n, negb (Valid (join (take n fragments)))) (seq 1 (length fragments - 1)))
  end.

Definition item_ok (it : upstream_item) : bool :=
  match it with
  | UReasoning summary encrypted =>
      forallb (λ f, negb (f ≟ "")) summary && (TrimSpace encrypted ≟ encrypted) &&
      (negb (join summary ≟ "") || negb (encrypted ≟ ""))
  | UMessage parts =>
      negb (match parts with [] => true | _ => false end) &&
      forallb (λ p, forallb (λ f, negb (f ≟ "")) p && negb (join p ≟ "")) parts
  | UFunctionCall _ name fragments arguments => fragments_ok name fragments arguments
  | UWebSearch _ _ => true
  end.

(** ** The client *)

(** The message so far; the open block with its index; the arguments received for it. *)
Record assembly : Type := Assembly {
  as_message : AnthropicResponse;
  as_open : option (Z * AnthropicContentBlock);
  as_partial : string
}.

Definition apply_delta (b : AnthropicContentBlock) (d : AnthropicDelta) : AnthropicContentBlock :=
  switch (ad_Type d)
    [ (["text_delta"], b{{ cb_Text := cb_Text b +:+ ad_Text d }});
      (["thinking_delta"], b{{ cb_Thinking := cb_Thinking b +:+ ad_Thinking d }});
      (["signature_delta"], b{{ cb_Signature := ad_Signature d }}) ]
    b.

Definition delta_partial (d : AnthropicDelta) : string :=
  if ad_Type d ≟ "input_json_delta" then ad_PartialJSON d else "".

(** How a client builds the message: deltas extend the open block, a closed block joins the
    content, its input replaced by the arguments received. *)
Definition assemble1 (q : option assembly) (e : AnthropicStreamEvent) : option assembly :=
  a ← q;
  switch (ae_Type e)
    [ (["message_start"], m ← ae_Message e; Some (a{{ as_message := m }}));
      (["content_block_start"],
       i ← ae_Index e; b ← ae_ContentBlock e;
       Some (a{{ as_open := Some (i, b); as_partial := "" }}));
      (["content_block_delta"],
       i ← ae_Index e; d ← ae_Delta e;
       match as_open a with
       | Some (j, b) =>
           if i =? j
           then Some (a{{ as_open := Some (j, apply_delta b d);
                          as_partial := as_partial a +:+ delta_partial d }})
           else None
       | None => None
       end);
      (["content_block_stop"],
       match as_open a with
       | Some (_, b) =>
           let b := if as_partial a ≟ "" then b else b{{ cb_Input := as_partial a }} in
           Some (a{{ as_open := None;
                     as_message := (as_message a){{ am_Content := am_Content (as_message a) ++ [b] }} }})
       | None => None
       end);
      (["message_delta"],
       d ← ae_Delta e; u ← ae_Usage e;
       Some (a{{ as_message := (as_message a){{ am_StopReason := Some (ad_StopReason d);
                                                am_Usage := u }} }}));
      (["message_stop"], Some a) ]
    None.

Definition assemble (l : list AnthropicStreamEvent) : option AnthropicResponse :=
  as_message <$> foldl assemble1 (Some (Assembly AnthropicResponse0 None "")) l.

(** ** Fragments *)

Definition text_delta (t : string) : AnthropicDelta :=
  AnthropicDelta0{{ ad_Type := "text_delta"; ad_Text := t }}.
Definition thinking_delta (t : string) : AnthropicDelta :=
  AnthropicDelta0{{ ad_Type := "thinking_delta"; ad_Thinking := t }}.

(** A handler that emits one event per input and keeps the state. *)
Lemma run_machine_map {S I O} (step : I → St S (list O)) (f : I → O) l s :
  (∀ i, i ∈ l → step i s = ([f i], s)) → run_machine step l s = (f <$> l, s).
Proof.
  induction l as [|i l IH]; intros H; [done|]. rewrite run_machine_cons, H by set_solver.
  rewrite IH by set_solver. done.
Qed.

Lemma nonempty_fragment l f :
  forallb (λ f, negb (f ≟ "")) l = true → f ∈ l → (f ≟ "") = false.
Proof.
  intros Hl Hf. apply negb_true_iff. rewrite forallb_forall in Hl. apply Hl. by apply list_elem_of_In.
Qed.

Lemma text_fragments p s oi :
  forallb (λ f, negb (f ≟ "")) p = true →
  ra_ContentBlockOpen s = true → ra_CurrentBlockType s = "text" →
  run_machine ResponsesEventToAnthropicEvents (ev_delta "response.output_text.delta" oi <$> p) s
    = (block_delta (ra_ContentBlockIndex s) ∘ text_delta <$> p, s).
Proof.
  intros Hp Ho Ht.
  rewrite (run_machine_map _ (λ e, block_delta (ra_ContentBlockIndex s) (text_delta (re_Delta e)))).
  - by rewrite <- list_fmap_compose.
  - intros e (f & -> & Hf)%list_elem_of_fmap.
    pose proof (nonempty_fragment p f Hp Hf) as Hne.
    unfold ResponsesEventToAnthropicEvents. cbn [switch existsb re_Type]. cbn.
    unfold resToAnthHandleTextDelta. cbn. by rewrite Hne, Ho, Ht.
Qed.

Lemma thinking_fragments ty p s oi i :
  ty = "response.reasoning_summary_text.delta" →
  forallb (λ f, negb (f ≟ "")) p = true →
  ra_OutputIndexToBlockIdx s !! oi = Some i →
  run_machine ResponsesEventToAnthropicEvents (ev_delta ty oi <$> p) s
    = (block_delta i ∘ thinking_delta <$> p, s).
Proof.
  intros -> Hp Hi.
  rewrite (run_machine_map _ (λ e, block_delta i (thinking_delta (re_Delta e)))).
  - by rewrite <- list_fmap_compose.
  - intros e (f & -> & Hf)%list_elem_of_fmap.
    pose proof (nonempty_fragment p f Hp Hf) as Hne.
    unfold ResponsesEventToAnthropicEvents. cbn. unfold resToAnthHandleReasoningDelta. cbn.
    by rewrite Hne, Hi.
Qed.

Lemma args_fragments p s oi i :
  forallb (λ f, negb (f ≟ "")) p = true → ra_CurrentToolName s ≠ "Read" →
  ra_CurrentBlockType s = "tool_use" → ra_OutputIndexToBlockIdx s !! oi = Some i → p ≠ [] →
  run_machine ResponsesEventToAnthropicEvents
    (ev_delta "response.function_call_arguments.delta" oi <$> p) s
    = (block_delta i ∘ json_delta <$> p, s{{ ra_CurrentToolHadDelta := true }}).
Proof.
  intros Hp Hn%String.eqb_neq Ht Hi. revert Hp.
  assert (Hstep : ∀ f s, (f ≟ "") = false → (ra_CurrentToolName s ≟ "Read") = false →
    ra_CurrentBlockType s = "tool_use" → ra_OutputIndexToBlockIdx s !! oi = Some i →
    ResponsesEventToAnthropicEvents (ev_delta "response.function_call_arguments.delta" oi f) s
      = ([block_delta i (json_delta f)], s{{ ra_CurrentToolHadDelta := true }})).
  { clear. intros f s Hf Hn Ht Hi. unfold ResponsesEventToAnthropicEvents. cbn.
    unfold resToAnthHandleFuncArgsDelta. destruct s. cbn in *. rewrite Hf, Ht, Hn. cbn.
    by rewrite Hi. }
  destruct p as [|f p]; [done|]. intros Hp _. cbn [fmap list_fmap].
  cbn [forallb] in Hp. apply andb_true_iff in Hp as [Hf%negb_true_iff Hp].
  rewrite run_machine_cons, Hstep by done.
  rewrite (run_machine_map _ (λ e, block_delta i (json_delta (re_Delta e)))).
  - by rewrite <- list_fmap_compose.
  - intros e (g & -> & Hg)%list_elem_of_fmap. 
    match goal with |- _ ?s1 = _ => exact (Hstep g s1 (nonempty_fragment p g Hp Hg) Hn Ht Hi) end.
Qed.

(** The client on a run of fragments. *)
Lemma assemble_deltas (f : string → AnthropicDelta) (g : AnthropicContentBlock → string → AnthropicContentBlock) :
  (∀ b t, apply_delta b (f t) = g b t) → (∀ b, g b "" = b) →
  (∀ b t u, g (g b t) u = g b (t +:+ u)) → (∀ t, delta_partial (f t) = "") →
  ∀ p m k b pt,
    foldl assemble1 (Some (Assembly m (Some (k, b)) pt)) (block_delta k ∘ f <$> p)
      = Some (Assembly m (Some (k, g b (join p))) pt).
Proof.
  intros Hf Hg0 Hg Hpt p. induction p as [|t p IH]; intros m k b pt; cbn [fmap list_fmap foldl].
  - cbn. by rewrite Hg0.
  - assert (E : assemble1 (Some (Assembly m (Some (k, b)) pt)) ((block_delta k ∘ f) t)
      = Some (Assembly m (Some (k, g b t)) pt)).
    { unfold assemble1. cbn. rewrite Z.eqb_refl. unfold delta_partial in Hpt.
      rewrite <- Hf. unfold delta_partial. rewrite Hpt, string_app_nil_r. done. }
    rewrite E, IH. by rewrite Hg.
Qed.

Lemma assemble_args p m k b pt :
  foldl assemble1 (Some (Assembly m (Some (k, b)) pt)) (block_delta k ∘ json_delta <$> p)
    = Some (Assembly m (Some (k, b)) (pt +:+ join p)).
Proof.
  revert pt. induction p as [|t p IH]; intros pt; cbn [fmap list_fmap foldl].
  - by rewrite string_app_nil_r.
  - assert (E : assemble1 (Some (Assembly m (Some (k, b)) pt)) ((block_delta k ∘ json_delta) t)
      = Some (Assembly m (Some (k, b)) (pt +:+ t))).
    { unfold assemble1. cbn. by rewrite Z.eqb_refl. }
    rewrite E, IH. by rewrite <- string_app_assoc.
Qed.

(** ** Items *)

(** Between two items: the message has started, no block is open, no usage is known. *)
Definition idle (h : bool) (id model : string) (now : Z) (s : ResponsesEventToAnthropicState)
    : Prop :=
  ∃ idx ty tool args had pend m,
    s = MkResponsesEventToAnthropicState true false idx false ty tool args had pend h m 0 0 0 0
          id model now.

(** The events [evts], sent between two items, make the client's message grow by [blocks]. *)
Definition converts (evts : list ResponsesStreamEvent) (blocks : list AnthropicContentBlock)
    (h' : bool) : Prop :=
  ∀ s h id model now m pt, idle h id model now s →
    let r := run_machine ResponsesEventToAnthropicEvents evts s in
    idle (h || h') id model now r.2 ∧
    ∃ pt', foldl assemble1 (Some (Assembly m None pt)) r.1
             = Some (Assembly (m{{ am_Content := am_Content m ++ blocks }}) None pt').

Lemma converts_app e1 e2 b1 b2 h1 h2 :
  converts e1 b1 h1 → converts e2 b2 h2 → converts (e1 ++ e2) (b1 ++ b2) (h1 || h2).
Proof.
  intros H1 H2 s h id model now m pt Hi. rewrite run_machine_app.
  destruct (H1 s h id model now m pt Hi) as [Hi1 [pt1 E1]].
  destruct (run_machine _ e1 s) as [o1 s1]. cbn [fst snd] in *.
  destruct (H2 s1 _ id model now (m{{ am_Content := am_Content m ++ b1 }}) pt1 Hi1)
    as [Hi2 [pt2 E2]].
  destruct (run_machine _ e2 s1) as [o2 s2]. cbn [fst snd] in *.
  split; [by rewrite orb_assoc|]. exists pt2. rewrite foldl_app, E1, E2.
  cbn. by rewrite app_assoc.
Qed.

Lemma converts_silent e :
  (∀ s h id model now, idle h id model now s → ResponsesEventToAnthropicEvents e s = ([], s)) →
  converts [e] [] false.
Proof.
  intros H s h id model now m pt Hi. rewrite run_machine_cons, (H s h id model now Hi). cbn.
  split; [by rewrite orb_false_r|]. exists pt. rewrite app_nil_r. by destruct m.
Qed.

Lemma converts_nil : converts [] [] false.
Proof.
  intros s h id model now m pt Hi. cbn. rewrite orb_false_r. split; [done|].
  exists pt. rewrite app_nil_r. by destruct m.
Qed.

Definition text_block (t : string) : AnthropicContentBlock :=
  AnthropicContentBlock0{{ cb_Type := "text"; cb_Text := t }}.

Lemma assemble_text p m k b pt :
  foldl assemble1 (Some (Assembly m (Some (k, b)) pt)) (block_delta k ∘ text_delta <$> p)
    = Some (Assembly m (Some (k, b{{ cb_Text := cb_Text b +:+ join p }})) pt).
Proof.
  apply (assemble_deltas text_delta (λ b t, b{{ cb_Text := cb_Text b +:+ t }})); try done.
  - intros []. cbn. by rewrite string_app_nil_r.
  - intros [] t u. cbn. by rewrite string_app_assoc.
Qed.

Lemma assemble_thinking p m k b pt :
  foldl assemble1 (Some (Assembly m (Some (k, b)) pt)) (block_delta k ∘ thinking_delta <$> p)
    = Some (Assembly m (Some (k, b{{ cb_Thinking := cb_Thinking b +:+ join p }})) pt).
Proof.
  apply (assemble_deltas thinking_delta (λ b t, b{{ cb_Thinking := cb_Thinking b +:+ t }})); try done.
  - intros []. cbn. by rewrite string_app_nil_r.
  - intros [] t u. cbn. by rewrite string_app_assoc.
Qed.

Lemma assemble_start m i b pt :
  assemble1 (Some (Assembly m None pt)) (block_start i b) = Some (Assembly m (Some (i, b)) "").
Proof. done. Qed.

Lemma assemble_stop m k b pt :
  assemble1 (Some (Assembly m (Some (k, b)) pt)) (block_stop k)
    = Some (Assembly (m{{ am_Content := am_Content m ++
              [if pt ≟ "" then b else b{{ cb_Input := pt }}] }}) None pt).
Proof. done. Qed.

(** The client on a whole block. *)
Lemma assemble_block k b b' pt' m ds pt :
  foldl assemble1 (Some (Assembly m (Some (k, b)) "")) ds = Some (Assembly m (Some (k, b')) pt') →
  foldl assemble1 (Some (Assembly m None pt)) (block_start k b :: ds ++ [block_stop k])
    = Some (Assembly (m{{ am_Content := am_Content m ++
              [if pt' ≟ "" then b' else b'{{ cb_Input := pt' }}] }}) None pt').
Proof.
  intros H. cbn [foldl]. rewrite assemble_start, foldl_app, H. apply assemble_stop.
Qed.

(** Show that the emitted events are those of a whole block. *)
Ltac block_is l :=
  match goal with |- foldl assemble1 _ ?l' = _ =>
    replace l' with l by (cbn [fmap list_fmap app]; by rewrite ?app_nil_r, <- ?app_assoc) end.

(** A part of a message becomes a text block. *)
Lemma converts_part oi p :
  forallb (λ f, negb (f ≟ "")) p = true → join p ≠ "" →
  converts ((ev_delta "response.output_text.delta" oi <$> p) ++
            [ev_delta "response.output_text.done" oi ""]) [text_block (join p)] false.
Proof.
  intros Hp Hj s h id model now m pt (idx & ty & tool & args & had & pend & map & ->).
  destruct p as [|f p]; [done|]. cbn [forallb] in Hp. apply andb_true_iff in Hp as [Hf Hp].
  apply negb_true_iff in Hf. cbn [fmap list_fmap app]. rewrite run_machine_cons.
  set (s1 := MkResponsesEventToAnthropicState true false idx true "text" tool args had pend h map
               0 0 0 0 id model now).
  assert (E : ∀ s0, s0 = MkResponsesEventToAnthropicState true false idx false ty tool args had pend h
                map 0 0 0 0 id model now →
    ResponsesEventToAnthropicEvents (ev_delta "response.output_text.delta" oi f) s0
    = ([block_start idx (text_block ""); block_delta idx (text_delta f)], s1)).
  { intros s0 ->. unfold ResponsesEventToAnthropicEvents. cbn.
    unfold resToAnthHandleTextDelta. cbn. rewrite Hf. done. }
  rewrite E by done. rewrite run_machine_app, text_fragments by done.
  assert (E2 : ResponsesEventToAnthropicEvents (ev_delta "response.output_text.done" oi "") s1
    = ([block_stop idx], s1{{ ra_ContentBlockOpen := false;
           ra_ContentBlockIndex := idx +! 1;
           ra_CurrentToolName := "";
           ra_CurrentToolArgs := "";
           ra_CurrentToolHadDelta := false }})) by done.
  rewrite run_machine_cons, E2. cbn [run_machine mret St_ret fst snd].
  split; [rewrite orb_false_r; by repeat eexists|].
  eexists. block_is (block_start idx (text_block "")
    :: (block_delta idx ∘ text_delta <$> f :: p) ++ [block_stop idx]).
  erewrite assemble_block by apply assemble_text. reflexivity.
Qed.

Lemma converts_parts oi parts :
  forallb (λ p, forallb (λ f, negb (f ≟ "")) p && negb (join p ≟ "")) parts = true →
  converts (concat ((λ p, (ev_delta "response.output_text.delta" oi <$> p) ++
                          [ev_delta "response.output_text.done" oi ""]) <$> parts))
    (text_block ∘ join <$> parts) false.
Proof.
  induction parts as [|p parts IH]; intros Hp; [apply converts_nil|].
  cbn [forallb] in Hp. apply andb_true_iff in Hp as [Hp Hps]. bool_props.
  cbn [fmap list_fmap concat]. change (?x :: ?l) with ([x] ++ l).
  apply (converts_app _ _ _ _ false false); [by apply converts_part|by apply IH].
Qed.

(** [response.output_item.added] and [done] of a message, and [added] of a search, say nothing
    between two items. *)
Lemma converts_silent_item ty oi item :
  ty = "response.output_item.added" ∧ (ro_Type item = "message" ∨ ro_Type item = "web_search_call") ∨
  ty = "response.output_item.done" ∧ ro_Type item = "message" →
  converts [ev_item ty oi item] [] false.
Proof.
  intros H. apply converts_silent.
  intros s h id model now (idx & bt & tool & args & had & pend & map & ->).
  destruct H as [[-> [H|H]]|[-> H]]; unfold ResponsesEventToAnthropicEvents; cbn;
    unfold resToAnthHandleOutputItemAdded, resToAnthHandleOutputItemDone; cbn; by rewrite H.
Qed.

Lemma message_blocks parts :
  forallb (λ p, forallb (λ f, negb (f ≟ "")) p && negb (join p ≟ "")) parts = true →
  outputItemBlocks (item_output (UMessage parts)) = text_block ∘ join <$> parts.
Proof.
  intros Hp. cbn. induction parts as [|p parts IH]; [done|].
  cbn [forallb] in Hp. apply andb_true_iff in Hp as [Hp Hps]. bool_props.
  cbn [fmap list_fmap app]. rewrite filter_cons_True; [|cbn; by rewrite (proj2 (String.eqb_neq _ _))].
  cbn [fmap list_fmap]. by rewrite <- IH.
Qed.

Lemma converts_message oi parts :
  item_ok (UMessage parts) = true →
  converts (item_events oi (UMessage parts)) (outputItemBlocks (item_output (UMessage parts))) false.
Proof.
  cbn [item_ok]. intros H. apply andb_true_iff in H as [_ Hp].
  replace (outputItemBlocks (item_output (UMessage parts)))
    with ([] ++ (text_block ∘ join <$> parts) ++ []).
  - unfold item_events. change (?x :: ?l) with ([x] ++ l).
    apply (converts_app _ _ _ _ false (false || false)).
    { apply converts_silent_item. left. auto. }
    apply converts_app; [by apply converts_parts|]. apply converts_silent_item. right. auto.
  - by rewrite app_nil_r, message_blocks.
Qed.

Lemma converts_web_search oi id query :
  converts (item_events oi (UWebSearch id query))
    (outputItemBlocks (item_output (UWebSearch id query))) false.
Proof.
  unfold item_events. cbn [item_body app]. change (?x :: [?y]) with ([x] ++ [y]).
  replace (outputItemBlocks (item_output (UWebSearch id query)))
    with ([] ++ outputItemBlocks (item_output (UWebSearch id query))) by done.
  apply (converts_app _ _ _ _ false false).
  { apply converts_silent_item. left. auto. }
  intros s h i model now m pt (idx & bt & tool & args & had & pend & map & ->).
  rewrite run_machine_cons. unfold ResponsesEventToAnthropicEvents.
  cbn -[MarshalStringMap]. split; [rewrite orb_false_r; by repeat eexists|].
  eexists. unfold assemble1. cbn -[MarshalStringMap]. by rewrite <- app_assoc.
Qed.

(** Closing a thinking block sends its signature first, when it has one. *)
Definition signature_events (k : Z) (sig : string) : list AnthropicStreamEvent :=
  if sig ≟ "" then [] else
  [block_delta k (AnthropicDelta0{{ ad_Type := "signature_delta"; ad_Signature := sig }})].

Definition thinking_block (t sig : string) : AnthropicContentBlock :=
  AnthropicContentBlock0{{ cb_Type := "thinking"; cb_Thinking := t; cb_Signature := sig }}.

Lemma assemble_signature m k t sig pt :
  foldl assemble1 (Some (Assembly m (Some (k, thinking_block t "")) pt)) (signature_events k sig)
    = Some (Assembly m (Some (k, thinking_block t sig)) pt).
Proof.
  unfold signature_events. destruct (String.eqb_spec sig "") as [->|]; [done|].
  cbn. rewrite Z.eqb_refl. cbn. by rewrite string_app_nil_r.
Qed.

Lemma converts_reasoning oi summary encrypted :
  item_ok (UReasoning summary encrypted) = true →
  converts (item_events oi (UReasoning summary encrypted))
    (outputItemBlocks (item_output (UReasoning summary encrypted))) false.
Proof.
  cbn [item_ok]. intros H. apply andb_true_iff in H as [H Hne].
  apply andb_true_iff in H as [Hs Ht%String.eqb_eq].
  assert (Hb : outputItemBlocks (item_output (UReasoning summary encrypted))
               = [thinking_block (join summary) encrypted]).
  { cbn -[TrimSpace join]. rewrite Ht.
    destruct (String.eqb_spec (join summary) "") as [E|E]; cbn -[TrimSpace join];
      [rewrite E in *; cbn in Hne; by rewrite Hne|].
    change ("" +:+ join summary) with (join summary).
    by rewrite (proj2 (String.eqb_neq _ _) E). }
  rewrite Hb. intros s h id model now m pt (idx & bt & tool & args & had & pend & map & ->).
  unfold item_events. rewrite run_machine_cons.
  set (s1 := MkResponsesEventToAnthropicState true false idx true "thinking" tool args had ""
               h (<[oi := idx]> map) 0 0 0 0 id model now).
  assert (E : ∀ s0, s0 = MkResponsesEventToAnthropicState true false idx false bt tool args had pend h
                map 0 0 0 0 id model now →
    ResponsesEventToAnthropicEvents (ev_item "response.output_item.added" oi
      (item_started (UReasoning summary encrypted))) s0
    = ([block_start idx (thinking_block "" "")], s1)) by (by intros s0 ->).
  rewrite E by done. clear E. cbn [item_body]. rewrite <- app_assoc, run_machine_app.
  rewrite (thinking_fragments _ _ s1 oi idx) by (done || apply lookup_insert_eq).
  cbn [app]. rewrite run_machine_cons.
  assert (E : ResponsesEventToAnthropicEvents
    (ev_delta "response.reasoning_summary_text.done" oi "") s1 = ([], s1)) by done.
  rewrite E. clear E. rewrite run_machine_cons.
  assert (E : ResponsesEventToAnthropicEvents (ev_item "response.output_item.done" oi
      (item_output (UReasoning summary encrypted))) s1
    = (signature_events idx encrypted ++ [block_stop idx],
       MkResponsesEventToAnthropicState true false (idx +! 1) false "thinking" "" "" false "" h
         (<[oi := idx]> map) 0 0 0 0 id model now)).
  { unfold ResponsesEventToAnthropicEvents. cbn -[TrimSpace block_delta block_stop].
    unfold resToAnthHandleOutputItemDone. cbn -[TrimSpace block_delta block_stop]. rewrite Ht.
    unfold signature_events. destruct (String.eqb_spec encrypted "") as [->|Hn].
    - by cbn -[block_delta block_stop].
    - cbn -[TrimSpace block_delta block_stop]. unfold closeCurrentBlock.
      cbn -[TrimSpace block_delta block_stop]. rewrite Ht.
      by rewrite (proj2 (String.eqb_neq _ _) Hn). }
  rewrite E. cbn [run_machine mret St_ret fst snd].
  split; [rewrite orb_false_r; by repeat eexists|].
  eexists. block_is (block_start idx (thinking_block "" "")
    :: ((block_delta idx ∘ thinking_delta <$> summary) ++ signature_events idx encrypted)
       ++ [block_stop idx]).
  erewrite assemble_block;
    [|rewrite foldl_app, assemble_thinking; exact (assemble_signature _ _ (join summary) _ _)].
  reflexivity.
Qed.

Lemma sanitize_nonempty name raw : raw ≠ "" → sanitizeAnthropicToolUseInput name raw ≠ "".
Proof.
  intros Hr. unfold sanitizeAnthropicToolUseInput. case_if; [done|].
  destruct (UnmarshalRawMap raw); [|done]. destruct (_ !! _); [|done]. case_if; done.
Qed.

Lemma sanitize_other name raw : (name ≟ "Read") = false → sanitizeAnthropicToolUseInput name raw = raw.
Proof. intros H. unfold sanitizeAnthropicToolUseInput. by rewrite H. Qed.

(** The state of an open tool block. *)
Definition tool_state (idx : Z) (name args : string) (had : bool) (pend : string) (map : gmap Z Z)
    (id model : string) (now : Z) : ResponsesEventToAnthropicState :=
  MkResponsesEventToAnthropicState true false idx true "tool_use" name args had pend true map
    0 0 0 0 id model now.

Definition args_delta (oi : Z) (f : string) : ResponsesStreamEvent :=
  ev_delta "response.function_call_arguments.delta" oi f.

(** The arguments of Read are held back until they are JSON, then sent at once. *)
Lemma read_fragments oi idx map pend id model now l acc :
  map !! oi = Some idx → l ≠ [] → forallb (λ f, negb (f ≟ "")) l = true →
  (∀ n, (0 < n < length l)%nat → Valid (acc +:+ join (take n l)) = false) →
  Valid (acc +:+ join l) = true →
  run_machine ResponsesEventToAnthropicEvents (args_delta oi <$> l)
    (tool_state idx "Read" acc false pend map id model now)
  = ([block_delta idx (json_delta (sanitizeAnthropicToolUseInput "Read" (acc +:+ join l)))],
     tool_state idx "Read" (acc +:+ join l) true pend map id model now).
Proof.
  intros Hm. revert acc. induction l as [|f l IH]; intros acc Hl Hne Hpre Hv; [done|].
  cbn [forallb] in Hne. apply andb_true_iff in Hne as [Hf%negb_true_iff Hne].
  cbn [fmap list_fmap]. rewrite run_machine_cons.
  assert (E : ResponsesEventToAnthropicEvents (args_delta oi f)
      (tool_state idx "Read" acc false pend map id model now) =
    (if negb (Valid (acc +:+ f)) then ([], tool_state idx "Read" (acc +:+ f) false pend map id model now)
     else ([block_delta idx (json_delta (sanitizeAnthropicToolUseInput "Read" (acc +:+ f)))],
           tool_state idx "Read" (acc +:+ f) true pend map id model now))).
  { unfold ResponsesEventToAnthropicEvents. cbn -[Valid sanitizeAnthropicToolUseInput].
    unfold resToAnthHandleFuncArgsDelta. cbn -[Valid sanitizeAnthropicToolUseInput].
    rewrite Hf. case_if; [done|]. by rewrite Hm. }
  rewrite E. clear E. destruct l as [|g l].
  - cbn [join foldr] in *. rewrite !string_app_nil_r in *. by rewrite Hv.
  - pose proof (Hpre 1%nat ltac:(cbn; lia)) as H1. cbn [take join foldr] in H1.
    rewrite string_app_nil_r in H1. rewrite H1. cbn [negb].
    change (join (f :: g :: l)) with (f +:+ join (g :: l)) in Hv |- *.
    rewrite string_app_assoc in Hv |- *.
    rewrite (IH (acc +:+ f)) by
      (done || (intros n Hn; specialize (Hpre (Datatypes.S n) ltac:(cbn in *; lia));
                cbn [take join foldr] in Hpre; by rewrite string_app_assoc in Hpre)).
    done.
Qed.

Lemma fragments_of_Read name fragments arguments :
  fragments_ok name fragments arguments = true →
  arguments ≠ "" ∧ forallb (λ f, negb (f ≟ "")) fragments = true ∧
  (fragments ≠ [] → join fragments = arguments ∧
    (name = "Read" → Valid (join fragments) = true ∧
       ∀ n, (0 < n < length fragments)%nat → Valid (join (take n fragments)) = false)).
Proof.
  unfold fragments_ok. intros H. apply andb_true_iff in H as [H H2].
  apply andb_true_iff in H as [H0 H1]. bool_props. split; [done|]. split; [done|].
  destruct fragments as [|f l]; [done|]. intros _.
  apply andb_true_iff in H2 as [Hj%String.eqb_eq H2]. split; [done|]. intros ->.
  rewrite String.eqb_refl in H2. cbn [negb orb] in H2.
  apply andb_true_iff in H2 as [Hv Hn]. rewrite Hj. split; [done|]. intros n Hln.
  rewrite forallb_forall in Hn. apply negb_true_iff. apply Hn. apply in_seq. cbn in *. lia.
Qed.

Definition tool_block (callID name input : string) : AnthropicContentBlock :=
  AnthropicContentBlock0{{ cb_Type := "tool_use";
                           cb_ID := fromResponsesCallID callID;
                           cb_Name := name;
                           cb_Input := input }}.

Definition args_done (oi : Z) (arguments : string) : ResponsesStreamEvent :=
  ResponsesStreamEvent0{{ re_Type := "response.function_call_arguments.done";
                          re_OutputIndex := oi;
                          re_Arguments := arguments }}.

Definition call_done (oi : Z) (it : upstream_item) : ResponsesStreamEvent :=
  ev_item "response.output_item.done" oi (item_output it).

(** The fragments of a call and its [done]: the arguments reach the client once, cleaned. *)
Lemma call_body oi idx name fragments arguments map pend id model now :
  map !! oi = Some idx → fragments_ok name fragments arguments = true →
  ∃ ds, run_machine ResponsesEventToAnthropicEvents
      ((args_delta oi <$> fragments) ++ [args_done oi arguments])
      (tool_state idx name "" false pend map id model now)
    = ((block_delta idx ∘ json_delta <$> ds) ++ [block_stop idx],
       MkResponsesEventToAnthropicState true false (idx +! 1) false "tool_use" "" "" false pend
         true map 0 0 0 0 id model now) ∧
    join ds = sanitizeAnthropicToolUseInput name arguments.
Proof.
  intros Hm Hok. destruct (fragments_of_Read _ _ _ Hok) as (Ha & Hf & Hl).
  assert (Hdone : ∀ args, ResponsesEventToAnthropicEvents (args_done oi arguments)
      (tool_state idx name args true pend map id model now)
    = ([block_stop idx], MkResponsesEventToAnthropicState true false (idx +! 1) false "tool_use"
         "" "" false pend true map 0 0 0 0 id model now)).
  { intros args. unfold ResponsesEventToAnthropicEvents. cbn -[block_stop].
    unfold resToAnthHandleFuncArgsDone. cbn -[block_stop]. by rewrite orb_true_r. }
  destruct fragments as [|f l].
  - exists [sanitizeAnthropicToolUseInput name arguments].
    split; [|cbn; by rewrite string_app_nil_r]. cbn [fmap list_fmap app].
    rewrite run_machine_cons. clear Hdone.
    assert (E : ResponsesEventToAnthropicEvents (args_done oi arguments)
        (tool_state idx name "" false pend map id model now)
      = ([block_delta idx (json_delta (sanitizeAnthropicToolUseInput name arguments)); block_stop idx],
         MkResponsesEventToAnthropicState true false (idx +! 1) false "tool_use"
         "" "" false pend true map 0 0 0 0 id model now)).
    { unfold ResponsesEventToAnthropicEvents.
      cbn -[block_stop block_delta json_delta sanitizeAnthropicToolUseInput].
      unfold resToAnthHandleFuncArgsDone.
      cbn -[block_stop block_delta json_delta sanitizeAnthropicToolUseInput].
      rewrite (proj2 (String.eqb_neq arguments "") Ha).
      pose proof (proj2 (String.eqb_neq _ _) (sanitize_nonempty name arguments Ha)) as Hs.
      rewrite (proj2 (String.eqb_neq arguments "") Ha), Hs, andb_false_r, Hm, Z.eqb_refl.
      destruct (name ≟ "Read") eqn:Hn; [done|]. by rewrite (sanitize_other _ _ Hn). }
    by rewrite E.
  - rewrite run_machine_app. destruct (Hl ltac:(done)) as [Hj Hread].
    destruct (String.eqb_spec name "Read") as [->|Hn].
    + destruct (Hread eq_refl) as [Hv Hp].
      exists [sanitizeAnthropicToolUseInput "Read" arguments].
      rewrite read_fragments by done. rewrite run_machine_cons, Hdone. cbn [app "+:+"].
      rewrite Hj. split; [done|]. cbn. by rewrite string_app_nil_r.
    + exists (f :: l). unfold args_delta.
      rewrite (args_fragments (f :: l) _ oi idx) by done.
      change (_{{ ra_CurrentToolHadDelta := true }})
        with (tool_state idx name "" true pend map id model now).
      rewrite run_machine_cons, Hdone. split; [done|].
      rewrite Hj. symmetry. apply sanitize_other. by apply String.eqb_neq.
Qed.

Lemma converts_call oi callID name fragments arguments :
  item_ok (UFunctionCall callID name fragments arguments) = true →
  converts (item_events oi (UFunctionCall callID name fragments arguments))
    (outputItemBlocks (item_output (UFunctionCall callID name fragments arguments))) true.
Proof.
  cbn [item_ok]. intros Hok s h id model now m pt (idx & bt & tool & args & had & pend & map & ->).
  destruct (fragments_of_Read _ _ _ Hok) as (Ha & _ & _).
  unfold item_events. rewrite run_machine_cons.
  assert (E : ∀ s0, s0 = MkResponsesEventToAnthropicState true false idx false bt tool args had pend h
                map 0 0 0 0 id model now →
    ResponsesEventToAnthropicEvents (ev_item "response.output_item.added" oi
      (item_started (UFunctionCall callID name fragments arguments))) s0
    = ([block_start idx (tool_block callID name "{}")],
       tool_state idx name "" false pend (<[oi := idx]> map) id model now)) by (by intros s0 ->).
  rewrite E by done. clear E. rewrite run_machine_app.
  destruct (call_body oi idx name fragments arguments (<[oi := idx]> map) pend id model now)
    as (ds & E & Hj); [apply lookup_insert_eq|done|].
  cbn [item_body]. change (ev_delta _ oi <$> fragments) with (args_delta oi <$> fragments).
  fold (args_done oi arguments). rewrite E. clear E. rewrite run_machine_cons.
  match goal with |- context [ResponsesEventToAnthropicEvents ?e ?s] =>
    assert (E : ResponsesEventToAnthropicEvents e s = ([], s)) by done; rewrite E; clear E end.
  cbn [run_machine mret St_ret fst snd].
  split; [rewrite orb_true_r; by repeat eexists|].
  eexists. block_is (block_start idx (tool_block callID name "{}")
    :: (block_delta idx ∘ json_delta <$> ds) ++ [block_stop idx]).
  erewrite assemble_block by apply assemble_args. cbn [String.append].
  change ("" +:+ join ds) with (join ds).
  rewrite Hj, (proj2 (String.eqb_neq _ _) (sanitize_nonempty name arguments Ha)). done.
Qed.

Definition is_call (it : upstream_item) : bool :=
  match it with UFunctionCall _ _ _ _ => true | _ => false end.

Lemma converts_items oi items :
  forallb item_ok items = true →
  converts (items_events oi items) (concat (outputItemBlocks <$> (item_output <$> items)))
    (existsb is_call items).
Proof.
  revert oi. induction items as [|it items IH]; intros oi Hok; [apply converts_nil|].
  cbn [forallb] in Hok. apply andb_true_iff in Hok as [Hi Hok].
  cbn [items_events fmap list_fmap concat existsb].
  apply converts_app; [|by apply IH].
  destruct it; [by apply converts_reasoning|by apply converts_message|by apply converts_call|].
  apply converts_web_search.
Qed.

(** Tool calls are what makes tool blocks. *)
Lemma tool_blocks items :
  forallb item_ok items = true →
  containsAnthropicToolUseBlock (concat (outputItemBlocks <$> (item_output <$> items)))
    = existsb is_call items.
Proof.
  unfold containsAnthropicToolUseBlock. induction items as [|it items IH]; intros Hok; [done|].
  cbn [forallb] in Hok. apply andb_true_iff in Hok as [Hi Hok].
  cbn [fmap list_fmap concat existsb]. rewrite existsb_app, IH by done. f_equal.
  destruct it as [summary encrypted|parts|callID name fragments arguments|id query]; [| |done|done].
  - cbn -[TrimSpace join]. by case_if.
  - cbn. induction (filter _ _) as [|p l IHl]; [done|exact IHl].
Qed.

(** Every item shows at least one block. *)
Lemma item_blocks_nonempty it : item_ok it = true → outputItemBlocks (item_output it) ≠ [].
Proof.
  destruct it as [summary encrypted|parts|callID name fragments arguments|id query]; try done.
  - cbn [item_ok]. intros H. apply andb_true_iff in H as [H Hne].
    apply andb_true_iff in H as [_ Ht%String.eqb_eq].
    cbn -[TrimSpace join]. rewrite Ht.
    destruct (join summary ≟ "") eqn:E; cbn -[TrimSpace join].
    + cbn in Hne. by rewrite Hne.
    + change ("" +:+ join summary) with (join summary). by rewrite E.
  - cbn [item_ok]. intros H. apply andb_true_iff in H as [Hn Hp].
    rewrite message_blocks by done. by destruct parts.
Qed.

(** The terminal event after the items: the message ends with the usage and the reason the whole
    response is converted with. *)
Lemma terminal_event e s resp h id model now m pt :
  is_terminal e = true → re_Response e = Some resp → re_Usage e = None →
  idle h id model now s →
  let r := ResponsesEventToAnthropicEvents e s in
  ra_MessageStopSent r.2 = true ∧
  as_message <$> foldl assemble1 (Some (Assembly m None pt)) r.1 =
    Some (m{{ am_StopReason := Some (switch (rr_Status resp)
                [ (["incomplete"],
                   match rr_IncompleteDetails resp with
                   | Some d => if rinc_Reason d ≟ "max_output_tokens" then "max_tokens" else "end_turn"
                   | None => "end_turn"
                   end);
                  (["completed"], if h then "tool_use" else "end_turn") ]
                "end_turn");
              am_Usage := anthropicUsageFromResponsesUsage (rr_Usage resp) }}).
Proof.
  intros Ht Hr Hu (idx & bt & tool & args & had & pend & map & ->).
  rewrite terminal_completes by done. unfold resToAnthHandleCompleted. rewrite Hr, Hu.
  cbn -[switch anthropicUsageFromResponsesUsage].
  destruct (rr_Usage resp); cbn -[anthropicUsageFromResponsesUsage]; split; try done.
Qed.

(** ** Properties *)


Definition demo_items : list upstream_item :=
  [UReasoning ["let me "; "look"] "sig"; UFunctionCall "fc_call_1" "Bash" ["{"; "}"] "{}";
   UMessage [["do"; "ne"]]].

