(* ===== verification/ResponsesToChat.v ===== *)
(** * ResponsesToChat: Responses API answers and streams as Chat Completions

    Models [backend/internal/pkg/apicompat/responses_to_chatcompletions.go]: the conversion of a
    whole response, the stateful conversion of a stream into chunks, and the accumulator that
    rebuilds a response's output from the fragments of its stream.

    [now] is [time.Now().Unix()]; identifiers come from the oracle [rng]. *)

From stdpp Require Import base tactics numbers list strings gmap.
From Stdlib Require Import ZArith Lia.
From S2P Require Import Prelude GoLib GoJson ApiTypes.

Local Open Scope go_scope.
Local Open Scope Z_scope.

Definition generateChatCmplID : St rng string := h ← rand_hex; mret ("chatcmpl-" +:+ h).

(** ** Usage *)

Definition promptDetailsFromResponses (src : option ResponsesInputTokensDetails)
    : option ChatTokenDetails :=
  match src with
  | None => None
  | Some src =>
      if (rid_CachedTokens src =? 0) && (rid_AudioTokens src =? 0) &&
         (rid_CacheCreationTokens src =? 0) && (rid_CacheWriteTokens src =? 0)
      then None
      else Some (ChatTokenDetails0{{ td_CachedTokens := rid_CachedTokens src;
                                     td_AudioTokens := rid_AudioTokens src;
                                     td_CacheCreationTokens := rid_CacheCreationTokens src;
                                     td_CacheWriteTokens := rid_CacheWriteTokens src }})
  end.

Definition completionDetailsFromResponses (src : option ResponsesOutputTokensDetails)
    : option ChatTokenDetails :=
  match src with
  | None => None
  | Some src =>
      if (rod_ReasoningTokens src =? 0) && (rod_AudioTokens src =? 0) &&
         (rod_AcceptedPredictionTokens src =? 0) && (rod_RejectedPredictionTokens src =? 0)
      then None
      else Some (ChatTokenDetails0{{ td_ReasoningTokens := rod_ReasoningTokens src;
                                     td_AudioTokens := rod_AudioTokens src;
                                     td_AcceptedPredictionTokens := rod_AcceptedPredictionTokens src;
                                     td_RejectedPredictionTokens := rod_RejectedPredictionTokens src }})
  end.

Definition chatUsageFromResponsesUsage (u : option ResponsesUsage) : option ChatUsage :=
  match u with
  | None => None
  | Some u =>
      let details := promptDetailsFromResponses (ru_InputTokensDetails u) in
      let details :=
        if 0 <? ru_CacheCreationInputTokens u then
          let d := default ChatTokenDetails0 details in
          Some (if (td_CacheWriteTokens d =? 0) && (td_CacheCreationTokens d =? 0)
                then d{{ td_CacheCreationTokens := ru_CacheCreationInputTokens u }} else d)
        else details in
      Some (MkChatUsage (ru_InputTokens u) (ru_OutputTokens u)
              (ru_InputTokens u +! ru_OutputTokens u) details
              (completionDetailsFromResponses (ru_OutputTokensDetails u)))
  end.

(** ** Whole responses *)

Definition responsesStatusToChatFinishReason (status : string)
    (details : option ResponsesIncompleteDetails) (toolCalls : list ChatToolCall) : string :=
  switch status
    [ (["incomplete"],
       match details with
       | Some d =>
           switch (rinc_Reason d)
             [ (["max_output_tokens"], "length"); (["content_filter"], "content_filter") ] "stop"
       | None => "stop"
       end);
      (["completed"], if (0 <? length toolCalls)%nat then "tool_calls" else "stop") ]
    "stop".

(** The text, the reasoning and the tool calls of the output so far. *)
Record collected : Type := Collected {
  col_text : string;
  col_reasoning : string;
  col_calls : list ChatToolCall
}.

(** The loop of [ResponsesToChatCompletions] over the output items. *)
Definition collectItem (c : collected) (item : ResponsesOutput) : collected :=
  switch (ro_Type item)
    [ (["message"],
       c{{ col_text := foldl (λ acc part,
             if (rp_Type part ≟ "output_text") && negb (rp_Text part ≟ "")
             then acc +:+ rp_Text part else acc) (col_text c) (ro_Content item) }});
      (["function_call"],
       c{{ col_calls := col_calls c ++
             [MkChatToolCall None (ro_CallID item) "function"
                (MkChatFunctionCall (ro_Name item) (ro_Arguments item))] }});
      (["reasoning"],
       c{{ col_reasoning := foldl (λ acc s,
             if (rs_Type s ≟ "summary_text") && negb (rs_Text s ≟ "")
             then acc +:+ rs_Text s else acc) (col_reasoning c) (ro_Summary item) }});
      (["web_search_call"], c) ]
    c.

Definition ResponsesToChatCompletions (now : Z) (resp : ResponsesResponse) (model : string)
    : St rng ChatCompletionsResponse :=
  id ← (if rr_ID resp ≟ "" then generateChatCmplID else mret (rr_ID resp));
  let c := foldl collectItem (Collected "" "" []) (rr_Output resp) in
  let msg := ChatMessage0{{ cm_Role := "assistant";
                            cm_ToolCalls := col_calls c;
                            cm_Content :=
                              if col_text c ≟ "" then "" else MarshalString (col_text c);
                            cm_ReasoningContent := col_reasoning c }} in
  let finishReason :=
    responsesStatusToChatFinishReason (rr_Status resp) (rr_IncompleteDetails resp) (col_calls c) in
  mret (ChatCompletionsResponse0{{ cr_ID := id;
                                   cr_Object := "chat.completion";
                                   cr_Created := now;
                                   cr_Model := model;
                                   cr_ServiceTier := rr_ServiceTier resp;
                                   cr_Choices := [MkChatChoice 0 msg finishReason];
                                   cr_Usage := chatUsageFromResponsesUsage (rr_Usage resp) }}).

(** ** Streams *)

Record ResponsesEventToChatState : Type := MkResponsesEventToChatState {
  rc_ID : string;
  rc_Model : string;
  rc_Created : Z;
  rc_ServiceTier : string;
  rc_SentRole : bool;
  rc_SawToolCall : bool;
  rc_SawText : bool;
  rc_Finalized : bool;
  rc_NextToolCallIndex : Z;
  rc_OutputIndexToToolIndex : gmap Z Z;
  rc_IncludeUsage : bool;
  rc_Usage : option ChatUsage
}.

Definition NewResponsesEventToChatState (now : Z) : St rng ResponsesEventToChatState :=
  id ← generateChatCmplID;
  mret (MkResponsesEventToChatState id "" now "" false false false false 0 ∅ false None).

Definition ChatConv : Type := St ResponsesEventToChatState (list ChatCompletionsChunk).

Definition makeChatDeltaChunk (state : ResponsesEventToChatState) (delta : ChatDelta)
    : ChatCompletionsChunk :=
  ChatCompletionsChunk0{{ cx_ID := rc_ID state;
                          cx_Object := "chat.completion.chunk";
                          cx_Created := rc_Created state;
                          cx_Model := rc_Model state;
                          cx_ServiceTier := rc_ServiceTier state;
                          cx_Choices := [MkChatChunkChoice 0 delta None] }}.

Definition makeChatFinishChunk (state : ResponsesEventToChatState) (finishReason : string)
    : ChatCompletionsChunk :=
  ChatCompletionsChunk0{{ cx_ID := rc_ID state;
                          cx_Object := "chat.completion.chunk";
                          cx_Created := rc_Created state;
                          cx_Model := rc_Model state;
                          cx_ServiceTier := rc_ServiceTier state;
                          cx_Choices := [MkChatChunkChoice 0 (ChatDelta0{{ cd_Content := Some "" }})
                                           (Some finishReason)] }}.

(** The last chunks of a stream: the reason, and the usage when the client asked for it. *)
Definition finish_chunks (state : ResponsesEventToChatState) (finishReason : string)
    : list ChatCompletionsChunk :=
  makeChatFinishChunk state finishReason ::
  match rc_Usage state with
  | Some usage =>
      if rc_IncludeUsage state then
        [ChatCompletionsChunk0{{ cx_ID := rc_ID state;
                                 cx_Object := "chat.completion.chunk";
                                 cx_Created := rc_Created state;
                                 cx_Model := rc_Model state;
                                 cx_ServiceTier := rc_ServiceTier state;
                                 cx_Choices := [];
                                 cx_Usage := Some usage }}]
      else []
  | None => []
  end.

Definition FinalizeResponsesChatStream : ChatConv := λ state,
  if rc_Finalized state then ([], state) else
  let state := state{{ rc_Finalized := true }} in
  let finishReason := if rc_SawToolCall state then "tool_calls" else "stop" in
  (finish_chunks state finishReason, state).

Definition resToChatHandleCreated (evt : ResponsesStreamEvent) : ChatConv := λ state,
  let state :=
    match re_Response evt with
    | Some r =>
        let state := if rr_ID r ≟ "" then state else state{{ rc_ID := rr_ID r }} in
        let state :=
          if (rc_Model state ≟ "") && negb (rr_Model r ≟ "")
          then state{{ rc_Model := rr_Model r }} else state in
        if rr_ServiceTier r ≟ "" then state else state{{ rc_ServiceTier := rr_ServiceTier r }}
    | None => state
    end in
  if rc_SentRole state then ([], state) else
  let state := state{{ rc_SentRole := true }} in
  ([makeChatDeltaChunk state (ChatDelta0{{ cd_Role := "assistant" }})], state).

Definition resToChatHandleTextDelta (evt : ResponsesStreamEvent) : ChatConv := λ state,
  if re_Delta evt ≟ "" then ([], state) else
  let state := state{{ rc_SawText := true }} in
  ([makeChatDeltaChunk state (ChatDelta0{{ cd_Content := Some (re_Delta evt) }})], state).

Definition is_tool_item (item : ResponsesOutput) : bool :=
  (ro_Type item ≟ "function_call") || (ro_Type item ≟ "custom_tool_call").

Definition resToChatHandleOutputItemAdded (evt : ResponsesStreamEvent) : ChatConv := λ state,
  match re_Item evt with
  | None => ([], state)
  | Some item =>
      if negb (is_tool_item item) then ([], state) else
      let idx := rc_NextToolCallIndex state in
      let state :=
        state{{ rc_SawToolCall := true;
                rc_OutputIndexToToolIndex :=
                  <[re_OutputIndex evt := idx]> (rc_OutputIndexToToolIndex state);
                rc_NextToolCallIndex := idx +! 1 }} in
      ([makeChatDeltaChunk state
          (ChatDelta0{{ cd_ToolCalls := [MkChatToolCall (Some idx) (ro_CallID item) "function"
                                           (MkChatFunctionCall (ro_Name item) "")] }})], state)
  end.

Definition resToChatHandleFuncArgsDelta (evt : ResponsesStreamEvent) : ChatConv := λ state,
  if re_Delta evt ≟ "" then ([], state) else
  match rc_OutputIndexToToolIndex state !! re_OutputIndex evt with
  | None => ([], state)
  | Some idx =>
      ([makeChatDeltaChunk state
          (ChatDelta0{{ cd_ToolCalls := [MkChatToolCall (Some idx) "" ""
                                           (MkChatFunctionCall "" (re_Delta evt))] }})], state)
  end.

Definition resToChatHandleReasoningDelta (evt : ResponsesStreamEvent) : ChatConv := λ state,
  if re_Delta evt ≟ "" then ([], state) else
  ([makeChatDeltaChunk state (ChatDelta0{{ cd_ReasoningContent := Some (re_Delta evt) }})], state).

Definition resToChatHandleCompleted (evt : ResponsesStreamEvent) : ChatConv := λ state,
  let state := state{{ rc_Finalized := true }} in
  let state :=
    match re_Usage evt with
    | Some _ => state{{ rc_Usage := chatUsageFromResponsesUsage (re_Usage evt) }}
    | None => state
    end in
  let '(finishReason, state) :=
    match re_Response evt with
    | Some r =>
        let state :=
          match rr_Usage r with
          | Some _ => state{{ rc_Usage := chatUsageFromResponsesUsage (rr_Usage r) }}
          | None => state
          end in
        let state :=
          if rr_ServiceTier r ≟ "" then state
          else state{{ rc_ServiceTier := rr_ServiceTier r }} in
        (switch (rr_Status r)
           [ (["incomplete"],
              match rr_IncompleteDetails r with
              | Some d =>
                  switch (rinc_Reason d)
                    [ (["max_output_tokens"], "length"); (["content_filter"], "content_filter") ]
                    "stop"
              | None => "stop"
              end);
             (["completed"], if rc_SawToolCall state then "tool_calls" else "stop") ]
           "stop", state)
    | None => (if rc_SawToolCall state then "tool_calls" else "stop", state)
    end in
  (finish_chunks state finishReason, state).

Definition ResponsesEventToChatChunks (evt : ResponsesStreamEvent) : ChatConv :=
  switch (re_Type evt)
    [ (["response.created"], resToChatHandleCreated evt);
      (["response.output_text.delta"], resToChatHandleTextDelta evt);
      (["response.output_item.added"], resToChatHandleOutputItemAdded evt);
      (["response.function_call_arguments.delta"; "response.custom_tool_call_input.delta"],
       resToChatHandleFuncArgsDelta evt);
      (["response.reasoning_summary_text.delta"; "response.reasoning_text.delta"],
       resToChatHandleReasoningDelta evt);
      (["response.reasoning_summary_text.done"], mret []);
      (["response.completed"; "response.done"; "response.incomplete"; "response.failed"],
       resToChatHandleCompleted evt) ]
    (mret []).

(** A whole stream: the events of the upstream, then the end of the connection. *)
Definition convertChatStream (evts : list ResponsesStreamEvent) : ChatConv :=
  chunks ← run_machine ResponsesEventToChatChunks evts;
  rest ← FinalizeResponsesChatStream;
  mret (chunks ++ rest).

(** ** The accumulator *)

(** A [strings.Builder] remembers its address at the first write and panics when a later write
    finds it moved; the address of an element of a slice is its array and index. *)
Record Builder : Type := MkBuilder {
  b_addr : option (nat * nat);
  b_buf : string
}.

Definition WriteString (self : nat * nat) (s : string) (b : Builder) : option Builder :=
  match b_addr b with
  | None => Some (MkBuilder (Some self) (b_buf b +:+ s))
  | Some a => if decide (a = self) then Some (MkBuilder (Some a) (b_buf b +:+ s)) else None
  end.

Record bufferedFuncCall : Type := MkBufferedFuncCall {
  bf_CallID : string;
  bf_Name : string;
  bf_Args : Builder
}.

(** [text] and [reasoning] live in the accumulator itself, which does not move.  The slice
    [funcCalls] has an array ([ba_array], [ba_cap]); an append beyond its capacity moves the
    elements into a new one. *)
Record BufferedResponseAccumulator : Type := MkBufferedResponseAccumulator {
  ba_text : string;
  ba_reasoning : string;
  ba_funcCalls : list bufferedFuncCall;
  ba_array : nat;
  ba_cap : nat;
  ba_outputIndexToFuncIdx : gmap Z nat
}.

Definition NewBufferedResponseAccumulator : BufferedResponseAccumulator :=
  MkBufferedResponseAccumulator "" "" [] 0 0 ∅.

Section Accumulator.
(** The capacity the runtime gives a slice that grows from a full array of [n] elements. *)
Variable newcap : nat → nat.

Definition append_call (call : bufferedFuncCall) (a : BufferedResponseAccumulator)
    : BufferedResponseAccumulator :=
  let a :=
    if (length (ba_funcCalls a) <? ba_cap a)%nat then a
    else a{{ ba_array := S (ba_array a); ba_cap := newcap (ba_cap a) }} in
  a{{ ba_funcCalls := ba_funcCalls a ++ [call] }}.

(** [None]: the process panics. *)
Definition ProcessEvent (event : ResponsesStreamEvent) (a : BufferedResponseAccumulator)
    : option BufferedResponseAccumulator :=
  switch (re_Type event)
    [ (["response.output_text.delta"],
       if re_Delta event ≟ "" then Some a
       else Some (a{{ ba_text := ba_text a +:+ re_Delta event }}));
      (["response.output_item.added"],
       match re_Item event with
       | Some item =>
           if is_tool_item item then
             let idx := length (ba_funcCalls a) in
             let a := a{{ ba_outputIndexToFuncIdx :=
                            <[re_OutputIndex event := idx]> (ba_outputIndexToFuncIdx a) }} in
             Some (append_call (MkBufferedFuncCall (ro_CallID item) (ro_Name item)
                                  (MkBuilder None "")) a)
           else Some a
       | None => Some a
       end);
      (["response.function_call_arguments.delta"; "response.custom_tool_call_input.delta"],
       if re_Delta event ≟ "" then Some a else
       match ba_outputIndexToFuncIdx a !! re_OutputIndex event with
       | Some idx =>
           call ← ba_funcCalls a !! idx;
           args ← WriteString (ba_array a, idx) (re_Delta event) (bf_Args call);
           Some (a{{ ba_funcCalls := <[idx := call{{ bf_Args := args }}]> (ba_funcCalls a) }})
       | None => Some a
       end);
      (["response.reasoning_summary_text.delta"; "response.reasoning_text.delta"],
       if re_Delta event ≟ "" then Some a
       else Some (a{{ ba_reasoning := ba_reasoning a +:+ re_Delta event }})) ]
    (Some a).

Fixpoint ProcessEvents (events : list ResponsesStreamEvent) (a : BufferedResponseAccumulator)
    : option BufferedResponseAccumulator :=
  match events with
  | [] => Some a
  | e :: events' => a' ← ProcessEvent e a; ProcessEvents events' a'
  end.
End Accumulator.

Definition HasContent (a : BufferedResponseAccumulator) : bool :=
  negb (ba_text a ≟ "") || (0 <? length (ba_funcCalls a))%nat || negb (ba_reasoning a ≟ "").

Definition BuildOutput (a : BufferedResponseAccumulator) : list ResponsesOutput :=
  (if ba_reasoning a ≟ "" then [] else
   [ResponsesOutput0{{ ro_Type := "reasoning";
                       ro_Summary := [MkResponsesSummary "summary_text" (ba_reasoning a)] }}]) ++
  (if ba_text a ≟ "" then [] else
   [ResponsesOutput0{{ ro_Type := "message";
                       ro_Role := "assistant";
                       ro_Content := [ResponsesContentPart0{{ rp_Type := "output_text";
                                                              rp_Text := ba_text a }}] }}]) ++
  ((λ call, ResponsesOutput0{{ ro_Type := "function_call";
                               ro_CallID := bf_CallID call;
                               ro_Name := bf_Name call;
                               ro_Arguments := b_buf (bf_Args call) }}) <$> ba_funcCalls a).

Definition SupplementResponseOutput (a : BufferedResponseAccumulator)
    (resp : option ResponsesResponse) : option ResponsesResponse :=
  match resp with
  | None => None
  | Some resp =>
      Some (match rr_Output resp with
            | _ :: _ => resp
            | [] => if HasContent a then resp{{ rr_Output := BuildOutput a }} else resp
            end)
  end.
