(* ===== verification/ResToChatFacts.v ===== *)
(** * ResToChatFacts: streamed, buffered and whole Chat Completions agree

    What a client assembles from the chunks is what the accumulator buffers, on every stream; on
    the stream of a response it is what the response is converted to. *)

From stdpp Require Import base tactics numbers list strings gmap.
From Stdlib Require Import ZArith Lia.
From S2P Require Import Prelude GoLib GoJson ApiTypes Upstream ResponsesToChat.

Local Open Scope go_scope.
Local Open Scope Z_scope.

(** ** The client *)

(** The message a client puts together: tool calls by index. *)
Record chat_assembly : Type := ChatAssembly {
  ca_text : string;
  ca_reasoning : string;
  ca_calls : gmap Z ChatToolCall;
  ca_finish : list string;
  ca_usage : option ChatUsage
}.

Definition new_assembly : chat_assembly := ChatAssembly "" "" ∅ [] None.

(** The first fragment of a call names it, later ones extend its arguments. *)
Definition merge_call (calls : gmap Z ChatToolCall) (tc : ChatToolCall) : gmap Z ChatToolCall :=
  match tc_Index tc with
  | None => calls
  | Some i =>
      match calls !! i with
      | None =>
          <[i := MkChatToolCall None (tc_ID tc) (tc_Type tc) (tc_Function tc)]> calls
      | Some old =>
          <[i := old{{ tc_Function := MkChatFunctionCall (fc_Name (tc_Function old))
                 (fc_Arguments (tc_Function old) +:+ fc_Arguments (tc_Function tc)) }}]> calls
      end
  end.

Definition merge_choice (a : chat_assembly) (c : ChatChunkChoice) : chat_assembly :=
  let d := ck_Delta c in
  ChatAssembly (ca_text a +:+ default "" (cd_Content d))
    (ca_reasoning a +:+ default "" (cd_ReasoningContent d))
    (foldl merge_call (ca_calls a) (cd_ToolCalls d))
    (ca_finish a ++ match ck_FinishReason c with Some r => [r] | None => [] end)
    (ca_usage a).

Definition merge_chunk (a : chat_assembly) (c : ChatCompletionsChunk) : chat_assembly :=
  let a := foldl merge_choice a (cx_Choices c) in
  match cx_Usage c with
  | Some u => a{{ ca_usage := Some u }}
  | None => a
  end.

Definition merge_chunks : chat_assembly → list ChatCompletionsChunk → chat_assembly :=
  foldl merge_chunk.

(** ** Streamed and buffered *)

(** The calls the accumulator holds, as the client holds them. *)
Definition buffered_call (c : bufferedFuncCall) : ChatToolCall :=
  MkChatToolCall None (bf_CallID c) "function" (MkChatFunctionCall (bf_Name c) (b_buf (bf_Args c))).

Definition same_calls (m : gmap Z ChatToolCall) (l : list bufferedFuncCall) : Prop :=
  ∀ i, m !! i = if 0 <=? i then buffered_call <$> l !! Z.to_nat i else None.

(** The converter's state, the client and the accumulator after the same events. *)
Definition together (s : ResponsesEventToChatState) (c : chat_assembly)
    (a : BufferedResponseAccumulator) : Prop :=
  ca_text c = ba_text a ∧ ca_reasoning c = ba_reasoning a ∧
  same_calls (ca_calls c) (ba_funcCalls a) ∧
  rc_NextToolCallIndex s = Z.of_nat (length (ba_funcCalls a)) ∧
  rc_OutputIndexToToolIndex s = Z.of_nat <$> ba_outputIndexToFuncIdx a ∧
  map_Forall (λ _ n, (n < length (ba_funcCalls a))%nat) (ba_outputIndexToFuncIdx a) ∧
  rc_SawToolCall s = (0 <? length (ba_funcCalls a))%nat.

Lemma same_calls_app m l c :
  same_calls m l →
  same_calls (<[Z.of_nat (length l) := buffered_call c]> m) (l ++ [c]).
Proof.
  intros H i. destruct (decide (i = Z.of_nat (length l))) as [->|Hi].
  - rewrite lookup_insert_eq, (proj2 (Z.leb_le _ _)) by lia.
    by rewrite Nat2Z.id, list_lookup_middle.
  - rewrite lookup_insert_ne, H by done. destruct (Z.leb_spec 0 i); [|done].
    destruct (decide (Z.to_nat i < length l)%nat).
    + by rewrite lookup_app_l.
    + rewrite (lookup_ge_None_2 l), lookup_ge_None_2; [done| |lia].
      rewrite length_app; cbn; lia.
Qed.

Lemma same_calls_insert m l n c :
  same_calls m l → (n < length l)%nat →
  same_calls (<[Z.of_nat n := buffered_call c]> m) (<[n := c]> l).
Proof.
  intros H Hn i. destruct (decide (i = Z.of_nat n)) as [->|Hi].
  - rewrite lookup_insert_eq, (proj2 (Z.leb_le _ _)) by lia.
    by rewrite Nat2Z.id, list_lookup_insert_eq.
  - rewrite lookup_insert_ne, H by done. destruct (Z.leb_spec 0 i); [|done].
    by rewrite list_lookup_insert_ne by lia.
Qed.

(** Chunks that carry no content and state that keeps the tool indices. *)
Definition contentless (s : ResponsesEventToChatState)
    (r : list ChatCompletionsChunk * ResponsesEventToChatState) : Prop :=
  rc_NextToolCallIndex r.2 = rc_NextToolCallIndex s ∧
  rc_OutputIndexToToolIndex r.2 = rc_OutputIndexToToolIndex s ∧
  rc_SawToolCall r.2 = rc_SawToolCall s ∧
  ∀ c, ca_text (merge_chunks c r.1) = ca_text c ∧
       ca_reasoning (merge_chunks c r.1) = ca_reasoning c ∧
       ca_calls (merge_chunks c r.1) = ca_calls c.

Lemma contentless_together s c a r :
  contentless s r → together s c a → together r.2 (merge_chunks c r.1) a.
Proof.
  intros (H1 & H2 & H0 & H3) (Ht & Hr & Hc & Hn & Hm & Hf & Hs). destruct (H3 c) as (H4 & H5 & H6).
  unfold together. by rewrite H1, H2, H0, H4, H5, H6.
Qed.

Lemma finish_contentless s reason c :
  ca_text (merge_chunks c (finish_chunks s reason)) = ca_text c ∧
  ca_reasoning (merge_chunks c (finish_chunks s reason)) = ca_reasoning c ∧
  ca_calls (merge_chunks c (finish_chunks s reason)) = ca_calls c.
Proof.
  unfold finish_chunks. destruct (rc_Usage s); [case_if|]; cbn; by rewrite !string_app_nil_r.
Qed.

Lemma contentless_created e s : contentless s (resToChatHandleCreated e s).
Proof.
  unfold resToChatHandleCreated.
  set (s1 := match re_Response e with Some _ => _ | None => s end).
  assert (H1 : rc_NextToolCallIndex s1 = rc_NextToolCallIndex s ∧
               rc_OutputIndexToToolIndex s1 = rc_OutputIndexToToolIndex s ∧
               rc_SawToolCall s1 = rc_SawToolCall s).
  { subst s1. destruct (re_Response e); [|done]. repeat case_if; done. }
  clearbody s1. destruct H1 as (H1 & H2 & H3).
  case_if; (split; [exact H1|]; split; [exact H2|]; split; [exact H3|]); [done|].
  intros c. cbn. by rewrite !string_app_nil_r.
Qed.

Lemma contentless_completed e s : contentless s (resToChatHandleCompleted e s).
Proof.
  unfold resToChatHandleCompleted. cbv zeta.
  set (s2 := match re_Usage e with Some _ => _ | None => _ end).
  assert (H2 : rc_NextToolCallIndex s2 = rc_NextToolCallIndex s ∧
               rc_OutputIndexToToolIndex s2 = rc_OutputIndexToToolIndex s ∧
               rc_SawToolCall s2 = rc_SawToolCall s)
    by (subst s2; by destruct (re_Usage e)).
  set (r := match re_Response e with Some _ => _ | None => _ end).
  assert (H3 : rc_NextToolCallIndex r.2 = rc_NextToolCallIndex s ∧
               rc_OutputIndexToToolIndex r.2 = rc_OutputIndexToToolIndex s ∧
               rc_SawToolCall r.2 = rc_SawToolCall s).
  { subst r. destruct (re_Response e) as [resp|]; [|exact H2]. cbn [snd].
    destruct (rr_Usage resp); case_if; exact H2. }
  clearbody r. destruct r as [reason s3]. destruct H3 as (?&?&?). do 3 (split; [done|]).
  apply finish_contentless.
Qed.

Lemma contentless_finalize s : contentless s (FinalizeResponsesChatStream s).
Proof.
  unfold FinalizeResponsesChatStream. case_if; [done|]. do 3 (split; [done|]).
  apply finish_contentless.
Qed.

(** ** One event *)

Section Together.
Variable newcap : nat → nat.

Lemma together_text e s c a :
  together s c a →
  together (resToChatHandleTextDelta e s).2 (merge_chunks c (resToChatHandleTextDelta e s).1)
    (if re_Delta e ≟ "" then a else a{{ ba_text := ba_text a +:+ re_Delta e }}).
Proof.
  intros (Ht & Hr & Hc & Hn & Hm & Hf & Hsaw). unfold resToChatHandleTextDelta. case_if; [done|].
  split; [cbn; by rewrite Ht|]. split; [cbn; by rewrite string_app_nil_r|]. done.
Qed.

Lemma together_reasoning e s c a :
  together s c a →
  together (resToChatHandleReasoningDelta e s).2
    (merge_chunks c (resToChatHandleReasoningDelta e s).1)
    (if re_Delta e ≟ "" then a else a{{ ba_reasoning := ba_reasoning a +:+ re_Delta e }}).
Proof.
  intros (Ht & Hr & Hc & Hn & Hm & Hf & Hsaw). unfold resToChatHandleReasoningDelta. case_if; [done|].
  split; [cbn; by rewrite string_app_nil_r|]. split; [cbn; by rewrite Hr|]. done.
Qed.

Lemma append_call_calls call a :
  ba_funcCalls (append_call newcap call a) = ba_funcCalls a ++ [call] ∧
  ba_text (append_call newcap call a) = ba_text a ∧
  ba_reasoning (append_call newcap call a) = ba_reasoning a ∧
  ba_outputIndexToFuncIdx (append_call newcap call a) = ba_outputIndexToFuncIdx a.
Proof. unfold append_call. by case_if. Qed.

Lemma together_item e s c a item :
  together s c a → Z.of_nat (length (ba_funcCalls a)) + 1 < 2 ^ 63 →
  re_Item e = Some item → is_tool_item item = true →
  together (resToChatHandleOutputItemAdded e s).2
    (merge_chunks c (resToChatHandleOutputItemAdded e s).1)
    (append_call newcap (MkBufferedFuncCall (ro_CallID item) (ro_Name item) (MkBuilder None ""))
       (a{{ ba_outputIndexToFuncIdx :=
              <[re_OutputIndex e := length (ba_funcCalls a)]> (ba_outputIndexToFuncIdx a) }})).
Proof.
  intros (Ht & Hr & Hc & Hn & Hm & Hf & Hsaw) Hlen Hi Htool.
  unfold resToChatHandleOutputItemAdded. rewrite Hi, Htool. cbn [negb].
  set (call := MkBufferedFuncCall _ _ _).
  match goal with |- together _ _ (append_call newcap call ?x) =>
    destruct (append_call_calls call x) as (E1 & E2 & E3 & E4);
    assert (F1 : ba_funcCalls x = ba_funcCalls a) by done end.
  unfold together. rewrite E1, E2, E3, E4, F1. clear E1 E2 E3 E4 F1.
  split; [cbn; by rewrite string_app_nil_r|]. split; [cbn; by rewrite string_app_nil_r|].
  assert (Hno : ca_calls c !! Z.of_nat (length (ba_funcCalls a)) = None).
  { rewrite Hc, (proj2 (Z.leb_le _ _)) by lia. rewrite Nat2Z.id.
    by rewrite lookup_ge_None_2 by lia. }
  split; [|split; [|split; [|split]]].
  - cbn. rewrite Hn. unfold merge_call. cbn. rewrite Hno. apply (same_calls_app _ _ call Hc).
  - cbn. rewrite Hn, length_app. unfold int64_add.
    rewrite int64_wrap_id by (unfold int64_range; lia). cbn [length]. lia.
  - cbn. by rewrite Hm, Hn, fmap_insert.
  - cbn. apply map_Forall_insert_2; [rewrite length_app; cbn; lia|].
    eapply map_Forall_impl; [exact Hf|]. intros k n. cbn. rewrite length_app. lia.
  - change (true = (0 <? length (ba_funcCalls a ++ [call]))%nat). rewrite length_app. symmetry.
    apply Nat.ltb_lt. cbn. lia.
Qed.

Lemma WriteString_buf self t b b' : WriteString self t b = Some b' → b_buf b' = b_buf b +:+ t.
Proof. unfold WriteString. intros H. by repeat case_match; simplify_eq. Qed.

Lemma together_args e s c a idx call args :
  together s c a → re_Delta e ≠ "" →
  ba_outputIndexToFuncIdx a !! re_OutputIndex e = Some idx →
  ba_funcCalls a !! idx = Some call → b_buf args = b_buf (bf_Args call) +:+ re_Delta e →
  together (resToChatHandleFuncArgsDelta e s).2
    (merge_chunks c (resToChatHandleFuncArgsDelta e s).1)
    (a{{ ba_funcCalls := <[idx := call{{ bf_Args := args }}]> (ba_funcCalls a) }}).
Proof.
  intros (Ht & Hr & Hc & Hn & Hm & Hf & Hsaw) Hd Hi Hcall Hargs.
  unfold resToChatHandleFuncArgsDelta. rewrite (proj2 (String.eqb_neq _ _) Hd), Hm, lookup_fmap, Hi.
  assert (Hlt : (idx < length (ba_funcCalls a))%nat) by by eapply lookup_lt_Some.
  assert (Hold : ca_calls c !! Z.of_nat idx = Some (buffered_call call)).
  { rewrite Hc, (proj2 (Z.leb_le _ _)), Nat2Z.id, Hcall by lia. done. }
  split; [cbn; by rewrite string_app_nil_r|]. split; [cbn; by rewrite string_app_nil_r|].
  split; [|split; [|split; [|split]]].
  - cbn -[merge_call]. unfold merge_call. cbn [tc_Index]. rewrite Hold.
    pose proof (same_calls_insert _ _ idx (call{{ bf_Args := args }}) Hc Hlt) as H.
    destruct call. unfold buffered_call in *. cbn in *. rewrite Hargs in H. exact H.
  - cbn. by rewrite length_insert.
  - done.
  - cbn. by rewrite length_insert.
  - cbn. rewrite length_insert. exact Hsaw.
Qed.

(** One event: the client and the accumulator stay together. *)
Lemma together_event e s c a a' :
  together s c a → Z.of_nat (length (ba_funcCalls a)) + 1 < 2 ^ 63 →
  ProcessEvent newcap e a = Some a' →
  together (ResponsesEventToChatChunks e s).2 (merge_chunks c (ResponsesEventToChatChunks e s).1) a'.
Proof.
  intros Ht Hlen. unfold ResponsesEventToChatChunks.
  apply (switch_split (λ h : ChatConv, ProcessEvent newcap e a = Some a' →
    together (h s).2 (merge_chunks c (h s).1) a')).
  - repeat apply List.Forall_cons; try apply List.Forall_nil; cbn [fst snd existsb];
      rewrite ?orb_false_r, ?orb_true_iff, ?String.eqb_eq; intros Hl;
      unfold ProcessEvent.
    + rewrite Hl. cbn. intros [= <-]. apply (contentless_together s); [apply contentless_created|done].
    + rewrite Hl. cbn. intros H. pose proof (together_text e s c a Ht) as Hx.
      by destruct (re_Delta e ≟ ""); simplify_eq.
    + rewrite Hl. cbn. destruct (re_Item e) as [item|] eqn:Hi.
      * destruct (is_tool_item item) eqn:Htool; intros [= <-]; [by apply together_item|].
        unfold resToChatHandleOutputItemAdded. by rewrite Hi, Htool.
      * intros [= <-]. unfold resToChatHandleOutputItemAdded. by rewrite Hi.
    + match goal with |- switch ?x ?l ?d = _ → _ => match l with [_; _; (_, ?b); _] =>
        assert (Hsw : switch x l d = b) by (destruct Hl as [-> | ->]; reflexivity) end end.
      rewrite Hsw. clear Hsw. case_if; [|destruct (_ !! _) as [idx|] eqn:Hidx].
      * intros [= <-]. unfold resToChatHandleFuncArgsDelta. by rewrite Heqb.
      * destruct (ba_funcCalls a !! idx) as [call|] eqn:Hcall; cbn; [|done].
        destruct (WriteString _ _ _) as [args|] eqn:Hw; cbn; [|done]. intros [= <-].
        apply together_args; try done; [by apply String.eqb_neq|by eapply WriteString_buf].
      * intros [= <-]. unfold resToChatHandleFuncArgsDelta. destruct Ht as (?&?&?&?&Hm&?&?).
        by rewrite Heqb, Hm, lookup_fmap, Hidx.
    + match goal with |- switch ?x ?l ?d = _ → _ => match l with [_; _; _; (_, ?b)] =>
        assert (Hsw : switch x l d = b) by (destruct Hl as [-> | ->]; reflexivity) end end.
      rewrite Hsw. clear Hsw. intros H. pose proof (together_reasoning e s c a Ht) as Hx.
      by destruct (re_Delta e ≟ ""); simplify_eq.
    + rewrite Hl. by intros [= <-].
    + match goal with |- switch ?x ?l ?d = _ → _ =>
        assert (Hsw : switch x l d = d)
          by (destruct Hl as [-> | [-> | [-> | ->]]]; reflexivity) end.
      rewrite Hsw. intros [= <-]. apply (contentless_together s); [apply contentless_completed|done].
  - intros Hno. repeat (apply List.Forall_cons_iff in Hno as [? Hno]). cbn [fst] in *.
    unfold ProcessEvent. rewrite switch_default by (repeat apply List.Forall_cons; by try apply List.Forall_nil).
    by intros [= <-].
Qed.
End Together.

(** ** Whole streams *)

Lemma ProcessEvent_length newcap e a a' :
  ProcessEvent newcap e a = Some a' →
  (length (ba_funcCalls a') ≤ length (ba_funcCalls a) + 1)%nat.
Proof.
  unfold ProcessEvent.
  apply (switch_all (λ o, o = Some a' → (length (ba_funcCalls a') ≤ length (ba_funcCalls a) + 1)%nat)).
  - repeat apply List.Forall_cons; try apply List.Forall_nil; cbn [snd].
    + case_if; intros [= <-]; destruct a; cbn; lia.
    + destruct (re_Item e) as [item|]; [|intros [= <-]; lia].
      case_if; intros [= <-]; [|lia].
      match goal with |- context [append_call newcap ?call ?x] =>
        destruct (append_call_calls newcap call x) as (-> & _) end.
      destruct a. cbn. rewrite length_app. cbn. lia.
    + case_if; [intros [= <-]; lia|]. destruct (_ !! _); [|intros [= <-]; lia].
      destruct (_ !! _); cbn; [|done]. destruct (WriteString _ _ _); cbn; [|done].
      intros [= <-]. destruct a. cbn. rewrite length_insert. lia.
    + case_if; intros [= <-]; destruct a; cbn; lia.
  - intros [= <-]. lia.
Qed.

Lemma ProcessEvents_cons newcap e evts a :
  ProcessEvents newcap (e :: evts) a =
    match ProcessEvent newcap e a with Some a1 => ProcessEvents newcap evts a1 | None => None end.
Proof. done. Qed.

Lemma together_run newcap evts s c a a' :
  together s c a → Z.of_nat (length (ba_funcCalls a) + length evts) < 2 ^ 63 →
  ProcessEvents newcap evts a = Some a' →
  let r := run_machine ResponsesEventToChatChunks evts s in
  together r.2 (merge_chunks c r.1) a'.
Proof.
  revert s c a. induction evts as [|e evts IH]; intros s c a Ht Hlen H.
  - by injection H as <-.
  - rewrite ProcessEvents_cons in H.
    destruct (ProcessEvent newcap e a) as [a1|] eqn:E; [|done].
    pose proof (together_event newcap e s c a a1 Ht ltac:(cbn in Hlen; lia) E) as H1.
    pose proof (ProcessEvent_length newcap e a a1 E). rewrite run_machine_cons.
    destruct (ResponsesEventToChatChunks e s) as [o s1]. cbn [fst snd] in H1.
    specialize (IH s1 _ a1 H1 ltac:(cbn in Hlen; lia) H). cbv zeta in IH.
    destruct (run_machine _ evts s1) as [os s2]. cbn [fst snd] in *.
    unfold merge_chunks in *. by rewrite foldl_app.
Qed.

(** ** The output rebuilt from the fragments *)

Definition item_text (it : upstream_item) : string :=
  match it with UMessage parts => join (join <$> parts) | _ => "" end.
Definition item_reasoning (it : upstream_item) : string :=
  match it with UReasoning summary _ => join summary | _ => "" end.
Definition item_calls (it : upstream_item) : list ChatToolCall :=
  match it with
  | UFunctionCall callID name _ arguments =>
      [MkChatToolCall None callID "function" (MkChatFunctionCall name arguments)]
  | _ => []
  end.

(** The arguments of a call came in fragments. *)
Definition call_complete (it : upstream_item) : bool :=
  match it with UFunctionCall _ _ fragments arguments => join fragments ≟ arguments | _ => true end.

Lemma collectItem_item c it :
  collectItem c (item_output it) =
    Collected (col_text c +:+ item_text it) (col_reasoning c +:+ item_reasoning it)
      (col_calls c ++ item_calls it).
Proof.
  destruct c as [t r l], it as [summary enc|parts|callID name fragments arguments|id query];
    cbn -[join]; rewrite ?string_app_nil_r, ?app_nil_r; try done.
  - f_equal. case_if; [done|]. apply negb_false_iff, String.eqb_eq in Heqb.
    by rewrite Heqb, string_app_nil_r.
  - f_equal. revert t. induction parts as [|p parts IH]; intros t;
      cbn -[join]; [by rewrite string_app_nil_r|].
    rewrite IH. change (join (join p :: ?l)) with (join p +:+ join l).
    rewrite string_app_assoc. f_equal. case_if; [done|].
    apply negb_false_iff, String.eqb_eq in Heqb. by rewrite Heqb, string_app_nil_r.
Qed.

Lemma collect_items c items :
  foldl collectItem c (item_output <$> items) =
    Collected (col_text c +:+ join (item_text <$> items))
      (col_reasoning c +:+ join (item_reasoning <$> items))
      (col_calls c ++ concat (item_calls <$> items)).
Proof.
  revert c. induction items as [|it items IH]; intros c.
  - destruct c. cbn. by rewrite !string_app_nil_r, app_nil_r.
  - cbn [fmap list_fmap foldl]. rewrite collectItem_item, IH.
    cbn -[join item_text item_reasoning item_calls].
    change (join (?x :: ?l)) with (x +:+ join l). by rewrite !string_app_assoc, app_assoc.
Qed.

(** What the accumulator has gained. *)
Definition gained (a a' : BufferedResponseAccumulator) (t r : string) (l : list ChatToolCall)
    : Prop :=
  ba_text a' = ba_text a +:+ t ∧ ba_reasoning a' = ba_reasoning a +:+ r ∧
  buffered_call <$> ba_funcCalls a' = (buffered_call <$> ba_funcCalls a) ++ l.

Lemma gained_trans a b c t1 r1 l1 t2 r2 l2 :
  gained a b t1 r1 l1 → gained b c t2 r2 l2 → gained a c (t1 +:+ t2) (r1 +:+ r2) (l1 ++ l2).
Proof.
  intros (H1 & H2 & H3) (H4 & H5 & H6). split; [|split].
  - by rewrite H4, H1, string_app_assoc.
  - by rewrite H5, H2, string_app_assoc.
  - by rewrite H6, H3, app_assoc.
Qed.

Lemma gained_refl a : gained a a "" "" [].
Proof. unfold gained. by rewrite !string_app_nil_r, app_nil_r. Qed.

Section Rebuild.
Variable newcap : nat → nat.

Lemma ProcessEvents_app l1 l2 a :
  ProcessEvents newcap (l1 ++ l2) a =
    match ProcessEvents newcap l1 a with Some a' => ProcessEvents newcap l2 a' | None => None end.
Proof.
  revert a. induction l1 as [|e l1 IH]; intros a; [done|].
  rewrite <- app_comm_cons, !ProcessEvents_cons. destruct (ProcessEvent newcap e a); [apply IH|done].
Qed.

Lemma text_events oi p a :
  ProcessEvents newcap (ev_delta "response.output_text.delta" oi <$> p) a
    = Some (a{{ ba_text := ba_text a +:+ join p }}).
Proof.
  revert a. induction p as [|f p IH]; intros a.
  - destruct a. cbn. by rewrite string_app_nil_r.
  - cbn [fmap list_fmap]. rewrite ProcessEvents_cons.
    assert (E : ProcessEvent newcap (ev_delta "response.output_text.delta" oi f) a
      = Some (a{{ ba_text := ba_text a +:+ f }})).
    { unfold ProcessEvent. destruct a. cbn. destruct (String.eqb_spec f "") as [->|]; [|done].
      by rewrite string_app_nil_r. }
    rewrite E, IH. change (join (f :: p)) with (f +:+ join p). rewrite string_app_assoc. done.
Qed.

Lemma reasoning_events oi p a :
  ProcessEvents newcap (ev_delta "response.reasoning_summary_text.delta" oi <$> p) a
    = Some (a{{ ba_reasoning := ba_reasoning a +:+ join p }}).
Proof.
  revert a. induction p as [|f p IH]; intros a.
  - destruct a. cbn. by rewrite string_app_nil_r.
  - cbn [fmap list_fmap]. rewrite ProcessEvents_cons.
    assert (E : ProcessEvent newcap (ev_delta "response.reasoning_summary_text.delta" oi f) a
      = Some (a{{ ba_reasoning := ba_reasoning a +:+ f }})).
    { unfold ProcessEvent. destruct a. cbn. destruct (String.eqb_spec f "") as [->|]; [|done].
      by rewrite string_app_nil_r. }
    rewrite E, IH. change (join (f :: p)) with (f +:+ join p). rewrite string_app_assoc. done.
Qed.

(** Arguments written while the call stays where it is. *)
Lemma args_events oi n p a call :
  ba_outputIndexToFuncIdx a !! oi = Some n → ba_funcCalls a !! n = Some call →
  (b_addr (bf_Args call) = None ∨ b_addr (bf_Args call) = Some (ba_array a, n)) →
  ∃ args, b_buf args = b_buf (bf_Args call) +:+ join p ∧
    ProcessEvents newcap (ev_delta "response.function_call_arguments.delta" oi <$> p) a
    = Some (a{{ ba_funcCalls := <[n := call{{ bf_Args := args }}]> (ba_funcCalls a) }}).
Proof.
  revert a call. induction p as [|f p IH]; intros a call Hi Hc Ha.
  - exists (bf_Args call). split; [by rewrite string_app_nil_r|].
    destruct a, call. cbn in *. by rewrite list_insert_id.
  - change (join (f :: p)) with (f +:+ join p).
    destruct (String.eqb_spec f "") as [->|Hf].
    + cbn [fmap list_fmap]. rewrite ProcessEvents_cons.
      change (ProcessEvent newcap _ a) with (Some a). by apply IH.
    + assert (Hw : ∃ args1, WriteString (ba_array a, n) f (bf_Args call) = Some args1 ∧
        b_buf args1 = b_buf (bf_Args call) +:+ f ∧ b_addr args1 = Some (ba_array a, n)).
      { unfold WriteString. destruct Ha as [-> | ->]; [by eexists|].
        rewrite decide_True by done. by eexists. }
      destruct Hw as (args1 & Hw & Hb & Had).
      set (a1 := a{{ ba_funcCalls := <[n := call{{ bf_Args := args1 }}]> (ba_funcCalls a) }}).
      assert (E1 : ProcessEvent newcap
        (ev_delta "response.function_call_arguments.delta" oi f) a = Some a1).
      { unfold ProcessEvent. cbn [switch existsb re_Type ev_delta]. cbn -[WriteString].
        rewrite (proj2 (String.eqb_neq _ _) Hf), Hi, Hc. cbn -[WriteString]. by rewrite Hw. }
      destruct (IH a1 (call{{ bf_Args := args1 }})) as (args & Hb2 & E).
      { exact Hi. }
      { apply list_lookup_insert_eq. by eapply lookup_lt_Some. }
      { right. exact Had. }
      exists args. split; [rewrite Hb2, string_app_assoc, <- Hb; done|].
      cbn [fmap list_fmap]. rewrite ProcessEvents_cons, E1, E. f_equal. unfold a1.
      destruct a, call. cbn. by rewrite list_insert_insert_eq.
Qed.

(** The fragments of the parts of a message. *)
Lemma parts_events oi parts a :
  ProcessEvents newcap (concat ((λ p, (ev_delta "response.output_text.delta" oi <$> p) ++
      [ev_delta "response.output_text.done" oi ""]) <$> parts)) a
    = Some (a{{ ba_text := ba_text a +:+ join (join <$> parts) }}).
Proof.
  revert a. induction parts as [|p parts IH]; intros a.
  - destruct a. cbn. by rewrite string_app_nil_r.
  - rewrite !fmap_cons. cbn [concat]. rewrite !ProcessEvents_app, text_events.
    cbv iota beta. rewrite ProcessEvents_cons.
    change (ProcessEvent newcap _ ?x) with (Some x). cbn [ProcessEvents]. rewrite IH.
    destruct a. cbn -[join fmap]. change (join (join p :: ?l)) with (join p +:+ join l).
    by rewrite string_app_assoc.
Qed.

(** An item adds its content. *)
Lemma item_gained oi it a :
  call_complete it = true →
  ∃ a', ProcessEvents newcap (item_events oi it) a = Some a' ∧
        gained a a' (item_text it) (item_reasoning it) (item_calls it).
Proof.
  intros Hc. unfold item_events. rewrite ProcessEvents_cons.
  destruct it as [summary encrypted|parts|callID name fragments arguments|id query];
    cbn [item_body item_started item_text item_reasoning item_calls].
  - change (ProcessEvent newcap (ev_item _ _ _) a) with (Some a). cbv iota beta.
    rewrite !ProcessEvents_app, reasoning_events. cbv iota beta. eexists. split; [done|].
    unfold gained. destruct a. cbn -[join]. by rewrite string_app_nil_r, app_nil_r.
  - change (ProcessEvent newcap (ev_item _ _ _) a) with (Some a). cbv iota beta.
    rewrite ProcessEvents_app, parts_events. eexists. split; [done|].
    unfold gained. destruct a. cbn -[join]. by rewrite string_app_nil_r, app_nil_r.
  - cbn [call_complete] in Hc. apply String.eqb_eq in Hc.
    set (call := MkBufferedFuncCall callID name (MkBuilder None "")).
    set (a0 := a{{ ba_outputIndexToFuncIdx :=
                     <[oi := length (ba_funcCalls a)]> (ba_outputIndexToFuncIdx a) }}).
    change (ProcessEvent newcap (ev_item _ _ _) a) with (Some (append_call newcap call a0)).
    cbv iota beta.
    destruct (append_call_calls newcap call a0) as (E1 & E2 & E3 & E4).
    change (ba_funcCalls a0) with (ba_funcCalls a) in E1.
    change (ba_text a0) with (ba_text a) in E2.
    change (ba_reasoning a0) with (ba_reasoning a) in E3.
    set (a1 := append_call newcap call a0) in *. clearbody a1.
    destruct (args_events oi (length (ba_funcCalls a)) fragments a1 call) as (args & Hb & E).
    { rewrite E4. apply lookup_insert_eq. }
    { rewrite E1. by rewrite list_lookup_middle. }
    { by left. }
    rewrite !ProcessEvents_app, E. cbv iota beta. eexists. split; [done|].
    split; [|split].
    + by rewrite string_app_nil_r, <- E2.
    + by rewrite string_app_nil_r, <- E3.
    + change (ba_funcCalls (a1{{ ba_funcCalls := ?x }})) with x.
      rewrite E1, insert_app_r_alt, Nat.sub_diag by done. cbn [list_insert insert].
      rewrite fmap_app. f_equal. unfold buffered_call. cbn. rewrite Hb, <- Hc. done.
  - change (ProcessEvent newcap (ev_item _ _ _) a) with (Some a). cbv iota beta. exists a.
    split; [done|apply gained_refl].
Qed.

Lemma items_gained oi items a :
  forallb call_complete items = true →
  ∃ a', ProcessEvents newcap (items_events oi items) a = Some a' ∧
        gained a a' (join (item_text <$> items)) (join (item_reasoning <$> items))
          (concat (item_calls <$> items)).
Proof.
  revert oi a. induction items as [|it items IH]; intros oi a Hok.
  - exists a. split; [done|apply gained_refl].
  - cbn [forallb] in Hok. apply andb_true_iff in Hok as [Hi Hok].
    destruct (item_gained oi it a Hi) as (a1 & E1 & G1).
    destruct (IH (oi + 1) a1 Hok) as (a2 & E2 & G2).
    exists a2. cbn [items_events]. rewrite ProcessEvents_app, E1. cbv iota beta.
    split; [done|]. exact (gained_trans _ _ _ _ _ _ _ _ _ G1 G2).
Qed.
End Rebuild.

(** The accumulator on the stream of a response; the terminal event adds nothing. *)
Lemma upstream_gained newcap resp items :
  forallb call_complete items = true →
  ∃ a, ProcessEvents newcap (upstream_body resp items) NewBufferedResponseAccumulator = Some a ∧
       ba_text a = join (item_text <$> items) ∧ ba_reasoning a = join (item_reasoning <$> items) ∧
       buffered_call <$> ba_funcCalls a = concat (item_calls <$> items).
Proof.
  intros Hok.
  destruct (items_gained newcap 0 items NewBufferedResponseAccumulator Hok) as (a & E & H).
  exists a. split; [|exact H]. unfold upstream_body. by rewrite ProcessEvents_cons.
Qed.

Lemma terminal_silent newcap e a :
  is_terminal e = true → ProcessEvent newcap e a = Some a.
Proof.
  unfold is_terminal. cbn [existsb]. rewrite orb_false_r, !orb_true_iff, !String.eqb_eq.
  unfold ProcessEvent. by intros [-> | [-> | [-> | ->]]].
Qed.

(** What the rebuilt output is converted to. *)
Lemma collect_built a :
  foldl collectItem (Collected "" "" []) (BuildOutput a) =
    Collected (ba_text a) (ba_reasoning a) (buffered_call <$> ba_funcCalls a).
Proof.
  unfold BuildOutput. rewrite !foldl_app.
  assert (Hcalls : ∀ l c, foldl collectItem c ((λ call, ResponsesOutput0{{ ro_Type := "function_call";
      ro_CallID := bf_CallID call; ro_Name := bf_Name call;
      ro_Arguments := b_buf (bf_Args call) }}) <$> l)
    = c{{ col_calls := col_calls c ++ (buffered_call <$> l) }}).
  { clear. intros l. induction l as [|x l IH]; intros c; [destruct c; cbn; by rewrite app_nil_r|].
    cbn [fmap list_fmap foldl]. rewrite IH. destruct c. cbn. by rewrite <- app_assoc. }
  rewrite Hcalls. destruct (String.eqb_spec (ba_reasoning a) "") as [->|Hr],
    (String.eqb_spec (ba_text a) "") as [->|Ht]; cbn;
    rewrite ?(proj2 (String.eqb_neq _ _) Hr), ?(proj2 (String.eqb_neq _ _) Ht); done.
Qed.

(** ** The end of a stream *)

(** Only a terminal event finishes the stream. *)
Definition unfinished (s : ResponsesEventToChatState)
    (r : list ChatCompletionsChunk * ResponsesEventToChatState) : Prop :=
  rc_Finalized r.2 = rc_Finalized s ∧ rc_IncludeUsage r.2 = rc_IncludeUsage s ∧
  rc_Usage r.2 = rc_Usage s ∧
  ∀ c, ca_finish (merge_chunks c r.1) = ca_finish c ∧ ca_usage (merge_chunks c r.1) = ca_usage c.

Lemma unfinished_delta s s' d :
  rc_Finalized s' = rc_Finalized s → rc_IncludeUsage s' = rc_IncludeUsage s →
  rc_Usage s' = rc_Usage s → unfinished s ([makeChatDeltaChunk s' d], s').
Proof.
  intros H1 H2 H3. split_and!; try done. intros c. cbn. by rewrite app_nil_r.
Qed.

Lemma unfinished_nothing s s' :
  rc_Finalized s' = rc_Finalized s → rc_IncludeUsage s' = rc_IncludeUsage s →
  rc_Usage s' = rc_Usage s → unfinished s ([], s').
Proof. intros H1 H2 H3. split_and!; try done. Qed.

Lemma event_unfinished e s :
  is_terminal e = false → unfinished s (ResponsesEventToChatChunks e s).
Proof.
  intros Ht. unfold ResponsesEventToChatChunks.
  apply (switch_cases (λ h : ChatConv, unfinished s (h s))); [|by apply unfinished_nothing].
  repeat apply List.Forall_cons; try apply List.Forall_nil; cbn [snd fst]; intros Hl;
    try (unfold is_terminal in Ht; congruence); clear Ht Hl.
  - unfold resToChatHandleCreated.
    set (s1 := match re_Response e with Some _ => _ | None => s end).
    assert (H1 : rc_Finalized s1 = rc_Finalized s ∧ rc_IncludeUsage s1 = rc_IncludeUsage s ∧
                 rc_Usage s1 = rc_Usage s).
    { subst s1. destruct (re_Response e); [|done]. repeat case_if; done. }
    clearbody s1. destruct H1 as (H1 & H2 & H3).
    case_if; [by apply unfinished_nothing|by apply unfinished_delta].
  - unfold resToChatHandleTextDelta.
    case_if; [by apply unfinished_nothing|by apply unfinished_delta].
  - unfold resToChatHandleOutputItemAdded. destruct (re_Item e); [|by apply unfinished_nothing].
    case_if; [by apply unfinished_nothing|by apply unfinished_delta].
  - unfold resToChatHandleFuncArgsDelta. case_if; [by apply unfinished_nothing|].
    destruct (_ !! _); [by apply unfinished_delta|by apply unfinished_nothing].
  - unfold resToChatHandleReasoningDelta.
    case_if; [by apply unfinished_nothing|by apply unfinished_delta].
  - by apply unfinished_nothing.
Qed.

Lemma run_unfinished evts s :
  Forall (λ e, is_terminal e = false) evts →
  unfinished s (run_machine ResponsesEventToChatChunks evts s).
Proof.
  revert s. induction evts as [|e evts IH]; intros s Hf; [by apply unfinished_nothing|].
  apply Forall_cons in Hf as [He Hf]. rewrite run_machine_cons.
  pose proof (event_unfinished e s He) as (H1 & H2 & H3 & H4).
  destruct (ResponsesEventToChatChunks e s) as [o s1]. cbn [fst snd] in *.
  destruct (IH s1 Hf) as (H5 & H6 & H7 & H8).
  destruct (run_machine _ evts s1) as [os s2]. cbn [fst snd] in *.
  split; cbn [snd]; [congruence|]. split; cbn [snd]; [congruence|].
  split; cbn [snd]; [congruence|]. intros c. cbn [fst]. unfold merge_chunks in *.
  rewrite foldl_app. destruct (H8 (foldl merge_chunk c o)) as [-> ->]. apply H4.
Qed.

Lemma terminal_chunks e s :
  is_terminal e = true → ResponsesEventToChatChunks e s = resToChatHandleCompleted e s.
Proof.
  unfold is_terminal. cbn [existsb]. rewrite orb_false_r, !orb_true_iff, !String.eqb_eq.
  unfold ResponsesEventToChatChunks. by intros [-> | [-> | [-> | ->]]].
Qed.

(** The terminal event of a response: one finish chunk, and the usage when asked for. *)
Lemma completed_finish e s resp calls :
  is_terminal e = true → re_Response e = Some resp → re_Usage e = None →
  rc_Usage s = None → rc_SawToolCall s = (0 <? length calls)%nat →
  let r := ResponsesEventToChatChunks e s in
  rc_Finalized r.2 = true ∧
  ∀ c, ca_finish (merge_chunks c r.1) = ca_finish c ++
         [responsesStatusToChatFinishReason (rr_Status resp) (rr_IncompleteDetails resp)
            (calls : list ChatToolCall)] ∧
       (ca_usage c = None → ca_usage (merge_chunks c r.1) =
          if rc_IncludeUsage s then chatUsageFromResponsesUsage (rr_Usage resp) else None).
Proof.
  intros Ht Hr Hu Hnone Hsaw.
  rewrite terminal_chunks by done. unfold resToChatHandleCompleted. rewrite Hr, Hu. cbv zeta.
  set (s1 := match rr_Usage resp with Some _ => _ | None => _ end).
  set (s2 := if rr_ServiceTier resp ≟ "" then s1 else _).
  assert (H2 : rc_Finalized s2 = true ∧ rc_IncludeUsage s2 = rc_IncludeUsage s ∧
    rc_Usage s2 = chatUsageFromResponsesUsage (rr_Usage resp) ∧
    rc_SawToolCall s2 = rc_SawToolCall s).
  { subst s2 s1. destruct (rr_Usage resp); case_if; split_and!; done || exact Hnone. }
  clearbody s2. destruct H2 as (Hfin & Hinc & Huse & Hsaw2).
  rewrite Hsaw2, Hsaw. split; [done|]. intros c. cbn [fst]. unfold finish_chunks.
  rewrite Huse, Hinc. unfold responsesStatusToChatFinishReason.
  destruct (chatUsageFromResponsesUsage (rr_Usage resp)); [destruct (rc_IncludeUsage s)|];
    cbn -[switch]; split; try done; intros ->; by destruct (rc_IncludeUsage s).
Qed.

Lemma contentless_terminal e s :
  is_terminal e = true → contentless s (ResponsesEventToChatChunks e s).
Proof.
  intros Ht. rewrite terminal_chunks by done. apply contentless_completed.
Qed.

(** The parts of a converted response. *)
Lemma whole_response now resp model r :
  let whole := (ResponsesToChatCompletions now resp model r).1 in
  let c := foldl collectItem (Collected "" "" []) (rr_Output resp) in
  cr_Choices whole =
    [MkChatChoice 0
       (ChatMessage0{{ cm_Role := "assistant";
                       cm_ToolCalls := col_calls c;
                       cm_Content := if col_text c ≟ "" then "" else MarshalString (col_text c);
                       cm_ReasoningContent := col_reasoning c }})
       (responsesStatusToChatFinishReason (rr_Status resp) (rr_IncompleteDetails resp)
          (col_calls c))] ∧
  cr_Usage whole = chatUsageFromResponsesUsage (rr_Usage resp).
Proof. unfold ResponsesToChatCompletions. by destruct (rr_ID resp ≟ ""). Qed.

(** ** Properties *)

(** C22: On every stream the accumulator processes without panicking (it panics when it writes
    to a [strings.Builder] that a growing slice has moved), what a client puts together from the
    chunks is what the accumulator buffers from the same events: the text, the reasoning, and
    under each index the same call with the same name and arguments. *)
Theorem streamed_equals_buffered newcap now r evts a :
  ProcessEvents newcap evts NewBufferedResponseAccumulator = Some a →
  Z.of_nat (length evts) < 2 ^ 63 →
  let c := merge_chunks new_assembly
             (convertChatStream evts (NewResponsesEventToChatState now r).1).1 in
  ca_text c = ba_text a ∧ ca_reasoning c = ba_reasoning a ∧
  ∀ i, ca_calls c !! i = if 0 <=? i then buffered_call <$> ba_funcCalls a !! Z.to_nat i else None.
Proof.
  intros H Hlen. set (s := (NewResponsesEventToChatState now r).1).
  assert (H0 : together s new_assembly NewBufferedResponseAccumulator).
  { split_and!; try done. intros i. by case_match. }
  pose proof (together_run newcap evts s _ _ a H0 ltac:(cbn; lia) H) as H1.
  unfold convertChatStream, mbind, St_bind, mret, St_ret. cbv zeta in *.
  destruct (run_machine _ evts s) as [o s1]. cbn [fst snd] in H1.
  pose proof (contentless_together _ _ _ _ (contentless_finalize s1) H1) as H2.
  destruct (FinalizeResponsesChatStream s1) as [o2 s2]. cbn [fst snd] in *.
  unfold merge_chunks in *. rewrite foldl_app. destruct H2 as (?&?&?&_). done.
Qed.

(** C23: When the terminal event of a stream carries no output, the response rebuilt from the
    fragments is converted to the same Chat Completion as the response with its output: text,
    reasoning, tool calls, finish reason and usage; and the accumulator does not panic on items
    that come one after the other. *)
Theorem rebuilt_output_equals_response newcap terminal resp items :
  rr_Output resp = item_output <$> items →
  existsb (String.eqb terminal)
    ["response.completed"; "response.done"; "response.incomplete"; "response.failed"] = true →
  forallb call_complete items = true →
  ∃ a resp',
    ProcessEvents newcap (upstream terminal resp items) NewBufferedResponseAccumulator = Some a ∧
    SupplementResponseOutput a (Some (resp{{ rr_Output := [] }})) = Some resp' ∧
    ∀ now model r, ResponsesToChatCompletions now resp' model r =
                   ResponsesToChatCompletions now resp model r.
Proof.
  intros Hout Hterm Hok.
  destruct (upstream_gained newcap resp items Hok) as (a & E & Ht & Hr & Hc).
  exists a. eexists. split; [|split; [reflexivity|]].
  { unfold upstream. rewrite ProcessEvents_app, E. cbv iota beta.
    by rewrite ProcessEvents_cons, terminal_silent. }
  intros now model r. unfold ResponsesToChatCompletions.
    assert (Hcol : foldl collectItem (Collected "" "" [])
        (rr_Output (if HasContent a then resp{{ rr_Output := BuildOutput a }}
                    else resp{{ rr_Output := [] }}))
      = foldl collectItem (Collected "" "" []) (rr_Output resp)).
    { rewrite Hout, collect_items. cbn [col_text col_reasoning col_calls].
      destruct (HasContent a) eqn:Hhas.
      - change (rr_Output (resp{{ rr_Output := ?x }})) with x.
        by rewrite collect_built, Ht, Hr, Hc.
      - unfold HasContent in Hhas. apply orb_false_iff in Hhas as [Hhas H3].
        apply orb_false_iff in Hhas as [H1 H2]. bool_props. cbn -[join].
        rewrite <- Ht, <- Hr, <- Hc, H1, H3. apply Nat.ltb_ge in H2.
        destruct (ba_funcCalls a); [done|cbn in H2; lia]. }
    cbn [rr_Output] in *. change (rr_Output (resp{{ rr_Output := [] }})) with (@nil ResponsesOutput).
    cbv iota. rewrite <- Hcol. by destruct (HasContent a).
Qed.


(** ** Witnesses *)

(** How the runtime grows a small slice. *)
Definition doubling (n : nat) : nat := if (n =? 0)%nat then 1 else (2 * n)%nat.

Definition demo_call_added (oi : Z) (id name : string) : ResponsesStreamEvent :=
  ev_item "response.output_item.added" oi
    (ResponsesOutput0{{ ro_Type := "function_call"; ro_CallID := id; ro_Name := name }}).

Definition demo_args (oi : Z) (t : string) : ResponsesStreamEvent :=
  ev_delta "response.function_call_arguments.delta" oi t.

(** Two calls, one after the other. *)
Definition demo_two_calls : list ResponsesStreamEvent :=
  [demo_call_added 0 "c1" "f"; demo_args 0 "{"; demo_args 0 "}";
   demo_call_added 1 "c2" "g"; demo_args 1 "[]"].

Lemma streamed_equals_buffered_witness :
  ca_calls (merge_chunks new_assembly (convertChatStream demo_two_calls
    (NewResponsesEventToChatState 0 (Rng (λ _, []) 0)).1).1) !! 0
  = Some (MkChatToolCall None "c1" "function" (MkChatFunctionCall "f" "{}")).
Proof.
  destruct (ProcessEvents doubling demo_two_calls NewBufferedResponseAccumulator) as [a|] eqn:E;
    [|vm_compute in E; discriminate].
  destruct (streamed_equals_buffered doubling 0 (Rng (λ _, []) 0) demo_two_calls a E)
    as (_ & _ & H); [vm_compute; reflexivity|].
  rewrite (H 0). vm_compute in E. injection E as <-. reflexivity.
Defined.

Definition demo_output : list upstream_item :=
  [UMessage [["he"; "llo"]]; UFunctionCall "c1" "f" ["{"; "}"] "{}"].

Lemma rebuilt_output_equals_response_witness :
  ∃ a resp',
    ProcessEvents doubling (upstream "response.completed"
        (response_of "resp_1" "m" "completed" None None demo_output) demo_output)
      NewBufferedResponseAccumulator = Some a ∧
    SupplementResponseOutput a
      (Some ((response_of "resp_1" "m" "completed" None None demo_output){{ rr_Output := [] }}))
      = Some resp' ∧
    ∀ now model r, ResponsesToChatCompletions now resp' model r =
      ResponsesToChatCompletions now (response_of "resp_1" "m" "completed" None None demo_output)
        model r.
Proof.
  apply (rebuilt_output_equals_response doubling "response.completed"
    (response_of "resp_1" "m" "completed" None None demo_output) demo_output); reflexivity.
Defined.


(** Calls whose fragments interleave: when the second call makes the slice grow, the builder of
    the first has moved, and its next write panics. *)
Definition demo_interleaved : list ResponsesStreamEvent :=
  [demo_call_added 0 "c1" "f"; demo_args 0 "{"; demo_call_added 1 "c2" "g"; demo_args 0 "}"].

Example interleaved_arguments_panic :
  ProcessEvents doubling demo_interleaved NewBufferedResponseAccumulator = None.
Proof. reflexivity. Qed.
