(* ===== verification/AnthropicToResponses.v ===== *)
(** * AnthropicToResponses: Anthropic answers and streams as Responses

    Models [backend/internal/pkg/apicompat/anthropic_to_responses_response.go].  [now] is
    [time.Now().Unix()]; identifiers come from the random oracle. *)

From stdpp Require Import base tactics numbers list strings gmap.
From Stdlib Require Import ZArith Lia.
From S2P Require Import Prelude GoLib GoJson ApiTypes.

Local Open Scope go_scope.
Local Open Scope Z_scope.

Definition generateResponsesID : St rng string := h ← rand_hex; mret ("resp_" +:+ h).
Definition generateItemID : St rng string := h ← rand_hex; mret ("item_" +:+ h).

(** [toResponsesCallID] (anthropic_to_responses.go) *)
Definition toResponsesCallID (id : string) : string := id.

(** ** Whole responses *)

Definition anthropicStopReasonToResponsesStatus (stopReason : string)
    (blocks : list AnthropicContentBlock) : string :=
  switch stopReason
    [ (["max_tokens"], "incomplete");
      (["end_turn"; "tool_use"; "stop_sequence"], "completed") ]
    "completed".

(** The loop of [AnthropicToResponsesResponse] over the blocks: output items and text parts. *)
Fixpoint convertBlocks (blocks : list AnthropicContentBlock) (outputs : list ResponsesOutput)
    (msgParts : list ResponsesContentPart)
    : St rng (list ResponsesOutput * list ResponsesContentPart) :=
  match blocks with
  | [] => mret (outputs, msgParts)
  | block :: blocks' =>
      switch (cb_Type block)
        [ (["thinking"],
           if cb_Thinking block ≟ "" then convertBlocks blocks' outputs msgParts else
           id ← generateItemID;
           convertBlocks blocks'
             (outputs ++ [ResponsesOutput0{{ ro_Type := "reasoning";
                                             ro_ID := id;
                                             ro_Summary := [MkResponsesSummary "summary_text"
                                                              (cb_Thinking block)] }}]) msgParts);
          (["text"],
           if cb_Text block ≟ "" then convertBlocks blocks' outputs msgParts else
           convertBlocks blocks' outputs
             (msgParts ++ [ResponsesContentPart0{{ rp_Type := "output_text";
                                                   rp_Text := cb_Text block }}]));
          (["tool_use"],
           let args := if cb_Input block ≟ "" then "{}" else cb_Input block in
           id ← generateItemID;
           convertBlocks blocks'
             (outputs ++ [ResponsesOutput0{{ ro_Type := "function_call";
                                             ro_ID := id;
                                             ro_CallID := toResponsesCallID (cb_ID block);
                                             ro_Name := cb_Name block;
                                             ro_Arguments := args;
                                             ro_Status := "completed" }}]) msgParts) ]
        (convertBlocks blocks' outputs msgParts)
  end.

Definition message_item (id : string) (parts : list ResponsesContentPart) : ResponsesOutput :=
  ResponsesOutput0{{ ro_Type := "message";
                     ro_ID := id;
                     ro_Role := "assistant";
                     ro_Content := parts;
                     ro_Status := "completed" }}.

(** Anthropic counts cached tokens apart, OpenAI within the input tokens. *)
Definition responses_usage (input output cacheRead cacheCreation : Z) : ResponsesUsage :=
  let totalInputTokens := input +! cacheRead +! cacheCreation in
  ResponsesUsage0{{ ru_InputTokens := totalInputTokens;
                    ru_OutputTokens := output;
                    ru_TotalTokens := totalInputTokens +! output;
                    ru_CacheCreationInputTokens := cacheCreation;
                    ru_InputTokensDetails :=
                      if 0 <? cacheRead
                      then Some (ResponsesInputTokensDetails0{{ rid_CachedTokens := cacheRead }})
                      else None }}.

Definition AnthropicToResponsesResponse (now : Z) (resp : AnthropicResponse)
    : St rng ResponsesResponse :=
  id ← (if am_ID resp ≟ "" then generateResponsesID else mret (am_ID resp));
  '(outputs, msgParts) ← convertBlocks (am_Content resp) [] [];
  outputs ← (match msgParts with
             | [] => mret outputs
             | _ => i ← generateItemID; mret (outputs ++ [message_item i msgParts])
             end);
  outputs ← (match outputs with
             | [] => i ← generateItemID;
                     mret [message_item i [ResponsesContentPart0{{ rp_Type := "output_text";
                                                                   rp_Text := "" }}]]
             | _ => mret outputs
             end);
  let status :=
    anthropicStopReasonToResponsesStatus (AnthropicStopReasonString (am_StopReason resp))
      (am_Content resp) in
  let u := am_Usage resp in
  mret (ResponsesResponse0{{ rr_ID := id;
                             rr_Object := "response";
                             rr_CreatedAt := now;
                             rr_Model := am_Model resp;
                             rr_Output := outputs;
                             rr_Status := status;
                             rr_IncompleteDetails :=
                               if status ≟ "incomplete"
                               then Some (MkResponsesIncompleteDetails "max_output_tokens")
                               else None;
                             rr_Usage :=
                               Some (responses_usage (au_InputTokens u) (au_OutputTokens u)
                                       (au_CacheReadInputTokens u)
                                       (au_CacheCreationInputTokens u)) }}).

(** ** Streams *)

Record AnthropicEventToResponsesState : Type := MkAnthropicEventToResponsesState {
  ar_ResponseID : string;
  ar_Model : string;
  ar_Created : Z;
  ar_SequenceNumber : Z;
  ar_CreatedSent : bool;
  ar_CompletedSent : bool;
  ar_OutputIndex : Z;
  ar_CurrentItemID : string;
  ar_CurrentItemType : string;
  ar_ContentIndex : Z;
  ar_TextAccum : string;
  ar_CurrentCallID : string;
  ar_CurrentName : string;
  ar_CurrentContent : list ResponsesContentPart;
  ar_CurrentArgs : string;
  ar_CurrentSummary : string;
  ar_Outputs : list ResponsesOutput;
  ar_InputTokens : Z;
  ar_OutputTokens : Z;
  ar_CacheReadInputTokens : Z;
  ar_CacheCreationInputTokens : Z;
  ar_StopReason : string
}.

Definition NewAnthropicEventToResponsesState (now : Z) : AnthropicEventToResponsesState :=
  MkAnthropicEventToResponsesState "" "" now 0 false false 0 "" "" 0 "" "" "" [] "" "" [] 0 0 0 0 "".

(** Handlers thread the converter's state and the random source. *)
Definition ARst : Type := AnthropicEventToResponsesState * rng.
Definition AR (A : Type) : Type := St ARst A.

Definition the_state : AR AnthropicEventToResponsesState := λ w, (w.1, w).
Definition update (f : AnthropicEventToResponsesState → AnthropicEventToResponsesState) : AR unit :=
  λ '(s, r), (tt, (f s, r)).
Definition fresh_item_id : AR string := λ '(s, r), let '(id, r) := generateItemID r in (id, (s, r)).

Definition makeResponsesEvent (eventType : string) (template : ResponsesStreamEvent)
    : AR ResponsesStreamEvent :=
  state ← the_state;
  let seq := ar_SequenceNumber state in
  _ ← update (λ s, s{{ ar_SequenceNumber := seq +! 1 }});
  mret (template{{ re_Type := eventType; re_SequenceNumber := seq }}).

Definition makeResponsesCreatedEvent : AR ResponsesStreamEvent :=
  state ← the_state;
  let seq := ar_SequenceNumber state in
  _ ← update (λ s, s{{ ar_SequenceNumber := seq +! 1 }});
  mret (ResponsesStreamEvent0{{ re_Type := "response.created";
      re_SequenceNumber := seq;
      re_Response := Some (ResponsesResponse0{{ rr_ID := ar_ResponseID state;
                                                rr_Object := "response";
                                                rr_CreatedAt := ar_Created state;
                                                rr_Model := ar_Model state;
                                                rr_Status := "in_progress";
                                                rr_Output := [] }}) }}).

Definition makeResponsesCompletedEvent (status : string)
    (incompleteDetails : option ResponsesIncompleteDetails) : AR ResponsesStreamEvent :=
  state ← the_state;
  let seq := ar_SequenceNumber state in
  _ ← update (λ s, s{{ ar_SequenceNumber := seq +! 1 }});
  let usage := responses_usage (ar_InputTokens state) (ar_OutputTokens state)
                 (ar_CacheReadInputTokens state) (ar_CacheCreationInputTokens state) in
  let eventType := if status ≟ "incomplete" then "response.incomplete" else "response.completed" in
  mret (ResponsesStreamEvent0{{ re_Type := eventType;
      re_SequenceNumber := seq;
      re_Response := Some (ResponsesResponse0{{ rr_ID := ar_ResponseID state;
                                                rr_Object := "response";
                                                rr_CreatedAt := ar_Created state;
                                                rr_Model := ar_Model state;
                                                rr_Status := status;
                                                rr_Output := ar_Outputs state;
                                                rr_Usage := Some usage;
                                                rr_IncompleteDetails := incompleteDetails }}) }}).

Definition anthropicResponsesStreamTerminalState (stopReason : string)
    : string * option ResponsesIncompleteDetails :=
  if stopReason ≟ "max_tokens"
  then ("incomplete", Some (MkResponsesIncompleteDetails "max_output_tokens"))
  else ("completed", None).

(** The open item, with everything it has gathered. *)
Definition current_item (state : AnthropicEventToResponsesState) : ResponsesOutput :=
  let item := ResponsesOutput0{{ ro_Type := ar_CurrentItemType state;
                                 ro_ID := ar_CurrentItemID state;
                                 ro_Status := "completed" }} in
  switch (ar_CurrentItemType state)
    [ (["message"], item{{ ro_Role := "assistant"; ro_Content := ar_CurrentContent state }});
      (["function_call"],
       item{{ ro_CallID := ar_CurrentCallID state;
              ro_Name := ar_CurrentName state;
              ro_Arguments :=
                if ar_CurrentArgs state ≟ "" then "{}" else ar_CurrentArgs state }});
      (["reasoning"],
       if ar_CurrentSummary state ≟ "" then item
       else item{{ ro_Summary := [MkResponsesSummary "summary_text" (ar_CurrentSummary state)] }}) ]
    item.

Definition closeCurrentResponsesItem : AR (list ResponsesStreamEvent) :=
  state ← the_state;
  if ar_CurrentItemType state ≟ "" then mret [] else
  let item := current_item state in
  _ ← update (λ s, s{{ ar_Outputs := ar_Outputs state ++ [item];
                       ar_CurrentItemType := "";
                       ar_CurrentItemID := "";
                       ar_CurrentCallID := "";
                       ar_CurrentName := "";
                       ar_CurrentContent := [];
                       ar_CurrentArgs := "";
                       ar_CurrentSummary := "";
                       ar_TextAccum := "";
                       ar_OutputIndex := ar_OutputIndex state +! 1;
                       ar_ContentIndex := 0 }});
  state ← the_state;
  e ← makeResponsesEvent "response.output_item.done"
        (ResponsesStreamEvent0{{ re_OutputIndex := ar_OutputIndex state -! 1;
                                 re_Item := Some item }});
  mret [e].

(** The last event of a response. *)
Definition complete : AR (list ResponsesStreamEvent) :=
  events ← closeCurrentResponsesItem;
  state ← the_state;
  let '(status, incompleteDetails) := anthropicResponsesStreamTerminalState (ar_StopReason state) in
  e ← makeResponsesCompletedEvent status incompleteDetails;
  _ ← update (λ s, s{{ ar_CompletedSent := true }});
  mret (events ++ [e]).

Definition FinalizeAnthropicResponsesStream : AR (list ResponsesStreamEvent) :=
  state ← the_state;
  if negb (ar_CreatedSent state) || ar_CompletedSent state then mret [] else complete.

(** ** Handlers *)

Definition anthToResHandleMessageStart (evt : AnthropicStreamEvent)
    : AR (list ResponsesStreamEvent) :=
  _ ← update (λ s,
    match ae_Message evt with
    | None => s
    | Some m =>
        let u := am_Usage m in
        let s := s{{ ar_ResponseID := am_ID m }} in
        let s := if ar_Model s ≟ "" then s{{ ar_Model := am_Model m }} else s in
        let s := if 0 <? au_InputTokens u then s{{ ar_InputTokens := au_InputTokens u }} else s in
        let s := if 0 <? au_CacheReadInputTokens u
                 then s{{ ar_CacheReadInputTokens := au_CacheReadInputTokens u }} else s in
        if 0 <? au_CacheCreationInputTokens u
        then s{{ ar_CacheCreationInputTokens := au_CacheCreationInputTokens u }} else s
    end);
  state ← the_state;
  if ar_CreatedSent state then mret [] else
  _ ← update (λ s, s{{ ar_CreatedSent := true }});
  e ← makeResponsesCreatedEvent;
  mret [e].

Definition anthToResHandleContentBlockStart (evt : AnthropicStreamEvent)
    : AR (list ResponsesStreamEvent) :=
  match ae_ContentBlock evt with
  | None => mret []
  | Some block =>
      switch (cb_Type block)
        [ (["thinking"],
           events ← closeCurrentResponsesItem;
           id ← fresh_item_id;
           _ ← update (λ s, s{{ ar_CurrentItemID := id;
                                ar_CurrentItemType := "reasoning";
                                ar_ContentIndex := 0 }});
           state ← the_state;
           e ← makeResponsesEvent "response.output_item.added"
                 (ResponsesStreamEvent0{{ re_OutputIndex := ar_OutputIndex state;
                    re_Item := Some (ResponsesOutput0{{ ro_Type := "reasoning";
                                                        ro_ID := ar_CurrentItemID state }}) }});
           mret (events ++ [e]));
          (["text"],
           state ← the_state;
           events ← (if ar_CurrentItemType state ≟ "message" then mret [] else
             events ← closeCurrentResponsesItem;
             id ← fresh_item_id;
             _ ← update (λ s, s{{ ar_CurrentItemID := id;
                                  ar_CurrentItemType := "message";
                                  ar_ContentIndex := 0 }});
             state ← the_state;
             e ← makeResponsesEvent "response.output_item.added"
                   (ResponsesStreamEvent0{{ re_OutputIndex := ar_OutputIndex state;
                      re_Item := Some (ResponsesOutput0{{ ro_Type := "message";
                                                          ro_ID := ar_CurrentItemID state;
                                                          ro_Role := "assistant";
                                                          ro_Status := "in_progress" }}) }});
             mret (events ++ [e]));
           state ← the_state;
           e ← makeResponsesEvent "response.content_part.added"
                 (ResponsesStreamEvent0{{ re_OutputIndex := ar_OutputIndex state;
                                          re_ContentIndex := ar_ContentIndex state;
                                          re_ItemID := ar_CurrentItemID state;
                                          re_Part := Some (ResponsesContentPart0{{
                                            rp_Type := "output_text"; rp_Text := "" }}) }});
           _ ← update (λ s, s{{ ar_TextAccum := "" }});
           mret (events ++ [e]));
          (["tool_use"],
           events ← closeCurrentResponsesItem;
           id ← fresh_item_id;
           _ ← update (λ s, s{{ ar_CurrentItemID := id;
                                ar_CurrentItemType := "function_call";
                                ar_CurrentCallID := toResponsesCallID (cb_ID block);
                                ar_CurrentName := cb_Name block }});
           state ← the_state;
           e ← makeResponsesEvent "response.output_item.added"
                 (ResponsesStreamEvent0{{ re_OutputIndex := ar_OutputIndex state;
                    re_Item := Some (ResponsesOutput0{{ ro_Type := "function_call";
                                                        ro_ID := ar_CurrentItemID state;
                                                        ro_CallID := ar_CurrentCallID state;
                                                        ro_Name := ar_CurrentName state;
                                                        ro_Status := "in_progress" }}) }});
           mret (events ++ [e])) ]
        (mret [])
  end.

Definition anthToResHandleContentBlockDelta (evt : AnthropicStreamEvent)
    : AR (list ResponsesStreamEvent) :=
  match ae_Delta evt with
  | None => mret []
  | Some delta =>
      switch (ad_Type delta)
        [ (["text_delta"],
           if ad_Text delta ≟ "" then mret [] else
           _ ← update (λ s, s{{ ar_TextAccum := ar_TextAccum s +:+ ad_Text delta }});
           state ← the_state;
           e ← makeResponsesEvent "response.output_text.delta"
                 (ResponsesStreamEvent0{{ re_OutputIndex := ar_OutputIndex state;
                                          re_ContentIndex := ar_ContentIndex state;
                                          re_Delta := ad_Text delta;
                                          re_ItemID := ar_CurrentItemID state }});
           mret [e]);
          (["thinking_delta"],
           if ad_Thinking delta ≟ "" then mret [] else
           _ ← update (λ s, s{{ ar_CurrentSummary := ar_CurrentSummary s +:+ ad_Thinking delta }});
           state ← the_state;
           e ← makeResponsesEvent "response.reasoning_summary_text.delta"
                 (ResponsesStreamEvent0{{ re_OutputIndex := ar_OutputIndex state;
                                          re_SummaryIndex := 0;
                                          re_Delta := ad_Thinking delta;
                                          re_ItemID := ar_CurrentItemID state }});
           mret [e]);
          (["input_json_delta"],
           if ad_PartialJSON delta ≟ "" then mret [] else
           _ ← update (λ s, s{{ ar_CurrentArgs := ar_CurrentArgs s +:+ ad_PartialJSON delta }});
           state ← the_state;
           e ← makeResponsesEvent "response.function_call_arguments.delta"
                 (ResponsesStreamEvent0{{ re_OutputIndex := ar_OutputIndex state;
                                          re_Delta := ad_PartialJSON delta;
                                          re_ItemID := ar_CurrentItemID state;
                                          re_CallID := ar_CurrentCallID state;
                                          re_Name := ar_CurrentName state }});
           mret [e]);
          (["signature_delta"], mret []) ]
        (mret [])
  end.

Definition anthToResHandleContentBlockStop (evt : AnthropicStreamEvent)
    : AR (list ResponsesStreamEvent) :=
  state ← the_state;
  switch (ar_CurrentItemType state)
    [ (["reasoning"],
       e ← makeResponsesEvent "response.reasoning_summary_text.done"
             (ResponsesStreamEvent0{{ re_OutputIndex := ar_OutputIndex state;
                                      re_SummaryIndex := 0;
                                      re_ItemID := ar_CurrentItemID state }});
       events ← closeCurrentResponsesItem;
       mret ([e] ++ events));
      (["function_call"],
       e ← makeResponsesEvent "response.function_call_arguments.done"
             (ResponsesStreamEvent0{{ re_OutputIndex := ar_OutputIndex state;
                                      re_ItemID := ar_CurrentItemID state;
                                      re_CallID := ar_CurrentCallID state;
                                      re_Name := ar_CurrentName state }});
       events ← closeCurrentResponsesItem;
       mret ([e] ++ events));
      (["message"],
       let text := ar_TextAccum state in
       let contentIndex := ar_ContentIndex state in
       let part := ResponsesContentPart0{{ rp_Type := "output_text"; rp_Text := text }} in
       _ ← update (λ s, s{{ ar_TextAccum := "";
                            ar_CurrentContent := ar_CurrentContent s ++ [part];
                            ar_ContentIndex := contentIndex +! 1 }});
       state ← the_state;
       e1 ← makeResponsesEvent "response.output_text.done"
              (ResponsesStreamEvent0{{ re_OutputIndex := ar_OutputIndex state;
                                       re_ContentIndex := contentIndex;
                                       re_ItemID := ar_CurrentItemID state;
                                       re_Text := text }});
       e2 ← makeResponsesEvent "response.content_part.done"
              (ResponsesStreamEvent0{{ re_OutputIndex := ar_OutputIndex state;
                                       re_ContentIndex := contentIndex;
                                       re_ItemID := ar_CurrentItemID state;
                                       re_Part := Some part }});
       mret [e1; e2]) ]
    (mret []).

Definition anthToResHandleMessageDelta (evt : AnthropicStreamEvent)
    : AR (list ResponsesStreamEvent) :=
  _ ← update (λ s,
    match ae_Usage evt with
    | None => s
    | Some u =>
        let s := s{{ ar_OutputTokens := au_OutputTokens u }} in
        let s := if 0 <? au_InputTokens u then s{{ ar_InputTokens := au_InputTokens u }} else s in
        let s := if 0 <? au_CacheReadInputTokens u
                 then s{{ ar_CacheReadInputTokens := au_CacheReadInputTokens u }} else s in
        if 0 <? au_CacheCreationInputTokens u
        then s{{ ar_CacheCreationInputTokens := au_CacheCreationInputTokens u }} else s
    end);
  _ ← update (λ s,
    match ae_Delta evt with
    | Some d => if ad_StopReason d ≟ "" then s else s{{ ar_StopReason := ad_StopReason d }}
    | None => s
    end);
  mret [].

Definition anthToResHandleMessageStop : AR (list ResponsesStreamEvent) :=
  state ← the_state;
  if ar_CompletedSent state then mret [] else complete.

Definition AnthropicEventToResponsesEvents (evt : AnthropicStreamEvent)
    : AR (list ResponsesStreamEvent) :=
  switch (ae_Type evt)
    [ (["message_start"], anthToResHandleMessageStart evt);
      (["content_block_start"], anthToResHandleContentBlockStart evt);
      (["content_block_delta"], anthToResHandleContentBlockDelta evt);
      (["content_block_stop"], anthToResHandleContentBlockStop evt);
      (["message_delta"], anthToResHandleMessageDelta evt);
      (["message_stop"], anthToResHandleMessageStop) ]
    (mret []).

(** A whole stream: the events of the upstream, then the end of the connection. *)
Definition convertAnthropicStream (evts : list AnthropicStreamEvent)
    : AR (list ResponsesStreamEvent) :=
  events ← run_machine AnthropicEventToResponsesEvents evts;
  rest ← FinalizeAnthropicResponsesStream;
  mret (events ++ rest).
