(* ===== verification/AnthToResFacts.v ===== *)
(** * AnthToResFacts: what a client of the converted Responses stream sees

    Sequence numbers, the life of output items and the output of the terminal event, as an
    observer of the emitted events kept on every input; the round trip of usage. *)

From stdpp Require Import base tactics numbers list strings gmap.
From Stdlib Require Import ZArith Lia.
From S2P Require Import Prelude GoLib GoJson ApiTypes ResponsesToAnthropic AnthropicToResponses.

Local Open Scope go_scope.
Local Open Scope Z_scope.

(** ** The client's rules *)

(** A client of the Responses stream: the next sequence number, whether the response was created
    and completed, the index of the open item or of the next one, the identifier and type of the
    open item, the finished items. *)
Record rclient : Type := RClient {
  r_seq : Z;
  r_created : bool;
  r_completed : bool;
  r_next : Z;
  r_open : option (string * string);
  r_done : list ResponsesOutput
}.

Definition new_rclient : rclient := RClient 0 false false 0 None [].

#[export] Instance output_eq_dec : EqDecision ResponsesOutput.
Proof.
  assert (EqDecision ResponsesContentPart) by solve_decision.
  assert (EqDecision ResponsesSummary) by solve_decision.
  assert (EqDecision WebSearchAction) by solve_decision.
  solve_decision.
Defined.

Definition open_id (c : rclient) : string := match r_open c with Some (id, _) => id | None => "" end.

(** The rules; [None] when an event breaks one. *)
Definition robserve (q : option rclient) (e : ResponsesStreamEvent) : option rclient :=
  c ← q;
  if negb (re_SequenceNumber e =? r_seq c) then None else
  let c := c{{ r_seq := r_seq c +! 1 }} in
  switch (re_Type e)
    [ (["response.created"],
       if r_created c then None else Some (c{{ r_created := true }}));
      (["response.output_item.added"],
       match re_Item e, r_open c with
       | Some item, None =>
           if re_OutputIndex e =? r_next c
           then Some (c{{ r_open := Some (ro_ID item, ro_Type item) }}) else None
       | _, _ => None
       end);
      (["response.output_item.done"],
       match re_Item e, r_open c with
       | Some item, Some (id, ty) =>
           if (re_OutputIndex e =? r_next c) && (ro_ID item ≟ id) && (ro_Type item ≟ ty)
           then Some (c{{ r_open := None; r_next := r_next c +! 1; r_done := r_done c ++ [item] }})
           else None
       | _, _ => None
       end);
      (["response.completed"; "response.incomplete"],
       match re_Response e, r_open c with
       | Some resp, None =>
           if negb (r_completed c) && bool_decide (rr_Output resp = r_done c)
           then Some (c{{ r_completed := true }}) else None
       | _, _ => None
       end);
      (["response.content_part.added"; "response.content_part.done";
        "response.output_text.delta"; "response.output_text.done";
        "response.reasoning_summary_text.delta"; "response.reasoning_summary_text.done";
        "response.function_call_arguments.delta"; "response.function_call_arguments.done"],
       if (re_OutputIndex e =? r_next c) && (re_ItemID e ≟ open_id c) then Some c else None) ]
    None.

Definition robserves : option rclient → list ResponsesStreamEvent → option rclient :=
  foldl robserve.

(** The converter's state as the client sees it. *)
Definition rview (s : AnthropicEventToResponsesState) : rclient :=
  RClient (ar_SequenceNumber s) (ar_CreatedSent s) (ar_CompletedSent s) (ar_OutputIndex s)
    (if ar_CurrentItemType s ≟ "" then None else Some (ar_CurrentItemID s, ar_CurrentItemType s))
    (ar_Outputs s).

(** Without an open item there is no identifier; the index is a machine integer. *)
Definition sound (s : AnthropicEventToResponsesState) : Prop :=
  (ar_CurrentItemType s = "" → ar_CurrentItemID s = "") ∧ int64_range (ar_OutputIndex s).

Definition keeps (h : AR (list ResponsesStreamEvent)) : Prop :=
  ∀ s r, sound s →
    robserves (Some (rview s)) (h (s, r)).1 = Some (rview (h (s, r)).2.1) ∧ sound (h (s, r)).2.1.

Lemma robserves_app q l1 l2 : robserves q (l1 ++ l2) = robserves (robserves q l1) l2.
Proof. apply foldl_app. Qed.

Lemma int64_pred_succ z : int64_range z → z +! 1 -! 1 = z.
Proof.
  intros Hz. unfold int64_add, int64_sub, int64_wrap, int64_range in *.
  replace ((z + 1 + 2 ^ 63) mod 2 ^ 64 - 2 ^ 63 - 1 + 2 ^ 63)
    with ((z + 1 + 2 ^ 63) mod 2 ^ 64 - 1) by lia.
  rewrite Zminus_mod_idemp_l. replace (z + 1 + 2 ^ 63 - 1) with (z + 2 ^ 63) by lia.
  rewrite Z.mod_small by lia. lia.
Qed.

(** ** Closing an item *)

Definition closed_state (s : AnthropicEventToResponsesState) : AnthropicEventToResponsesState :=
  s{{ ar_Outputs := ar_Outputs s ++ [current_item s];
      ar_CurrentItemType := "";
      ar_CurrentItemID := "";
      ar_CurrentCallID := "";
      ar_CurrentName := "";
      ar_CurrentContent := [];
      ar_CurrentArgs := "";
      ar_CurrentSummary := "";
      ar_TextAccum := "";
      ar_OutputIndex := ar_OutputIndex s +! 1;
      ar_ContentIndex := 0;
      ar_SequenceNumber := ar_SequenceNumber s +! 1 }}.

Definition done_event (s : AnthropicEventToResponsesState) : ResponsesStreamEvent :=
  ResponsesStreamEvent0{{ re_Type := "response.output_item.done";
                          re_OutputIndex := ar_OutputIndex s +! 1 -! 1;
                          re_Item := Some (current_item s);
                          re_SequenceNumber := ar_SequenceNumber s }}.

Lemma close_run s r :
  closeCurrentResponsesItem (s, r) =
    if ar_CurrentItemType s ≟ "" then ([], (s, r)) else ([done_event s], (closed_state s, r)).
Proof.
  unfold closeCurrentResponsesItem, the_state, mbind, St_bind. cbn [fst].
  by destruct (ar_CurrentItemType s ≟ "").
Qed.

Lemma current_item_id s : ro_ID (current_item s) = ar_CurrentItemID s ∧
  ro_Type (current_item s) = ar_CurrentItemType s.
Proof.
  unfold current_item. apply (switch_all (λ i, ro_ID i = _ ∧ ro_Type i = _)); [|done].
  repeat constructor; cbn; by destruct (ar_CurrentSummary s ≟ "").
Qed.

Lemma keeps_close : keeps closeCurrentResponsesItem.
Proof.
  intros s r [Hid Hr]. rewrite close_run. destruct (ar_CurrentItemType s ≟ "") eqn:E; [by split|].
  cbn [fst snd]. split.
  - unfold robserves, robserve. cbn [foldl]. unfold rview at 1. rewrite E.
    destruct (current_item_id s) as [Hi Ht]. cbn -[current_item]. rewrite Z.eqb_refl.
    cbn -[current_item]. rewrite int64_pred_succ by done.
    by rewrite Hi, Ht, Z.eqb_refl, !String.eqb_refl.
  - split; [done|]. apply int64_wrap_range.
Qed.

(** After closing, no item is open. *)
Lemma close_closed_item s r :
  let s' := (closeCurrentResponsesItem (s, r)).2.1 in
  ar_CurrentItemType s' = "" ∧ ar_CompletedSent s' = ar_CompletedSent s ∧
  (closeCurrentResponsesItem (s, r)).2.2 = r.
Proof.
  rewrite close_run. destruct (String.eqb_spec (ar_CurrentItemType s) ""); cbn; auto.
Qed.

(** ** The handlers *)

Definition plain_types : list string :=
  ["response.content_part.added"; "response.content_part.done";
   "response.output_text.delta"; "response.output_text.done";
   "response.reasoning_summary_text.delta"; "response.reasoning_summary_text.done";
   "response.function_call_arguments.delta"; "response.function_call_arguments.done"].

(** An event about the open item. *)
Lemma plain_event s e :
  sound s → existsb (String.eqb (re_Type e)) plain_types = true →
  re_SequenceNumber e = ar_SequenceNumber s → re_OutputIndex e = ar_OutputIndex s →
  re_ItemID e = ar_CurrentItemID s →
  robserve (Some (rview s)) e = Some ((rview s){{ r_seq := ar_SequenceNumber s +! 1 }}).
Proof.
  intros [Hid _] Ht Hs Hi Hn. unfold robserve. cbn [mbind option_bind].
  rewrite Hs. unfold rview at 1. cbn [r_seq]. rewrite Z.eqb_refl. cbn [negb].
  assert (Hopen : open_id ((rview s){{ r_seq := ar_SequenceNumber s +! 1 }}) = ar_CurrentItemID s).
  { unfold open_id, rview. cbn.
    destruct (String.eqb_spec (ar_CurrentItemType s) ""); [by rewrite Hid|done]. }
  unfold plain_types in Ht. cbn [existsb] in Ht.
  assert (Hsw : ∀ A (a b c d x y : A),
    switch (re_Type e) [(["response.created"], a); (["response.output_item.added"], b);
      (["response.output_item.done"], c); (["response.completed"; "response.incomplete"], d);
      (plain_types, x)] y = x).
  { intros A a b c d x y. rewrite orb_false_r, !orb_true_iff, !String.eqb_eq in Ht.
    by destruct Ht as [-> | [-> | [-> | [-> | [-> | [-> | [-> | ->]]]]]]]. }
  unfold plain_types in Hsw. rewrite Hsw. rewrite Hi, Hn.
  change (r_seq (rview s)) with (ar_SequenceNumber s). rewrite Hopen, String.eqb_refl.
  cbn. by rewrite Z.eqb_refl.
Qed.

(** Emit one plain event, the visible state otherwise the same. *)
Lemma plain_keeps s s' r e :
  sound s → existsb (String.eqb (re_Type e)) plain_types = true →
  re_SequenceNumber e = ar_SequenceNumber s → re_OutputIndex e = ar_OutputIndex s →
  re_ItemID e = ar_CurrentItemID s →
  rview s' = (rview s){{ r_seq := ar_SequenceNumber s +! 1 }} → sound s' →
  robserves (Some (rview s)) ([e], (s', r : rng)).1 = Some (rview ([e], (s', r)).2.1) ∧
  sound ([e], (s', r)).2.1.
Proof.
  intros Hs Ht Hseq Hi Hn Hv Hs'. split; [|done]. cbn [fst snd robserves foldl].
  rewrite (plain_event s e Hs Ht Hseq Hi Hn). by rewrite Hv.
Qed.

Lemma keeps_nothing : keeps (mret []).
Proof. intros s r Hs. by split. Qed.

Lemma keeps_delta evt : keeps (anthToResHandleContentBlockDelta evt).
Proof.
  intros s r Hs. unfold anthToResHandleContentBlockDelta.
  destruct (ae_Delta evt) as [d|]; [|by apply keeps_nothing].
  apply (switch_all (λ h : AR _, robserves (Some (rview s)) (h (s, r)).1
    = Some (rview (h (s, r)).2.1) ∧ sound (h (s, r)).2.1)); [|by apply keeps_nothing].
  repeat apply List.Forall_cons; try apply List.Forall_nil; cbn [snd];
    try (by apply keeps_nothing); (case_if; [by apply keeps_nothing|]);
    apply (plain_keeps s _ r); done.
Qed.

(** Open an item once none is open. *)
Lemma open_keeps s s' (r : rng) e item :
  ar_CurrentItemType s = "" → re_Type e = "response.output_item.added" →
  re_SequenceNumber e = ar_SequenceNumber s → re_OutputIndex e = ar_OutputIndex s →
  re_Item e = Some item → ro_Type item ≠ "" →
  rview s' = (rview s){{ r_seq := ar_SequenceNumber s +! 1;
                         r_open := Some (ro_ID item, ro_Type item) }} →
  robserve (Some (rview s)) e = Some (rview s').
Proof.
  intros Hty Ht Hseq Hi Hit Hne Hv. rewrite Hv. unfold robserve, rview. rewrite Hty.
  cbn. rewrite Hseq, Z.eqb_refl. cbn. rewrite Ht. cbn. by rewrite Hit, Hi, Z.eqb_refl.
Qed.

(** Open an item after closing the one that was open. *)
Lemma close_open_keeps s r ev s1 e item s2 (r2 : rng) :
  sound s → closeCurrentResponsesItem (s, r) = (ev, (s1, r)) →
  re_Type e = "response.output_item.added" →
  re_SequenceNumber e = ar_SequenceNumber s1 → re_OutputIndex e = ar_OutputIndex s1 →
  re_Item e = Some item → ro_Type item ≠ "" →
  rview s2 = (rview s1){{ r_seq := ar_SequenceNumber s1 +! 1;
                          r_open := Some (ro_ID item, ro_Type item) }} →
  ar_CurrentItemType s2 = ro_Type item →
  robserves (Some (rview s)) (ev ++ [e]) = Some (rview s2) ∧ sound s2.
Proof.
  intros Hs Ec Ht Hseq Hi Hit Hne Hv Hty2. destruct (keeps_close s r Hs) as [Hev [_ Hr1]].
  destruct (close_closed_item s r) as (Hty & _ & _). rewrite Ec in *. cbn [fst snd] in *.
  split.
  - rewrite robserves_app, Hev. cbn [robserves foldl]. by apply (open_keeps s1 s2 r e item).
  - split; [by rewrite Hty2|]. by change (int64_range (r_next (rview s2))); rewrite Hv.
Qed.

Lemma keeps_start evt : keeps (anthToResHandleContentBlockStart evt).
Proof.
  intros s r Hs. unfold anthToResHandleContentBlockStart.
  destruct (ae_ContentBlock evt) as [b|]; [|by apply keeps_nothing].
  destruct (closeCurrentResponsesItem (s, r)) as [ev [s1 r1]] eqn:Ec.
  destruct (close_closed_item s r) as (_ & _ & Hr). rewrite Ec in Hr. cbn [snd] in Hr. subst r1.
  apply (switch_all (λ h : AR _, robserves (Some (rview s)) (h (s, r)).1
    = Some (rview (h (s, r)).2.1) ∧ sound (h (s, r)).2.1)); [|by apply keeps_nothing].
  repeat apply List.Forall_cons; try apply List.Forall_nil; cbn [snd];
    unfold makeResponsesEvent, the_state, mbind, St_bind; cbn [fst snd].
  - rewrite Ec. unfold fresh_item_id. destruct (generateItemID r) as [id r2].
    cbn -[rview robserves sound]. by eapply (close_open_keeps s r ev s1).
  - destruct (ar_CurrentItemType s ≟ "message") eqn:Em.
    + cbn -[rview robserves sound]. by apply (plain_keeps s _ r).
    + rewrite Ec. unfold fresh_item_id. destruct (generateItemID r) as [id r2].
      cbn -[rview robserves sound].
      match goal with |- robserves _ ((ev ++ [?e1]) ++ [?e2]) = Some (rview ?s3) ∧ _ =>
        set (added := e1); set (part := e2); set (s3' := s3) end.
      set (s2 := s1{{ ar_SequenceNumber := ar_SequenceNumber s1 +! 1;
                      ar_CurrentItemID := id; ar_CurrentItemType := "message";
                      ar_ContentIndex := 0 }}).
      destruct (close_open_keeps s r ev s1 added
        (ResponsesOutput0{{ ro_Type := "message"; ro_ID := id; ro_Role := "assistant";
                            ro_Status := "in_progress" }}) s2 r2) as [Hev Hs2]; try done.
      rewrite robserves_app, Hev. by apply (plain_keeps s2 s3' r2 part).
  - rewrite Ec. unfold fresh_item_id. destruct (generateItemID r) as [id r2].
    cbn -[rview robserves sound]. by eapply (close_open_keeps s r ev s1).
Qed.

(** A plain event about the open item, then its end. *)
Ltac done_then_close s r Hs :=
  unfold makeResponsesEvent, the_state, update, mbind, St_bind; cbn [fst snd mret St_ret];
  match goal with |- context [closeCurrentResponsesItem (?s0, r)] =>
    let s1 := fresh "s1" in set (s1 := s0);
    let Hs1 := fresh "Hs1" in assert (Hs1 : sound s1) by exact Hs;
    let Hc := fresh "Hc" in let Hsc := fresh "Hsc" in
    pose proof (keeps_close s1 r Hs1) as [Hc Hsc];
    let ev := fresh "ev" in let s2 := fresh "s2" in let r2 := fresh "r2" in
    destruct (closeCurrentResponsesItem (s1, r)) as [ev [s2 r2]];
    cbn [fst snd mret St_ret] in *; split; [|exact Hsc]; rewrite robserves_app;
    match goal with |- robserves (robserves _ [?e]) ev = _ =>
      let Hd := fresh "Hd" in
      destruct (plain_keeps s s1 r e Hs) as [Hd _];
      [done..|cbn [fst snd] in Hd; rewrite Hd; exact Hc] end
  end.

Lemma keeps_stop_block evt : keeps (anthToResHandleContentBlockStop evt).
Proof.
  intros s r Hs. unfold anthToResHandleContentBlockStop, the_state.
  unfold mbind at 1, St_bind at 1. cbn [fst].
  apply (switch_all (λ h : AR _, robserves (Some (rview s)) (h (s, r)).1
    = Some (rview (h (s, r)).2.1) ∧ sound (h (s, r)).2.1)); [|by apply keeps_nothing].
  repeat apply List.Forall_cons; try apply List.Forall_nil; cbn [snd].
  - done_then_close s r Hs.
  - done_then_close s r Hs.
  - unfold makeResponsesEvent, the_state, update, mbind, St_bind.
    cbn -[rview robserves sound].
    match goal with |- robserves _ [?e1; ?e2] = Some (rview ?s3) ∧ _ =>
      set (done1 := e1); set (done2 := e2); set (s3' := s3) end.
    set (s2 := s{{ ar_SequenceNumber := ar_SequenceNumber s +! 1 }}).
    change [done1; done2] with ([done1] ++ [done2]). rewrite robserves_app.
    destruct (plain_keeps s s2 r done1 Hs) as [Hd Hs2]; try done.
    cbn [fst snd] in Hd, Hs2. rewrite Hd. by apply (plain_keeps s2 s3' r done2).
Qed.

Lemma keeps_update f :
  (∀ s, rview (f s) = rview s) → (∀ s, sound s → sound (f s)) →
  ∀ h, keeps h → keeps (_ ← update f; h).
Proof.
  intros Hv Hsd h Hh s r Hs. unfold mbind, St_bind, update. rewrite <- (Hv s).
  by apply Hh, Hsd.
Qed.

Lemma keeps_message_delta evt : keeps (anthToResHandleMessageDelta evt).
Proof.
  unfold anthToResHandleMessageDelta.
  apply keeps_update; [| |apply keeps_update; [| |apply keeps_nothing]]; intros s.
  - destruct (ae_Usage evt); [|done]. cbv zeta. repeat case_if; done.
  - intros Hs. destruct (ae_Usage evt); [|done]. cbv zeta. repeat case_if; exact Hs.
  - destruct (ae_Delta evt); [|done]. by case_if.
  - intros Hs. destruct (ae_Delta evt); [|done]. case_if; [done|exact Hs].
Qed.

Lemma keeps_message_start evt : keeps (anthToResHandleMessageStart evt).
Proof.
  unfold anthToResHandleMessageStart. apply keeps_update; [| |].
  - intros s. destruct (ae_Message evt); [|done]. cbv zeta. repeat case_if; done.
  - intros s Hs. destruct (ae_Message evt); [|done]. cbv zeta. repeat case_if; exact Hs.
  - intros s r Hs. unfold the_state, mbind, St_bind. cbn [fst].
    destruct (ar_CreatedSent s) eqn:Ec; [by apply keeps_nothing|].
    unfold makeResponsesCreatedEvent, the_state, update, mbind, St_bind.
    destruct s; cbn in Ec; subst. cbn. rewrite Z.eqb_refl. by split.
Qed.

(** Completing sends the finished items and nothing else. *)
Lemma keeps_complete s r :
  sound s → ar_CompletedSent s = false →
  robserves (Some (rview s)) (complete (s, r)).1 = Some (rview (complete (s, r)).2.1) ∧
  sound (complete (s, r)).2.1.
Proof.
  intros Hs Hc. unfold complete, makeResponsesCompletedEvent, the_state, update, mbind, St_bind.
  pose proof (keeps_close s r Hs) as [Hev Hs1].
  destruct (close_closed_item s r) as (Hty & Hcs & _).
  destruct (closeCurrentResponsesItem (s, r)) as [ev [s1 r1]]. cbn [fst snd] in *.
  destruct (anthropicResponsesStreamTerminalState (ar_StopReason s1)) as [status details] eqn:Et.
  cbn -[rview robserves sound responses_usage]. split; [|exact Hs1].
  rewrite robserves_app, Hev. cbn [robserves foldl]. clear Hev Hs1 Hs Et.
  destruct s1; cbn in Hty, Hcs; subst. cbn -[responses_usage].
  rewrite Z.eqb_refl, Hc. cbn -[responses_usage].
  by destruct (status ≟ "incomplete"); cbn -[responses_usage]; rewrite bool_decide_eq_true_2.
Qed.

Lemma keeps_message_stop : keeps anthToResHandleMessageStop.
Proof.
  intros s r Hs. unfold anthToResHandleMessageStop, the_state.
  unfold mbind at 1 2 3, St_bind at 1 2 3. cbn [fst].
  destruct (ar_CompletedSent s) eqn:Hc; [by apply keeps_nothing|]. by apply keeps_complete.
Qed.

Lemma keeps_finalize : keeps FinalizeAnthropicResponsesStream.
Proof.
  intros s r Hs. unfold FinalizeAnthropicResponsesStream, the_state.
  unfold mbind at 1 2 3, St_bind at 1 2 3. cbn [fst].
  destruct (negb (ar_CreatedSent s) || ar_CompletedSent s) eqn:Hc; [by apply keeps_nothing|].
  apply keeps_complete; [done|]. by bool_props.
Qed.

Lemma keeps_event evt : keeps (AnthropicEventToResponsesEvents evt).
Proof.
  unfold AnthropicEventToResponsesEvents. apply switch_all; [|apply keeps_nothing].
  repeat apply List.Forall_cons; try apply List.Forall_nil; cbn [snd].
  - apply keeps_message_start.
  - apply keeps_start.
  - apply keeps_delta.
  - apply keeps_stop_block.
  - apply keeps_message_delta.
  - apply keeps_message_stop.
Qed.

Lemma keeps_run evts : keeps (run_machine AnthropicEventToResponsesEvents evts).
Proof.
  induction evts as [|e evts IH]; [apply keeps_nothing|]. intros s r Hs.
  rewrite run_machine_cons. destruct (keeps_event e s r Hs) as [H1 Hs1].
  destruct (AnthropicEventToResponsesEvents e (s, r)) as [o [s1 r1]]. cbn [fst snd] in *.
  destruct (IH s1 r1 Hs1) as [H2 Hs2].
  destruct (run_machine AnthropicEventToResponsesEvents evts (s1, r1)) as [os [s2 r2]]. cbn [fst snd] in *.
  split; [|done]. by rewrite robserves_app, H1.
Qed.

Lemma keeps_stream evts : keeps (convertAnthropicStream evts).
Proof.
  intros s r Hs. unfold convertAnthropicStream, mbind, St_bind.
  destruct (keeps_run evts s r Hs) as [H1 Hs1].
  destruct (run_machine AnthropicEventToResponsesEvents evts (s, r)) as [o [s1 r1]].
  cbn [fst snd] in *.
  destruct (keeps_finalize s1 r1 Hs1) as [H2 Hs2].
  destruct (FinalizeAnthropicResponsesStream (s1, r1)) as [os [s2 r2]]. cbn [fst snd mret St_ret] in *.
  split; [|done]. by rewrite robserves_app, H1.
Qed.

(** C14: whatever an Anthropic upstream sends, in whatever order, and wherever its stream breaks
    off, the Responses stream the client gets keeps the protocol: consecutive sequence numbers
    from 0, at most one [response.created], every item opened with the next output index and
    closed with the same identifier and type before another opens, every delta and part about
    the open item, and at most one terminal event, sent with no item open and listing exactly
    the items that were closed. *)
Theorem responses_stream_wellformed now r evts :
  is_Some (robserves (Some new_rclient)
             (convertAnthropicStream evts (NewAnthropicEventToResponsesState now, r)).1).
Proof.
  change new_rclient with (rview (NewAnthropicEventToResponsesState now)).
  destruct (keeps_stream evts (NewAnthropicEventToResponsesState now) r) as [H _].
  { split; [done|]. cbn. unfold int64_range. lia. }
  by rewrite H.
Qed.

(** Token usage survives the trip: what the Responses shape says of an Anthropic usage
    converts back to the four counts it was made from, so a bill does not depend on which
    protocol the client spoke. *)
Theorem usage_roundtrip input output cacheRead cacheCreation :
  0 <= input → 0 <= output → 0 <= cacheRead → 0 <= cacheCreation →
  input + cacheRead + cacheCreation < 2 ^ 63 →
  anthropicUsageFromResponsesUsage
    (Some (responses_usage input output cacheRead cacheCreation)) =
  AnthropicUsage0{{ au_InputTokens := input;
                    au_OutputTokens := output;
                    au_CacheReadInputTokens := cacheRead;
                    au_CacheCreationInputTokens := cacheCreation }}.
Proof.
  intros Hi Ho Hr Hc Hm. unfold responses_usage, anthropicUsageFromResponsesUsage.
  cbn [ru_InputTokens ru_OutputTokens ru_CacheCreationInputTokens ru_InputTokensDetails].
  assert (E1 : input +! cacheRead = input + cacheRead) by (apply int64_wrap_id; unfold int64_range; lia).
  rewrite E1.
  assert (E2 : input + cacheRead +! cacheCreation = input + cacheRead + cacheCreation)
    by (apply int64_wrap_id; unfold int64_range; lia).
  rewrite E2.
  destruct (Z.ltb_spec 0 cacheRead) as [H|H]; cbn.
  - assert (E3 : input + cacheRead + cacheCreation -! cacheRead = input + cacheCreation).
    { unfold int64_sub. rewrite int64_wrap_id; unfold int64_range; lia. }
    rewrite E3.
    assert (E4 : input + cacheCreation -! cacheCreation = input).
    { unfold int64_sub. rewrite int64_wrap_id; unfold int64_range; lia. }
    rewrite E4. by destruct (Z.ltb_spec input 0); [lia|].
  - assert (cacheRead = 0) as -> by lia. rewrite Z.add_0_r.
    assert (E3 : input + cacheCreation -! 0 = input + cacheCreation).
    { unfold int64_sub. rewrite int64_wrap_id; unfold int64_range; lia. }
    rewrite E3.
    assert (E4 : input + cacheCreation -! cacheCreation = input).
    { unfold int64_sub. rewrite int64_wrap_id; unfold int64_range; lia. }
    rewrite E4. by destruct (Z.ltb_spec input 0); [lia|].
Qed.

Lemma usage_roundtrip_witness :
  anthropicUsageFromResponsesUsage (Some (responses_usage 10 5 3 2)) =
  AnthropicUsage0{{ au_InputTokens := 10; au_OutputTokens := 5;
                    au_CacheReadInputTokens := 3; au_CacheCreationInputTokens := 2 }}.
Proof. apply (usage_roundtrip 10 5 3 2); lia. Defined.
