(* ===== verification/AnthToResStream.v ===== *)
(** * AnthToResStream: a streamed answer and a whole one say the same

    The stream of an Anthropic upstream block by block, and the Responses answer that
    [AnthropicToResponsesResponse] gives for the same message. *)

From stdpp Require Import base tactics numbers list strings gmap.
From Stdlib Require Import ZArith Lia.
From S2P Require Import Prelude GoLib GoJson ApiTypes Upstream AnthropicToResponses.

Local Open Scope go_scope.
Local Open Scope Z_scope.

(** ** An Anthropic upstream *)

(** A content block with the fragments it is streamed in. *)
Inductive anthropic_block : Type :=
| BThinking (chunks : list string)
| BText (chunks : list string)
| BToolUse (id name : string) (chunks : list string).

(** The block of the whole message. *)
Definition block_of (b : anthropic_block) : AnthropicContentBlock :=
  match b with
  | BThinking chunks =>
      AnthropicContentBlock0{{ cb_Type := "thinking"; cb_Thinking := join chunks }}
  | BText chunks => AnthropicContentBlock0{{ cb_Type := "text"; cb_Text := join chunks }}
  | BToolUse id name chunks =>
      AnthropicContentBlock0{{ cb_Type := "tool_use"; cb_ID := id; cb_Name := name;
                               cb_Input := join chunks }}
  end.

Definition block_started (b : anthropic_block) : AnthropicContentBlock :=
  match b with
  | BThinking _ => AnthropicContentBlock0{{ cb_Type := "thinking" }}
  | BText _ => AnthropicContentBlock0{{ cb_Type := "text" }}
  | BToolUse id name _ =>
      AnthropicContentBlock0{{ cb_Type := "tool_use"; cb_ID := id; cb_Name := name;
                               cb_Input := "{}" }}
  end.

Definition ev_block_delta (idx : Z) (d : AnthropicDelta) : AnthropicStreamEvent :=
  AnthropicStreamEvent0{{ ae_Type := "content_block_delta"; ae_Index := Some idx;
                          ae_Delta := Some d }}.

Definition block_delta (b : anthropic_block) (chunk : string) : AnthropicDelta :=
  match b with
  | BThinking _ => AnthropicDelta0{{ ad_Type := "thinking_delta"; ad_Thinking := chunk }}
  | BText _ => AnthropicDelta0{{ ad_Type := "text_delta"; ad_Text := chunk }}
  | BToolUse _ _ _ => AnthropicDelta0{{ ad_Type := "input_json_delta"; ad_PartialJSON := chunk }}
  end.

Definition block_chunks (b : anthropic_block) : list string :=
  match b with BThinking l | BText l | BToolUse _ _ l => l end.

Definition block_events (idx : Z) (b : anthropic_block) : list AnthropicStreamEvent :=
  AnthropicStreamEvent0{{ ae_Type := "content_block_start"; ae_Index := Some idx;
                          ae_ContentBlock := Some (block_started b) }}
  :: ((λ c, ev_block_delta idx (block_delta b c)) <$> block_chunks b) ++
  [AnthropicStreamEvent0{{ ae_Type := "content_block_stop"; ae_Index := Some idx }}].

Fixpoint blocks_events (idx : Z) (bs : list anthropic_block) : list AnthropicStreamEvent :=
  match bs with
  | [] => []
  | b :: bs' => block_events idx b ++ blocks_events (idx + 1) bs'
  end.

(** What the message says, beside its content. *)
Record message_head : Type := MkMessageHead {
  mh_ID : string;
  mh_Model : string;
  mh_InputTokens : Z;
  mh_CacheRead : Z;
  mh_CacheCreation : Z;
  mh_OutputTokens : Z;
  mh_StopReason : string
}.

Definition head_usage (h : message_head) : AnthropicUsage :=
  AnthropicUsage0{{ au_InputTokens := mh_InputTokens h;
                    au_CacheReadInputTokens := mh_CacheRead h;
                    au_CacheCreationInputTokens := mh_CacheCreation h }}.

(** The message, whole. *)
Definition whole_message (h : message_head) (bs : list anthropic_block) : AnthropicResponse :=
  AnthropicResponse0{{ am_ID := mh_ID h; am_Model := mh_Model h; am_Role := "assistant";
                       am_Content := block_of <$> bs;
                       am_StopReason := Some (mh_StopReason h);
                       am_Usage := (head_usage h){{ au_OutputTokens := mh_OutputTokens h }} }}.

(** The message, streamed. *)
Definition message_events (h : message_head) (bs : list anthropic_block)
    : list AnthropicStreamEvent :=
  AnthropicStreamEvent0{{ ae_Type := "message_start";
    ae_Message := Some (AnthropicResponse0{{ am_ID := mh_ID h; am_Model := mh_Model h;
                                             am_Usage := head_usage h }}) }}
  :: blocks_events 0 bs ++
  [AnthropicStreamEvent0{{ ae_Type := "message_delta";
     ae_Delta := Some (AnthropicDelta0{{ ad_StopReason := mh_StopReason h }});
     ae_Usage := Some (AnthropicUsage0{{ au_OutputTokens := mh_OutputTokens h }}) }};
   AnthropicStreamEvent0{{ ae_Type := "message_stop" }}].

(** ** What an answer says, whatever identifiers it was given *)

(** The items that are not text, in order. *)
Definition item_view (o : ResponsesOutput) : string * string * string * string * list ResponsesSummary :=
  (ro_Type o, ro_CallID o, ro_Name o, ro_Arguments o, ro_Summary o).

Definition steps (os : list ResponsesOutput) :=
  item_view <$> List.filter (λ o, negb (ro_Type o ≟ "message")) os.

(** The text, part by part. *)
Definition texts (os : list ResponsesOutput) : list ResponsesContentPart :=
  concat (map (λ o, if ro_Type o ≟ "message" then ro_Content o else []) os).

Definition same_answer (a b : ResponsesResponse) : Prop :=
  rr_ID a = rr_ID b ∧ rr_Object a = rr_Object b ∧ rr_Model a = rr_Model b ∧
  rr_Status a = rr_Status b ∧ rr_IncompleteDetails a = rr_IncompleteDetails b ∧
  rr_Usage a = rr_Usage b ∧
  steps (rr_Output a) = steps (rr_Output b) ∧ texts (rr_Output a) = texts (rr_Output b).

Lemma steps_app l1 l2 : steps (l1 ++ l2) = steps l1 ++ steps l2.
Proof. unfold steps. by rewrite List.filter_app, fmap_app. Qed.

Lemma texts_app l1 l2 : texts (l1 ++ l2) = texts l1 ++ texts l2.
Proof. unfold texts. by rewrite map_app, concat_app. Qed.

(** What a block adds. *)
Definition block_steps (b : anthropic_block)
    : list (string * string * string * string * list ResponsesSummary) :=
  match b with
  | BThinking l => [("reasoning", "", "", "", [MkResponsesSummary "summary_text" (join l)])]
  | BText _ => []
  | BToolUse id name l =>
      [("function_call", id, name, if join l ≟ "" then "{}" else join l, [])]
  end.

Definition block_texts (b : anthropic_block) : list ResponsesContentPart :=
  match b with
  | BText l => [ResponsesContentPart0{{ rp_Type := "output_text"; rp_Text := join l }}]
  | _ => []
  end.

(** A thinking or text block says something. *)
Definition speaks (b : anthropic_block) : Prop :=
  match b with BThinking l | BText l => join l ≠ "" | BToolUse _ _ _ => True end.

(** ** The whole message *)

Lemma convertBlocks_spec bs outs parts r :
  Forall speaks bs →
  let '(outs', parts') := (convertBlocks (block_of <$> bs) outs parts r).1 in
  steps outs' = steps outs ++ concat (map block_steps bs) ∧
  texts outs' = texts outs ∧
  parts' = parts ++ concat (map block_texts bs).
Proof.
  intros Hb. revert outs parts r. induction Hb as [|b bs Hs _ IH]; intros outs parts r.
  { cbn. by rewrite !app_nil_r. }
  rewrite fmap_cons. cbn [map concat].
  destruct b as [l|l|id name l]; cbn [block_of speaks block_steps block_texts] in *.
  - assert (E : (join l ≟ "") = false) by by apply String.eqb_neq.
    cbn. rewrite E. unfold mbind, St_bind. destruct (generateItemID r) as [i r'].
    match goal with |- context [convertBlocks _ (outs ++ [?o]) parts r'] =>
      specialize (IH (outs ++ [o]) parts r') end.
    match goal with |- context [(convertBlocks ?a ?b ?c ?d).1] =>
      destruct (convertBlocks a b c d).1 as [outs' parts'] end.
    rewrite steps_app, texts_app in IH. cbn in IH. rewrite app_nil_r in IH.
    destruct IH as (H1 & H2 & H3). split_and!; try done. by rewrite H1, <- app_assoc.
  - assert (E : (join l ≟ "") = false) by by apply String.eqb_neq.
    cbn. rewrite E.
    match goal with |- context [convertBlocks _ outs (parts ++ [?o]) r] =>
      specialize (IH outs (parts ++ [o]) r) end.
    match goal with |- context [(convertBlocks ?a ?b ?c ?d).1] =>
      destruct (convertBlocks a b c d).1 as [outs' parts'] end.
    destruct IH as (H1 & H2 & H3). split_and!; try done. by rewrite H3, <- app_assoc.
  - cbn. unfold mbind, St_bind. destruct (generateItemID r) as [i r'].
    match goal with |- context [convertBlocks _ (outs ++ [?o]) parts r'] =>
      specialize (IH (outs ++ [o]) parts r') end.
    match goal with |- context [(convertBlocks ?a ?b ?c ?d).1] =>
      destruct (convertBlocks a b c d).1 as [outs' parts'] end.
    rewrite steps_app, texts_app in IH. cbn in IH. rewrite app_nil_r in IH.
    destruct IH as (H1 & H2 & H3). split_and!; try done. by rewrite H1, <- app_assoc.
Qed.

Lemma nothing_said bs :
  concat (map block_steps bs) = [] → concat (map block_texts bs) = [] → bs = [].
Proof. by destruct bs as [|[]]. Qed.

(** The status follows the stop reason the same way in both. *)
Lemma terminal_status stop :
  anthropicResponsesStreamTerminalState stop =
  (let status := anthropicStopReasonToResponsesStatus stop [] in
   (status, if status ≟ "incomplete"
            then Some (MkResponsesIncompleteDetails "max_output_tokens") else None)).
Proof.
  unfold anthropicResponsesStreamTerminalState, anthropicStopReasonToResponsesStatus.
  cbn. destruct (stop ≟ "max_tokens"); cbn; [done|]. by case_if.
Qed.

Lemma whole_answer now h bs r :
  mh_ID h ≠ "" → Forall speaks bs → bs ≠ [] →
  let resp := (AnthropicToResponsesResponse now (whole_message h bs) r).1 in
  let status := anthropicStopReasonToResponsesStatus (mh_StopReason h) [] in
  rr_ID resp = mh_ID h ∧ rr_Object resp = "response" ∧ rr_Model resp = mh_Model h ∧
  rr_Status resp = status ∧
  rr_IncompleteDetails resp =
    (if status ≟ "incomplete" then Some (MkResponsesIncompleteDetails "max_output_tokens")
     else None) ∧
  rr_Usage resp = Some (responses_usage (mh_InputTokens h) (mh_OutputTokens h) (mh_CacheRead h)
                          (mh_CacheCreation h)) ∧
  steps (rr_Output resp) = concat (map block_steps bs) ∧
  texts (rr_Output resp) = concat (map block_texts bs).
Proof.
  intros Hid Hb Hne. unfold AnthropicToResponsesResponse, mbind, St_bind.
  assert (E : (mh_ID h ≟ "") = false) by by apply String.eqb_neq.
  change (am_ID (whole_message h bs)) with (mh_ID h). rewrite E. cbn [mret St_ret].
  change (am_Content (whole_message h bs)) with (block_of <$> bs).
  pose proof (convertBlocks_spec bs [] [] r Hb) as Hc.
  destruct (convertBlocks (block_of <$> bs) [] [] r) as [[outs parts] r1]. cbn [fst] in Hc.
  destruct Hc as (H1 & H2 & ->). cbn [app] in *.
  destruct (concat (map block_texts bs)) as [|p ps] eqn:Ep.
  - destruct outs as [|o os]; [by symmetry in H1; destruct (Hne (nothing_said bs H1 Ep))|].
    by split_and!.
  - destruct (generateItemID r1) as [i r2].
    destruct (outs ++ [message_item i (p :: ps)]) as [|o os] eqn:Eo; [by destruct outs|].
    split_and!; try done.
    + change (steps (o :: os) = concat (map block_steps bs)). rewrite <- Eo, steps_app, H1. cbn. by rewrite app_nil_r.
    + change (texts (o :: os) = p :: ps). rewrite <- Eo, texts_app, H2. cbn. by rewrite app_nil_r.
Qed.

(** ** The stream *)

Definition gathered (s : AnthropicEventToResponsesState) : list ResponsesOutput :=
  ar_Outputs s ++ (if ar_CurrentItemType s ≟ "" then [] else [current_item s]).

(** Between two blocks: nothing open, or a message that more text may continue. *)
Definition between (s : AnthropicEventToResponsesState) : Prop :=
  (ar_CurrentItemType s = "" ∧ ar_CurrentContent s = [] ∨ ar_CurrentItemType s = "message") ∧
  ar_CurrentArgs s = "" ∧ ar_CurrentSummary s = "".

(** What the blocks do not touch. *)
Definition envelope (s : AnthropicEventToResponsesState) :=
  (ar_ResponseID s, ar_Model s, (ar_CreatedSent s, ar_CompletedSent s),
   (ar_InputTokens s, ar_OutputTokens s, ar_CacheReadInputTokens s, ar_CacheCreationInputTokens s),
   ar_StopReason s).

Definition run := run_machine AnthropicEventToResponsesEvents.

(** The fragments of a block gather in the field of its type. *)
Definition gather (b : anthropic_block) (text : string) (s : AnthropicEventToResponsesState)
    : AnthropicEventToResponsesState :=
  match b with
  | BThinking _ => s{{ ar_CurrentSummary := ar_CurrentSummary s +:+ text }}
  | BText _ => s{{ ar_TextAccum := ar_TextAccum s +:+ text }}
  | BToolUse _ _ _ => s{{ ar_CurrentArgs := ar_CurrentArgs s +:+ text }}
  end.

Lemma run_delta idx b c s r :
  ∃ out n, AnthropicEventToResponsesEvents (ev_block_delta idx (block_delta b c)) (s, r) =
    (out, ((gather b c s){{ ar_SequenceNumber := n }}, r)).
Proof.
  destruct s, c as [|a c].
  - destruct b; cbn; rewrite string_app_nil_r; eauto.
  - destruct b; cbn; eauto.
Qed.

Lemma run_deltas idx b l s r :
  ∃ out n, run ((λ c, ev_block_delta idx (block_delta b c)) <$> l) (s, r) =
    (out, ((gather b (join l) s){{ ar_SequenceNumber := n }}, r)).
Proof.
  revert s. induction l as [|c l IH]; intros s.
  - exists [], (ar_SequenceNumber s).
    destruct s, b; cbn; by rewrite string_app_nil_r.
  - rewrite fmap_cons. unfold run. rewrite run_machine_cons.
    destruct (run_delta idx b c s r) as (o & n & ->).
    destruct (IH ((gather b c s){{ ar_SequenceNumber := n }})) as (os & n' & E).
    unfold run in E. rewrite E. exists (o ++ os), n'.
    destruct s, b; cbn; by rewrite <- string_app_assoc.
Qed.

(** The state once the start of a block was handled. *)
Definition started (b : anthropic_block) (s0 s : AnthropicEventToResponsesState) : Prop :=
  envelope s = envelope s0 ∧ ar_CurrentArgs s = "" ∧ ar_CurrentSummary s = "" ∧
  match b with
  | BThinking _ =>
      ar_CurrentItemType s = "reasoning" ∧ ar_CurrentContent s = [] ∧ ar_Outputs s = gathered s0
  | BText _ =>
      ar_CurrentItemType s = "message" ∧ ar_TextAccum s = "" ∧
      steps (gathered s) = steps (gathered s0) ∧ texts (gathered s) = texts (gathered s0)
  | BToolUse id name _ =>
      ar_CurrentItemType s = "function_call" ∧ ar_CurrentContent s = [] ∧
      ar_CurrentCallID s = id ∧ ar_CurrentName s = name ∧ ar_Outputs s = gathered s0
  end.

Lemma run_start idx b s r :
  between s →
  ∃ out s1 r1,
    AnthropicEventToResponsesEvents
      (AnthropicStreamEvent0{{ ae_Type := "content_block_start"; ae_Index := Some idx;
                               ae_ContentBlock := Some (block_started b) }}) (s, r) =
      (out, (s1, r1)) ∧ started b s s1.
Proof.
  intros ([[Hty Hc] | Hty] & Ha & Hs); destruct s; cbn in Hty, Ha, Hs; subst;
    try (cbn in Hc; subst); destruct b as [l|l|id name l];
    unfold AnthropicEventToResponsesEvents; cbn -[generateItemID];
    unfold anthToResHandleContentBlockStart, closeCurrentResponsesItem, makeResponsesEvent,
      fresh_item_id, the_state, update, mbind, St_bind; cbn -[generateItemID];
    try (destruct (generateItemID r) as [i r1]; cbn);
    eexists _, _, _; (split; [reflexivity|]);
    unfold started, gathered; cbn -[steps texts]; rewrite ?app_nil_r; split_and!; try done.
  - by rewrite steps_app, app_nil_r.
  - by rewrite texts_app, app_nil_r.
Qed.

Lemma run_stop idx b text s0 s1 r :
  started b s0 s1 → text ≠ "" ∨ (∃ i n l, b = BToolUse i n l) → join (block_chunks b) = text →
  ∃ out s2,
    AnthropicEventToResponsesEvents
      (AnthropicStreamEvent0{{ ae_Type := "content_block_stop"; ae_Index := Some idx }})
      (gather b text s1, r) = (out, (s2, r)) ∧
    between s2 ∧ envelope s2 = envelope s0 ∧
    steps (gathered s2) = steps (gathered s0) ++ block_steps b ∧
    texts (gathered s2) = texts (gathered s0) ++ block_texts b.
Proof.
  intros (He & Ha & Hs & H) Htext Hl. rewrite <- He. destruct b as [l|l|id name l]; cbn -[join] in Hl.
  - destruct H as (Hty & Hc & Ho). destruct Htext as [Ht | (? & ? & ? & ?)]; [|done].
    assert (E : (text ≟ "") = false) by by apply String.eqb_neq.
    rewrite <- Ho. destruct s1; cbn in Hty, Ha, Hs, Hc; subst.
    unfold AnthropicEventToResponsesEvents, anthToResHandleContentBlockStop,
      closeCurrentResponsesItem, makeResponsesEvent, the_state, update, mbind, St_bind.
    cbn -[join steps texts].
    change ("" +:+ join l) with (join l). rewrite E.
    eexists _, _. split; [reflexivity|]. unfold between, gathered.
    cbn -[steps texts join]. rewrite app_nil_r, steps_app, texts_app. split_and!; auto.
  - destruct H as (Hty & Hacc & Hst & Htx). rewrite <- Hst, <- Htx.
    destruct s1; cbn in Hty, Ha, Hs, Hacc; subst.
    unfold AnthropicEventToResponsesEvents, anthToResHandleContentBlockStop,
      closeCurrentResponsesItem, makeResponsesEvent, the_state, update, mbind, St_bind.
    cbn -[join steps texts].
    change ("" +:+ join l) with (join l). eexists _, _. split; [reflexivity|].
    unfold between, gathered. cbn -[steps texts join]. rewrite !steps_app, !texts_app, ?app_nil_r.
    split_and!; auto. unfold texts. cbn -[join].
    by rewrite !app_nil_r, app_assoc.
  - destruct H as (Hty & Hc & Hid & Hn & Ho).
    rewrite <- Ho. destruct s1; cbn in Hty, Ha, Hs, Hc, Hid, Hn; subst.
    unfold AnthropicEventToResponsesEvents, anthToResHandleContentBlockStop,
      closeCurrentResponsesItem, makeResponsesEvent, the_state, update, mbind, St_bind.
    cbn -[join steps texts].
    change ("" +:+ join l) with (join l). eexists _, _. split; [reflexivity|].
    unfold between, gathered. cbn -[steps texts join]. rewrite app_nil_r, steps_app, texts_app. split_and!; auto.
Qed.

Lemma run_block idx b s r :
  between s → speaks b →
  ∃ out s' r', run (block_events idx b) (s, r) = (out, (s', r')) ∧
    between s' ∧ envelope s' = envelope s ∧
    steps (gathered s') = steps (gathered s) ++ block_steps b ∧
    texts (gathered s') = texts (gathered s) ++ block_texts b.
Proof.
  intros Hb Hsp. unfold block_events, run. rewrite run_machine_cons.
  destruct (run_start idx b s r Hb) as (o1 & s1 & r1 & -> & Hst).
  rewrite run_machine_app.
  destruct (run_deltas idx b (block_chunks b) s1 r1) as (o2 & n & E2).
  unfold run in E2. rewrite E2. rewrite run_machine_cons.
  set (s1' := s1{{ ar_SequenceNumber := n }}).
  assert (Hst' : started b s s1') by (destruct s1, b; exact Hst).
  assert (Eg : (gather b (join (block_chunks b)) s1){{ ar_SequenceNumber := n }} =
    gather b (join (block_chunks b)) s1') by by destruct s1, b.
  rewrite Eg.
  destruct (run_stop idx b (join (block_chunks b)) s s1' r1 Hst') as (o3 & s3 & -> & H); [|done|].
  { destruct b; [by left..|right; eauto]. }
  cbn [run_machine mret St_ret]. eexists _, _, _. split; [reflexivity|]. exact H.
Qed.

Lemma run_blocks idx bs s r :
  between s → Forall speaks bs →
  ∃ out s' r', run (blocks_events idx bs) (s, r) = (out, (s', r')) ∧
    between s' ∧ envelope s' = envelope s ∧
    steps (gathered s') = steps (gathered s) ++ concat (map block_steps bs) ∧
    texts (gathered s') = texts (gathered s) ++ concat (map block_texts bs).
Proof.
  intros Hb Hsp. revert idx s r Hb. induction Hsp as [|b bs Hs _ IH]; intros idx s r Hb.
  - exists [], s, r. cbn -[steps texts]. by rewrite !app_nil_r.
  - cbn [blocks_events map concat]. unfold run. rewrite run_machine_app.
    destruct (run_block idx b s r Hb Hs) as (o1 & s1 & r1 & E1 & Hb1 & He1 & Hs1 & Ht1).
    unfold run in E1. rewrite E1.
    destruct (IH (idx + 1) s1 r1 Hb1) as (o2 & s2 & r2 & E2 & Hb2 & He2 & Hs2 & Ht2).
    unfold run in E2. rewrite E2. exists (o1 ++ o2), s2, r2.
    rewrite Hs2, Ht2, He2, Hs1, Ht1, !app_assoc. by split_and!.
Qed.

(** The terminal event carries what was gathered. *)
Lemma run_message_stop s r :
  ar_CompletedSent s = false →
  ∃ out e s' resp,
    AnthropicEventToResponsesEvents (AnthropicStreamEvent0{{ ae_Type := "message_stop" }}) (s, r) =
      (out ++ [e], (s', r)) ∧
    ar_CompletedSent s' = true ∧
    re_Response e = Some resp ∧ rr_ID resp = ar_ResponseID s ∧ rr_Object resp = "response" ∧
    rr_Model resp = ar_Model s ∧
    (rr_Status resp, rr_IncompleteDetails resp) =
      anthropicResponsesStreamTerminalState (ar_StopReason s) ∧
    rr_Usage resp = Some (responses_usage (ar_InputTokens s) (ar_OutputTokens s)
                            (ar_CacheReadInputTokens s) (ar_CacheCreationInputTokens s)) ∧
    rr_Output resp = gathered s.
Proof.
  intros Hc. unfold gathered. destruct s; cbn in Hc; subst.
  unfold AnthropicEventToResponsesEvents, anthToResHandleMessageStop, complete,
    makeResponsesCompletedEvent, closeCurrentResponsesItem, makeResponsesEvent, the_state, update,
    mbind, St_bind.
  cbn -[anthropicResponsesStreamTerminalState responses_usage].
  destruct (ar_CurrentItemType ≟ ""); cbn -[anthropicResponsesStreamTerminalState responses_usage];
    destruct (anthropicResponsesStreamTerminalState ar_StopReason) as [status details] eqn:E;
    cbn -[responses_usage].
  - eexists [], _, _, _. split; [reflexivity|]. rewrite app_nil_r. by split_and!.
  - eexists [_], _, _, _. split; [reflexivity|]. by split_and!.
Qed.

(** ** The two agree *)

Definition start_event (h : message_head) : AnthropicStreamEvent :=
  AnthropicStreamEvent0{{ ae_Type := "message_start";
    ae_Message := Some (AnthropicResponse0{{ am_ID := mh_ID h; am_Model := mh_Model h;
                                             am_Usage := head_usage h }}) }}.

Definition end_event (h : message_head) : AnthropicStreamEvent :=
  AnthropicStreamEvent0{{ ae_Type := "message_delta";
     ae_Delta := Some (AnthropicDelta0{{ ad_StopReason := mh_StopReason h }});
     ae_Usage := Some (AnthropicUsage0{{ au_OutputTokens := mh_OutputTokens h }}) }}.

Definition sane (h : message_head) : Prop :=
  mh_ID h ≠ "" ∧ 0 <= mh_InputTokens h ∧ 0 <= mh_CacheRead h ∧ 0 <= mh_CacheCreation h.

Lemma if_pos_self z : 0 <= z → (if 0 <? z then z else 0) = z.
Proof. intros H. destruct (Z.ltb_spec 0 z); lia. Qed.

Lemma run_message_start h now r :
  sane h →
  ∃ out s1, AnthropicEventToResponsesEvents (start_event h)
      (NewAnthropicEventToResponsesState now, r) = (out, (s1, r)) ∧
    between s1 ∧ gathered s1 = [] ∧
    envelope s1 = (mh_ID h, mh_Model h, (true, false),
                   (mh_InputTokens h, 0, mh_CacheRead h, mh_CacheCreation h), "").
Proof.
  intros (_ & Hi & Hr & Hc).
  unfold AnthropicEventToResponsesEvents, anthToResHandleMessageStart, makeResponsesCreatedEvent,
    the_state, update, mbind, St_bind. cbn -[Z.ltb].
  pose proof (if_pos_self _ Hi) as Hi'. pose proof (if_pos_self _ Hr) as Hr'.
  pose proof (if_pos_self _ Hc) as Hc'.
  destruct (0 <? mh_InputTokens h), (0 <? mh_CacheRead h), (0 <? mh_CacheCreation h);
    cbn; eexists _, _; (split; [reflexivity|]); unfold between, gathered, envelope; cbn;
    split_and!; auto; congruence.
Qed.

Lemma run_message_delta h s r :
  ar_StopReason s = "" →
  ∃ s1, AnthropicEventToResponsesEvents (end_event h) (s, r) = ([], (s1, r)) ∧
    gathered s1 = gathered s ∧
    envelope s1 = (ar_ResponseID s, ar_Model s, (ar_CreatedSent s, ar_CompletedSent s),
      (ar_InputTokens s, mh_OutputTokens h, ar_CacheReadInputTokens s,
       ar_CacheCreationInputTokens s), mh_StopReason h).
Proof.
  intros Hs. destruct s; cbn in Hs; subst.
  unfold AnthropicEventToResponsesEvents, anthToResHandleMessageDelta, update, mbind, St_bind.
  cbn. destruct (String.eqb_spec (mh_StopReason h) "") as [-> | _]; cbn;
    eexists; (split; [reflexivity|]); done.
Qed.



(** A connection that breaks off inside a text block: the client has received the text as
    deltas, and the [response.completed] that closes the stream says the message is empty. *)
Example broken_text_missing_from_completed :
  let events :=
    (convertAnthropicStream
       [start_event (MkMessageHead "msg_1" "claude" 1 0 0 1 "");
        AnthropicStreamEvent0{{ ae_Type := "content_block_start"; ae_Index := Some 0;
                                ae_ContentBlock := Some (block_started (BText [])) }};
        ev_block_delta 0 (block_delta (BText []) "Hello")]
       (NewAnthropicEventToResponsesState 0, Rng (λ _, []) 0)).1 in
  (map re_Delta events, texts <$> (rr_Output <$> (last events ≫= re_Response))) =
  (["" ; ""; ""; "Hello"; ""; ""], Some []) ∧
  (re_Type <$> last events) = Some "response.completed".
Proof. by vm_compute. Qed.
