(* ===== verification/ChatToResponses.v ===== *)
(** * ChatToResponses: Chat Completions answers as Responses

    Models the conversion of whole responses in
    [backend/internal/pkg/apicompat/chatcompletions_responses_bridge.go], with the calls of
    downgraded tools (custom, namespaced, [tool_search]) restored under their own types.  [now] is
    [time.Now().Unix()]; SHA-256 is a parameter. *)

From stdpp Require Import base tactics numbers list strings gmap.
From Stdlib Require Import ZArith Lia.
From S2P Require Import Prelude GoLib GoJson ApiTypes AnthropicToResponses.

Local Open Scope go_scope.
Local Open Scope Z_scope.

(** ** The text of a message *)

(** The content of a message is a JSON string or an array of parts. *)
Definition image_url_field (name raw : string) (i : ChatImageURL) : option ChatImageURL :=
  switch name
    [ (["url"], s ← decode_string (ci_URL i) raw; Some (i{{ ci_URL := s }}));
      (["detail"], s ← decode_string (ci_Detail i) raw; Some (i{{ ci_Detail := s }})) ]
    (Some i).

Definition file_field (name raw : string) (f : ChatFile) : option ChatFile :=
  switch name
    [ (["filename"], s ← decode_string (cf_Filename f) raw; Some (f{{ cf_Filename := s }}));
      (["file_data"], s ← decode_string (cf_FileData f) raw; Some (f{{ cf_FileData := s }}));
      (["file_id"], s ← decode_string (cf_FileID f) raw; Some (f{{ cf_FileID := s }})) ]
    (Some f).

Definition content_part_field (name raw : string) (p : ChatContentPart) : option ChatContentPart :=
  switch name
    [ (["type"], s ← decode_string (cp_Type p) raw; Some (p{{ cp_Type := s }}));
      (["text"], s ← decode_string (cp_Text p) raw; Some (p{{ cp_Text := s }}));
      (["image_url"],
       i ← decode_pointer image_url_field (MkChatImageURL "" "") (cp_ImageURL p) raw;
       Some (p{{ cp_ImageURL := i }}));
      (["file"],
       f ← decode_pointer file_field (MkChatFile "" "" "") (cp_File p) raw;
       Some (p{{ cp_File := f }})) ]
    (Some p).

(** [json.Unmarshal] into a [[]ChatContentPart]. *)
Definition UnmarshalChatContentParts (raw : string) : option (list ChatContentPart) :=
  elements ← UnmarshalRawList raw;
  mapM (decode_struct content_part_field ChatContentPart0) elements.

(** [strings.Join] *)
Fixpoint Join (l : list string) (sep : string) : string :=
  match l with
  | [] => ""
  | [s] => s
  | s :: l' => s +:+ sep +:+ Join l' sep
  end.


Definition chatMessageContentText (raw : string) : string :=
  let raw := TrimSpace raw in
  if (raw ≟ "") || (raw ≟ "null") then "" else
  match UnmarshalString raw with
  | Some text => text
  | None =>
      match UnmarshalChatContentParts raw with
      | Some parts =>
          Join (cp_Text <$> filter (λ part, (cp_Type part ≟ "text") && negb (cp_Text part ≟ "") = true)
                  parts) (newline +:+ newline)
      | None => ""
      end
  end.

(** ** Tools that were downgraded to functions *)

Record NamespacedToolName : Type := MkNamespacedToolName {
  nt_Namespace : string;
  nt_Name : string
}.

Definition toolSearchProxyName : string := "tool_search".
Definition chatToolNameMaxLen : Z := 64.

Definition slen (s : string) : Z := Z.of_nat (String.length s).

(** The runes of [full] that fit the limit after the [used] bytes written; every turn takes a
    byte at least. *)
Fixpoint fitting_runes (fuel : nat) (used limit : Z) (full : string) : string :=
  match fuel, full with
  | O, _ | _, EmptyString => EmptyString
  | S fuel, String _ rest =>
      let '(ch, rest) :=
        match rune_len full with
        | Some n =>
            (String.substring 0 n full, String.substring n (String.length full - n) full)
        | None => (replacement, rest)
        end in
      if used + slen ch >? limit then EmptyString
      else ch +:+ fitting_runes fuel (used + slen ch) limit rest
  end.

Section Conversion.
Context (sha256_hex : string → string).

(** [hex.EncodeToString(sum[:4])] is the first eight digits of the sum. *)
Definition flattenNamespaceToolName (namespace name : string) : string :=
  let full := namespace +:+ "__" +:+ name in
  if slen full <=? chatToolNameMaxLen then full else
  let suffix := "__" +:+ String.substring 0 8 (sha256_hex full) in
  fitting_runes (String.length full) 0 (chatToolNameMaxLen - slen suffix) full +:+ suffix.

(** The search for the one custom tool an alias may stand for; [None] when there are two.  Go
    ranges over the maps in any order. *)
Definition custom_alias (name : string) (customTools : gmap string bool)
    (namespaceTools : gmap string NamespacedToolName) : option string :=
  foldl (λ acc '(customName, namespaceTool),
      m ← acc;
      if negb (flattenNamespaceToolName (nt_Namespace namespaceTool) customName ≟ name) then Some m
      else if negb (m ≟ "") && negb (m ≟ customName) then None else Some customName)
    (Some "")
    (customName ← (map_to_list customTools).*1;
     namespaceTool ← (map_to_list namespaceTools).*2;
     [(customName, namespaceTool)]).

(** The pair ["", false] is [None]. *)
Definition customToolCallName (name : string) (customTools functionTools : gmap string bool)
    (namespaceTools : gmap string NamespacedToolName) : option string :=
  if default false (functionTools !! name) then None
  else if default false (customTools !! name) then Some name
  else
    match namespaceTools !! name with
    | Some _ => None
    | None =>
        m ← custom_alias name customTools namespaceTools;
        if m ≟ "" then None else Some m
    end.

Definition extractCustomToolCallInput (arguments : string) : string :=
  let trimmed := TrimSpace arguments in
  if trimmed ≟ "" then "" else
  match UnmarshalRawMap trimmed with
  | None => trimmed
  | Some obj =>
      match obj !! "input" with
      | Some raw => match UnmarshalString raw with Some s => s | None => trimmed end
      | None => if decide (obj = ∅) then "" else trimmed
      end
  end.

(** ** Whole responses *)

Definition emptyResponsesMessageOutput : St rng ResponsesOutput :=
  id ← generateItemID;
  mret (message_item id [ResponsesContentPart0{{ rp_Type := "output_text"; rp_Text := "" }}]).

(** The arguments of a call; none are an empty object. *)
Definition call_arguments (toolCall : ChatToolCall) : string :=
  let arguments := fc_Arguments (tc_Function toolCall) in
  if TrimSpace arguments ≟ "" then "{}" else arguments.

(** The turn of the loop of [chatMessageToResponsesOutput] for one call. *)
Definition toolCallOutputs (customTools functionTools : gmap string bool) (toolSearch : bool)
    (namespaceTools : gmap string NamespacedToolName) (toolCall : ChatToolCall)
    : St rng (list ResponsesOutput) :=
  let name := fc_Name (tc_Function toolCall) in
  let arguments := call_arguments toolCall in
  match customToolCallName name customTools functionTools namespaceTools with
  | Some customName =>
      id ← generateItemID;
      mret [ResponsesOutput0{{ ro_Type := "custom_tool_call";
                               ro_ID := id;
                               ro_CallID := tc_ID toolCall;
                               ro_Name := customName;
                               ro_Input := extractCustomToolCallInput arguments;
                               ro_Status := "completed" }}]
  | None =>
      if toolSearch && (name ≟ toolSearchProxyName) then
        id ← generateItemID;
        mret [ResponsesOutput0{{ ro_Type := "tool_search_call";
                                 ro_ID := id;
                                 ro_CallID := tc_ID toolCall;
                                 ro_Arguments := arguments;
                                 ro_Status := "completed" }}]
      else if negb (Valid arguments) then mret []
      else
        let '(name, namespace) :=
          match namespaceTools !! name with
          | Some ns => (nt_Name ns, nt_Namespace ns)
          | None => (name, "")
          end in
        id ← generateItemID;
        mret [ResponsesOutput0{{ ro_Type := "function_call";
                                 ro_ID := id;
                                 ro_CallID := tc_ID toolCall;
                                 ro_Name := name;
                                 ro_Namespace := namespace;
                                 ro_Arguments := arguments;
                                 ro_Status := "completed" }}]
  end.

Definition no_calls (message : ChatMessage) : bool :=
  match cm_ToolCalls message with [] => true | _ => false end.

(** The visible text of a message; a message that only reasons shows its reasoning. *)
Definition visible_text (message : ChatMessage) : string :=
  let text := chatMessageContentText (cm_Content message) in
  let reasoning := message_reasoningText message in
  if (text ≟ "") && negb (TrimSpace reasoning ≟ "") && no_calls message then reasoning else text.

Definition chatMessageToResponsesOutput (message : ChatMessage)
    (customTools functionTools : gmap string bool) (toolSearch : bool)
    (namespaceTools : gmap string NamespacedToolName) : St rng (list ResponsesOutput) :=
  let reasoning := message_reasoningText message in
  let text := visible_text message in
  (if negb (reasoning ≟ "")
   then id ← generateItemID;
        mret [ResponsesOutput0{{ ro_Type := "reasoning";
                                 ro_ID := id;
                                 ro_Summary := [MkResponsesSummary "summary_text" reasoning] }}]
   else mret []) +>
  (if negb (text ≟ "") || no_calls message
   then id ← generateItemID;
        mret [message_item id [ResponsesContentPart0{{ rp_Type := "output_text";
                                                       rp_Text := text }}]]
   else mret []) +>
  run_machine (toolCallOutputs customTools functionTools toolSearch namespaceTools)
    (cm_ToolCalls message).

Definition ChatUsageToResponsesUsage (usage : option ChatUsage) : option ResponsesUsage :=
  match usage with
  | None => None
  | Some usage =>
      let input := cu_PromptTokens usage in
      let output := cu_CompletionTokens usage in
      let out := ResponsesUsage0{{ ru_InputTokens := input;
                                   ru_OutputTokens := output;
                                   ru_TotalTokens :=
                                     if cu_TotalTokens usage =? 0 then input +! output
                                     else cu_TotalTokens usage }} in
      match cu_PromptTokensDetails usage with
      | Some d =>
          if (0 <? td_CachedTokens d) || (0 <? td_CacheCreationTokens d) ||
             (0 <? td_CacheWriteTokens d)
          then Some (out{{ ru_InputTokensDetails :=
                             Some (ResponsesInputTokensDetails0{{
                               rid_CachedTokens := td_CachedTokens d;
                               rid_CacheCreationTokens := td_CacheCreationTokens d;
                               rid_CacheWriteTokens := td_CacheWriteTokens d }});
                           ru_CacheCreationInputTokens :=
                             if 0 <? td_CacheWriteTokens d then td_CacheWriteTokens d
                             else td_CacheCreationTokens d }})
          else Some out
      | None => Some out
      end
  end.

Definition chatServiceTier (resp : option ChatCompletionsResponse) : string :=
  match resp with None => "" | Some resp => cr_ServiceTier resp end.

Definition ChatCompletionsResponseToResponses (now : Z) (resp : option ChatCompletionsResponse)
    (model : string) (customTools functionTools : gmap string bool) (toolSearch : bool)
    (namespaceTools : gmap string NamespacedToolName) : St rng ResponsesResponse :=
  let id := match resp with Some resp => cr_ID resp | None => "" end in
  id ← (if id ≟ "" then generateResponsesID else mret id);
  let createdAt := match resp with Some resp => cr_Created resp | None => 0 end in
  let createdAt := if createdAt <=? 0 then now else createdAt in
  let out := ResponsesResponse0{{ rr_ID := id;
                                  rr_Object := "response";
                                  rr_CreatedAt := createdAt;
                                  rr_Model := model;
                                  rr_Status := "completed";
                                  rr_ServiceTier := chatServiceTier resp }} in
  match resp with
  | None => item ← emptyResponsesMessageOutput; mret (out{{ rr_Output := [item] }})
  | Some resp =>
      let out := if model ≟ "" then out{{ rr_Model := cr_Model resp }} else out in
      out ← (match cr_Choices resp with
             | [] => mret out
             | choice :: _ =>
                 output ← chatMessageToResponsesOutput (ch_Message choice) customTools
                            functionTools toolSearch namespaceTools;
                 let out := out{{ rr_Output := output }} in
                 mret (if ch_FinishReason choice ≟ "length"
                       then out{{ rr_Status := "incomplete";
                                  rr_IncompleteDetails :=
                                    Some (MkResponsesIncompleteDetails "max_output_tokens") }}
                       else out)
             end);
      out ← (match rr_Output out with
             | [] => item ← emptyResponsesMessageOutput; mret (out{{ rr_Output := [item] }})
             | _ => mret out
             end);
      mret (match cr_Usage resp with
            | Some _ => out{{ rr_Usage := ChatUsageToResponsesUsage (cr_Usage resp) }}
            | None => out
            end)
  end.
End Conversion.
