(* ===== verification/ChatToAnthropic.v ===== *)
(** * ChatToAnthropic: Chat Completions answers and streams as Anthropic Messages

    Models the direct bridge of
    [backend/internal/pkg/apicompat/chatcompletions_anthropic_bridge.go]: whole responses, and the
    stateful conversion of a stream of chunks, which gathers the pieces of tool calls. *)

From stdpp Require Import base tactics numbers list sorting strings gmap.
From Stdlib Require Import ZArith Lia.
From S2P Require Import Prelude GoLib GoJson ApiTypes ResponsesToAnthropic AnthropicToResponses.
From S2P Require Import ChatToResponses.

Local Open Scope go_scope.
Local Open Scope Z_scope.

(** ** Whole responses *)

Definition chatMessageToAnthropicBlocks (message : ChatMessage) : list AnthropicContentBlock :=
  let reasoning := message_reasoningText message in
  let text := visible_text message in
  (if negb (reasoning ≟ "")
   then [AnthropicContentBlock0{{ cb_Type := "thinking"; cb_Thinking := reasoning }}] else []) ++
  (if negb (text ≟ "") || no_calls message
   then [AnthropicContentBlock0{{ cb_Type := "text"; cb_Text := text }}] else []) ++
  ((λ toolCall,
      AnthropicContentBlock0{{ cb_Type := "tool_use";
                               cb_ID := fromResponsesCallID (tc_ID toolCall);
                               cb_Name := fc_Name (tc_Function toolCall);
                               cb_Input := sanitizeAnthropicToolUseInput
                                             (fc_Name (tc_Function toolCall))
                                             (call_arguments toolCall) }})
     <$> cm_ToolCalls message).

Definition chatFinishReasonToAnthropicStopReason (reason : string)
    (blocks : list AnthropicContentBlock) : string :=
  switch reason
    [ (["length"], "max_tokens");
      (["tool_calls"], "tool_use") ]
    (if containsAnthropicToolUseBlock blocks then "tool_use" else "end_turn").

Definition chatUsageToAnthropicUsage (usage : option ChatUsage) : AnthropicUsage :=
  match usage with
  | None => AnthropicUsage0
  | Some usage =>
      let '(cachedTokens, cacheCreationTokens) :=
        match cu_PromptTokensDetails usage with
        | Some d =>
            (td_CachedTokens d,
             if 0 <? td_CacheWriteTokens d then td_CacheWriteTokens d else td_CacheCreationTokens d)
        | None => (0, 0)
        end in
      let inputTokens := cu_PromptTokens usage -! cachedTokens -! cacheCreationTokens in
      let inputTokens := if inputTokens <? 0 then 0 else inputTokens in
      AnthropicUsage0{{ au_InputTokens := inputTokens;
                        au_OutputTokens := cu_CompletionTokens usage;
                        au_CacheReadInputTokens := cachedTokens;
                        au_CacheCreationInputTokens := cacheCreationTokens }}
  end.

Definition ChatCompletionsResponseToAnthropic (resp : option ChatCompletionsResponse)
    (model : string) : St rng AnthropicResponse :=
  let out := AnthropicResponse0{{ am_Type := "message"; am_Role := "assistant";
                                  am_Model := model }} in
  let out :=
    match resp with
    | None => out
    | Some resp =>
        let out := out{{ am_ID := cr_ID resp }} in
        let out := if am_Model out ≟ "" then out{{ am_Model := cr_Model resp }} else out in
        let out :=
          match cr_Choices resp with
          | [] => out
          | choice :: _ =>
              let content := chatMessageToAnthropicBlocks (ch_Message choice) in
              out{{ am_Content := content;
                    am_StopReason :=
                      AnthropicStopReasonPtr
                        (chatFinishReasonToAnthropicStopReason (ch_FinishReason choice) content) }}
          end in
        match cr_Usage resp with
        | Some _ => out{{ am_Usage := chatUsageToAnthropicUsage (cr_Usage resp) }}
        | None => out
        end
    end in
  let out :=
    match am_Content out with
    | [] => out{{ am_Content := [AnthropicContentBlock0{{ cb_Type := "text"; cb_Text := "" }}] }}
    | _ => out
    end in
  let out :=
    if AnthropicStopReasonString (am_StopReason out) ≟ ""
    then out{{ am_StopReason :=
                 AnthropicStopReasonPtr
                   (chatFinishReasonToAnthropicStopReason "" (am_Content out)) }}
    else out in
  if am_ID out ≟ "" then id ← generateResponsesID; mret (out{{ am_ID := id }}) else mret out.

(** ** Streams *)

(** A tool call is known by its index in the upstream's message: the content block it was
    announced with, whether it was announced, its name; the identifier and the arguments that
    came before its name. *)
Record ChatCompletionsToAnthropicStreamState : Type := MkChatCompletionsToAnthropicStreamState {
  ca_MessageStartSent : bool;
  ca_MessageStopSent : bool;
  ca_ContentBlockIndex : Z;
  ca_ContentBlockOpen : bool;
  ca_CurrentBlockType : string;
  ca_CurrentToolName : string;
  ca_CurrentToolHadDelta : bool;
  ca_HasToolCall : bool;
  ca_toolBlockIndex : gmap Z Z;
  ca_toolAnnounced : gmap Z bool;
  ca_toolName : gmap Z string;
  ca_pendingToolCallID : gmap Z string;
  ca_pendingToolArgs : gmap Z string;
  ca_FinishReason : string;
  ca_InputTokens : Z;
  ca_OutputTokens : Z;
  ca_CacheReadInputTokens : Z;
  ca_CacheCreationInputTokens : Z;
  ca_ResponseID : string;
  ca_Model : string;
  ca_Created : Z
}.

Definition NewChatCompletionsToAnthropicStreamState (now : Z) (model : string)
    : St rng ChatCompletionsToAnthropicStreamState :=
  id ← generateResponsesID;
  mret (MkChatCompletionsToAnthropicStreamState false false 0 false "" "" false false
          ∅ ∅ ∅ ∅ ∅ "" 0 0 0 0 id model now).

(** What emits events and changes the state; a handler may draw identifiers as well. *)
Definition CCEmit : Type := St ChatCompletionsToAnthropicStreamState (list AnthropicStreamEvent).
Definition CCst : Type := ChatCompletionsToAnthropicStreamState * rng.
Definition CC (A : Type) : Type := St CCst A.

Definition emit (h : CCEmit) : CC (list AnthropicStreamEvent) :=
  λ '(s, r), let '(events, s) := h s in (events, (s, r)).
Definition cc_state : CC ChatCompletionsToAnthropicStreamState := λ w, (w.1, w).
Definition cc_update
    (f : ChatCompletionsToAnthropicStreamState → ChatCompletionsToAnthropicStreamState) : CC unit :=
  λ '(s, r), (tt, (f s, r)).
Definition cc_fresh_item_id : CC string :=
  λ '(s, r), let '(id, r) := generateItemID r in (id, (s, r)).

Definition ensureCCAnthropicMessageStart : CCEmit := λ state,
  if ca_MessageStartSent state then ([], state) else
  ([AnthropicStreamEvent0{{ ae_Type := "message_start";
      ae_Message := Some (AnthropicResponse0{{ am_ID := ca_ResponseID state;
                                               am_Type := "message";
                                               am_Role := "assistant";
                                               am_Content := [];
                                               am_Model := ca_Model state;
                                               am_StopReason := None;
                                               am_Usage := AnthropicUsage0 }}) }}],
   state{{ ca_MessageStartSent := true }}).

(** A tool call without arguments gets an empty object. *)
Definition closeCCAnthropicBlock : CCEmit := λ state,
  if negb (ca_ContentBlockOpen state) then ([], state) else
  let idx := ca_ContentBlockIndex state in
  let events :=
    if (ca_CurrentBlockType state ≟ "tool_use") && negb (ca_CurrentToolHadDelta state)
    then [block_delta idx (json_delta "{}")] else [] in
  (events ++ [block_stop idx],
   state{{ ca_ContentBlockOpen := false;
           ca_ContentBlockIndex := idx +! 1;
           ca_CurrentBlockType := "";
           ca_CurrentToolName := "";
           ca_CurrentToolHadDelta := false }}).

Definition closeCCAnthropicBlockIfOpen (blockType : string) : CCEmit := λ state,
  if negb (ca_ContentBlockOpen state) || negb (ca_CurrentBlockType state ≟ blockType)
  then ([], state) else closeCCAnthropicBlock state.

(** Announce a block of the current type at the current index. *)
Definition openCCAnthropicBlock (blockType : string) : CCEmit := λ state,
  ([block_start (ca_ContentBlockIndex state) (AnthropicContentBlock0{{ cb_Type := blockType }})],
   state{{ ca_ContentBlockOpen := true; ca_CurrentBlockType := blockType }}).

Definition ensureCCAnthropicBlock (blockType : string) : CCEmit := λ state,
  if ca_ContentBlockOpen state && (ca_CurrentBlockType state ≟ blockType) then ([], state) else
  (closeCCAnthropicBlock +> openCCAnthropicBlock blockType) state.

Definition ensureCCAnthropicThinkingBlock : CCEmit := ensureCCAnthropicBlock "thinking".
Definition ensureCCAnthropicTextBlock : CCEmit := ensureCCAnthropicBlock "text".

Definition ccAnthropicDelta (delta : AnthropicDelta) : CCEmit := λ state,
  if negb (ca_ContentBlockOpen state) then ([], state) else
  ([block_delta (ca_ContentBlockIndex state) delta], state).

(** The call [idx], named [name], has the block at the current index. *)
Definition cc_announced (idx : Z) (name : string) (state : ChatCompletionsToAnthropicStreamState)
    : ChatCompletionsToAnthropicStreamState :=
  state{{ ca_toolBlockIndex := <[idx := ca_ContentBlockIndex state]> (ca_toolBlockIndex state);
          ca_toolAnnounced := <[idx := true]> (ca_toolAnnounced state);
          ca_toolName := <[idx := name]> (ca_toolName state);
          ca_CurrentToolName := name;
          ca_CurrentToolHadDelta := false;
          ca_ContentBlockOpen := true;
          ca_CurrentBlockType := "tool_use";
          ca_pendingToolCallID := delete idx (ca_pendingToolCallID state) }}.

Definition tool_use_block (callID name : string) : AnthropicContentBlock :=
  AnthropicContentBlock0{{ cb_Type := "tool_use";
                           cb_ID := fromResponsesCallID callID;
                           cb_Name := name;
                           cb_Input := "{}" }}.

Definition announceCCAnthropicToolBlock (idx : Z) (callID name : string) : CCEmit := λ state,
  let blockIdx := ca_ContentBlockIndex state in
  let state := cc_announced idx name state in
  let pending := default "" (ca_pendingToolArgs state !! idx) in
  if pending ≟ "" then ([block_start blockIdx (tool_use_block callID name)], state) else
  ([block_start blockIdx (tool_use_block callID name); block_delta blockIdx (json_delta pending)],
   state{{ ca_pendingToolArgs := delete idx (ca_pendingToolArgs state);
           ca_CurrentToolHadDelta := true }}).

(** The announcement of the call, once it is named. *)
Definition announceCCToolCall (idx : Z) (toolCall : ChatToolCall) : CC (list AnthropicStreamEvent) :=
  let name := fc_Name (tc_Function toolCall) in
  state ← cc_state;
  match ca_toolAnnounced state !! idx with
  | None =>
      emit closeCCAnthropicBlock +>
      (_ ← cc_update (λ s, s{{ ca_HasToolCall := true }});
       callID ← (if tc_ID toolCall ≟ "" then cc_fresh_item_id else mret (tc_ID toolCall));
       if negb (name ≟ "") then emit (announceCCAnthropicToolBlock idx callID name)
       else
         _ ← cc_update (λ s, s{{ ca_toolAnnounced := <[idx := false]> (ca_toolAnnounced s);
                                 ca_pendingToolCallID :=
                                   <[idx := callID]> (ca_pendingToolCallID s) }});
         mret [])
  | Some announced =>
      if negb announced && negb (name ≟ "") then
        let callID := default "" (ca_pendingToolCallID state !! idx) in
        let callID := if tc_ID toolCall ≟ "" then callID else tc_ID toolCall in
        emit (closeCCAnthropicBlock +> announceCCAnthropicToolBlock idx callID name)
      else mret []
  end.

(** The argument fragment of the call: for its block, or kept until the block is announced. *)
Definition fragmentCCToolCall (idx : Z) (arguments : string) : CCEmit := λ state,
  if arguments ≟ "" then ([], state) else
  if default false (ca_toolAnnounced state !! idx) then
    let blockIdx := default 0 (ca_toolBlockIndex state !! idx) in
    let state :=
      if ca_ContentBlockOpen state && (blockIdx =? ca_ContentBlockIndex state)
      then state{{ ca_CurrentToolHadDelta := true }} else state in
    ([block_delta blockIdx (json_delta arguments)], state)
  else
    ([], state{{ ca_pendingToolArgs :=
                   <[idx := default "" (ca_pendingToolArgs state !! idx) +:+ arguments]>
                     (ca_pendingToolArgs state) }}).

Definition handleCCAnthropicToolCall (toolCall : ChatToolCall) : CC (list AnthropicStreamEvent) :=
  let idx := default 0 (tc_Index toolCall) in
  announceCCToolCall idx toolCall +>
  emit (fragmentCCToolCall idx (fc_Arguments (tc_Function toolCall))).

(** The turn of the loop of [ChatCompletionsChunkToAnthropicEvents] for one choice. *)
Definition ccChoiceEvents (choice : ChatChunkChoice) : CC (list AnthropicStreamEvent) :=
  let delta := ck_Delta choice in
  let reasoning := default "" (delta_reasoningText delta) in
  let content := default "" (cd_Content delta) in
  emit (if reasoning ≟ "" then mret [] else
        ensureCCAnthropicThinkingBlock +>
        ccAnthropicDelta (AnthropicDelta0{{ ad_Type := "thinking_delta";
                                            ad_Thinking := reasoning }})) +>
  emit (if content ≟ "" then mret [] else
        closeCCAnthropicBlockIfOpen "thinking" +>
        ensureCCAnthropicTextBlock +>
        ccAnthropicDelta (AnthropicDelta0{{ ad_Type := "text_delta"; ad_Text := content }})) +>
  run_machine (λ toolCall, emit (closeCCAnthropicBlockIfOpen "thinking") +>
                           handleCCAnthropicToolCall toolCall) (cd_ToolCalls delta) +>
  (_ ← cc_update (λ s,
        let reason := default "" (ck_FinishReason choice) in
        if reason ≟ "" then s else s{{ ca_FinishReason := reason }});
   mret []).

(** What a chunk tells about the message. *)
Definition record_chunk (chunk : ChatCompletionsChunk)
    (state : ChatCompletionsToAnthropicStreamState) : ChatCompletionsToAnthropicStreamState :=
  let state :=
    if cx_ID chunk ≟ "" then state else state{{ ca_ResponseID := cx_ID chunk }} in
  let state :=
    if (ca_Model state ≟ "") && negb (cx_Model chunk ≟ "")
    then state{{ ca_Model := cx_Model chunk }} else state in
  match cx_Usage chunk with
  | None => state
  | Some _ =>
      let u := chatUsageToAnthropicUsage (cx_Usage chunk) in
      state{{ ca_InputTokens := au_InputTokens u;
              ca_OutputTokens := au_OutputTokens u;
              ca_CacheReadInputTokens := au_CacheReadInputTokens u;
              ca_CacheCreationInputTokens := au_CacheCreationInputTokens u }}
  end.

Definition ChatCompletionsChunkToAnthropicEvents (chunk : option ChatCompletionsChunk)
    : CC (list AnthropicStreamEvent) :=
  match chunk with
  | None => mret []
  | Some chunk =>
      _ ← cc_update (record_chunk chunk);
      emit ensureCCAnthropicMessageStart +> run_machine ccChoiceEvents (cx_Choices chunk)
  end.

Definition ccFinishReasonToAnthropicStopReason (reason : string) (hasToolCall : bool) : string :=
  switch reason
    [ (["length"], "max_tokens");
      (["tool_calls"], "tool_use");
      (["stop"], if hasToolCall then "tool_use" else "end_turn") ]
    (if hasToolCall then "tool_use" else "end_turn").

(** The keys of [pendingToolCallID], sorted. *)
Definition pending_calls (state : ChatCompletionsToAnthropicStreamState) : list Z :=
  merge_sort Z.le (map_to_list (ca_pendingToolCallID state)).*1.

(** The calls whose name never arrived. *)
Definition announcePending (idx : Z) : CCEmit := λ state,
  let callID := default "" (ca_pendingToolCallID state !! idx) in
  (closeCCAnthropicBlock +> announceCCAnthropicToolBlock idx callID "") state.

(** The last two events of a message. *)
Definition ccStop : CCEmit := λ state,
  ([AnthropicStreamEvent0{{ ae_Type := "message_delta";
      ae_Delta := Some (AnthropicDelta0{{ ad_StopReason :=
        ccFinishReasonToAnthropicStopReason (ca_FinishReason state) (ca_HasToolCall state) }});
      ae_Usage := Some (AnthropicUsage0{{
        au_InputTokens := ca_InputTokens state;
        au_OutputTokens := ca_OutputTokens state;
        au_CacheReadInputTokens := ca_CacheReadInputTokens state;
        au_CacheCreationInputTokens := ca_CacheCreationInputTokens state }}) }};
    AnthropicStreamEvent0{{ ae_Type := "message_stop" }}],
   state{{ ca_MessageStopSent := true }}).

Definition FinalizeChatCompletionsAnthropicStream : CCEmit := λ state,
  if ca_MessageStopSent state then ([], state) else
  (ensureCCAnthropicMessageStart +>
   (λ state, run_machine announcePending (pending_calls state) state) +>
   closeCCAnthropicBlock +>
   ccStop) state.

(** A whole stream: the chunks of the upstream, then the end of the connection. *)
Definition convertChunks (chunks : list (option ChatCompletionsChunk))
    : CC (list AnthropicStreamEvent) :=
  run_machine ChatCompletionsChunkToAnthropicEvents chunks +>
  emit FinalizeChatCompletionsAnthropicStream.
