(* ===== verification/ChatToAnthFacts.v ===== *)
(** * ChatToAnthFacts: the client of a stream converted from Chat Completions

    The converted stream as its client sees it: the rules of content blocks, with every delta of
    the kind of its block. *)

From stdpp Require Import base tactics numbers list sorting strings gmap.
From Stdlib Require Import ZArith Lia.
From S2P Require Import Prelude GoLib GoJson ApiTypes Upstream ResponsesToAnthropic ResToAnthFacts.
From S2P Require Import AnthropicToResponses ChatToResponses ChatToAnthropic.

Local Open Scope go_scope.
Local Open Scope Z_scope.

(** ** The typed client *)

(** The kind of block a delta belongs to. *)
Definition delta_kind (d : AnthropicDelta) : option string :=
  switch (ad_Type d)
    [ (["text_delta"], Some "text");
      (["thinking_delta"; "signature_delta"], Some "thinking");
      (["input_json_delta"], Some "tool_use") ]
    None.

(** The client of [ResToAnthFacts] with the kind of every block announced so far. *)
Record typed_client : Type := TypedClient {
  t_client : client;
  t_kinds : gmap Z string
}.

Definition new_typed : typed_client := TypedClient new_client ∅.

(** The strict rules; no index is announced twice, and a delta is of the kind of its block. *)
Definition typed_observe (q : option typed_client) (e : AnthropicStreamEvent)
    : option typed_client :=
  t ← q;
  c ← observe true (Some (t_client t)) e;
  switch (ae_Type e)
    [ (["content_block_start"],
       match ae_Index e, ae_ContentBlock e with
       | Some i, Some b =>
           if bool_decide (t_kinds t !! i = None)
           then Some (TypedClient c (<[i := cb_Type b]> (t_kinds t))) else None
       | _, _ => None
       end);
      (["content_block_delta"],
       match ae_Index e, ae_Delta e with
       | Some i, Some d =>
           if bool_decide (t_kinds t !! i = delta_kind d)
           then Some (TypedClient c (t_kinds t)) else None
       | _, _ => None
       end) ]
    (Some (TypedClient c (t_kinds t))).

Definition typed_observes : option typed_client → list AnthropicStreamEvent → option typed_client :=
  foldl typed_observe.

Lemma typed_start t b :
  during_c true (t_client t) = true → c_open (t_client t) = None →
  t_kinds t !! c_next (t_client t) = None →
  typed_observe (Some t) (block_start (c_next (t_client t)) b) =
    Some (TypedClient
      ((t_client t){{ c_open := Some (cb_Type b);
                      c_seen := {[ c_next (t_client t) ]} ∪ c_seen (t_client t) }})
      (<[c_next (t_client t) := cb_Type b]> (t_kinds t))).
Proof.
  intros Hd Ho Hk. unfold typed_observe. cbn [mbind option_bind].
  rewrite observe_start by done. cbn -[insert]. by rewrite bool_decide_eq_true_2.
Qed.

Lemma typed_stop t ty :
  during_c true (t_client t) = true → c_open (t_client t) = Some ty →
  typed_observe (Some t) (block_stop (c_next (t_client t))) =
    Some (TypedClient
      ((t_client t){{ c_open := None; c_next := c_next (t_client t) +! 1 }}) (t_kinds t)).
Proof.
  intros Hd Ho. unfold typed_observe. cbn [mbind option_bind].
  by rewrite (observe_stop _ _ _ Hd Ho).
Qed.

Lemma typed_delta t i d :
  during_c true (t_client t) = true → delta_ok (t_client t) i d = true →
  t_kinds t !! i = delta_kind d →
  typed_observe (Some t) (block_delta i d) = Some t.
Proof.
  intros Hd Ho Hk. unfold typed_observe. cbn [mbind option_bind].
  rewrite observe_delta by done. cbn -[delta_kind]. rewrite bool_decide_eq_true_2 by done.
  by destruct t.
Qed.

(** ** The invariant *)

Definition typed_view (s : ChatCompletionsToAnthropicStreamState) (K : gmap Z string)
    : typed_client :=
  TypedClient
    (Client (ca_MessageStartSent s) (ca_MessageStopSent s) (ca_MessageStopSent s)
       (ca_ContentBlockIndex s)
       (if ca_ContentBlockOpen s then Some (ca_CurrentBlockType s) else None) (dom K)) K.

(** [K] has the kinds of the blocks up to the current one; calls that were announced have a block
    for their arguments. *)
Record well_typed (s : ChatCompletionsToAnthropicStreamState) (K : gmap Z string) : Prop := {
  wt_index : 0 <= ca_ContentBlockIndex s;
  wt_dom : ∀ i, is_Some (K !! i) →
    i < ca_ContentBlockIndex s + (if ca_ContentBlockOpen s then 1 else 0);
  wt_open : ca_ContentBlockOpen s = true →
    K !! ca_ContentBlockIndex s = Some (ca_CurrentBlockType s);
  wt_calls : ∀ t, ca_toolAnnounced s !! t = Some true →
    ∃ b, ca_toolBlockIndex s !! t = Some b ∧ K !! b = Some "tool_use"
}.

(** The client accepts what was emitted, as long as the indices of blocks do not wrap around. *)
Definition sees (started : bool) (s : ChatCompletionsToAnthropicStreamState)
    (out : list AnthropicStreamEvent) : Prop :=
  Z.of_nat (length out) < 2 ^ 63 →
  ∃ K, typed_observes (Some new_typed) out = Some (typed_view s K) ∧ well_typed s K ∧
       ca_ContentBlockIndex s <= Z.of_nat (length out) ∧
       ca_MessageStopSent s = false ∧
       (started = true → ca_MessageStartSent s = true).

Definition between (s : ChatCompletionsToAnthropicStreamState) (out : list AnthropicStreamEvent)
    : Prop :=
  sees true s out ∧ ca_ContentBlockOpen s = false.

Definition inside (ty : string) (s : ChatCompletionsToAnthropicStreamState)
    (out : list AnthropicStreamEvent) : Prop :=
  sees true s out ∧ ca_ContentBlockOpen s = true ∧ ca_CurrentBlockType s = ty.

Lemma typed_observes_app q l1 l2 :
  typed_observes q (l1 ++ l2) = typed_observes (typed_observes q l1) l2.
Proof. apply foldl_app. Qed.

Lemma sees_nothing st s out : sees st s out → sees st s (out ++ []).
Proof. by rewrite app_nil_r. Qed.

Lemma live_during s K :
  ca_MessageStartSent s = true → ca_MessageStopSent s = false →
  during_c true (t_client (typed_view s K)) = true.
Proof. intros Hs Ht. unfold during_c. cbn. by rewrite Hs, Ht. Qed.

Lemma fresh_index s K :
  well_typed s K → ca_ContentBlockOpen s = false → K !! ca_ContentBlockIndex s = None.
Proof.
  intros [_ Hd _ _] Ho. apply eq_None_not_Some. intros H%Hd. rewrite Ho in H. lia.
Qed.

(** The events of a step, accepted in the view after it. *)
Lemma sees_step s s' out events :
  sees true s out →
  (∀ K, well_typed s K → during_c true (t_client (typed_view s K)) = true →
     ca_ContentBlockIndex s + Z.of_nat (length events) < 2 ^ 63 →
     ∃ K', typed_observes (Some (typed_view s K)) events = Some (typed_view s' K') ∧
           well_typed s' K' ∧
           ca_ContentBlockIndex s' <= ca_ContentBlockIndex s + Z.of_nat (length events)) →
  ca_MessageStopSent s' = ca_MessageStopSent s →
  ca_MessageStartSent s' = ca_MessageStartSent s →
  sees true s' (out ++ events).
Proof.
  intros Hs Hev Ht Hst Hlen. rewrite length_app in Hlen.
  destruct Hs as (K & HK & Hwt & Hi & Hstop & Hstart); [lia|]. specialize (Hstart eq_refl).
  destruct (Hev K Hwt (live_during s K Hstart Hstop)) as (K' & HK' & Hwt' & Hi'); [lia|].
  exists K'. rewrite typed_observes_app, HK, HK', length_app, Ht, Hst.
  split_and!; try done. lia.
Qed.

(** Fields the invariant does not mention. *)
Lemma sees_ext st s s' out :
  sees st s out →
  (∀ K, typed_view s' K = typed_view s K) →
  ca_toolBlockIndex s' = ca_toolBlockIndex s →
  (∀ t, ca_toolAnnounced s' !! t = Some true → ca_toolAnnounced s !! t = Some true) →
  sees st s' out.
Proof.
  intros Hs Hv Hb Ha Hlen. destruct (Hs Hlen) as (K & HK & Hwt & Hi & Ht & Hst).
  pose proof (Hv ∅) as Hv0. unfold typed_view in Hv0. injection Hv0 as Hst' Ht' _ Hi' Ho'.
  exists K. rewrite Hv, Hi', Ht', Hst'. split_and!; try done.
  destruct Hwt as [H1 H2 H3 H4].
  assert (Hopen : ca_ContentBlockOpen s' = ca_ContentBlockOpen s ∧
    (ca_ContentBlockOpen s = true → ca_CurrentBlockType s' = ca_CurrentBlockType s))
    by (destruct (ca_ContentBlockOpen s), (ca_ContentBlockOpen s'); simplify_eq; done).
  destruct Hopen as [Ho Hty]. constructor; rewrite ?Ho, ?Hi', ?Hb; try done.
  - intros Hopen. by rewrite Hty, H3.
  - intros t Hann%Ha. by apply H4.
Qed.

(** ** Steps *)

Lemma close_between : triple (sees true) closeCCAnthropicBlock between.
Proof.
  intros s out Hs. unfold closeCCAnthropicBlock.
  destruct (ca_ContentBlockOpen s) eqn:Ho; cbn [negb fst snd]; [|by rewrite app_nil_r].
  set (filler := if (_ && _)%bool then _ else _). split; [|done].
  eapply sees_step; [done| |done|done]. intros K Hwt Hd Hb. exists K.
  assert (Hfill : typed_observes (Some (typed_view s K)) filler = Some (typed_view s K)).
  { subst filler. case_if; [|done]. bool_props. cbn [typed_observes foldl].
    apply typed_delta; [done| |].
    - unfold delta_ok. cbn. apply bool_decide_eq_true. apply elem_of_dom.
      by rewrite (wt_open _ _ Hwt Ho).
    - cbn. rewrite (wt_open _ _ Hwt Ho). by f_equal. }
  rewrite length_app in *. cbn [length] in *.
  rewrite typed_observes_app, Hfill. cbn [typed_observes foldl].
  pose proof (wt_index _ _ Hwt) as H0.
  assert (Hw : ca_ContentBlockIndex s +! 1 = ca_ContentBlockIndex s + 1).
  { unfold int64_add. apply int64_wrap_id. unfold int64_range. lia. }
  change (ca_ContentBlockIndex s) with (c_next (t_client (typed_view s K))) at 1.
  rewrite (typed_stop _ (ca_CurrentBlockType s)); [|done|cbn; by rewrite Ho].
  split; [done|]. cbn. rewrite Hw. split; [|lia].
  destruct Hwt as [_ Hdom _ Hc]. constructor; cbn; rewrite ?Hw; [lia| |done|done].
  intros i Hi%Hdom. rewrite Ho in Hi. lia.
Qed.

(** Announcing a block. *)
Lemma sees_start s s' out b :
  between s out →
  ca_ContentBlockOpen s' = true → ca_CurrentBlockType s' = cb_Type b →
  ca_ContentBlockIndex s' = ca_ContentBlockIndex s →
  ca_MessageStopSent s' = ca_MessageStopSent s →
  ca_MessageStartSent s' = ca_MessageStartSent s →
  (∀ t, ca_toolAnnounced s' !! t = Some true →
     ca_toolBlockIndex s' !! t = Some (ca_ContentBlockIndex s) ∧ cb_Type b = "tool_use" ∨
     ca_toolAnnounced s !! t = Some true ∧ ca_toolBlockIndex s' !! t = ca_toolBlockIndex s !! t) →
  sees true s' (out ++ [block_start (ca_ContentBlockIndex s) b]).
Proof.
  intros [Hs Ho] Ho' Hty Hi Ht Hst Hcalls. eapply sees_step; [done| |done|done].
  intros K Hwt Hd _. exists (<[ca_ContentBlockIndex s := cb_Type b]> K).
  pose proof (fresh_index s K Hwt Ho) as Hf.
  split; [|split; [|cbn; lia]].
  - cbn [typed_observes foldl].
    change (ca_ContentBlockIndex s) with (c_next (t_client (typed_view s K))) at 1.
    rewrite typed_start; [|done|cbn; by rewrite Ho|done].
    unfold typed_view. rewrite Ho', Hty, Hi, Ht, Hst, dom_insert_L. done.
  - destruct Hwt as [H0 Hdom _ Hc]. constructor; rewrite ?Ho', ?Hi, ?Hty.
    + done.
    + intros i [-> |[_ Hin]]%lookup_insert_is_Some; [lia|]. apply Hdom in Hin.
      rewrite Ho in Hin. lia.
    + intros _. apply lookup_insert_eq.
    + intros t [[Hb Htool]|[Ha Hb]]%Hcalls.
      * eexists. split; [done|]. rewrite <- Htool. apply lookup_insert_eq.
      * destruct (Hc t Ha) as (b' & Hb' & Hk). exists b'. rewrite Hb. split; [done|].
        rewrite lookup_insert_ne; [done|congruence].
Qed.

(** A delta on a block of its kind. *)
Lemma sees_delta s s' out i d :
  sees true s out →
  (∀ K, well_typed s K → delta_ok (t_client (typed_view s K)) i d = true ∧ K !! i = delta_kind d) →
  (∀ K, typed_view s' K = typed_view s K) →
  ca_toolAnnounced s' = ca_toolAnnounced s → ca_toolBlockIndex s' = ca_toolBlockIndex s →
  sees true s' (out ++ [block_delta i d]).
Proof.
  intros Hs Hok Hv Ha Hb. pose proof (Hv ∅) as Hv0. unfold typed_view in Hv0.
  injection Hv0 as Hst Ht _ Hi Ho. eapply sees_step; [done| |done|done].
  intros K Hwt Hd _. exists K. destruct (Hok K Hwt). rewrite Hv. split_and!.
  - cbn [typed_observes foldl]. by apply typed_delta.
  - destruct Hwt as [H1 H2 H3 H4].
    assert (Hopen : ca_ContentBlockOpen s' = ca_ContentBlockOpen s ∧
      (ca_ContentBlockOpen s = true → ca_CurrentBlockType s' = ca_CurrentBlockType s))
      by (destruct (ca_ContentBlockOpen s), (ca_ContentBlockOpen s'); simplify_eq; done).
    destruct Hopen as [Ho' Hty]. constructor; rewrite ?Ho', ?Hi, ?Ha, ?Hb; try done.
    intros Hopen. by rewrite Hty, H3.
  - rewrite Hi. lia.
Qed.

Lemma open_inside ty : triple between (openCCAnthropicBlock ty) (inside ty).
Proof.
  intros s out Hs. split; [|done]. apply sees_start; try done. intros t Ht. by right.
Qed.

Lemma ensure_inside ty : triple (sees true) (ensureCCAnthropicBlock ty) (inside ty).
Proof.
  intros s out Hs. unfold ensureCCAnthropicBlock.
  destruct (_ && _) eqn:E.
  - bool_props. cbn [fst snd]. split_and!; [by apply sees_nothing|done|done].
  - by apply (triple_emits _ _ _ _ _ close_between (open_inside ty)).
Qed.

(** Text and reasoning go to the open block. *)
Lemma delta_inside d ty :
  ad_Type d = "text_delta" ∧ ty = "text" ∨ ad_Type d = "thinking_delta" ∧ ty = "thinking" →
  triple (inside ty) (ccAnthropicDelta d) (sees true).
Proof.
  intros Hd s out (Hs & Ho & Hty). unfold ccAnthropicDelta. rewrite Ho. cbn [negb fst snd].
  apply (sees_delta s); try done. intros K Hwt. pose proof (wt_open _ _ Hwt Ho) as Hk.
  unfold delta_ok, delta_kind. rewrite Hk, Hty.
  destruct Hd as [[-> ->]|[-> ->]]; cbn; rewrite ?Ho, ?Hty, ?Z.eqb_refl; split; try done.
  apply bool_decide_eq_true, elem_of_dom. by rewrite Hk.
Qed.

Lemma close_if_sees ty : triple (sees true) (closeCCAnthropicBlockIfOpen ty) (sees true).
Proof.
  intros s out Hs. unfold closeCCAnthropicBlockIfOpen. case_if; [by apply sees_nothing|].
  by apply close_between.
Qed.

Lemma announce_sees idx callID name :
  triple between (announceCCAnthropicToolBlock idx callID name) (sees true).
Proof.
  intros s out Hs. unfold announceCCAnthropicToolBlock. cbv zeta.
  set (s1 := cc_announced idx name s).
  assert (H1 : sees true s1
    (out ++ [block_start (ca_ContentBlockIndex s) (tool_use_block callID name)])).
  { apply sees_start; try done. intros t. subst s1. unfold cc_announced.
    cbn -[insert lookup]. intros Ht. destruct (decide (t = idx)) as [->|Hne].
    - left. by rewrite lookup_insert_eq.
    - right. rewrite lookup_insert_ne in Ht by done. by rewrite lookup_insert_ne. }
  case_if; [exact H1|]. cbn [fst snd].
  rewrite cons_middle, app_assoc. apply (sees_delta s1); try done.
  intros K Hwt. pose proof (wt_open _ _ Hwt eq_refl) as Hk.
  change (ca_ContentBlockIndex s1) with (ca_ContentBlockIndex s) in Hk. rewrite Hk.
  split; [|done]. unfold delta_ok. cbn. apply bool_decide_eq_true, elem_of_dom. by rewrite Hk.
Qed.

Lemma fragment_sees idx arguments :
  triple (sees true) (fragmentCCToolCall idx arguments) (sees true).
Proof.
  intros s out Hs. unfold fragmentCCToolCall. cbv zeta. case_if; [by apply sees_nothing|].
  destruct (ca_toolAnnounced s !! idx) as [[]|] eqn:Ha; cbv [from_option id]; cbn [fst snd].
  - apply (sees_delta s); [done| |by case_if..].
    intros K Hwt. destruct (wt_calls _ _ Hwt idx Ha) as (b & -> & Hk).
    rewrite Hk. split; [|done]. unfold delta_ok. cbn.
    apply bool_decide_eq_true, elem_of_dom. by rewrite Hk.
  - apply sees_nothing. by eapply sees_ext.
  - apply sees_nothing. by eapply sees_ext.
Qed.

(** ** Composition *)

Definition lifted (P : ChatCompletionsToAnthropicStreamState → list AnthropicStreamEvent → Prop)
    (x : CCst) (out : list AnthropicStreamEvent) : Prop := P x.1 out.

Lemma triple_emit P h R : triple P h R → triple (lifted P) (emit h) (lifted R).
Proof.
  intros H [s r] out Hp. specialize (H s out Hp). unfold emit. by destruct (h s) as [o s1].
Qed.

(** An update of fields that the client cannot see. *)
Lemma triple_update P Q f :
  (∀ s out, P s out → Q (f s) out) →
  triple (lifted P) (_ ← cc_update f; mret []) (lifted Q).
Proof.
  intros H. apply (triple_seq _ _ _ (λ _, lifted Q)).
  - intros [s r] out. apply H.
  - intros _. apply triple_ret.
Qed.

Lemma between_sees s out : between s out → sees true s out.
Proof. by intros [? _]. Qed.

Lemma inside_sees ty s out : inside ty s out → sees true s out.
Proof. by intros [? _]. Qed.

Lemma between_ext s s' out :
  between s out →
  (∀ K, typed_view s' K = typed_view s K) → ca_ContentBlockOpen s' = ca_ContentBlockOpen s →
  ca_toolBlockIndex s' = ca_toolBlockIndex s →
  (∀ t, ca_toolAnnounced s' !! t = Some true → ca_toolAnnounced s !! t = Some true) →
  between s' out.
Proof. intros [Hs Ho] Hv Ho' Hb Ha. split; [by eapply sees_ext|by rewrite Ho']. Qed.

Lemma announce_call_sees idx toolCall :
  triple (lifted (sees true)) (announceCCToolCall idx toolCall) (lifted (sees true)).
Proof.
  unfold announceCCToolCall.
  apply (triple_seq _ _ _ (λ _, lifted (sees true))); [by intros x out|]. intros s0.
  destruct (ca_toolAnnounced s0 !! idx) as [ann|].
  - apply triple_if; intros _; [|apply triple_ret].
    apply triple_emit. eapply triple_emits; [apply close_between|apply announce_sees].
  - eapply triple_emits; [apply triple_emit, close_between|].
    apply (triple_seq _ _ _ (λ _, lifted between)).
    { intros [s r] out' Hb. by eapply between_ext. }
    intros _. apply (triple_seq _ _ _ (λ _, lifted between)).
    { intros [s r] out' Hb. by case_if. }
    intros callID. apply triple_if; intros _; [by apply triple_emit, announce_sees|].
    apply triple_update. intros s out' Hb%between_sees. eapply sees_ext; [done..|].
    intros t. cbn -[insert lookup].
    destruct (decide (t = idx)) as [->|?]; [by rewrite lookup_insert_eq|].
    by rewrite lookup_insert_ne.
Qed.

Lemma tool_call_sees toolCall :
  triple (lifted (sees true)) (handleCCAnthropicToolCall toolCall) (lifted (sees true)).
Proof.
  eapply triple_emits; [apply announce_call_sees|]. apply triple_emit, fragment_sees.
Qed.

Lemma choice_sees choice :
  triple (lifted (sees true)) (ccChoiceEvents choice) (lifted (sees true)).
Proof.
  unfold ccChoiceEvents. repeat (eapply triple_emits; cycle 1).
  - apply triple_update. intros s out Hs. case_if; [done|]. by eapply sees_ext.
  - apply triple_run_inv. intros c. eapply triple_emits; [|apply tool_call_sees].
    apply triple_emit, close_if_sees.
  - apply triple_emit, triple_if; intros _; [apply triple_ret|].
    eapply triple_emits; [|apply (delta_inside _ "text"); by left].
    eapply triple_emits; [apply close_if_sees|apply ensure_inside].
  - apply triple_emit, triple_if; intros _; [apply triple_ret|].
    eapply triple_emits; [apply ensure_inside|apply (delta_inside _ "thinking"); by right].
Qed.

Lemma message_start_sees : triple (sees false) ensureCCAnthropicMessageStart (sees true).
Proof.
  intros s out Hs. unfold ensureCCAnthropicMessageStart.
  destruct (ca_MessageStartSent s) eqn:Hst; cbn [fst snd].
  - rewrite app_nil_r. intros Hlen. destruct (Hs Hlen) as (K & ? & ? & ? & ? & _).
    exists K. split_and!; done.
  - intros Hlen. rewrite length_app in Hlen. destruct Hs as (K & HK & Hwt & Hi & Ht & _); [lia|].
    assert (Hi' : ca_ContentBlockIndex s <= Z.of_nat (length out + 1)) by lia.
    exists K. rewrite typed_observes_app, HK, length_app.
    split; [|split; [by destruct Hwt|by split]].
    unfold typed_view. cbn [typed_observes foldl]. unfold typed_observe, observe. cbn.
    by rewrite Hst.
Qed.

Lemma sees_started st s out : sees true s out → sees st s out.
Proof. intros Hs Hlen. destruct (Hs Hlen) as (K & ? & ? & ? & ? & ?). exists K. split_and!; auto. Qed.

(** A chunk tells nothing about the blocks. *)
Lemma record_chunk_spec chunk s :
  ∃ i o cr cc id m,
    record_chunk chunk s =
      s{{ ca_InputTokens := i; ca_OutputTokens := o; ca_CacheReadInputTokens := cr;
          ca_CacheCreationInputTokens := cc; ca_ResponseID := id; ca_Model := m }}.
Proof.
  destruct s. unfold record_chunk. destruct (cx_ID chunk ≟ ""), (cx_Usage chunk);
    cbn -[chatUsageToAnthropicUsage]; case_if; by repeat eexists.
Qed.

Lemma chunk_sees chunk :
  triple (lifted (sees false)) (ChatCompletionsChunkToAnthropicEvents chunk) (lifted (sees false)).
Proof.
  destruct chunk as [chunk|]; [|apply triple_ret].
  apply (triple_seq _ _ _ (λ _, lifted (sees false))).
  { intros [s r] out Hs. change (sees false (record_chunk chunk s) out).
    destruct (record_chunk_spec chunk s) as (i & o & cr & cc & id & m & ->).
    by eapply sees_ext. }
  intros _. eapply triple_emits; [by apply triple_emit, message_start_sees|].
  eapply triple_weaken; [done| |apply triple_run_inv, choice_sees].
  intros x out. apply sees_started.
Qed.

(** ** The end of a stream *)

Lemma pending_sees idx : triple (sees true) (announcePending idx) (sees true).
Proof.
  intros s out Hs. unfold announcePending.
  by apply (triple_emits _ _ _ _ _ close_between (announce_sees _ _ _)).
Qed.

(** The message is complete. *)
Definition complete_message (out : list AnthropicStreamEvent) : Prop :=
  ∃ t, typed_observes (Some new_typed) out = Some t ∧
       c_started (t_client t) = true ∧ c_stopped (t_client t) = true ∧ c_open (t_client t) = None.

Lemma stop_completes s out :
  between s out → Z.of_nat (length (out ++ (ccStop s).1)) < 2 ^ 63 →
  complete_message (out ++ (ccStop s).1).
Proof.
  intros [Hs Ho] Hlen. rewrite length_app in Hlen.
  destruct Hs as (K & HK & Hwt & Hi & Ht & Hst); [lia|]. specialize (Hst eq_refl).
  unfold complete_message. rewrite typed_observes_app, HK. unfold typed_view. rewrite Hst, Ht, Ho.
  eexists. by split_and!.
Qed.

Lemma finalize_completes :
  triple (sees false) FinalizeChatCompletionsAnthropicStream
    (λ _ out, Z.of_nat (length out) < 2 ^ 63 → complete_message out).
Proof.
  intros s out Hs. unfold FinalizeChatCompletionsAnthropicStream.
  destruct (ca_MessageStopSent s) eqn:Hstop; cbn [fst snd].
  - rewrite app_nil_r. intros Hlen. destruct (Hs Hlen) as (K & _ & _ & _ & Ht & _). congruence.
  - clear Hstop. revert s out Hs. assert (Ht : triple (sees false) (ensureCCAnthropicMessageStart +>
      (λ state, run_machine announcePending (pending_calls state) state) +>
      closeCCAnthropicBlock +> ccStop)
      (λ _ out, Z.of_nat (length out) < 2 ^ 63 → complete_message out)); [|exact Ht].
    eapply triple_emits; [|exact stop_completes].
    eapply triple_emits; [|exact close_between].
    eapply triple_emits; [exact message_start_sees|].
    intros s out Hs. exact (triple_run_inv announcePending _ pending_sees (pending_calls s) s out Hs).
Qed.

Lemma new_sees now model r :
  sees false (NewChatCompletionsToAnthropicStreamState now model r).1 [].
Proof.
  intros _. exists ∅. split; [done|]. split; [|done]. constructor.
  - done.
  - intros i [k Hk]. by rewrite lookup_empty in Hk.
  - done.
  - intros t Ht. change ((∅ : gmap Z bool) !! t = Some true) in Ht. by rewrite lookup_empty in Ht.
Qed.

(** The events of a stream converted from scratch. *)
Definition converted (now : Z) (model : string) (chunks : list (option ChatCompletionsChunk))
    (r : rng) : list AnthropicStreamEvent :=
  let '(s, r) := NewChatCompletionsToAnthropicStreamState now model r in
  (convertChunks chunks (s, r)).1.

(** ** Properties *)

(** C28: Whatever the upstream sends, in whatever order, the converted stream is a complete and
    well typed Anthropic message: it starts once, its blocks are opened one at a time under fresh
    indices and closed before the message ends, every delta goes to an announced block of its
    own kind (text to the open one), then come one [message_delta] and one [message_stop]. *)
Theorem chat_stream_well_typed now model chunks r :
  Z.of_nat (length (converted now model chunks r)) < 2 ^ 63 →
  complete_message (converted now model chunks r).
Proof.
  unfold converted. pose proof (new_sees now model r) as H0.
  destruct (NewChatCompletionsToAnthropicStreamState now model r) as [s r1].
  apply (triple_emits (lifted (sees false)) _ _ _ _
    (triple_run_inv _ _ chunk_sees chunks) (triple_emit _ _ _ finalize_completes) (s, r1) []).
  exact H0.
Qed.
