(* ===== verification/ChatContent.v ===== *)
(** * ChatContent: what a stream converted from Chat Completions carries

    The pieces of the upstream's message, text, reasoning and fragments of tool calls, against
    what the client reads from the converted stream. *)

From stdpp Require Import base tactics numbers list sorting strings gmap.
From Stdlib Require Import ZArith Lia.
From S2P Require Import Prelude GoLib GoJson ApiTypes Upstream ResponsesToAnthropic ResToAnthFacts.
From S2P Require Import AnthropicToResponses ChatToResponses ChatToAnthropic ChatToAnthFacts.

Local Open Scope go_scope.
Local Open Scope Z_scope.

(** ** Pieces *)

(** A piece of the upstream's message; a fragment of a tool call has the name it came with and
    its arguments. *)
Inductive piece : Type :=
| PText (text : string)
| PThinking (text : string)
| PCall (index : Z) (name : string)
| PArguments (index : Z) (arguments : string).

Definition piece_text (p : piece) : string := match p with PText t => t | _ => "" end.
Definition piece_thinking (p : piece) : string := match p with PThinking t => t | _ => "" end.
Definition piece_arguments (i : Z) (p : piece) : string :=
  match p with PArguments j a => if j =? i then a else "" | _ => "" end.
Definition piece_name (i : Z) (p : piece) : string :=
  match p with PCall j n => if j =? i then n else "" | _ => "" end.

Definition call_pieces (c : ChatToolCall) : list piece :=
  let i := default 0 (tc_Index c) in
  [PCall i (fc_Name (tc_Function c)); PArguments i (fc_Arguments (tc_Function c))].

Definition choice_pieces (choice : ChatChunkChoice) : list piece :=
  let delta := ck_Delta choice in
  [PThinking (default "" (delta_reasoningText delta)); PText (default "" (cd_Content delta))] ++
  concat (call_pieces <$> cd_ToolCalls delta).

Definition chunk_pieces (chunk : option ChatCompletionsChunk) : list piece :=
  match chunk with
  | Some chunk => concat (choice_pieces <$> cx_Choices chunk)
  | None => []
  end.

(** The first name that came for a call, and whether it was mentioned. *)
Definition said_name (i : Z) (l : list piece) : string :=
  foldr (λ p acc, if piece_name i p ≟ "" then acc else piece_name i p) "" l.
Definition called (i : Z) (l : list piece) : Prop := ∃ name, PCall i name ∈ l.

Definition delta_thinking (e : AnthropicStreamEvent) : string :=
  match ae_Delta e with
  | Some d => if ad_Type d ≟ "thinking_delta" then ad_Thinking d else ""
  | None => ""
  end.

(** The arguments the client receives for block [b]. *)
Definition delta_arguments (b : Z) (e : AnthropicStreamEvent) : string :=
  match ae_Index e, ae_Delta e with
  | Some i, Some d =>
      if (i =? b) && (ad_Type d ≟ "input_json_delta") then ad_PartialJSON d else ""
  | _, _ => ""
  end.

Definition call_block (b : Z) (name : string) (out : list AnthropicStreamEvent) : Prop :=
  ∃ id, block_start b (tool_use_block id name) ∈ out.

(** The arguments of a closed block: those of the call, after an empty object when the block was
    closed before the first of them came. *)
Definition filled (out : list AnthropicStreamEvent) (b : Z) (arguments : string) : Prop :=
  said (delta_arguments b) out = "{}" +:+ arguments ∨
  said (delta_arguments b) out = arguments ∧ arguments ≠ "".

Lemma said_name_snoc i l p :
  said_name i (l ++ [p]) = if said_name i l ≟ "" then piece_name i p else said_name i l.
Proof.
  induction l as [|q l IH]; cbn [app said_name foldr].
  - cbn. by destruct (piece_name i p ≟ "") eqn:E; [apply String.eqb_eq in E|].
  - fold (said_name i (l ++ [p])) (said_name i l). rewrite IH.
    by destruct (piece_name i q ≟ "") eqn:E; rewrite ?E.
Qed.

Lemma stream_text_said l : stream_text l = said delta_text l.
Proof. induction l as [|e l IH]; [done|]. cbn. fold (stream_text l). by rewrite IH. Qed.

Lemma call_block_app b name l1 l2 : call_block b name l1 → call_block b name (l1 ++ l2).
Proof. intros [id H]. exists id. apply elem_of_app. by left. Qed.

(** ** The invariant *)

#[local] Notation CCS := ChatCompletionsToAnthropicStreamState.

(** The block of a call is the current one, and has received the arguments; or it was closed. *)
Definition block_ok (s : CCS) (out : list AnthropicStreamEvent) (b : Z) (arguments : string)
    : Prop :=
  b < ca_ContentBlockIndex s ∧ filled out b arguments ∨
  b = ca_ContentBlockIndex s ∧ ca_ContentBlockOpen s = true ∧
  ca_CurrentBlockType s = "tool_use" ∧ ca_CurrentToolHadDelta s = negb (arguments ≟ "") ∧
  said (delta_arguments b) out = arguments.

(** A call that was not mentioned, that waits for its name, that was announced; at the end of the
    stream also without a name. *)
Definition call_ok (fin : bool) (g : list piece) (s : CCS) (out : list AnthropicStreamEvent)
    (i : Z) : Prop :=
  match ca_toolAnnounced s !! i with
  | None =>
      said (piece_arguments i) g = "" ∧ said_name i g = "" ∧ ca_pendingToolArgs s !! i = None ∧
      ca_toolBlockIndex s !! i = None ∧ ca_pendingToolCallID s !! i = None ∧ ¬ called i g
  | Some false =>
      default "" (ca_pendingToolArgs s !! i) = said (piece_arguments i) g ∧ said_name i g = "" ∧
      ca_toolBlockIndex s !! i = None ∧ is_Some (ca_pendingToolCallID s !! i)
  | Some true =>
      ca_pendingToolCallID s !! i = None ∧ (fin = false → said_name i g ≠ "") ∧
      ∃ b, ca_toolBlockIndex s !! i = Some b ∧ call_block b (said_name i g) out ∧
           block_ok s out b (said (piece_arguments i) g)
  end.

Record conveys_now (fin : bool) (g : list piece) (s : CCS) (out : list AnthropicStreamEvent)
    : Prop := {
  cv_index : 0 <= ca_ContentBlockIndex s <= Z.of_nat (length out);
  cv_fresh : ∀ b, said (delta_arguments b) out ≠ "" →
    b < ca_ContentBlockIndex s + (if ca_ContentBlockOpen s then 1 else 0);
  cv_text : said delta_text out = said piece_text g;
  cv_thinking : said delta_thinking out = said piece_thinking g;
  cv_calls : ∀ i, call_ok fin g s out i;
  cv_distinct : ∀ i j b, ca_toolBlockIndex s !! i = Some b → ca_toolBlockIndex s !! j = Some b →
    i = j
}.

(** As long as the indices of blocks do not wrap around. *)
Definition conveys (fin : bool) (g : list piece) (s : CCS) (out : list AnthropicStreamEvent)
    : Prop :=
  Z.of_nat (length out) < 2 ^ 63 → conveys_now fin g s out.

(** The events of a step, for what the invariant says after it. *)
Lemma conveys_step fin g fin' g' s s' out events :
  conveys fin g s out →
  (conveys_now fin g s out → Z.of_nat (length out + length events) < 2 ^ 63 →
   conveys_now fin' g' s' (out ++ events)) →
  conveys fin' g' s' (out ++ events).
Proof. intros H Hs Hlen. rewrite length_app in Hlen. apply Hs, Hlen. apply H. lia. Qed.

(** The call [i] is not concerned by a step. *)
Lemma call_ok_frame fin g g' s s' out events i :
  call_ok fin g s out i →
  ca_toolAnnounced s' !! i = ca_toolAnnounced s !! i →
  ca_pendingToolArgs s' !! i = ca_pendingToolArgs s !! i →
  ca_toolBlockIndex s' !! i = ca_toolBlockIndex s !! i →
  ca_pendingToolCallID s' !! i = ca_pendingToolCallID s !! i →
  ca_ContentBlockIndex s' = ca_ContentBlockIndex s →
  (ca_ContentBlockOpen s = true →
     ca_ContentBlockOpen s' = true ∧ ca_CurrentBlockType s' = ca_CurrentBlockType s ∧
     (ca_CurrentToolHadDelta s' = ca_CurrentToolHadDelta s ∨
      ca_toolBlockIndex s !! i ≠ Some (ca_ContentBlockIndex s))) →
  (∀ b, ca_toolBlockIndex s !! i = Some b → said (delta_arguments b) events = "") →
  said (piece_arguments i) g' = said (piece_arguments i) g → said_name i g' = said_name i g →
  (called i g' → called i g) →
  call_ok fin g' s' (out ++ events) i.
Proof.
  unfold call_ok. intros H -> -> -> -> Hi Hopen Hsil -> -> Hcalled.
  destruct (ca_toolAnnounced s !! i) as [[]|]; [|done|naive_solver].
  destruct H as (Hp & Hn & b & Hb & Hblock & Hok). split_and!; [done|done|].
  exists b. split_and!; [done|by apply call_block_app|].
  unfold block_ok, filled in *. rewrite Hi, said_silent by by apply Hsil.
  destruct Hok as [?|(-> & Ho & Hty & Hd & Ha)]; [by left|right].
  destruct (Hopen Ho) as (-> & -> & Hd'). split_and!; try done. by destruct Hd' as [->|].
Qed.

(** A step that changes no call and no current block. *)
Lemma conveys_frame fin g g' s s' out events :
  conveys fin g s out →
  ca_toolAnnounced s' = ca_toolAnnounced s → ca_pendingToolArgs s' = ca_pendingToolArgs s →
  ca_toolBlockIndex s' = ca_toolBlockIndex s → ca_pendingToolCallID s' = ca_pendingToolCallID s →
  ca_ContentBlockIndex s' = ca_ContentBlockIndex s →
  (ca_ContentBlockOpen s = true →
     ca_ContentBlockOpen s' = true ∧ ca_CurrentBlockType s' = ca_CurrentBlockType s ∧
     ca_CurrentToolHadDelta s' = ca_CurrentToolHadDelta s) →
  (∀ b, said (delta_arguments b) events = "") →
  (∀ i, said (piece_arguments i) g' = said (piece_arguments i) g ∧
        said_name i g' = said_name i g ∧ (called i g' → called i g)) →
  said piece_text g' = said piece_text g +:+ said delta_text events →
  said piece_thinking g' = said piece_thinking g +:+ said delta_thinking events →
  conveys fin g' s' (out ++ events).
Proof.
  intros H Ha Hp Hb Hid Hi Hopen Hargs Hg Ht Hth. eapply conveys_step; [done|].
  intros [C1 C2 C3 C4 C5 C6] Hlen. constructor.
  - rewrite Hi, length_app. lia.
  - intros b. rewrite said_silent by done. intros Hs%C2. rewrite Hi.
    destruct (ca_ContentBlockOpen s); [destruct Hopen as (-> & _); done|].
    destruct (ca_ContentBlockOpen s'); lia.
  - by rewrite said_app, Ht, C3.
  - by rewrite said_app, Hth, C4.
  - intros i. destruct (Hg i) as (? & ? & ?).
    apply (call_ok_frame fin g g' s); rewrite ?Ha, ?Hp, ?Hb, ?Hid; auto.
    intros Ho. destruct (Hopen Ho) as (? & ? & ?). by split_and!; [| |left].
  - rewrite Hb. exact C6.
Qed.

(** Fields the invariant does not mention, and events that carry nothing. *)
Lemma conveys_quiet fin g s s' out events :
  conveys fin g s out →
  ca_toolAnnounced s' = ca_toolAnnounced s → ca_pendingToolArgs s' = ca_pendingToolArgs s →
  ca_toolBlockIndex s' = ca_toolBlockIndex s → ca_pendingToolCallID s' = ca_pendingToolCallID s →
  ca_ContentBlockIndex s' = ca_ContentBlockIndex s →
  (ca_ContentBlockOpen s = true →
     ca_ContentBlockOpen s' = true ∧ ca_CurrentBlockType s' = ca_CurrentBlockType s ∧
     ca_CurrentToolHadDelta s' = ca_CurrentToolHadDelta s) →
  (∀ b, said (delta_arguments b) events = "") →
  said delta_text events = "" → said delta_thinking events = "" →
  conveys fin g s' (out ++ events).
Proof.
  intros H ? ? ? ? ? ? ? Ht Hth. eapply conveys_frame; [exact H|done..| | |]; [done| |].
  - by rewrite Ht, string_app_nil_r.
  - by rewrite Hth, string_app_nil_r.
Qed.

Lemma conveys_ext fin g s s' out :
  conveys fin g s out →
  ca_toolAnnounced s' = ca_toolAnnounced s → ca_pendingToolArgs s' = ca_pendingToolArgs s →
  ca_toolBlockIndex s' = ca_toolBlockIndex s → ca_pendingToolCallID s' = ca_pendingToolCallID s →
  ca_ContentBlockIndex s' = ca_ContentBlockIndex s →
  (ca_ContentBlockOpen s = true →
     ca_ContentBlockOpen s' = true ∧ ca_CurrentBlockType s' = ca_CurrentBlockType s ∧
     ca_CurrentToolHadDelta s' = ca_CurrentToolHadDelta s) →
  conveys fin g s' out.
Proof. intros. rewrite <- (app_nil_r out). by eapply conveys_quiet. Qed.

(** ** Steps *)

Definition rests (fin : bool) (g : list piece) (s : CCS) (out : list AnthropicStreamEvent) : Prop :=
  conveys fin g s out ∧ ca_ContentBlockOpen s = false.

Definition shows (ty : string) (g : list piece) (s : CCS) (out : list AnthropicStreamEvent)
    : Prop :=
  conveys false g s out ∧ ca_ContentBlockOpen s = true ∧ ca_CurrentBlockType s = ty.

Lemma delta_arguments_stop b i : delta_arguments b (block_stop i) = "".
Proof. done. Qed.

Lemma delta_arguments_start b i block : delta_arguments b (block_start i block) = "".
Proof. done. Qed.

Lemma delta_arguments_json b i a :
  delta_arguments b (block_delta i (json_delta a)) = if i =? b then a else "".
Proof. unfold delta_arguments. cbn. by rewrite andb_true_r. Qed.

(** The empty object for a call without arguments. *)
Lemma filler_said (c : bool) b i :
  said (delta_arguments b)
    ((if c then [block_delta i (json_delta "{}")] else []) ++ [block_stop i])
    = if c && (i =? b) then "{}" else "".
Proof.
  rewrite said_app, said_one. destruct c; [|done].
  rewrite said_one, delta_arguments_json. cbn [andb].
  destruct (i =? b); apply string_app_nil_r.
Qed.

Lemma filler_silent (f : AnthropicStreamEvent → string) (c : bool) i :
  f (block_stop i) = "" → f (block_delta i (json_delta "{}")) = "" →
  said f ((if c then [block_delta i (json_delta "{}")] else []) ++ [block_stop i]) = "".
Proof.
  intros H1 H2. rewrite said_app, said_one, H1. destruct c; [|done]. by rewrite said_one, H2.
Qed.

(** Closing the current block closes the block of its call. *)
Lemma block_ok_close (s s' : CCS) out b a c :
  c = (ca_CurrentBlockType s ≟ "tool_use") && negb (ca_CurrentToolHadDelta s) →
  ca_ContentBlockIndex s' = ca_ContentBlockIndex s + 1 →
  block_ok s out b a →
  block_ok s' (out ++ (if c then [block_delta (ca_ContentBlockIndex s) (json_delta "{}")] else []) ++
                 [block_stop (ca_ContentBlockIndex s)]) b a.
Proof.
  intros -> Hi [[Hlt Hf]|(-> & Ho & Hty & Hd & Ha)]; left; (split; [lia|]);
    unfold filled; rewrite said_app, filler_said.
  - destruct (Z.eqb_spec (ca_ContentBlockIndex s) b); [lia|].
    rewrite andb_false_r, string_app_nil_r. exact Hf.
  - rewrite Ha, Hty, Hd, Z.eqb_refl, negb_involutive, andb_true_r.
    change ("tool_use" ≟ "tool_use") with true. cbn [andb].
    destruct (a ≟ "") eqn:E.
    + apply String.eqb_eq in E as ->. by left.
    + apply String.eqb_neq in E. right. by rewrite string_app_nil_r.
Qed.

Lemma close_rests fin g : triple (conveys fin g) closeCCAnthropicBlock (rests fin g).
Proof.
  intros s out H. unfold closeCCAnthropicBlock.
  destruct (ca_ContentBlockOpen s) eqn:Ho; cbn [negb fst snd]; [|by rewrite app_nil_r].
  split; [|done]. eapply conveys_step; [done|]. intros [C1 C2 C3 C4 C5 C6] Hlen.
  match goal with |- conveys_now _ _ ?s' _ => set (s1 := s') end.
  remember (_ && _)%bool as c eqn:Hc. rewrite length_app in Hlen. cbn [length] in Hlen.
  assert (Hw : ca_ContentBlockIndex s1 = ca_ContentBlockIndex s + 1).
  { apply int64_wrap_id. unfold int64_range. split; lia. }
  constructor.
  - rewrite Hw, !length_app. cbn [length]. split; lia.
  - intros b. change (ca_ContentBlockOpen s1) with false. rewrite Hw, said_app, filler_said.
    destruct (Z.eqb_spec (ca_ContentBlockIndex s) b); [lia|].
    rewrite andb_false_r, string_app_nil_r. intros Hb%C2. rewrite Ho in Hb. lia.
  - rewrite said_silent; [done|]. by apply filler_silent.
  - rewrite said_silent; [done|]. by apply filler_silent.
  - intros i. specialize (C5 i). revert C5. unfold call_ok.
    change (ca_toolAnnounced s1) with (ca_toolAnnounced s).
    destruct (ca_toolAnnounced s !! i) as [[]|]; [|done|done].
    intros (? & ? & b & ? & ? & Hok). split_and!; [done|done|]. exists b.
    split_and!; [done|by apply call_block_app|]. by apply (block_ok_close s s1).
  - exact C6.
Qed.

Lemma open_shows ty g : triple (rests false g) (openCCAnthropicBlock ty) (shows ty g).
Proof.
  intros s out [H Ho]. split; [|done]. eapply conveys_quiet; [exact H|..]; try done.
  by rewrite Ho.
Qed.

Lemma ensure_shows ty g : triple (conveys false g) (ensureCCAnthropicBlock ty) (shows ty g).
Proof.
  intros s out H. unfold ensureCCAnthropicBlock. destruct (_ && _) eqn:E.
  - bool_props. cbn [fst snd]. rewrite app_nil_r. by split_and!.
  - by apply (triple_emits _ _ _ _ _ (close_rests false g) (open_shows ty g)).
Qed.

Lemma close_if_conveys ty fin g : triple (conveys fin g) (closeCCAnthropicBlockIfOpen ty) (conveys fin g).
Proof.
  intros s out H. unfold closeCCAnthropicBlockIfOpen. case_if.
  - cbn [fst snd]. by rewrite app_nil_r.
  - by apply (close_rests fin g s out).
Qed.

(** Pieces that are not of calls. *)
Lemma no_call_piece g p i :
  match p with PText _ | PThinking _ => True | _ => False end →
  said (piece_arguments i) (g ++ [p]) = said (piece_arguments i) g ∧
  said_name i (g ++ [p]) = said_name i g ∧ (called i (g ++ [p]) → called i g).
Proof.
  intros Hp. rewrite said_snoc, said_name_snoc.
  assert (Hn : piece_arguments i p = "" ∧ piece_name i p = "") by by destruct p.
  destruct Hn as [-> ->]. split_and!.
  - apply string_app_nil_r.
  - destruct (said_name i g ≟ "") eqn:E; [by apply String.eqb_eq in E|done].
  - intros [n Hin]. exists n. apply elem_of_app in Hin as [?|Hin]; [done|].
    apply list_elem_of_singleton in Hin. by subst p.
Qed.

Lemma text_conveys t g :
  triple (shows "text" g)
    (ccAnthropicDelta (AnthropicDelta0{{ ad_Type := "text_delta"; ad_Text := t }}))
    (conveys false (g ++ [PText t])).
Proof.
  intros s out (H & Ho & Hty). unfold ccAnthropicDelta. rewrite Ho. cbn [negb fst snd].
  eapply conveys_frame; [exact H|..]; try done; rewrite ?said_one.
  - intros b. rewrite said_one. unfold delta_arguments. cbn. by rewrite andb_false_r.
  - intros i. by apply no_call_piece.
  - by rewrite said_snoc.
  - by rewrite said_snoc.
Qed.

Lemma thinking_conveys t g :
  triple (shows "thinking" g)
    (ccAnthropicDelta (AnthropicDelta0{{ ad_Type := "thinking_delta"; ad_Thinking := t }}))
    (conveys false (g ++ [PThinking t])).
Proof.
  intros s out (H & Ho & Hty). unfold ccAnthropicDelta. rewrite Ho. cbn [negb fst snd].
  eapply conveys_frame; [exact H|..]; try done; rewrite ?said_one.
  - intros b. rewrite said_one. unfold delta_arguments. cbn. by rewrite andb_false_r.
  - intros i. by apply no_call_piece.
  - by rewrite said_snoc.
  - by rewrite said_snoc.
Qed.

(** Nothing said, nothing emitted. *)
Lemma nothing_conveys g p :
  p = PText "" ∨ p = PThinking "" →
  triple (conveys false g) (mret [] : CCEmit) (conveys false (g ++ [p])).
Proof.
  intros Hp s out H. cbn [mret St_ret fst snd].
  eapply conveys_frame; [exact H|..]; try done; rewrite ?said_snoc.
  - intros i. apply no_call_piece. by destruct Hp as [-> | ->].
  - by destruct Hp as [-> | ->].
  - by destruct Hp as [-> | ->].
Qed.

(** *** Tool calls *)

(** What announcing a call does, whether arguments were kept for it or not. *)
Record announces (idx : Z) (name : string) (s s' : CCS) (events : list AnthropicStreamEvent)
    : Prop := {
  an_announced : ca_toolAnnounced s' = <[idx := true]> (ca_toolAnnounced s);
  an_block : ca_toolBlockIndex s' = <[idx := ca_ContentBlockIndex s]> (ca_toolBlockIndex s);
  an_id : ca_pendingToolCallID s' = delete idx (ca_pendingToolCallID s);
  an_args : ∀ i, i ≠ idx → ca_pendingToolArgs s' !! i = ca_pendingToolArgs s !! i;
  an_index : ca_ContentBlockIndex s' = ca_ContentBlockIndex s;
  an_open : ca_ContentBlockOpen s' = true;
  an_type : ca_CurrentBlockType s' = "tool_use";
  an_delta : ca_CurrentToolHadDelta s' = negb (default "" (ca_pendingToolArgs s !! idx) ≟ "");
  an_start : call_block (ca_ContentBlockIndex s) name events;
  an_said : ∀ b, said (delta_arguments b) events =
    if ca_ContentBlockIndex s =? b then default "" (ca_pendingToolArgs s !! idx) else "";
  an_text : said delta_text events = "";
  an_thinking : said delta_thinking events = ""
}.

Lemma announce_announces idx callID name s :
  let r := announceCCAnthropicToolBlock idx callID name s in announces idx name s r.2 r.1.
Proof.
  unfold announceCCAnthropicToolBlock. cbv zeta.
  change (ca_pendingToolArgs (cc_announced idx name s)) with (ca_pendingToolArgs s).
  destruct (default "" (ca_pendingToolArgs s !! idx) ≟ "") eqn:E; cbn [fst snd].
  - apply String.eqb_eq in E. constructor; try done.
    + by rewrite E.
    + exists callID. by left.
    + intros b. rewrite said_one, E. by destruct (_ =? b).
  - constructor; try done.
    + intros i Hi. by apply lookup_delete_ne.
    + by rewrite E.
    + exists callID. by left.
    + intros b. by rewrite said_cons, said_one, delta_arguments_json.
Qed.

Lemma call_ok_unannounced fin g s out i :
  call_ok fin g s out i → ca_toolAnnounced s !! i ≠ Some true →
  default "" (ca_pendingToolArgs s !! i) = said (piece_arguments i) g ∧
  ca_toolBlockIndex s !! i = None.
Proof.
  unfold call_ok. destruct (ca_toolAnnounced s !! i) as [[]|]; [done|naive_solver|].
  by intros (-> & _ & -> & -> & _).
Qed.

(** Only announced calls have a block, and it was opened. *)
Lemma call_ok_block fin g s out i b :
  call_ok fin g s out i → ca_toolBlockIndex s !! i = Some b →
  b < ca_ContentBlockIndex s + (if ca_ContentBlockOpen s then 1 else 0).
Proof.
  unfold call_ok. destruct (ca_toolAnnounced s !! i) as [[]|].
  - intros (_ & _ & b' & -> & _ & [[Hlt _]|(-> & -> & _)]) [= <-];
      [case_match|]; lia.
  - naive_solver.
  - naive_solver.
Qed.

(** The pieces [g'] tell the name of the call [idx] and nothing else. *)
Definition names (idx : Z) (name : string) (g g' : list piece) : Prop :=
  said_name idx g' = name ∧
  (∀ i, said (piece_arguments i) g' = said (piece_arguments i) g) ∧
  (∀ i, i ≠ idx → said_name i g' = said_name i g ∧ (called i g' → called i g)) ∧
  said piece_text g' = said piece_text g ∧ said piece_thinking g' = said piece_thinking g.

Lemma announce_conveys fin g g' idx callID name s out :
  rests fin g s out → ca_toolAnnounced s !! idx ≠ Some true →
  (call_ok fin g s out idx → names idx name g g') → (fin = false → name ≠ "") →
  let r := announceCCAnthropicToolBlock idx callID name s in conveys fin g' r.2 (out ++ r.1).
Proof.
  intros [H Ho] Hann Hnames Hne.
  pose proof (announce_announces idx callID name s) as A.
  destruct (announceCCAnthropicToolBlock idx callID name s) as [events s2].
  cbn [fst snd] in *. eapply conveys_step; [done|]. intros [C1 C2 C3 C4 C5 C6] Hlen.
  destruct (Hnames (C5 idx)) as (Hname & Hargs & Hother & Ht & Hth).
  destruct A as [A1 A2 A3 A4 A5 A6 A7 A8 A9 A10 A11 A12].
  destruct (call_ok_unannounced _ _ _ _ _ (C5 idx) Hann) as [Hpend Hnob].
  assert (Hfresh : said (delta_arguments (ca_ContentBlockIndex s)) out = "").
  { destruct (decide (said (delta_arguments (ca_ContentBlockIndex s)) out = "")) as [?|Hs%C2];
      [done|]. rewrite Ho in Hs. lia. }
  constructor.
  - rewrite A5, length_app. split; lia.
  - intros b. rewrite said_app, A10, A5, A6. destruct (Z.eqb_spec (ca_ContentBlockIndex s) b); [lia|].
    rewrite string_app_nil_r. intros Hs%C2. rewrite Ho in Hs. lia.
  - by rewrite said_silent, Ht.
  - by rewrite said_silent, Hth.
  - intros i. destruct (decide (i = idx)) as [->|Hi].
    + unfold call_ok. rewrite A1, A2, A3, lookup_insert_eq, lookup_delete_eq, lookup_insert_eq, Hname.
      split_and!; [done|done|]. exists (ca_ContentBlockIndex s). split_and!; [done| |].
      * destruct A9 as [id Hid]. exists id. apply elem_of_app. by right.
      * right. rewrite A5, A6, A7, A8, Hpend, Hargs, said_app, A10, Z.eqb_refl, Hpend, Hfresh.
        done.
    + destruct (Hother i Hi) as (Hn & Hc).
      apply (call_ok_frame fin g g' s); rewrite ?A1, ?A2, ?A3, ?A5;
        rewrite ?lookup_insert_ne, ?lookup_delete_ne by done; auto.
      * by rewrite Ho.
      * intros b Hb. pose proof (call_ok_block _ _ _ _ _ _ (C5 i) Hb) as Hlt. rewrite Ho in Hlt.
        rewrite A10. destruct (Z.eqb_spec (ca_ContentBlockIndex s) b); [lia|done].
  - intros i j b. rewrite A2. intros Hi Hj.
    assert (Hold : ∀ k, ca_toolBlockIndex s !! k ≠ Some (ca_ContentBlockIndex s)).
    { intros k Hk%(call_ok_block _ _ _ _ _ _ (C5 k)). rewrite Ho in Hk. lia. }
    apply lookup_insert_Some in Hi as [[<- <-]|[? Hi]], Hj as [[<- Hj]|[? Hj]];
      [done|by apply Hold in Hj|subst; by apply Hold in Hi|by eapply C6].
Qed.

Lemma rests_conveys fin g s out : rests fin g s out → conveys fin g s out.
Proof. by intros [? _]. Qed.

(** A name for a call that has one, or no name: nothing is announced. *)
Lemma named_piece g idx name :
  said_name idx g ≠ "" ∨ name = "" → ∀ i, said_name i (g ++ [PCall idx name]) = said_name i g.
Proof.
  intros H i. rewrite said_name_snoc. cbn [piece_name].
  destruct (said_name i g ≟ "") eqn:E; [|done]. apply String.eqb_eq in E. rewrite E.
  destruct (Z.eqb_spec idx i) as [->|]; [|done]. by destruct H as [? | ->].
Qed.

Lemma call_piece_args g idx name i :
  said (piece_arguments i) (g ++ [PCall idx name]) = said (piece_arguments i) g.
Proof. rewrite said_snoc. apply string_app_nil_r. Qed.

Lemma call_piece_called g idx name i : called i (g ++ [PCall idx name]) → i = idx ∨ called i g.
Proof.
  intros [n [Hin|Hin]%elem_of_app]; [right; by exists n|left].
  apply list_elem_of_singleton in Hin. congruence.
Qed.

Lemma names_piece g idx name :
  said_name idx g = "" → names idx name g (g ++ [PCall idx name]).
Proof.
  intros Hn. split_and!.
  - rewrite said_name_snoc, Hn. cbn. by rewrite Z.eqb_refl.
  - intros i. apply call_piece_args.
  - intros i Hi. split.
    + rewrite said_name_snoc. cbn [piece_name]. destruct (Z.eqb_spec idx i); [congruence|].
      by destruct (said_name i g ≟ "") eqn:E; [apply String.eqb_eq in E|].
    + intros [?|?]%call_piece_called; done.
  - rewrite said_snoc. apply string_app_nil_r.
  - rewrite said_snoc. apply string_app_nil_r.
Qed.

(** A mention that tells nothing new. *)
Lemma mention_conveys g idx ann name s out :
  conveys false g s out → ca_toolAnnounced s !! idx = Some ann → negb ann && negb (name ≟ "") = false →
  conveys false (g ++ [PCall idx name]) s out.
Proof.
  intros H Hann Hc Hlen. destruct (H Hlen) as [C1 C2 C3 C4 C5 C6].
  assert (Hn : ∀ i, said_name i (g ++ [PCall idx name]) = said_name i g).
  { apply named_piece. pose proof (C5 idx) as Hi. unfold call_ok in Hi. rewrite Hann in Hi.
    destruct ann; [left; naive_solver|right]. bool_props. cbn in Hc. by bool_props. }
  constructor; try done.
  - rewrite said_snoc, C3. by rewrite string_app_nil_r.
  - rewrite said_snoc, C4. by rewrite string_app_nil_r.
  - intros i. specialize (C5 i). unfold call_ok in *. rewrite Hn, call_piece_args.
    destruct (ca_toolAnnounced s !! i) as [[]|] eqn:E; [done|done|].
    destruct C5 as (? & ? & ? & ? & ? & Hnc). split_and!; try done.
    intros [->|?]%call_piece_called; [congruence|done].
Qed.

(** A new call without a name waits for it. *)
Definition cc_waiting (idx : Z) (callID : string) (s : CCS) : CCS :=
  s{{ ca_toolAnnounced := <[idx := false]> (ca_toolAnnounced s);
      ca_pendingToolCallID := <[idx := callID]> (ca_pendingToolCallID s) }}.

Lemma waiting_conveys g idx callID s out :
  conveys false g s out → ca_toolAnnounced s !! idx = None →
  conveys false (g ++ [PCall idx ""]) (cc_waiting idx callID s) out.
Proof.
  intros H Hann Hlen. destruct (H Hlen) as [C1 C2 C3 C4 C5 C6].
  assert (Hn : ∀ i, said_name i (g ++ [PCall idx ""]) = said_name i g)
    by (apply named_piece; by right).
  constructor; try done.
  - rewrite said_snoc, C3. by rewrite string_app_nil_r.
  - rewrite said_snoc, C4. by rewrite string_app_nil_r.
  - intros i. specialize (C5 i). unfold call_ok in *. rewrite Hn, call_piece_args.
    change (ca_toolAnnounced (cc_waiting idx callID s)) with (<[idx:=false]> (ca_toolAnnounced s)).
    change (ca_pendingToolCallID (cc_waiting idx callID s))
      with (<[idx:=callID]> (ca_pendingToolCallID s)).
    change (ca_pendingToolArgs (cc_waiting idx callID s)) with (ca_pendingToolArgs s).
    change (ca_toolBlockIndex (cc_waiting idx callID s)) with (ca_toolBlockIndex s).
    destruct (decide (i = idx)) as [->|Hi].
    + rewrite Hann in C5. destruct C5 as (-> & -> & -> & -> & _ & _).
      by rewrite !lookup_insert_eq.
    + rewrite !lookup_insert_ne by done.
      destruct (ca_toolAnnounced s !! i) as [[]|] eqn:E; [done|done|].
      destruct C5 as (? & ? & ? & ? & ? & Hnc). split_and!; try done.
      intros [->|?]%call_piece_called; done.
Qed.

Lemma string_app_nonempty a c : a ≠ "" ∨ c ≠ "" → a +:+ c ≠ "".
Proof. destruct a; [by destruct 1|done]. Qed.

Lemma filled_more out b a c ev :
  filled out b a → said (delta_arguments b) ev = c → filled (out ++ ev) b (a +:+ c).
Proof.
  unfold filled. rewrite said_app. intros [-> |[-> Ha]] ->.
  - left. by rewrite string_app_assoc.
  - right. split; [done|]. apply string_app_nonempty. by left.
Qed.

(** A fragment changes the arguments of its call only. *)
Lemma argument_piece g idx a i :
  said (piece_arguments i) (g ++ [PArguments idx a]) =
    said (piece_arguments i) g +:+ (if idx =? i then a else "") ∧
  said_name i (g ++ [PArguments idx a]) = said_name i g ∧
  (called i (g ++ [PArguments idx a]) → called i g).
Proof.
  rewrite said_snoc, said_name_snoc. split_and!; [done| |].
  - cbn. by destruct (said_name i g ≟ "") eqn:E; [apply String.eqb_eq in E|].
  - intros [n [Hin|Hin]%elem_of_app]; [by exists n|]. by apply list_elem_of_singleton in Hin.
Qed.

Definition cc_had_delta (b : Z) (s : CCS) : CCS :=
  if ca_ContentBlockOpen s && (b =? ca_ContentBlockIndex s)
  then s{{ ca_CurrentToolHadDelta := true }} else s.

Lemma had_delta_same b s :
  ca_toolAnnounced (cc_had_delta b s) = ca_toolAnnounced s ∧
  ca_pendingToolArgs (cc_had_delta b s) = ca_pendingToolArgs s ∧
  ca_toolBlockIndex (cc_had_delta b s) = ca_toolBlockIndex s ∧
  ca_pendingToolCallID (cc_had_delta b s) = ca_pendingToolCallID s ∧
  ca_ContentBlockIndex (cc_had_delta b s) = ca_ContentBlockIndex s ∧
  ca_ContentBlockOpen (cc_had_delta b s) = ca_ContentBlockOpen s ∧
  ca_CurrentBlockType (cc_had_delta b s) = ca_CurrentBlockType s.
Proof. unfold cc_had_delta. by case_if. Qed.

(** Arguments of an announced call go to its block. *)
Lemma late_fragment g idx a b s out :
  conveys false g s out → a ≠ "" →
  ca_toolAnnounced s !! idx = Some true → ca_toolBlockIndex s !! idx = Some b →
  conveys false (g ++ [PArguments idx a]) (cc_had_delta b s)
    (out ++ [block_delta b (json_delta a)]).
Proof.
  intros H Ha Hann Hb. eapply conveys_step; [done|]. intros [C1 C2 C3 C4 C5 C6] Hlen.
  destruct (had_delta_same b s) as (E1 & E2 & E3 & E4 & E5 & E6 & E7).
  pose proof (call_ok_block _ _ _ _ _ _ (C5 idx) Hb) as Hlt.
  constructor.
  - rewrite E5, length_app. split; lia.
  - intros c. rewrite E5, E6, said_snoc, delta_arguments_json.
    destruct (Z.eqb_spec b c) as [->|]; [done|]. rewrite string_app_nil_r. apply C2.
  - by rewrite said_silent, said_snoc, C3, string_app_nil_r.
  - by rewrite said_silent, said_snoc, C4, string_app_nil_r.
  - intros i. destruct (argument_piece g idx a i) as (Hargs & Hname & Hcalled).
    destruct (decide (i = idx)) as [->|Hi].
    + specialize (C5 idx). unfold call_ok in *. rewrite E1, E3, E4, Hann, Hb, Hname in *.
      destruct C5 as (? & ? & b' & [= <-] & Hblock & Hok). split_and!; [done|done|].
      exists b. split_and!; [done|by apply call_block_app|].
      rewrite Hargs, Z.eqb_refl. unfold block_ok. rewrite E5, E6, E7.
      assert (Hd : said (delta_arguments b) [block_delta b (json_delta a)] = a)
        by by rewrite said_one, delta_arguments_json, Z.eqb_refl.
      destruct Hok as [[? ?]|(-> & Ho & Hty & _ & Hs)].
      * left. split; [done|]. by apply filled_more.
      * right. split_and!; try done.
        -- unfold cc_had_delta. rewrite Ho, Z.eqb_refl. cbn. symmetry. apply negb_true_iff.
           apply String.eqb_neq, string_app_nonempty. by right.
        -- by rewrite said_app, Hs, Hd.
    + destruct (Z.eqb_spec idx i); [congruence|]. rewrite string_app_nil_r in Hargs.
      apply (call_ok_frame false g _ s); rewrite ?E1, ?E2, ?E3, ?E4, ?E5, ?E6, ?E7; auto.
      * intros Ho. split_and!; [done|done|]. unfold cc_had_delta.
        destruct (Z.eqb_spec b (ca_ContentBlockIndex s)) as [->|]; [|left; by rewrite andb_false_r].
        right. intros Hc. by apply Hi, (C6 i idx (ca_ContentBlockIndex s)).
      * intros c Hc. rewrite said_one, delta_arguments_json.
        destruct (Z.eqb_spec b c) as [->|]; [|done]. by destruct Hi; apply (C6 i idx c).
  - rewrite E3. exact C6.
Qed.

Definition cc_kept (idx : Z) (a : string) (s : CCS) : CCS :=
  s{{ ca_pendingToolArgs := <[idx := default "" (ca_pendingToolArgs s !! idx) +:+ a]>
                              (ca_pendingToolArgs s) }}.

(** Arguments of a call that waits are kept. *)
Lemma early_fragment g idx a s out :
  conveys false g s out → ca_toolAnnounced s !! idx = Some false →
  conveys false (g ++ [PArguments idx a]) (cc_kept idx a s) out.
Proof.
  intros H Hann Hlen. destruct (H Hlen) as [C1 C2 C3 C4 C5 C6]. constructor; try done.
  - by rewrite said_snoc, C3, string_app_nil_r.
  - by rewrite said_snoc, C4, string_app_nil_r.
  - intros i. destruct (argument_piece g idx a i) as (Hargs & Hname & Hcalled).
    change (ca_pendingToolArgs (cc_kept idx a s)) with
      (<[idx := default "" (ca_pendingToolArgs s !! idx) +:+ a]> (ca_pendingToolArgs s)).
    destruct (decide (i = idx)) as [->|Hi].
    + specialize (C5 idx). unfold call_ok in *. rewrite Hname, Hargs, Z.eqb_refl.
      change (ca_toolAnnounced (cc_kept idx a s)) with (ca_toolAnnounced s). rewrite Hann in *.
      destruct C5 as (Hp & ? & ? & ?). split_and!; [|done..].
      change (ca_pendingToolArgs (cc_kept idx a s)) with
        (<[idx := default "" (ca_pendingToolArgs s !! idx) +:+ a]> (ca_pendingToolArgs s)).
      rewrite lookup_insert_eq, Hp. done.
    + destruct (Z.eqb_spec idx i); [congruence|]. rewrite string_app_nil_r in Hargs.
      rewrite <- (app_nil_r out). apply (call_ok_frame false g _ s); auto.
      by apply lookup_insert_ne.
Qed.

(** The call was mentioned. *)
Definition mentioned (idx : Z) (g : list piece) (s : CCS) (out : list AnthropicStreamEvent) : Prop :=
  conveys false g s out ∧ is_Some (ca_toolAnnounced s !! idx).

Lemma fragment_conveys idx a g :
  triple (mentioned idx g) (fragmentCCToolCall idx a) (conveys false (g ++ [PArguments idx a])).
Proof.
  intros s out [H [ann Hann]]. unfold fragmentCCToolCall. destruct (a ≟ "") eqn:Ha.
  - apply String.eqb_eq in Ha as ->. cbn [fst snd].
    assert (Hg : ∀ i, (if idx =? i then "" else "") = "") by (intros i; by case_match).
    eapply conveys_frame; [exact H|..]; try done; rewrite ?said_snoc; try done.
    intros i. destruct (argument_piece g idx "" i) as (-> & -> & ?).
    by rewrite Hg, string_app_nil_r.
  - apply String.eqb_neq in Ha. rewrite Hann. destruct ann; cbv [from_option id]; cbn [fst snd].
    + intros Hlen. pose proof Hlen as Hlen'. rewrite length_app in Hlen'.
      assert (Hb : ∃ b, ca_toolBlockIndex s !! idx = Some b).
      { assert (Hout : Z.of_nat (length out) < 2 ^ 63) by lia.
        pose proof (cv_calls _ _ _ _ (H Hout) idx) as Hc. unfold call_ok in Hc.
        rewrite Hann in Hc. naive_solver. }
      destruct Hb as [b Hb]. revert Hlen. rewrite Hb. by apply late_fragment.
    + rewrite app_nil_r. by apply early_fragment.
Qed.

Lemma close_keeps s :
  let s' := (closeCCAnthropicBlock s).2 in
  ca_toolAnnounced s' = ca_toolAnnounced s ∧ ca_pendingToolCallID s' = ca_pendingToolCallID s.
Proof. unfold closeCCAnthropicBlock. by case_if. Qed.

(** Closing the current block, with a fact about the calls. *)
Lemma close_rests_with fin g (F : gmap Z bool → gmap Z string → Prop) :
  triple (λ s out, conveys fin g s out ∧ F (ca_toolAnnounced s) (ca_pendingToolCallID s))
    closeCCAnthropicBlock
    (λ s out, rests fin g s out ∧ F (ca_toolAnnounced s) (ca_pendingToolCallID s)).
Proof.
  intros s out [H HF]. split; [by apply close_rests|]. by destruct (close_keeps s) as [-> ->].
Qed.

Lemma announce_mentioned g idx callID name :
  name ≠ "" →
  triple (λ s out, rests false g s out ∧ ca_toolAnnounced s !! idx ≠ Some true)
    (announceCCAnthropicToolBlock idx callID name) (mentioned idx (g ++ [PCall idx name])).
Proof.
  intros Hne s out [H Hann]. split.
  - apply (announce_conveys false g); try done. intros Hc. apply names_piece.
    unfold call_ok in Hc. destruct (ca_toolAnnounced s !! idx) as [[]|]; [done|naive_solver..].
  - rewrite (an_announced _ _ _ _ _ (announce_announces idx callID name s)), lookup_insert_eq.
    by eexists.
Qed.

Lemma announce_call_conveys idx toolCall g :
  triple (lifted (conveys false g)) (announceCCToolCall idx toolCall)
    (lifted (mentioned idx (g ++ [PCall idx (fc_Name (tc_Function toolCall))]))).
Proof.
  set (name := fc_Name (tc_Function toolCall)). unfold announceCCToolCall. fold name.
  apply (triple_seq _ _ _ (λ a, lifted (λ s out, conveys false g s out ∧
    ca_toolAnnounced s !! idx = ca_toolAnnounced a !! idx))); [by intros x out|].
  intros s0. destruct (ca_toolAnnounced s0 !! idx) as [ann|] eqn:E0.
  - apply triple_if; intros Hc.
    + bool_props. subst ann. apply triple_emit. eapply triple_emits; [|apply announce_mentioned].
      * eapply triple_weaken; [| |apply (close_rests_with false g
          (λ A _, A !! idx = Some false))]; [done|].
        intros s out [Hr Ha]. cbn in Ha. split; [exact Hr|by rewrite Ha].
      * done.
    + intros [s r] out [H Hann]. cbn in Hann. split; [|by eexists].
      rewrite app_nil_r. by eapply mention_conveys.
  - eapply triple_emits.
    { apply triple_emit, (close_rests_with false g (λ A _, A !! idx = None)). }
    set (P := lifted (λ s out, rests false g s out ∧ ca_toolAnnounced s !! idx = None)).
    apply (triple_seq _ _ _ (λ _, P)).
    { intros [s r] out [[H Ho] Hann]. split; [split; [|exact Ho]|exact Hann].
      by eapply conveys_ext. }
    intros _. apply (triple_seq _ _ _ (λ _, P)).
    { intros [s r] out Hp. by case_if. }
    intros callID. apply triple_if; intros Hn.
    + apply triple_emit. eapply triple_weaken; [| |apply announce_mentioned]; [|done|].
      * intros s out [Hr Ha]. split; [exact Hr|by rewrite Ha].
      * by bool_props.
    + bool_props. rewrite Hn. apply triple_update.
      intros s out [[H _] Hann]. split; [by apply waiting_conveys|].
      exists false. apply lookup_insert_eq.
Qed.

Lemma tool_call_conveys c g :
  triple (lifted (conveys false g)) (handleCCAnthropicToolCall c)
    (lifted (conveys false (g ++ call_pieces c))).
Proof.
  unfold call_pieces. rewrite cons_middle, app_assoc.
  eapply triple_emits; [apply announce_call_conveys|]. apply triple_emit, fragment_conveys.
Qed.

Lemma choice_conveys choice g :
  triple (lifted (conveys false g)) (ccChoiceEvents choice)
    (lifted (conveys false (g ++ choice_pieces choice))).
Proof.
  unfold ccChoiceEvents, choice_pieces. rewrite app_assoc. cbv zeta.
  set (thinking := default "" (delta_reasoningText _)). set (text := default "" (cd_Content _)).
  eapply triple_emits; [eapply triple_emits; [eapply triple_emits|]|].
  - apply triple_emit, (triple_if _ _ (conveys false (g ++ [PThinking thinking]))); intros E.
    + apply nothing_conveys. right. by apply String.eqb_eq in E as ->.
    + eapply triple_emits; [apply ensure_shows|apply thinking_conveys].
  - apply triple_emit, (triple_if _ _ (conveys false ((g ++ [PThinking thinking]) ++ [PText text])));
      intros E.
    + apply nothing_conveys. left. by apply String.eqb_eq in E as ->.
    + eapply triple_emits; [|apply text_conveys].
      eapply triple_emits; [apply close_if_conveys|apply ensure_shows].
  - rewrite <- app_assoc. apply (triple_run _ call_pieces (λ g, lifted (conveys false g))).
    intros c g'. eapply triple_emits; [|apply tool_call_conveys].
    apply triple_emit, close_if_conveys.
  - apply triple_update. intros s out H. case_if; [done|].
    by eapply conveys_ext.
Qed.

(** Nothing but fields the invariant does not mention, and events that carry nothing. *)
Lemma start_conveys fin g :
  triple (conveys fin g) ensureCCAnthropicMessageStart (conveys fin g).
Proof.
  intros s out H. unfold ensureCCAnthropicMessageStart. case_if; cbn [fst snd].
  - by rewrite app_nil_r.
  - by eapply conveys_quiet.
Qed.

Lemma chunk_conveys chunk g :
  triple (lifted (conveys false g)) (ChatCompletionsChunkToAnthropicEvents chunk)
    (lifted (conveys false (g ++ chunk_pieces chunk))).
Proof.
  destruct chunk as [chunk|]; cbn [chunk_pieces]; [|rewrite app_nil_r; apply triple_ret].
  apply (triple_seq _ _ _ (λ _, lifted (conveys false g))).
  { intros [s r] out H. change (conveys false g (record_chunk chunk s) out).
    destruct (record_chunk_spec chunk s) as (i & o & cr & cc & id & m & ->).
    by eapply conveys_ext. }
  intros _. eapply triple_emits; [by apply triple_emit, start_conveys|].
  apply (triple_run _ choice_pieces (λ g, lifted (conveys false g))).
  intros choice g'. apply choice_conveys.
Qed.

(** ** The end of the stream *)

Lemma conveys_end g s out : conveys false g s out → conveys true g s out.
Proof.
  intros H Hlen. destruct (H Hlen) as [C1 C2 C3 C4 C5 C6]. constructor; try done.
  intros i. specialize (C5 i). unfold call_ok in *.
  destruct (ca_toolAnnounced s !! i) as [[]|]; naive_solver.
Qed.

(** The call [idx] is announced without a name: it waits no longer. *)
Lemma announce_pending g idx s out :
  conveys true g s out → ca_toolAnnounced s !! idx ≠ Some true →
  let r := announcePending idx s in
  conveys true g r.2 (out ++ r.1) ∧
  ca_pendingToolCallID r.2 = delete idx (ca_pendingToolCallID s) ∧
  ca_toolAnnounced r.2 = <[idx := true]> (ca_toolAnnounced s).
Proof.
  intros H Hann. unfold announcePending, emits, mbind, St_bind, mret, St_ret.
  pose proof (close_rests true g s out H) as Hr. destruct (close_keeps s) as [Ha Hid].
  destruct (closeCCAnthropicBlock s) as [o1 s1]. cbn [fst snd] in *.
  set (callID := default "" _).
  pose proof (announce_conveys true g g idx callID "" s1 (out ++ o1) Hr) as Hc.
  destruct (announce_announces idx callID "" s1) as [A1 _ A3 _ _ _ _ _ _ _ _ _].
  destruct (announceCCAnthropicToolBlock idx callID "" s1) as [o2 s2]. cbn [fst snd] in *.
  rewrite app_assoc, A1, A3, Ha, Hid. split_and!; [|done|done]. apply Hc.
  - by rewrite Ha.
  - intros Hok. split_and!; try done. unfold call_ok in Hok. rewrite Ha in Hok.
    destruct (ca_toolAnnounced s !! idx) as [[]|]; [done|naive_solver..].
  - done.
Qed.

Lemma announce_all g l s out :
  NoDup l → conveys true g s out → (∀ i, i ∈ l → ca_toolAnnounced s !! i = Some false) →
  let r := run_machine announcePending l s in
  conveys true g r.2 (out ++ r.1) ∧
  ∀ i, i ∈ l ∨ ca_pendingToolCallID s !! i = None → ca_pendingToolCallID r.2 !! i = None.
Proof.
  revert s out. induction l as [|idx l IH]; intros s out Hnd H Hl.
  - cbn. rewrite app_nil_r. split; [done|]. intros i [Hi|Hi]; [by apply not_elem_of_nil in Hi|done].
  - apply NoDup_cons in Hnd as [Hnin Hnd]. rewrite run_machine_cons.
    assert (Hidx : ca_toolAnnounced s !! idx ≠ Some true) by (rewrite Hl; [done|by left]).
    destruct (announce_pending g idx s out H Hidx) as (H1 & Hid & Ha).
    destruct (announcePending idx s) as [o1 s1]. cbn [fst snd] in *.
    destruct (IH s1 (out ++ o1) Hnd H1) as (H2 & Hrest).
    { intros i Hi. rewrite Ha, lookup_insert_ne by (intros ->; done). apply Hl. by right. }
    destruct (run_machine announcePending l s1) as [o2 s2]. cbn [fst snd] in *.
    split; [by rewrite app_assoc|]. intros i Hi. apply Hrest. rewrite Hid.
    destruct (decide (i = idx)) as [->|Hne]; [right; apply lookup_delete_eq|].
    rewrite lookup_delete_ne by done. destruct Hi as [[?|?]%elem_of_cons|?]; [done|by left|by right].
Qed.

Lemma pending_calls_spec s i : i ∈ pending_calls s ↔ is_Some (ca_pendingToolCallID s !! i).
Proof.
  unfold pending_calls. rewrite merge_sort_Permutation, list_elem_of_fmap. split.
  - intros ([j id] & -> & Hin). apply elem_of_map_to_list in Hin. by eexists.
  - intros [id Hid]. exists (i, id). split; [done|]. by apply elem_of_map_to_list.
Qed.

Lemma pending_calls_NoDup s : NoDup (pending_calls s).
Proof. unfold pending_calls. rewrite merge_sort_Permutation. apply NoDup_fst_map_to_list. Qed.

(** Every call was announced and its block closed. *)
Definition settled (g : list piece) (out : list AnthropicStreamEvent) : Prop :=
  said delta_text out = said piece_text g ∧ said delta_thinking out = said piece_thinking g ∧
  ∃ block : Z → Z, ∀ i, called i g →
    call_block (block i) (said_name i g) out ∧
    filled out (block i) (said (piece_arguments i) g) ∧
    ∀ j, called j g → block j = block i → j = i.

Lemma rests_settled g s out :
  conveys_now true g s out → ca_ContentBlockOpen s = false →
  (∀ i, ca_pendingToolCallID s !! i = None) → settled g out.
Proof.
  intros [C1 C2 C3 C4 C5 C6] Ho Hid. split_and!; [done|done|].
  exists (λ i, default 0 (ca_toolBlockIndex s !! i)).
  assert (Hb : ∀ i, called i g → ∃ b, ca_toolBlockIndex s !! i = Some b ∧
    call_block b (said_name i g) out ∧ filled out b (said (piece_arguments i) g)).
  { intros i Hi. specialize (C5 i). unfold call_ok in C5. rewrite Hid in C5.
    destruct (ca_toolAnnounced s !! i) as [[]|].
    - destruct C5 as (_ & _ & b & ? & ? & [[_ ?]|(_ & Hopen & _)]); [by exists b|congruence].
    - by destruct C5 as (_ & _ & _ & [? ?]).
    - naive_solver. }
  intros i Hi. destruct (Hb i Hi) as (b & Eb & ? & ?). rewrite Eb. split_and!; [done|done|].
  intros j Hj. destruct (Hb j Hj) as (c & Ec & _). rewrite Ec. cbn. intros ->. by eapply C6.
Qed.

Lemma finalize_conveys g s out :
  conveys false g s out → ca_MessageStopSent s = false →
  let out' := out ++ (FinalizeChatCompletionsAnthropicStream s).1 in
  Z.of_nat (length out') < 2 ^ 63 → settled g out'.
Proof.
  intros H Hstop. unfold FinalizeChatCompletionsAnthropicStream. rewrite Hstop.
  unfold emits, mbind, St_bind, mret, St_ret.
  pose proof (conveys_end _ _ _ (start_conveys false g s out H)) as H1.
  destruct (ensureCCAnthropicMessageStart s) as [o1 s1]. cbn [fst snd] in H1.
  destruct (run_machine announcePending (pending_calls s1) s1) as [o2 s2] eqn:E2.
  destruct (closeCCAnthropicBlock s2) as [o3 s3] eqn:E3.
  change (ccStop s3) with ((ccStop s3).1, (ccStop s3).2). cbn [fst snd]. intros Hlen. rewrite !app_assoc. rewrite !app_assoc in Hlen. rewrite length_app in Hlen.
  assert (Hl : ∀ i, i ∈ pending_calls s1 → ca_toolAnnounced s1 !! i = Some false).
  { intros i [id Hi]%pending_calls_spec.
    assert (Hout : Z.of_nat (length (out ++ o1)) < 2 ^ 63) by (rewrite !length_app in *; lia).
    pose proof (cv_calls _ _ _ _ (H1 Hout) i) as Hc. unfold call_ok in Hc. rewrite Hi in Hc.
    destruct (ca_toolAnnounced s1 !! i) as [[]|]; naive_solver. }
  destruct (announce_all g _ s1 (out ++ o1) (pending_calls_NoDup s1) H1 Hl) as [H2 Hid].
  rewrite E2 in H2, Hid. cbn [fst snd] in *.
  pose proof (close_rests true g s2 _ H2) as [H3 Ho]. destruct (close_keeps s2) as [_ Hk].
  rewrite E3 in *. cbn [fst snd] in *.
  destruct (rests_settled g s3 (((out ++ o1) ++ o2) ++ o3)) as (T & R & block & B);
    [apply H3; lia|done| |].
  { intros i. rewrite Hk. apply Hid.
    destruct (ca_pendingToolCallID s1 !! i) eqn:E; [left|by right].
    by apply pending_calls_spec; eexists. }
  split_and!; [by rewrite said_silent|by rewrite said_silent|]. exists block. intros i Hi.
  destruct (B i Hi) as (B1 & B2 & B3). split_and!; [by apply call_block_app| |done].
  unfold filled. by rewrite said_silent.
Qed.

Lemma new_conveys now model r :
  conveys false [] (NewChatCompletionsToAnthropicStreamState now model r).1 [].
Proof.
  intros _. constructor; try done.
  intros i. unfold call_ok. change (ca_toolAnnounced _) with (∅ : gmap Z bool).
  rewrite lookup_empty. split_and!; try done. intros [n Hin]. by apply not_elem_of_nil in Hin.
Qed.

(** ** Properties *)

(** C17: The client reads what the upstream said, whatever the order of its pieces: the text and
    the reasoning to the letter, and for every tool call the upstream mentions one tool_use block
    of its own, under the first name that came for the call, with the call's arguments in order,
    kept from before the name, and an empty object when there are none.  The only addition is the
    empty object put in front when the block was closed before the first argument came. *)
Theorem chat_content_preserved now model chunks r :
  Z.of_nat (length (converted now model chunks r)) < 2 ^ 63 →
  settled (concat (chunk_pieces <$> chunks)) (converted now model chunks r).
Proof.
  unfold converted. pose proof (new_sees now model r) as Hs. pose proof (new_conveys now model r) as Hc.
  destruct (NewChatCompletionsToAnthropicStreamState now model r) as [s r1].
  pose proof (triple_run_inv _ _ chunk_sees chunks (s, r1) [] Hs) as Hs1.
  pose proof (triple_run _ chunk_pieces (λ g, lifted (conveys false g))
    (λ c g, chunk_conveys c g) chunks [] (s, r1) [] Hc) as Hc1.
  unfold convertChunks, emits, mbind, St_bind, mret, St_ret, emit.
  destruct (run_machine ChatCompletionsChunkToAnthropicEvents chunks (s, r1)) as [o1 [s1 r2]]. cbn [fst snd app] in *.
  pose proof (finalize_conveys _ s1 o1 Hc1) as Hf.
  destruct (FinalizeChatCompletionsAnthropicStream s1) as [o2 s2]. cbn [fst snd] in *.
  intros Hlen. apply Hf, Hlen.
  destruct Hs1 as (K & _ & _ & _ & Hstop & _); [rewrite length_app in Hlen; lia|done].
Qed.

(** ** Witnesses *)

Definition demo_call (i : Z) (id name arguments : string) : ChatToolCall :=
  MkChatToolCall (Some i) id "function" (MkChatFunctionCall name arguments).

Definition demo_chunk (delta : ChatDelta) : option ChatCompletionsChunk :=
  Some (ChatCompletionsChunk0{{ cx_Choices := [MkChatChunkChoice 0 delta None] }}).

(** Reasoning, text, and two calls, the second of which is named last. *)
Definition demo_chunks : list (option ChatCompletionsChunk) :=
  [demo_chunk (ChatDelta0{{ cd_Reasoning := Some "hm" }});
   demo_chunk (ChatDelta0{{ cd_Content := Some "well" }});
   demo_chunk (ChatDelta0{{ cd_ToolCalls := [demo_call 0 "c0" "f" "{"; demo_call 0 "" "" "}"] }});
   demo_chunk (ChatDelta0{{ cd_ToolCalls := [demo_call 1 "c1" "" "[1"] }});
   demo_chunk (ChatDelta0{{ cd_ToolCalls := [demo_call 1 "" "g" "]"] }})].

Definition demo_rng : rng := Rng (λ n, [N.of_nat n]) 0.

Lemma chat_content_preserved_witness :
  Z.of_nat (length (converted 0 "m" demo_chunks demo_rng)) < 2 ^ 63 ∧
  settled (concat (chunk_pieces <$> demo_chunks)) (converted 0 "m" demo_chunks demo_rng).
Proof.
  split; [vm_compute; reflexivity|].
  apply (chat_content_preserved 0 "m" demo_chunks demo_rng). vm_compute. reflexivity.
Defined.

Lemma chat_stream_well_typed_witness :
  Z.of_nat (length (converted 0 "m" demo_chunks demo_rng)) < 2 ^ 63 ∧
  complete_message (converted 0 "m" demo_chunks demo_rng).
Proof.
  split; [vm_compute; reflexivity|].
  apply (chat_stream_well_typed 0 "m" demo_chunks demo_rng). vm_compute. reflexivity.
Defined.

(** The arguments of a first call that come after a second call was announced: the client has
    read an empty object for it, and gets the arguments behind it, on a closed block. *)
Definition demo_interleaved : list (option ChatCompletionsChunk) :=
  [demo_chunk (ChatDelta0{{ cd_ToolCalls := [demo_call 0 "c0" "f" ""; demo_call 1 "c1" "g" ""] }});
   demo_chunk (ChatDelta0{{ cd_ToolCalls := [demo_call 0 "" "" "[1]"] }})].

Example interleaved_arguments_corrupted :
  let out := converted 0 "m" demo_interleaved demo_rng in
  said (piece_arguments 0) (concat (chunk_pieces <$> demo_interleaved)) = "[1]" ∧
  said (delta_arguments 0) out = "{}[1]" ∧ Valid (said (delta_arguments 0) out) = false.
Proof. by vm_compute. Qed.
