(* ===== verification/ChatBridge.v ===== *)
(** * ChatBridge: the direct bridge against the composition it replaces

    [ChatCompletionsResponseToAnthropic] converts in one step what
    [ChatCompletionsResponseToResponses] and [ResponsesToAnthropic] convert in two; where the two
    ways agree, and where they do not. *)

From stdpp Require Import base tactics numbers list strings gmap.
From Stdlib Require Import ZArith Lia.
From S2P Require Import Prelude GoLib GoJson ApiTypes ResponsesToAnthropic AnthropicToResponses.
From S2P Require Import ChatToResponses ChatToAnthropic.

Local Open Scope go_scope.
Local Open Scope Z_scope.

(** ** What the bridges agree on *)

(** The arguments of every call are JSON. *)
Definition calls_ok (message : ChatMessage) : bool :=
  forallb (λ toolCall, Valid (call_arguments toolCall)) (cm_ToolCalls message).

(** A message of white space only does not pass for reasoning. *)
Definition reasoning_ok (message : ChatMessage) : bool :=
  negb (visible_text message ≟ "") || negb (no_calls message) ||
  (message_reasoningText message ≟ "").

(** Who stops for a call makes one. *)
Definition choice_ok (choice : ChatChoice) : bool :=
  calls_ok (ch_Message choice) && reasoning_ok (ch_Message choice) &&
  (negb (ch_FinishReason choice ≟ "tool_calls") || negb (no_calls (ch_Message choice))).

(** Counts of tokens are not negative. *)
Definition usage_ok (usage : ChatUsage) : bool :=
  match cu_PromptTokensDetails usage with
  | Some d => (0 <=? td_CachedTokens d) && (0 <=? td_CacheCreationTokens d)
  | None => true
  end.

Definition bridgeable (resp : option ChatCompletionsResponse) (model : string) : bool :=
  match resp with
  | None => true
  | Some resp =>
      negb (model ≟ "") &&
      match cr_Choices resp with choice :: _ => choice_ok choice | [] => true end &&
      match cr_Usage resp with Some usage => usage_ok usage | None => true end
  end.

Section Bridge.
Context (sha256_hex : string → string) (now : Z).

(** The two conversions one after the other, for a client that declared no tools to restore. *)
Definition two_steps (resp : option ChatCompletionsResponse) (model : string) (r : rng)
    : AnthropicResponse :=
  ResponsesToAnthropic
    (ChatCompletionsResponseToResponses sha256_hex now resp model ∅ ∅ false ∅ r).1 model.

(** *** Usage *)

Lemma usage_agrees usage :
  usage_ok usage = true →
  anthropicUsageFromResponsesUsage (ChatUsageToResponsesUsage (Some usage)) =
    chatUsageToAnthropicUsage (Some usage).
Proof.
  unfold usage_ok, ChatUsageToResponsesUsage, chatUsageToAnthropicUsage.
  destruct (cu_PromptTokensDetails usage) as [d|]; [|done]. intros H. bool_props.
  destruct (_ || _) eqn:E; [done|]. bool_props.
  assert (Hc : td_CachedTokens d = 0) by lia.
  assert (Hr : td_CacheCreationTokens d = 0) by lia.
  destruct (Z.ltb_spec 0 (td_CacheWriteTokens d)); [lia|]. by rewrite Hc, Hr.
Qed.

Lemma usage_or_none usage :
  match usage with
  | Some _ => anthropicUsageFromResponsesUsage usage
  | None => AnthropicUsage0
  end = anthropicUsageFromResponsesUsage usage.
Proof. by destruct usage. Qed.

(** *** Blocks *)

Lemma no_custom_tool name : customToolCallName sha256_hex name ∅ ∅ ∅ = None.
Proof. done. Qed.

Definition call_use (toolCall : ChatToolCall) : AnthropicContentBlock :=
  AnthropicContentBlock0{{ cb_Type := "tool_use";
                           cb_ID := fromResponsesCallID (tc_ID toolCall);
                           cb_Name := fc_Name (tc_Function toolCall);
                           cb_Input := sanitizeAnthropicToolUseInput
                                         (fc_Name (tc_Function toolCall))
                                         (call_arguments toolCall) }}.

Definition item_blocks (items : list ResponsesOutput) : list AnthropicContentBlock :=
  concat (outputItemBlocks <$> items).

Lemma item_blocks_app l1 l2 : item_blocks (l1 ++ l2) = item_blocks l1 ++ item_blocks l2.
Proof. unfold item_blocks. by rewrite fmap_app, concat_app. Qed.

Lemma call_agrees toolCall r :
  Valid (call_arguments toolCall) = true →
  item_blocks (toolCallOutputs sha256_hex ∅ ∅ false ∅ toolCall r).1 = [call_use toolCall].
Proof. intros Hv. unfold toolCallOutputs. rewrite no_custom_tool, Hv. done. Qed.

Lemma calls_agree calls r :
  forallb (λ toolCall, Valid (call_arguments toolCall)) calls = true →
  item_blocks (run_machine (toolCallOutputs sha256_hex ∅ ∅ false ∅) calls r).1 =
    call_use <$> calls.
Proof.
  revert r. induction calls as [|c calls IH]; intros r H; [done|]. cbn [forallb] in H.
  apply andb_true_iff in H as [Hc H]. rewrite run_machine_cons.
  pose proof (call_agrees c r Hc) as H1.
  destruct (toolCallOutputs _ _ _ _ _ c r) as [o1 r1]. specialize (IH r1 H).
  destruct (run_machine _ calls r1) as [o2 r2]. cbn [fst] in *.
  by rewrite item_blocks_app, H1, IH.
Qed.

Lemma emits_fst {S O} (a b : St S (list O)) s : (emits a b s).1 = (a s).1 ++ (b (a s).2).1.
Proof.
  unfold emits, mbind, St_bind, mret, St_ret. destruct (a s) as [o s1]. cbn [fst snd].
  by destruct (b s1).
Qed.

Lemma reasoning_block reasoning r :
  (reasoning ≟ "") = false →
  item_blocks ((id ← generateItemID;
    mret [ResponsesOutput0{{ ro_Type := "reasoning";
                             ro_ID := id;
                             ro_Summary := [MkResponsesSummary "summary_text" reasoning] }}]) r).1
  = [AnthropicContentBlock0{{ cb_Type := "thinking"; cb_Thinking := reasoning }}].
Proof. by destruct reasoning. Qed.

Lemma text_block text r :
  item_blocks ((id ← generateItemID;
    mret [message_item id [ResponsesContentPart0{{ rp_Type := "output_text";
                                                   rp_Text := text }}]]) r).1
  = if text ≟ "" then [] else [AnthropicContentBlock0{{ cb_Type := "text"; cb_Text := text }}].
Proof. by destruct text. Qed.

(** The blocks of a message are those of its items, unless it is empty. *)
Lemma message_agrees message r :
  calls_ok message = true → reasoning_ok message = true →
  item_blocks (chatMessageToResponsesOutput sha256_hex message ∅ ∅ false ∅ r).1 =
    if (visible_text message ≟ "") && no_calls message then []
    else chatMessageToAnthropicBlocks message.
Proof.
  unfold calls_ok, reasoning_ok, chatMessageToResponsesOutput. intros Hc Hr. cbv zeta.
  rewrite !emits_fst, !item_blocks_app, calls_agree by exact Hc.
  unfold chatMessageToAnthropicBlocks. cbv zeta.
  change (fmap _ (cm_ToolCalls message)) with (call_use <$> cm_ToolCalls message) at 2.
  set (reasoning := message_reasoningText message) in *.
  destruct (reasoning ≟ "") eqn:Er, (visible_text message ≟ "") eqn:Et, (no_calls message) eqn:Ec;
    try discriminate Hr; cbn [negb andb orb];
    rewrite ?text_block, ?Et, ?reasoning_block by done; try done.
  unfold no_calls in Ec. by destruct (cm_ToolCalls message).
Qed.
(** *** Stop reasons *)

Lemma contains_call message :
  no_calls message = false →
  containsAnthropicToolUseBlock (chatMessageToAnthropicBlocks message) = true.
Proof.
  unfold no_calls, chatMessageToAnthropicBlocks, containsAnthropicToolUseBlock. cbv zeta.
  destruct (cm_ToolCalls message) as [|c l]; [done|]. intros _.
  rewrite !existsb_app. cbn. by rewrite !orb_true_r.
Qed.

Definition completed_status (finish : string) : string * option ResponsesIncompleteDetails :=
  if finish ≟ "length"
  then ("incomplete", Some (MkResponsesIncompleteDetails "max_output_tokens"))
  else ("completed", None).

Lemma stop_agrees choice :
  choice_ok choice = true →
  let blocks := chatMessageToAnthropicBlocks (ch_Message choice) in
  let '(status, details) := completed_status (ch_FinishReason choice) in
  responsesStatusToAnthropicStopReason status details blocks =
    chatFinishReasonToAnthropicStopReason (ch_FinishReason choice) blocks.
Proof.
  unfold choice_ok, completed_status, chatFinishReasonToAnthropicStopReason. intros H. cbv zeta.
  bool_props. cbn [switch existsb]. rewrite !orb_false_r.
  destruct (ch_FinishReason choice ≟ "length") eqn:E; [done|].
  destruct (ch_FinishReason choice ≟ "tool_calls"); [|done].
  cbn in *. rewrite contains_call; [done|]. by bool_props.
Qed.

Lemma stop_reason_nonempty reason blocks :
  (chatFinishReasonToAnthropicStopReason reason blocks ≟ "") = false.
Proof.
  unfold chatFinishReasonToAnthropicStopReason. cbn [switch existsb]. by repeat case_if.
Qed.

Lemma blocks_nonempty message : chatMessageToAnthropicBlocks message ≠ [].
Proof.
  unfold chatMessageToAnthropicBlocks, no_calls. cbv zeta.
  destruct (cm_ToolCalls message); [|by repeat case_if].
  rewrite orb_true_r. by case_if.
Qed.

(** An empty message has an empty text. *)
Lemma empty_blocks message :
  calls_ok message = true → reasoning_ok message = true →
  (visible_text message ≟ "") && no_calls message = true →
  chatMessageToAnthropicBlocks message =
    [AnthropicContentBlock0{{ cb_Type := "text"; cb_Text := "" }}].
Proof.
  unfold reasoning_ok, chatMessageToAnthropicBlocks. intros _ Hr H. cbv zeta.
  apply andb_true_iff in H as [Ht Hn]. rewrite Ht, Hn in *. cbn in Hr. rewrite Hr. cbn.
  unfold no_calls in Hn. apply String.eqb_eq in Ht as ->. by destruct (cm_ToolCalls message).
Qed.
(** *** The two steps *)

Definition response_id (resp : ChatCompletionsResponse) (r : rng) : string :=
  if cr_ID resp ≟ "" then (generateResponsesID r).1 else cr_ID resp.

Definition empty_message_item (id : string) : ResponsesOutput :=
  message_item id [ResponsesContentPart0{{ rp_Type := "output_text"; rp_Text := "" }}].

(** What the first step makes of a response. *)
Lemma first_step resp model r :
  let out := (ChatCompletionsResponseToResponses sha256_hex now (Some resp) model ∅ ∅ false ∅ r).1 in
  rr_ID out = response_id resp r ∧
  rr_Usage out = match cr_Usage resp with
                 | Some usage => ChatUsageToResponsesUsage (Some usage)
                 | None => None
                 end ∧
  match cr_Choices resp with
  | [] => item_blocks (rr_Output out) = [] ∧ rr_Status out = "completed"
  | choice :: _ =>
      (rr_Status out, rr_IncompleteDetails out) = completed_status (ch_FinishReason choice) ∧
      ∃ r', item_blocks (rr_Output out) =
              item_blocks (chatMessageToResponsesOutput sha256_hex (ch_Message choice)
                             ∅ ∅ false ∅ r').1
  end.
Proof.
  unfold ChatCompletionsResponseToResponses, response_id, completed_status. cbv zeta.
  unfold mbind, St_bind, mret, St_ret, emptyResponsesMessageOutput, mbind, St_bind, mret, St_ret.
  assert (Hid : ∃ r1, (if cr_ID resp ≟ "" then generateResponsesID else (λ s, (cr_ID resp, s))) r =
    (if cr_ID resp ≟ "" then (generateResponsesID r).1 else cr_ID resp, r1)).
  { case_if; [|by eexists]. destruct (generateResponsesID r). by eexists. }
  destruct Hid as [r1 ->]. set (id := if cr_ID resp ≟ "" then _ else _).
  destruct (cr_Choices resp) as [|choice rest].
  - destruct (generateItemID r1) as [i r2] eqn:Ei.
    destruct (model ≟ ""), (cr_Usage resp); cbn -[ChatUsageToResponsesUsage generateItemID];
      rewrite Ei; done.
  - destruct (chatMessageToResponsesOutput _ (ch_Message choice) _ _ _ _ r1) as [output r2] eqn:E.
    assert (Eo : output = (chatMessageToResponsesOutput sha256_hex (ch_Message choice)
      ∅ ∅ false ∅ r1).1) by by rewrite E.
    destruct (generateItemID r2) as [i r3] eqn:Ei.
    destruct (ch_FinishReason choice ≟ "length"), (model ≟ ""), output as [|item output],
      (cr_Usage resp); cbn -[ChatUsageToResponsesUsage chatMessageToResponsesOutput generateItemID];
      rewrite ?Ei; (split_and!; [done..|exists r1; by rewrite <- Eo]).
Qed.

(** *** The direct step *)

Definition direct_content (resp : ChatCompletionsResponse) : list AnthropicContentBlock :=
  match cr_Choices resp with
  | [] => [AnthropicContentBlock0{{ cb_Type := "text"; cb_Text := "" }}]
  | choice :: _ => chatMessageToAnthropicBlocks (ch_Message choice)
  end.

Definition direct_stop (resp : ChatCompletionsResponse) : string :=
  match cr_Choices resp with
  | [] => "end_turn"
  | choice :: _ => chatFinishReasonToAnthropicStopReason (ch_FinishReason choice) (direct_content resp)
  end.

Lemma direct_step resp model r :
  (model ≟ "") = false →
  (ChatCompletionsResponseToAnthropic (Some resp) model r).1 =
    AnthropicResponse0{{ am_ID := response_id resp r; am_Type := "message"; am_Role := "assistant";
                         am_Model := model; am_Content := direct_content resp;
                         am_StopReason := Some (direct_stop resp);
                         am_Usage := match cr_Usage resp with
                                     | Some usage => chatUsageToAnthropicUsage (Some usage)
                                     | None => AnthropicUsage0
                                     end }}.
Proof.
  intros Hm. unfold ChatCompletionsResponseToAnthropic, direct_stop, direct_content, response_id.
  destruct (cr_Choices resp) as [|choice rest].
  - destruct (cr_Usage resp); cbn -[chatUsageToAnthropicUsage generateResponsesID];
      rewrite Hm; cbn -[chatUsageToAnthropicUsage generateResponsesID]; 
      (destruct (cr_ID resp ≟ ""); [|done]); unfold mbind, St_bind;
      by destruct (generateResponsesID r).
  - pose proof (blocks_nonempty (ch_Message choice)) as Hne.
    destruct (chatMessageToAnthropicBlocks (ch_Message choice)) as [|b bs]; [done|].
    pose proof (stop_reason_nonempty (ch_FinishReason choice) (b :: bs)) as Hs.
    destruct (cr_Usage resp);
      cbn -[chatUsageToAnthropicUsage generateResponsesID chatFinishReasonToAnthropicStopReason];
      rewrite Hm; 
      cbn -[chatUsageToAnthropicUsage generateResponsesID chatFinishReasonToAnthropicStopReason];
      rewrite Hs;
      cbn -[chatUsageToAnthropicUsage generateResponsesID chatFinishReasonToAnthropicStopReason];
      (destruct (cr_ID resp ≟ ""); [|done]); unfold mbind, St_bind;
      by destruct (generateResponsesID r).
Qed.

(** ** Properties *)

(** C21: The direct bridge gives the response the two conversions it replaces give, block by
    block, with the same identifier, model, stop reason and usage, when there is no response at
    all, and whenever the caller names the model, the response's first choice has only calls with
    JSON arguments, has reasoning of more than white space unless it has text or a call beside it,
    and says [tool_calls] only when it makes one, and the counts of cached and of cache-creation
    tokens are not negative.  Outside these conditions the two differ: the Examples below. *)
Theorem bridge_agrees_with_two_steps resp model r :
  bridgeable resp model = true →
  (ChatCompletionsResponseToAnthropic resp model r).1 = two_steps resp model r.
Proof.
  destruct resp as [resp|]; cbn [bridgeable]; intros H.
  - apply andb_true_iff in H as [H Hu]. apply andb_true_iff in H as [Hm Hc].
    apply negb_true_iff in Hm. rewrite direct_step by done.
    destruct (first_step resp model r) as (Hid & Husage & Hout). unfold two_steps.
    set (out := (ChatCompletionsResponseToResponses _ _ _ _ _ _ _ _ r).1) in *.
    unfold ResponsesToAnthropic.
    rewrite Hid, Husage, usage_or_none. fold (item_blocks (rr_Output out)).
    assert (Husg : match cr_Usage resp with
                   | Some usage => chatUsageToAnthropicUsage (Some usage)
                   | None => AnthropicUsage0
                   end = anthropicUsageFromResponsesUsage
                           (match cr_Usage resp with
                            | Some usage => ChatUsageToResponsesUsage (Some usage)
                            | None => None
                            end)).
    { destruct (cr_Usage resp) as [usage|]; [by rewrite usage_agrees|done]. }
    unfold direct_stop, direct_content. destruct (cr_Choices resp) as [|choice rest].
    + destruct Hout as [-> Hs]. by rewrite Hs, Husg.
    + destruct Hout as [Hs (r' & Hb)]. unfold choice_ok in Hc.
      pose proof (stop_agrees choice Hc) as Hst.
      apply andb_true_iff in Hc as [Hc _]. apply andb_true_iff in Hc as [Hcalls Hr].
      rewrite Hb, (message_agrees _ r' Hcalls Hr). rewrite Husg.
      destruct (completed_status (ch_FinishReason choice)) as [status details].
      injection Hs as -> ->. cbv zeta in Hst.
      destruct (_ && _) eqn:E.
      * rewrite (empty_blocks _ Hcalls Hr E) in *. by rewrite Hst.
      * pose proof (blocks_nonempty (ch_Message choice)) as Hne. rewrite <- Hst.
        by destruct (chatMessageToAnthropicBlocks (ch_Message choice)).
  - done.
Qed.
End Bridge.

(** ** Witness, and where the two ways part *)

Definition demo_response (message : ChatMessage) (finish : string) : ChatCompletionsResponse :=
  ChatCompletionsResponse0{{ cr_ID := "chatcmpl-1"; cr_Choices := [MkChatChoice 0 message finish];
    cr_Usage := Some (MkChatUsage 9 3 12
      (Some (ChatTokenDetails0{{ td_CachedTokens := 4; td_CacheWriteTokens := 2 }})) None) }}.

Definition demo_message (reasoning arguments : string) : ChatMessage :=
  ChatMessage0{{ cm_ReasoningContent := reasoning;
                 cm_ToolCalls := [MkChatToolCall None "call_1" "function"
                                    (MkChatFunctionCall "Bash" arguments)] }}.

Definition demo_sha : string → string := λ s, s.

Definition demo_good : option ChatCompletionsResponse :=
  Some (demo_response (demo_message "hm" "{}") "tool_calls").

Lemma bridge_agrees_with_two_steps_witness :
  bridgeable demo_good "claude" = true ∧
  (ChatCompletionsResponseToAnthropic demo_good "claude" (Rng (λ _, []) 0)).1
    = two_steps demo_sha 0 demo_good "claude" (Rng (λ _, []) 0).
Proof.
  split; [vm_compute; reflexivity|].
  apply (bridge_agrees_with_two_steps demo_sha 0 demo_good "claude" (Rng (λ _, []) 0)).
  vm_compute. reflexivity.
Defined.

Definition direct (resp : option ChatCompletionsResponse) : AnthropicResponse :=
  (ChatCompletionsResponseToAnthropic resp "claude" (Rng (λ _, []) 0)).1.
Definition composed (resp : option ChatCompletionsResponse) : AnthropicResponse :=
  two_steps demo_sha 0 resp "claude" (Rng (λ _, []) 0).

(** A caller that does not name the model: the direct bridge takes the response's. *)
Example unnamed_model :
  am_Model (ChatCompletionsResponseToAnthropic demo_good "" (Rng (λ _, []) 0)).1 =
    match demo_good with Some resp => cr_Model resp | None => "" end ∧
  am_Model (two_steps demo_sha 0 demo_good "" (Rng (λ _, []) 0)) = "".
Proof. by vm_compute. Qed.

(** A call whose arguments were cut short: the direct bridge passes them on as the block's input,
    which is not JSON; the two steps leave the call out. *)
Definition demo_truncated : option ChatCompletionsResponse :=
  Some (demo_response (demo_message "" "[1") "length").

Example truncated_call_passed_on :
  (cb_Input <$> am_Content (direct demo_truncated)) = ["[1"] ∧ Valid "[1" = false ∧
  (cb_Type <$> am_Content (composed demo_truncated)) = ["text"].
Proof. by vm_compute. Qed.

(** A response that stops for calls without one. *)
Definition demo_no_call : option ChatCompletionsResponse :=
  Some (demo_response ChatMessage0 "tool_calls").

Example stop_without_call :
  am_StopReason (direct demo_no_call) = Some "tool_use" ∧
  am_StopReason (composed demo_no_call) = Some "end_turn".
Proof. by vm_compute. Qed.

(** A response that reasons nothing but white space. *)
Definition demo_blank : option ChatCompletionsResponse :=
  Some (demo_response (ChatMessage0{{ cm_ReasoningContent := " " }}) "stop").

Example blank_reasoning :
  (cb_Type <$> am_Content (direct demo_blank)) = ["thinking"; "text"] ∧
  (cb_Type <$> am_Content (composed demo_blank)) = ["thinking"].
Proof. by vm_compute. Qed.
