(* ===== verification/ChatToResStream.v ===== *)
(** * ChatToResStream: Chat Completions streams as Responses streams

    Models the stream converter of
    [backend/internal/pkg/apicompat/chatcompletions_responses_bridge.go]: chunks of a Chat
    Completions stream become the events of a Responses stream.  Identifiers come from the random
    oracle, [now] is [time.Now().Unix()], SHA-256 is a parameter.  A [strings.Builder] is its
    text; the calls a Go map points to are the values of a map. *)

From stdpp Require Import base tactics numbers list strings gmap.
From Stdlib Require Import ZArith Lia.
From S2P Require Import Prelude GoLib GoJson ApiTypes AnthropicToResponses ChatToResponses.

Local Open Scope go_scope.
Local Open Scope Z_scope.

(** ** State *)

Record ChatCompletionsToResponsesStreamState : Type := MkChatCompletionsToResponsesStreamState {
  xr_ResponseID : string;
  xr_Model : string;
  xr_Created : Z;
  xr_ServiceTier : string;
  xr_SequenceNumber : Z;
  xr_CreatedSent : bool;
  xr_CompletedSent : bool;
  xr_nextOutputIndex : Z;
  xr_ReasoningItemID : string;
  xr_ReasoningIndex : Z;
  xr_ReasoningOpen : bool;
  xr_ReasoningDone : bool;
  xr_MessageItemID : string;
  xr_MessageIndex : Z;
  xr_TextPartOpen : bool;
  xr_Text : string;
  xr_Reasoning : string;
  xr_ToolCalls : gmap Z ChatToolCall;
  xr_ToolItemIDs : gmap Z string;
  xr_ToolOutputIndex : gmap Z Z;
  xr_CustomTools : gmap string bool;
  xr_FunctionTools : gmap string bool;
  xr_ToolSearchDeclared : bool;
  xr_NamespaceTools : gmap string NamespacedToolName;
  xr_toolIsCustom : gmap Z bool;
  xr_toolIsToolSearch : gmap Z bool;
  xr_toolNamespace : gmap Z NamespacedToolName;
  xr_toolAnnounced : gmap Z bool;
  xr_FinishReason : string;
  xr_Usage : option ResponsesUsage
}.

Definition NewChatCompletionsToResponsesStreamState (now : Z) (model : string)
    : St rng ChatCompletionsToResponsesStreamState :=
  id ← generateResponsesID;
  mret (MkChatCompletionsToResponsesStreamState id model now "" 0 false false 0 "" 0 false false
          "" 0 false "" "" ∅ ∅ ∅ ∅ ∅ false ∅ ∅ ∅ ∅ ∅ "" None).

(** What emits events and changes the state; a handler may draw identifiers as well. *)
Definition XREmit : Type := St ChatCompletionsToResponsesStreamState (list ResponsesStreamEvent).
Definition XRst : Type := ChatCompletionsToResponsesStreamState * rng.
Definition XR (A : Type) : Type := St XRst A.

Definition xr_emit (h : XREmit) : XR (list ResponsesStreamEvent) :=
  λ '(s, r), let '(events, s) := h s in (events, (s, r)).
Definition xr_state : XR ChatCompletionsToResponsesStreamState := λ w, (w.1, w).
Definition xr_update
    (f : ChatCompletionsToResponsesStreamState → ChatCompletionsToResponsesStreamState) : XR unit :=
  λ '(s, r), (tt, (f s, r)).
Definition xr_draw {A : Type} (m : St rng A) : XR A :=
  λ '(s, r), let '(a, r) := m r in (a, (s, r)).

(** The event, with the next sequence number. *)
Definition chatToResponsesEvent (eventType : string) (template : ResponsesStreamEvent) : XREmit :=
  λ state,
  let seq := xr_SequenceNumber state in
  ([template{{ re_Type := eventType; re_SequenceNumber := seq }}],
   state{{ xr_SequenceNumber := seq +! 1 }}).

Definition allocOutputIndex (state : ChatCompletionsToResponsesStreamState)
    : Z * ChatCompletionsToResponsesStreamState :=
  (xr_nextOutputIndex state, state{{ xr_nextOutputIndex := xr_nextOutputIndex state +! 1 }}).

(** ** Items *)

Definition ensureChatToResponsesCreated : XREmit := λ state,
  if xr_CreatedSent state then ([], state) else
  chatToResponsesEvent "response.created"
    (ResponsesStreamEvent0{{ re_Response := Some (ResponsesResponse0{{
       rr_ID := xr_ResponseID state;
       rr_Object := "response";
       rr_CreatedAt := xr_Created state;
       rr_Model := xr_Model state;
       rr_Status := "in_progress";
       rr_ServiceTier := xr_ServiceTier state;
       rr_Output := [] }}) }})
    (state{{ xr_CreatedSent := true }}).

Definition ensureChatReasoningItem : XR (list ResponsesStreamEvent) :=
  state ← xr_state;
  if xr_ReasoningOpen state || xr_ReasoningDone state then mret [] else
  id ← xr_draw generateItemID;
  let '(index, state) := allocOutputIndex state in
  _ ← xr_update (λ _, state{{ xr_ReasoningOpen := true;
                              xr_ReasoningItemID := id;
                              xr_ReasoningIndex := index }});
  xr_emit (
    chatToResponsesEvent "response.output_item.added"
      (ResponsesStreamEvent0{{ re_OutputIndex := index;
         re_Item := Some (ResponsesOutput0{{ ro_Type := "reasoning"; ro_ID := id;
                                             ro_Status := "in_progress" }}) }}) +>
    chatToResponsesEvent "response.reasoning_summary_part.added"
      (ResponsesStreamEvent0{{ re_OutputIndex := index;
         re_SummaryIndex := 0;
         re_ItemID := id;
         re_Part := Some (ResponsesContentPart0{{ rp_Type := "summary_text" }}) }})).

Definition closeChatReasoningItem : XREmit := λ state,
  if negb (xr_ReasoningOpen state) then ([], state) else
  let reasoning := xr_Reasoning state in
  let index := xr_ReasoningIndex state in
  let id := xr_ReasoningItemID state in
  (chatToResponsesEvent "response.reasoning_summary_text.done"
     (ResponsesStreamEvent0{{ re_OutputIndex := index;
        re_SummaryIndex := 0;
        re_Text := reasoning;
        re_ItemID := id }}) +>
   chatToResponsesEvent "response.reasoning_summary_part.done"
     (ResponsesStreamEvent0{{ re_OutputIndex := index;
        re_SummaryIndex := 0;
        re_ItemID := id;
        re_Part := Some (ResponsesContentPart0{{ rp_Type := "summary_text";
                                                 rp_Text := reasoning }}) }}) +>
   chatToResponsesEvent "response.output_item.done"
     (ResponsesStreamEvent0{{ re_OutputIndex := index;
        re_Item := Some (ResponsesOutput0{{ ro_Type := "reasoning"; ro_ID := id;
                                            ro_Status := "completed";
                                            ro_Summary := [MkResponsesSummary "summary_text"
                                                             reasoning] }}) }}))
    (state{{ xr_ReasoningOpen := false; xr_ReasoningDone := true }}).

Definition ensureChatToResponsesMessageItem : XR (list ResponsesStreamEvent) :=
  state ← xr_state;
  if negb (xr_MessageItemID state ≟ "") then mret [] else
  id ← xr_draw generateItemID;
  let '(index, state) := allocOutputIndex state in
  _ ← xr_update (λ _, state{{ xr_MessageItemID := id; xr_MessageIndex := index }});
  xr_emit (
    chatToResponsesEvent "response.output_item.added"
      (ResponsesStreamEvent0{{ re_OutputIndex := index;
         re_Item := Some (ResponsesOutput0{{ ro_Type := "message"; ro_ID := id;
           ro_Role := "assistant";
           ro_Status := "in_progress";
           ro_Content := [ResponsesContentPart0{{ rp_Type := "output_text" }}] }}) }})).

Definition ensureChatToResponsesTextPart : XREmit := λ state,
  if xr_TextPartOpen state then ([], state) else
  chatToResponsesEvent "response.content_part.added"
    (ResponsesStreamEvent0{{ re_OutputIndex := xr_MessageIndex state;
       re_ContentIndex := 0;
       re_ItemID := xr_MessageItemID state;
       re_Part := Some (ResponsesContentPart0{{ rp_Type := "output_text"; rp_Text := "" }}) }})
    (state{{ xr_TextPartOpen := true }}).

(** A fragment of the text, kept and passed on. *)
Definition text_delta (text : string) : XREmit := λ state,
  chatToResponsesEvent "response.output_text.delta"
    (ResponsesStreamEvent0{{ re_OutputIndex := xr_MessageIndex state;
       re_ContentIndex := 0;
       re_Delta := text;
       re_ItemID := xr_MessageItemID state }})
    (state{{ xr_Text := xr_Text state +:+ text }}).

Definition reasoning_delta (text : string) : XREmit := λ state,
  chatToResponsesEvent "response.reasoning_summary_text.delta"
    (ResponsesStreamEvent0{{ re_OutputIndex := xr_ReasoningIndex state;
       re_SummaryIndex := 0;
       re_Delta := text;
       re_ItemID := xr_ReasoningItemID state }})
    (state{{ xr_Reasoning := xr_Reasoning state +:+ text }}).

Definition synthesizeChatReasoningFallbackMessage : XR (list ResponsesStreamEvent) :=
  state ← xr_state;
  if negb (xr_MessageItemID state ≟ "") || negb (xr_Text state ≟ "") ||
     (xr_Reasoning state ≟ "") || negb (bool_decide (xr_ToolCalls state = ∅)) ||
     (TrimSpace (xr_Reasoning state) ≟ "")
  then mret [] else
  ensureChatToResponsesMessageItem +>
  xr_emit ensureChatToResponsesTextPart +>
  xr_emit (text_delta (xr_Reasoning state)).

(** ** Tool calls *)

Section Calls.
Context (sha256_hex : string → string).

Definition customNameForStreamTool (state : ChatCompletionsToResponsesStreamState) (name : string)
    : string :=
  default name (customToolCallName sha256_hex name (xr_CustomTools state) (xr_FunctionTools state)
                  (xr_NamespaceTools state)).

(** The request declared tools that were downgraded. *)
Definition tools_declared (state : ChatCompletionsToResponsesStreamState) : bool :=
  negb (bool_decide (xr_CustomTools state = ∅)) || negb (bool_decide (xr_FunctionTools state = ∅)) ||
  xr_ToolSearchDeclared state || negb (bool_decide (xr_NamespaceTools state = ∅)).

(** What an announcement decides about a call: is it custom, is it a tool search, and the name
    and namespace of its item. *)
Definition classify (state : ChatCompletionsToResponsesStreamState) (name : string)
    : bool * bool * option NamespacedToolName * string :=
  let custom := customToolCallName sha256_hex name (xr_CustomTools state) (xr_FunctionTools state)
                  (xr_NamespaceTools state) in
  let isCustom := bool_decide (is_Some custom) in
  let isToolSearch := negb isCustom && xr_ToolSearchDeclared state && (name ≟ toolSearchProxyName) in
  let ns := if negb isCustom && negb isToolSearch then xr_NamespaceTools state !! name else None in
  (isCustom, isToolSearch, ns, default name custom).

Definition arguments_delta (idx : Z) (stored : ChatToolCall) (delta : string) : XREmit := λ state,
  chatToResponsesEvent "response.function_call_arguments.delta"
    (ResponsesStreamEvent0{{ re_OutputIndex := default 0 (xr_ToolOutputIndex state !! idx);
       re_ItemID := default "" (xr_ToolItemIDs state !! idx);
       re_Delta := delta;
       re_CallID := tc_ID stored;
       re_Name := fc_Name (tc_Function stored) }}) state.

Definition announceChatToolItem (idx : Z) (stored : ChatToolCall) (force : bool) : XREmit :=
  λ state,
  let name := fc_Name (tc_Function stored) in
  if default false (xr_toolAnnounced state !! idx) then ([], state) else
  if negb force && (name ≟ "") && tools_declared state then ([], state) else
  let '(isCustom, isToolSearch, ns, itemName) := classify state name in
  let itemType := if isToolSearch then "tool_search_call"
                  else if isCustom then "custom_tool_call" else "function_call" in
  let itemName := match ns with Some ns => nt_Name ns | None => itemName end in
  let itemNamespace := match ns with Some ns => nt_Namespace ns | None => "" end in
  (chatToResponsesEvent "response.output_item.added"
     (ResponsesStreamEvent0{{ re_OutputIndex := default 0 (xr_ToolOutputIndex state !! idx);
        re_Item := Some (ResponsesOutput0{{ ro_Type := itemType;
          ro_ID := default "" (xr_ToolItemIDs state !! idx);
          ro_CallID := tc_ID stored;
          ro_Name := itemName;
          ro_Namespace := itemNamespace;
          ro_Status := "in_progress" }}) }}) +>
   (if negb isCustom && negb isToolSearch && negb (fc_Arguments (tc_Function stored) ≟ "")
    then arguments_delta idx stored (fc_Arguments (tc_Function stored)) else mret []))
    (state{{ xr_toolAnnounced := <[idx := true]> (xr_toolAnnounced state);
             xr_toolIsCustom := <[idx := isCustom]> (xr_toolIsCustom state);
             xr_toolIsToolSearch := <[idx := isToolSearch]> (xr_toolIsToolSearch state);
             xr_toolNamespace :=
               match ns with
               | Some ns => <[idx := ns]> (xr_toolNamespace state)
               | None => xr_toolNamespace state
               end }}).

(** A call that is mentioned for the first time, with the identifiers drawn for it. *)
Definition open_call (idx : Z) (callID itemID : string) (toolCall : ChatToolCall)
    (state : ChatCompletionsToResponsesStreamState) : ChatCompletionsToResponsesStreamState :=
  let '(index, state) := allocOutputIndex state in
  state{{ xr_ToolCalls :=
            <[idx := MkChatToolCall (tc_Index toolCall) callID "function"
                       (MkChatFunctionCall (fc_Name (tc_Function toolCall)) "")]>
              (xr_ToolCalls state);
          xr_ToolItemIDs := <[idx := itemID]> (xr_ToolItemIDs state);
          xr_ToolOutputIndex := <[idx := index]> (xr_ToolOutputIndex state) }}.

(** A later fragment may complete the identifier and the name. *)
Definition update_call (toolCall stored : ChatToolCall) : ChatToolCall :=
  MkChatToolCall (tc_Index stored)
    (if tc_ID toolCall ≟ "" then tc_ID stored else tc_ID toolCall)
    (tc_Type stored)
    (MkChatFunctionCall
       (if fc_Name (tc_Function toolCall) ≟ "" then fc_Name (tc_Function stored)
        else fc_Name (tc_Function toolCall))
       (fc_Arguments (tc_Function stored))).

Definition store_call (idx : Z) (toolCall : ChatToolCall) : XR (list ResponsesStreamEvent) :=
  state ← xr_state;
  match xr_ToolCalls state !! idx with
  | None =>
      xr_emit closeChatReasoningItem +>
      (callID ← xr_draw (if tc_ID toolCall ≟ "" then generateItemID else mret (tc_ID toolCall));
       itemID ← xr_draw generateItemID;
       _ ← xr_update (open_call idx callID itemID toolCall);
       mret [])
  | Some stored =>
      _ ← xr_update (λ s, s{{ xr_ToolCalls :=
                                <[idx := update_call toolCall stored]> (xr_ToolCalls s) }});
      mret []
  end.

Definition add_arguments (arguments : string) (stored : ChatToolCall) : ChatToolCall :=
  MkChatToolCall (tc_Index stored) (tc_ID stored) (tc_Type stored)
    (MkChatFunctionCall (fc_Name (tc_Function stored))
       (fc_Arguments (tc_Function stored) +:+ arguments)).

(** The input of custom calls and tool searches is kept until the end. *)
Definition is_streamed (state : ChatCompletionsToResponsesStreamState) (idx : Z) : bool :=
  default false (xr_toolAnnounced state !! idx) && negb (default false (xr_toolIsCustom state !! idx)) &&
  negb (default false (xr_toolIsToolSearch state !! idx)).

(** The call is announced, as far as it is known, and its fragment of arguments kept. *)
Definition feed_call (idx : Z) (arguments : string) : XREmit := λ state,
  match xr_ToolCalls state !! idx with
  | None => ([], state)
  | Some stored =>
      (announceChatToolItem idx stored false +>
       (λ state,
        if arguments ≟ "" then ([], state) else
        (if is_streamed state idx then arguments_delta idx stored arguments else mret [])
          (state{{ xr_ToolCalls :=
                     <[idx := add_arguments arguments stored]> (xr_ToolCalls state) }}))) state
  end.

Definition toolCallEvents (toolCall : ChatToolCall) : XR (list ResponsesStreamEvent) :=
  let idx := default 0 (tc_Index toolCall) in
  store_call idx toolCall +> xr_emit (feed_call idx (fc_Arguments (tc_Function toolCall))).

(** ** Chunks *)

(** The reasoning, the text and the finish reason of a choice; empty strings are skipped. *)
Definition reasoningEvents (reasoning : string) : XR (list ResponsesStreamEvent) :=
  if reasoning ≟ "" then mret [] else
  ensureChatReasoningItem +> xr_emit (reasoning_delta reasoning).

Definition contentEvents (content : string) : XR (list ResponsesStreamEvent) :=
  if content ≟ "" then mret [] else
  xr_emit closeChatReasoningItem +>
  ensureChatToResponsesMessageItem +>
  xr_emit ensureChatToResponsesTextPart +>
  xr_emit (text_delta content).

Definition noteFinish (reason : string) : XR (list ResponsesStreamEvent) :=
  _ ← xr_update (λ s, if reason ≟ "" then s else s{{ xr_FinishReason := reason }});
  mret [].

(** The turn of the loop of [ChatCompletionsChunkToResponsesEvents] for one choice. *)
Definition choiceEvents (choice : ChatChunkChoice) : XR (list ResponsesStreamEvent) :=
  let delta := ck_Delta choice in
  reasoningEvents (default "" (delta_reasoningText delta)) +>
  contentEvents (default "" (cd_Content delta)) +>
  run_machine toolCallEvents (cd_ToolCalls delta) +>
  noteFinish (default "" (ck_FinishReason choice)).

(** What a chunk tells about the response. *)
Definition note_chunk (chunk : ChatCompletionsChunk)
    (state : ChatCompletionsToResponsesStreamState) : ChatCompletionsToResponsesStreamState :=
  let state := if cx_ID chunk ≟ "" then state else state{{ xr_ResponseID := cx_ID chunk }} in
  let state := if (xr_Model state ≟ "") && negb (cx_Model chunk ≟ "")
               then state{{ xr_Model := cx_Model chunk }} else state in
  let state := if cx_ServiceTier chunk ≟ "" then state
               else state{{ xr_ServiceTier := cx_ServiceTier chunk }} in
  match cx_Usage chunk with
  | None => state
  | Some _ => state{{ xr_Usage := ChatUsageToResponsesUsage (cx_Usage chunk) }}
  end.

Definition ChatCompletionsChunkToResponsesEvents (chunk : option ChatCompletionsChunk)
    : XR (list ResponsesStreamEvent) :=
  match chunk with
  | None => mret []
  | Some chunk =>
      _ ← xr_update (note_chunk chunk);
      xr_emit ensureChatToResponsesCreated +> run_machine choiceEvents (cx_Choices chunk)
  end.

(** ** The end of the stream *)

(** [for i := 0; i < len(state.ToolCalls); i++] *)
Definition call_indices (state : ChatCompletionsToResponsesStreamState) : list Z :=
  Z.of_nat <$> seq 0 (size (xr_ToolCalls state)).

(** The finished item of a call, with the identifier it is given. *)
Definition call_item (state : ChatCompletionsToResponsesStreamState) (i : Z)
    (toolCall : ChatToolCall) (id : string) : ResponsesOutput :=
  let arguments := call_arguments toolCall in
  let name := fc_Name (tc_Function toolCall) in
  if default false (xr_toolIsCustom state !! i) then
    ResponsesOutput0{{ ro_Type := "custom_tool_call"; ro_ID := id; ro_CallID := tc_ID toolCall;
                       ro_Name := customNameForStreamTool state name;
                       ro_Input := extractCustomToolCallInput arguments;
                       ro_Status := "completed" }}
  else if default false (xr_toolIsToolSearch state !! i) then
    ResponsesOutput0{{ ro_Type := "tool_search_call"; ro_ID := id; ro_CallID := tc_ID toolCall;
                       ro_Arguments := arguments;
                       ro_Status := "completed" }}
  else
    ResponsesOutput0{{ ro_Type := "function_call"; ro_ID := id; ro_CallID := tc_ID toolCall;
                       ro_Name := match xr_toolNamespace state !! i with
                                  | Some ns => nt_Name ns
                                  | None => name
                                  end;
                       ro_Namespace := match xr_toolNamespace state !! i with
                                       | Some ns => nt_Namespace ns
                                       | None => ""
                                       end;
                       ro_Arguments := arguments;
                       ro_Status := "completed" }}.

(** The events before the last of a call: its input, or its arguments, in one piece. *)
Definition input_events (i : Z) (itemID : string) (toolCall : ChatToolCall) : XREmit := λ state,
  let item := call_item state i toolCall itemID in
  let outputIndex := default 0 (xr_ToolOutputIndex state !! i) in
  (if default false (xr_toolIsCustom state !! i) then
     (if ro_Input item ≟ "" then mret [] else
      chatToResponsesEvent "response.custom_tool_call_input.delta"
        (ResponsesStreamEvent0{{ re_OutputIndex := outputIndex; re_ItemID := itemID;
                                 re_Delta := ro_Input item }})) +>
     chatToResponsesEvent "response.custom_tool_call_input.done"
       (ResponsesStreamEvent0{{ re_OutputIndex := outputIndex; re_ItemID := itemID;
                                re_CallID := tc_ID toolCall;
                                re_Name := ro_Name item;
                                re_Input := ro_Input item }})
   else if default false (xr_toolIsToolSearch state !! i) then mret []
   else
     chatToResponsesEvent "response.function_call_arguments.done"
       (ResponsesStreamEvent0{{ re_OutputIndex := outputIndex; re_ItemID := itemID;
                                re_CallID := tc_ID toolCall;
                                re_Name := ro_Name item;
                                re_Arguments := ro_Arguments item }})) state.

(** A turn of the loop of [closeChatToolItems]. *)
Definition close_call (i : Z) : XREmit := λ state,
  match xr_ToolCalls state !! i, xr_ToolItemIDs state !! i with
  | Some toolCall, Some itemID =>
      (announceChatToolItem i toolCall true +>
       input_events i itemID toolCall +>
       (λ state,
        chatToResponsesEvent "response.output_item.done"
          (ResponsesStreamEvent0{{
             re_OutputIndex := default 0 (xr_ToolOutputIndex state !! i);
             re_Item := Some (call_item state i toolCall itemID) }}) state)) state
  | _, _ => ([], state)
  end.

Definition closeChatToolItems : XREmit := λ state,
  run_machine close_call (call_indices state) state.

(** A turn of the loop of [chatOutput]. *)
Definition call_output (state : ChatCompletionsToResponsesStreamState) (i : Z)
    : St rng (list ResponsesOutput) :=
  match xr_ToolCalls state !! i with
  | None => mret []
  | Some toolCall => id ← generateItemID; mret [call_item state i toolCall id]
  end.

Definition chatOutput (state : ChatCompletionsToResponsesStreamState)
    : St rng (list ResponsesOutput) :=
  (if xr_Reasoning state ≟ "" then mret [] else
   id ← generateItemID;
   mret [ResponsesOutput0{{ ro_Type := "reasoning"; ro_ID := id;
                            ro_Summary := [MkResponsesSummary "summary_text"
                                             (xr_Reasoning state)] }}]) +>
  (if negb (xr_MessageItemID state ≟ "") || bool_decide (xr_ToolCalls state = ∅) then
     id ← generateItemID;
     mret [message_item (if xr_MessageItemID state ≟ "" then id else xr_MessageItemID state)
             [ResponsesContentPart0{{ rp_Type := "output_text"; rp_Text := xr_Text state }}]]
   else mret []) +>
  run_machine (call_output state) (call_indices state).

Definition close_message : XREmit := λ state,
  if xr_MessageItemID state ≟ "" then ([], state) else
  let index := xr_MessageIndex state in
  let id := xr_MessageItemID state in
  let part := ResponsesContentPart0{{ rp_Type := "output_text"; rp_Text := xr_Text state }} in
  ((if xr_TextPartOpen state then
      chatToResponsesEvent "response.output_text.done"
        (ResponsesStreamEvent0{{ re_OutputIndex := index; re_ContentIndex := 0;
                                 re_Text := xr_Text state; re_ItemID := id }}) +>
      chatToResponsesEvent "response.content_part.done"
        (ResponsesStreamEvent0{{ re_OutputIndex := index; re_ContentIndex := 0;
                                 re_ItemID := id; re_Part := Some part }})
    else mret []) +>
   chatToResponsesEvent "response.output_item.done"
     (ResponsesStreamEvent0{{ re_OutputIndex := index;
                              re_Item := Some (message_item id [part]) }})) state.

Definition complete_stream : XR (list ResponsesStreamEvent) :=
  state ← xr_state;
  output ← xr_draw (chatOutput state);
  let incomplete := xr_FinishReason state ≟ "length" in
  xr_emit (λ state,
    chatToResponsesEvent "response.completed"
      (ResponsesStreamEvent0{{ re_Response := Some (ResponsesResponse0{{
         rr_ID := xr_ResponseID state;
         rr_Object := "response";
         rr_CreatedAt := xr_Created state;
         rr_Model := xr_Model state;
         rr_Status := if incomplete then "incomplete" else "completed";
         rr_ServiceTier := xr_ServiceTier state;
         rr_Output := output;
         rr_Usage := xr_Usage state;
         rr_IncompleteDetails :=
           if incomplete then Some (MkResponsesIncompleteDetails "max_output_tokens")
           else None }}) }})
      (state{{ xr_CompletedSent := true }})).

Definition FinalizeChatCompletionsResponsesStream : XR (list ResponsesStreamEvent) :=
  state ← xr_state;
  if xr_CompletedSent state then mret [] else
  xr_emit ensureChatToResponsesCreated +>
  xr_emit closeChatReasoningItem +>
  synthesizeChatReasoningFallbackMessage +>
  xr_emit close_message +>
  xr_emit closeChatToolItems +>
  complete_stream.

(** The first call whose arguments are no JSON; Go visits the calls in any order. *)
Definition invalid_call (state : ChatCompletionsToResponsesStreamState) (idx : Z)
    (toolCall : ChatToolCall) : bool :=
  let arguments := TrimSpace (fc_Arguments (tc_Function toolCall)) in
  negb (default false (xr_toolIsCustom state !! idx)) &&
  negb (default false (xr_toolIsToolSearch state !! idx)) &&
  negb (arguments ≟ "") && negb (Valid arguments).

Definition ValidateToolCallArguments (state : ChatCompletionsToResponsesStreamState)
    : option ChatToolCall :=
  snd <$> find (λ '(idx, toolCall), invalid_call state idx toolCall)
            (map_to_list (xr_ToolCalls state)).

(** A whole stream: the chunks of the upstream, then its end. *)
Definition convertChatChunks (chunks : list (option ChatCompletionsChunk))
    : XR (list ResponsesStreamEvent) :=
  run_machine ChatCompletionsChunkToResponsesEvents chunks +>
  FinalizeChatCompletionsResponsesStream.
End Calls.
