(* ===== verification/ChatToResFacts.v ===== *)
(** * ChatToResFacts: what a Responses stream made from Chat Completions says

    The stream is taken apart into what the upstream says ([upiece]); what the converter keeps is
    a function of that, and so is its last event: it carries the answer the conversion of the
    whole message gives. *)

From stdpp Require Import base tactics numbers list strings gmap.
From Stdlib Require Import ZArith Lia.
From S2P Require Import Prelude GoLib GoJson ApiTypes Upstream AnthropicToResponses.
From S2P Require Import ChatToResponses ChatToResStream.

Local Open Scope go_scope.
Local Open Scope Z_scope.

(** ** What the upstream says *)

Inductive upiece : Type :=
| SHead (chunk : ChatCompletionsChunk)
| SReasoning (text : string)
| SText (text : string)
| SCall (toolCall : ChatToolCall)
| SFinish (reason : string).

Definition choice_says (choice : ChatChunkChoice) : list upiece :=
  let d := ck_Delta choice in
  [SReasoning (default "" (delta_reasoningText d)); SText (default "" (cd_Content d))] ++
  (SCall <$> cd_ToolCalls d) ++ [SFinish (default "" (ck_FinishReason choice))].

Definition chunk_says (chunk : option ChatCompletionsChunk) : list upiece :=
  match chunk with
  | Some chunk => SHead chunk :: concat (choice_says <$> cx_Choices chunk)
  | None => []
  end.

Definition says (chunks : list (option ChatCompletionsChunk)) : list upiece :=
  concat (chunk_says <$> chunks).

Definition p_text (p : upiece) : string := match p with SText t => t | _ => "" end.
Definition p_reasoning (p : upiece) : string := match p with SReasoning t => t | _ => "" end.
Definition p_finish (p : upiece) : string := match p with SFinish r => r | _ => "" end.
Definition p_head (f : ChatCompletionsChunk → string) (p : upiece) : string :=
  match p with SHead c => f c | _ => "" end.
Definition call_index (c : ChatToolCall) : Z := default 0 (tc_Index c).
Definition p_call (i : Z) (f : ChatToolCall → string) (p : upiece) : string :=
  match p with SCall c => if call_index c =? i then f c else "" | _ => "" end.

Definition c_name (c : ChatToolCall) : string := fc_Name (tc_Function c).
Definition c_arguments (c : ChatToolCall) : string := fc_Arguments (tc_Function c).

(** The last thing said that is not empty, and the first. *)
Definition latest (f : upiece → string) (g : list upiece) : string :=
  foldl (λ acc p, if f p ≟ "" then acc else f p) "" g.
Definition earliest (f : upiece → string) (start : string) (g : list upiece) : string :=
  foldl (λ acc p, if (acc ≟ "") && negb (f p ≟ "") then f p else acc) start g.
Definition last_usage (g : list upiece) : option ChatUsage :=
  foldl (λ acc p, match p with
                  | SHead c => match cx_Usage c with Some u => Some u | None => acc end
                  | _ => acc
                  end) None g.

Definition mentioned (i : Z) (g : list upiece) : Prop := ∃ c, SCall c ∈ g ∧ call_index c = i.

Lemma latest_snoc f g p : latest f (g ++ [p]) = if f p ≟ "" then latest f g else f p.
Proof. unfold latest. by rewrite foldl_app. Qed.

Lemma earliest_snoc f start g p :
  earliest f start (g ++ [p]) =
    if (earliest f start g ≟ "") && negb (f p ≟ "") then f p else earliest f start g.
Proof. unfold earliest. by rewrite foldl_app. Qed.

Lemma last_usage_snoc g p :
  last_usage (g ++ [p]) =
    match p with
    | SHead c => match cx_Usage c with Some u => Some u | None => last_usage g end
    | _ => last_usage g
    end.
Proof. unfold last_usage. by rewrite foldl_app. Qed.

Lemma mentioned_snoc i g p :
  mentioned i (g ++ [p]) ↔ mentioned i g ∨ ∃ c, p = SCall c ∧ call_index c = i.
Proof.
  unfold mentioned. split.
  - intros (c & [Hc|Hc%list_elem_of_singleton]%elem_of_app & Hi); [left; eauto|right; eauto].
  - intros [(c & Hc & Hi)|(c & -> & Hi)]; exists c; split; try done; apply elem_of_app;
      [by left|right; by apply list_elem_of_singleton].
Qed.

Lemma mentioned_nil i : ¬ mentioned i [].
Proof. intros (c & Hc%not_elem_of_nil & _). done. Qed.

Lemma latest_said f g : latest f g ≠ "" → ∃ p, p ∈ g ∧ f p = latest f g.
Proof.
  induction g as [|p g IH] using rev_ind; [done|]. rewrite latest_snoc.
  destruct (String.eqb_spec (f p) "") as [He|He]; intros H.
  - destruct (IH H) as (q & Hq & Hf). exists q. split; [apply elem_of_app; by left|done].
  - exists p. split; [apply elem_of_app; right; by apply list_elem_of_singleton|done].
Qed.

(** ** A stream, piece by piece

    What the handlers keep of what was said, the state and the events, every stream keeps. *)

Definition on_state (P : ChatCompletionsToResponsesStreamState → list ResponsesStreamEvent → Prop)
    (x : XRst) (out : list ResponsesStreamEvent) : Prop := P x.1 out.

Lemma triple_xr_emit P h R : triple P h R → triple (on_state P) (xr_emit h) (on_state R).
Proof.
  intros H [s r] out Hp. specialize (H s out Hp). unfold xr_emit. by destruct (h s) as [o s1].
Qed.

Lemma triple_xr_update (f : ChatCompletionsToResponsesStreamState → _) P Q R k :
  (∀ s out, P s out → Q (f s) out) → triple (on_state Q) k (on_state R) →
  triple (on_state P) (_ ← xr_update f; k) (on_state R).
Proof.
  intros H Hk. apply (triple_seq _ _ _ (λ _, on_state Q)); [|by intros _].
  intros [s r] out Hp. by apply H.
Qed.

Section Stream.
Context (sha256_hex : string → string).
Context (J : list upiece → ChatCompletionsToResponsesStreamState → list ResponsesStreamEvent → Prop).

Record keeps_pieces : Prop := {
  kp_head : ∀ c g, triple (on_state (J g))
    (_ ← xr_update (note_chunk c); xr_emit ensureChatToResponsesCreated)
    (on_state (J (g ++ [SHead c])));
  kp_reasoning : ∀ t g, triple (on_state (J g)) (reasoningEvents t)
    (on_state (J (g ++ [SReasoning t])));
  kp_text : ∀ t g, triple (on_state (J g)) (contentEvents t) (on_state (J (g ++ [SText t])));
  kp_call : ∀ c g, triple (on_state (J g)) (toolCallEvents sha256_hex c)
    (on_state (J (g ++ [SCall c])));
  kp_finish : ∀ r g, triple (on_state (J g)) (noteFinish r) (on_state (J (g ++ [SFinish r])))
}.

Hypothesis keeps : keeps_pieces.

Lemma choice_keeps choice g :
  triple (on_state (J g)) (choiceEvents sha256_hex choice) (on_state (J (g ++ choice_says choice))).
Proof.
  unfold choiceEvents, choice_says. set (d := ck_Delta choice).
  eapply triple_emits; [eapply triple_emits; [eapply triple_emits|]|].
  - apply (kp_reasoning keeps).
  - apply (kp_text keeps).
  - apply (triple_run _ (λ c, [SCall c]) (λ g, on_state (J g))). intros c g'. apply (kp_call keeps).
  - eapply triple_weaken; [| |apply (kp_finish keeps)]; [intros x out H; exact H|].
    intros x out. replace (concat ((λ c, [SCall c]) <$> cd_ToolCalls d))
      with (SCall <$> cd_ToolCalls d); [by rewrite <- !app_assoc|].
    induction (cd_ToolCalls d) as [|c l IH]; [done|]. cbn. by rewrite IH.
Qed.

Lemma chunk_keeps chunk g :
  triple (on_state (J g)) (ChatCompletionsChunkToResponsesEvents sha256_hex chunk)
    (on_state (J (g ++ chunk_says chunk))).
Proof.
  destruct chunk as [c|]; cbn [ChatCompletionsChunkToResponsesEvents chunk_says].
  - intros x out H.
    pose proof (kp_head keeps c g x out H) as Hh.
    pose proof (triple_run _ choice_says (λ g, on_state (J g)) (λ i g, choice_keeps i g)
      (cx_Choices c) (g ++ [SHead c])) as Hr.
    revert Hh. unfold mbind at 1 2, St_bind at 1 2, emits, mbind, St_bind, mret, St_ret.
    destruct (xr_update (note_chunk c) x) as [[] x1].
    destruct (xr_emit ensureChatToResponsesCreated x1) as [o1 x2]. intros Hh.
    specialize (Hr x2 _ Hh). cbn [fst snd] in *.
    destruct (run_machine (choiceEvents sha256_hex) (cx_Choices c) x2) as [o2 x3].
    cbn [fst snd] in *. rewrite <- !app_assoc in Hr. exact Hr.
  - rewrite app_nil_r. apply triple_ret.
Qed.

Lemma stream_keeps chunks :
  triple (on_state (J [])) (run_machine (ChatCompletionsChunkToResponsesEvents sha256_hex) chunks)
    (on_state (J (says chunks))).
Proof.
  apply (triple_run _ chunk_says (λ g, on_state (J g)) (λ i g, chunk_keeps i g) chunks []).
Qed.
End Stream.

(** ** What the converter keeps *)

(** The tools the request declared. *)
Record tool_config : Type := MkToolConfig {
  tg_custom : gmap string bool;
  tg_functions : gmap string bool;
  tg_search : bool;
  tg_namespaces : gmap string NamespacedToolName
}.

Definition config_of (s : ChatCompletionsToResponsesStreamState) : tool_config :=
  MkToolConfig (xr_CustomTools s) (xr_FunctionTools s) (xr_ToolSearchDeclared s)
    (xr_NamespaceTools s).

Definition configure (cfg : tool_config) (s : ChatCompletionsToResponsesStreamState)
    : ChatCompletionsToResponsesStreamState :=
  s{{ xr_CustomTools := tg_custom cfg;
      xr_FunctionTools := tg_functions cfg;
      xr_ToolSearchDeclared := tg_search cfg;
      xr_NamespaceTools := tg_namespaces cfg }}.

(** What the announcement of a call recorded. *)
Definition recorded (s : ChatCompletionsToResponsesStreamState) (i : Z)
    : bool * bool * option NamespacedToolName :=
  (default false (xr_toolIsCustom s !! i), default false (xr_toolIsToolSearch s !! i),
   xr_toolNamespace s !! i).

Definition announced (s : ChatCompletionsToResponsesStreamState) (i : Z) : bool :=
  default false (xr_toolAnnounced s !! i).

(** The fields the answer is made of. *)
Definition content (s : ChatCompletionsToResponsesStreamState) :=
  (xr_ResponseID s, xr_Model s, xr_ServiceTier s, xr_Usage s, xr_FinishReason s, xr_CompletedSent s,
   xr_Text s, xr_Reasoning s, xr_MessageItemID s, xr_ToolCalls s, xr_ToolItemIDs s, config_of s,
   (xr_toolAnnounced s, xr_toolIsCustom s, xr_toolIsToolSearch s, xr_toolNamespace s)).

Section Content.
Context (sha256_hex : string → string).

Notation classify := (classify sha256_hex).
#[local] Arguments ChatToResStream.classify : simpl never.
#[local] Arguments tools_declared : simpl never.

(** The name a call was announced under: none, when it does not matter, or one that was said; at
    the end of the stream the last one. *)
Definition known_name (fin : bool) (g : list upiece) (s : ChatCompletionsToResponsesStreamState)
    (i : Z) (name : string) : Prop :=
  name = "" ∧ tools_declared s = false ∨
  name ≠ "" ∧ (∃ p, p ∈ g ∧ p_call i c_name p = name) ∨
  fin = true ∧ name = latest (p_call i c_name) g.

Definition call_said (fin : bool) (g : list upiece) (s : ChatCompletionsToResponsesStreamState)
    (i : Z) : Prop :=
  match xr_ToolCalls s !! i with
  | None => ¬ mentioned i g ∧ announced s i = false ∧ xr_toolNamespace s !! i = None
  | Some c =>
      mentioned i g ∧ c_name c = latest (p_call i c_name) g ∧
      c_arguments c = said (p_call i c_arguments) g ∧
      (latest (p_call i tc_ID) g ≠ "" → tc_ID c = latest (p_call i tc_ID) g) ∧
      is_Some (xr_ToolItemIDs s !! i) ∧
      if announced s i
      then ∃ name, recorded s i = (classify s name).1 ∧ known_name fin g s i name
      else xr_toolNamespace s !! i = None
  end.

Record conveyed (cfg : tool_config) (model : string) (fin : bool) (g : list upiece)
    (s : ChatCompletionsToResponsesStreamState) : Prop := {
  cy_config : config_of s = cfg;
  cy_id : latest (p_head cx_ID) g ≠ "" → xr_ResponseID s = latest (p_head cx_ID) g;
  cy_model : xr_Model s = earliest (p_head cx_Model) model g;
  cy_tier : xr_ServiceTier s = latest (p_head cx_ServiceTier) g;
  cy_usage : xr_Usage s = ChatUsageToResponsesUsage (last_usage g);
  cy_finish : xr_FinishReason s = latest p_finish g;
  cy_open : xr_CompletedSent s = false;
  cy_text : xr_Text s = said p_text g;
  cy_reasoning : xr_Reasoning s = said p_reasoning g;
  cy_message : xr_MessageItemID s = "" ↔ xr_Text s = "";
  cy_calls : ∀ i, call_said fin g s i
}.

Context (cfg : tool_config) (model : string).

Definition conveys_pieces (fin : bool) (g : list upiece) (s : ChatCompletionsToResponsesStreamState)
    (_ : list ResponsesStreamEvent) : Prop := conveyed cfg model fin g s.

Lemma conveyed_content fin g s s' :
  content s' = content s → conveyed cfg model fin g s → conveyed cfg model fin g s'.
Proof.
  destruct s, s'. unfold content, config_of; cbn. intros [=]; subst.
  intros [C1 C2 C3 C4 C5 C6 C7 C8 C9 C10 C11]. constructor; try assumption.
Qed.

(** Handlers that only emit. *)
Lemma triple_quiet fin g h :
  (∀ s, content (h s).2 = content s) →
  triple (on_state (conveys_pieces fin g)) (xr_emit h) (on_state (conveys_pieces fin g)).
Proof.
  intros Hh. apply triple_xr_emit. intros s out H. eapply conveyed_content; [apply Hh|exact H].
Qed.

Lemma event_content ty e s : content (chatToResponsesEvent ty e s).2 = content s.
Proof. by destruct s. Qed.

Lemma created_content s : content (ensureChatToResponsesCreated s).2 = content s.
Proof. unfold ensureChatToResponsesCreated. case_if; [done|]. by destruct s. Qed.

Lemma close_reasoning_content s : content (closeChatReasoningItem s).2 = content s.
Proof. unfold closeChatReasoningItem. case_if; [done|]. by destruct s. Qed.

Lemma text_part_content s : content (ensureChatToResponsesTextPart s).2 = content s.
Proof. unfold ensureChatToResponsesTextPart. case_if; [done|]. by destruct s. Qed.

Lemma triple_ensure_reasoning fin g :
  triple (on_state (conveys_pieces fin g)) ensureChatReasoningItem
    (on_state (conveys_pieces fin g)).
Proof.
  intros [s r] out H. unfold ensureChatReasoningItem, mbind, St_bind. cbn [xr_state fst].
  destruct (_ || _); [exact H|]. unfold xr_draw. destruct (generateItemID r) as [id r'].
  eapply conveyed_content; [|exact H]. by destruct s.
Qed.

Lemma item_id_nonempty r : (generateItemID r).1 ≠ "".
Proof. done. Qed.

(** The message item exists once there is text to come. *)
Lemma ensure_message_run s r :
  ∃ s' r', (ensureChatToResponsesMessageItem (s, r)).2 = (s', r') ∧ xr_MessageItemID s' ≠ "" ∧
    content (s'{{ xr_MessageItemID := "" }}) = content (s{{ xr_MessageItemID := "" }}).
Proof.
  unfold ensureChatToResponsesMessageItem, mbind, St_bind. cbn [xr_state fst].
  destruct (String.eqb_spec (xr_MessageItemID s) "") as [He|He]; cbn [negb].
  - unfold xr_draw. pose proof (item_id_nonempty r) as Hid.
    destruct (generateItemID r) as [id r']. eexists _, _. split; [reflexivity|].
    by destruct s.
  - by exists s, r.
Qed.

(** *** The pieces that are no calls *)

(** The fields the calls are in. *)
Definition calls_of (s : ChatCompletionsToResponsesStreamState) :=
  (xr_ToolCalls s, xr_ToolItemIDs s, config_of s,
   (xr_toolAnnounced s, xr_toolIsCustom s, xr_toolIsToolSearch s, xr_toolNamespace s)).

Lemma call_said_frame fin g s s' i :
  calls_of s' = calls_of s → call_said fin g s i → call_said fin g s' i.
Proof. destruct s, s'. unfold calls_of, config_of; cbn. intros [=]; subst. intros H. exact H. Qed.

Lemma known_name_snoc g s i name p :
  known_name false g s i name → known_name false (g ++ [p]) s i name.
Proof.
  intros [H|[(Hn & q & Hq & Hp)|[? _]]]; [by left|right; left|done].
  split; [done|]. exists q. split; [apply elem_of_app; by left|done].
Qed.

Definition no_call (p : upiece) : Prop := match p with SCall _ => False | _ => True end.

Lemma call_said_snoc g s i p :
  no_call p → call_said false g s i → call_said false (g ++ [p]) s i.
Proof.
  intros Hp. unfold call_said.
  assert (∀ f, p_call i f p = "") as Hpc by by destruct p.
  destruct (xr_ToolCalls s !! i) as [c|].
  - rewrite mentioned_snoc, !latest_snoc, said_snoc, !Hpc, string_app_nil_r. cbn.
    intros (H1 & H2 & H3 & H4 & H5 & H6). split_and!; [by left|done..|].
    destruct (announced s i); [|done]. destruct H6 as (name & Hr & Hn).
    exists name. split; [done|by apply known_name_snoc].
  - rewrite mentioned_snoc. intros (H1 & H2). split; [|done]. intros [?|(c & -> & _)]; done.
Qed.

(** A piece is kept when the fields it concerns follow it. *)
Lemma conveyed_snoc g p s s' :
  no_call p → conveyed cfg model false g s → calls_of s' = calls_of s →
  xr_CompletedSent s' = xr_CompletedSent s →
  xr_ResponseID s' = (if p_head cx_ID p ≟ "" then xr_ResponseID s else p_head cx_ID p) →
  xr_Model s' = (if (xr_Model s ≟ "") && negb (p_head cx_Model p ≟ "") then p_head cx_Model p
                 else xr_Model s) →
  xr_ServiceTier s' = (if p_head cx_ServiceTier p ≟ "" then xr_ServiceTier s
                       else p_head cx_ServiceTier p) →
  xr_Usage s' = match p with
                | SHead c => match cx_Usage c with
                             | Some u => ChatUsageToResponsesUsage (Some u)
                             | None => xr_Usage s
                             end
                | _ => xr_Usage s
                end →
  xr_FinishReason s' = (if p_finish p ≟ "" then xr_FinishReason s else p_finish p) →
  xr_Text s' = xr_Text s +:+ p_text p → xr_Reasoning s' = xr_Reasoning s +:+ p_reasoning p →
  (xr_MessageItemID s' = "" ↔ xr_Text s' = "") →
  conveyed cfg model false (g ++ [p]) s'.
Proof.
  intros Hp [C1 C2 C3 C4 C5 C6 C7 C8 C9 C10 C11] Hc E1 E2 E3 E4 E5 E6 E7 E8 E9.
  assert (config_of s' = config_of s) as Hcfg by (unfold calls_of in Hc; congruence).
  constructor; rewrite ?latest_snoc, ?earliest_snoc, ?last_usage_snoc, ?said_snoc.
  - congruence.
  - rewrite E2. by case_if.
  - by rewrite E3, C3.
  - by rewrite E4, C4.
  - rewrite E5. destruct p; try done. by destruct (cx_Usage chunk).
  - by rewrite E6, C6.
  - congruence.
  - congruence.
  - congruence.
  - done.
  - intros i. eapply call_said_frame; [exact Hc|]. by apply call_said_snoc.
Qed.

Ltac same_fields := cbn; rewrite ?string_app_nil_r; try done.

Lemma head_conveyed c g :
  triple (on_state (conveys_pieces false g))
    (_ ← xr_update (note_chunk c); xr_emit ensureChatToResponsesCreated)
    (on_state (conveys_pieces false (g ++ [SHead c]))).
Proof.
  eapply triple_xr_update; [|apply triple_quiet, created_content].
  intros s out H. unfold conveys_pieces in *. pose proof (cy_message _ _ _ _ _ H) as Hm.
  apply (conveyed_snoc g (SHead c) s); [done|done|..]; unfold note_chunk;
    cbn [p_head]; destruct (cx_ID c ≟ ""), s; cbn; destruct (_ && _); cbn;
    destruct (cx_ServiceTier c ≟ ""), (cx_Usage c); same_fields.
Qed.

Lemma finish_conveyed r g :
  triple (on_state (conveys_pieces false g)) (noteFinish r)
    (on_state (conveys_pieces false (g ++ [SFinish r]))).
Proof.
  eapply triple_xr_update; [|apply triple_ret]. intros s out H. unfold conveys_pieces in *.
  pose proof (cy_message _ _ _ _ _ H) as Hm.
  apply (conveyed_snoc g (SFinish r) s); [done|done|..];
    cbn [p_head p_finish]; destruct (r ≟ ""), s; same_fields; by rewrite ?andb_false_r.
Qed.

(** An empty piece changes nothing. *)
Lemma nothing_conveyed g p :
  p = SText "" ∨ p = SReasoning "" →
  triple (on_state (conveys_pieces false g)) (mret [])
    (on_state (conveys_pieces false (g ++ [p]))).
Proof.
  intros Hp. eapply triple_weaken; [| |apply triple_ret]; [intros x out H; exact H|].
  intros [s r] out H. unfold on_state, conveys_pieces in *. cbn [fst] in *.
  pose proof (cy_message _ _ _ _ _ H) as Hm.
  destruct Hp as [-> | ->]; apply (conveyed_snoc g _ s); same_fields;
    by rewrite ?andb_false_r.
Qed.

Lemma reasoning_conveyed t g :
  triple (on_state (conveys_pieces false g)) (reasoningEvents t)
    (on_state (conveys_pieces false (g ++ [SReasoning t]))).
Proof.
  unfold reasoningEvents. apply triple_if.
  { intros ->%String.eqb_eq. apply nothing_conveyed. by right. }
  intros Ht. eapply triple_emits; [apply triple_ensure_reasoning|]. apply triple_xr_emit.
  intros s out H. unfold conveys_pieces in *. pose proof (cy_message _ _ _ _ _ H) as Hm.
  unfold reasoning_delta. eapply conveyed_content; [apply event_content|].
  apply (conveyed_snoc g _ s); destruct s; same_fields; by rewrite ?andb_false_r.
Qed.

Lemma text_nonempty s t : (t ≟ "") = false → s +:+ t ≠ "".
Proof. intros Ht%String.eqb_neq. by destruct s. Qed.

(** The message has its item, and its text is still to come. *)
Definition text_due (g : list upiece) (s : ChatCompletionsToResponsesStreamState)
    (_ : list ResponsesStreamEvent) : Prop :=
  xr_MessageItemID s ≠ "" ∧
  ∃ s0, conveyed cfg model false g s0 ∧
    content (s{{ xr_MessageItemID := "" }}) = content (s0{{ xr_MessageItemID := "" }}).

Lemma message_due g :
  triple (on_state (conveys_pieces false g)) ensureChatToResponsesMessageItem
    (on_state (text_due g)).
Proof.
  intros [s r] out H. destruct (ensure_message_run s r) as (s' & r' & E & Hid & Hc).
  rewrite E. split; [done|]. by exists s.
Qed.

Lemma text_part_due g :
  triple (on_state (text_due g)) (xr_emit ensureChatToResponsesTextPart) (on_state (text_due g)).
Proof.
  apply triple_xr_emit. intros s out (Hid & s0 & H & Hc).
  unfold ensureChatToResponsesTextPart. case_if; [by split; [|exists s0]|].
  split; [by destruct s|]. exists s0. split; [done|]. rewrite <- Hc. by destruct s.
Qed.

Lemma text_paid t g :
  (t ≟ "") = false →
  triple (on_state (text_due g)) (xr_emit (text_delta t))
    (on_state (conveys_pieces false (g ++ [SText t]))).
Proof.
  intros Ht. apply triple_xr_emit. intros s out (Hid & s0 & H & Hc).
  unfold text_delta, conveys_pieces. eapply conveyed_content; [apply event_content|].
  pose proof (text_nonempty (xr_Text s) t Ht) as Hne.
  apply (conveyed_snoc g (SText t) s0); [done|done|..];
    destruct s, s0; unfold content, calls_of, config_of in *; cbn in *;
    injection Hc; intros; subst; same_fields; by rewrite ?andb_false_r.
Qed.

Lemma content_conveyed t g :
  triple (on_state (conveys_pieces false g)) (contentEvents t)
    (on_state (conveys_pieces false (g ++ [SText t]))).
Proof.
  unfold contentEvents. apply triple_if.
  { intros ->%String.eqb_eq. apply nothing_conveyed. by left. }
  intros Ht. eapply triple_emits; [eapply triple_emits; [eapply triple_emits|]|].
  - apply triple_quiet, close_reasoning_content.
  - apply message_due.
  - apply text_part_due.
  - by apply text_paid.
Qed.

(** *** Calls *)

Lemma classify_config s s' name : config_of s' = config_of s → classify s' name = classify s name.
Proof.
  unfold config_of. intros [= E1 E2 E3 E4]. unfold ChatToResStream.classify.
  by rewrite E1, E2, E3, E4.
Qed.

Lemma declared_config s s' : config_of s' = config_of s → tools_declared s' = tools_declared s.
Proof.
  unfold config_of. intros [= E1 E2 E3 E4]. unfold tools_declared. by rewrite E1, E2, E3, E4.
Qed.

Lemma known_name_config fin g s s' i name :
  config_of s' = config_of s → known_name fin g s i name → known_name fin g s' i name.
Proof. intros Hc. unfold known_name. by rewrite (declared_config s s' Hc). Qed.

Lemma unmentioned_piece i g p f : ¬ mentioned i g → p ∈ g → p_call i f p = "".
Proof.
  intros Hm Hp. destruct p as [| | |c|]; cbn; try done.
  destruct (Z.eqb_spec (call_index c) i) as [E|]; [|done]. destruct Hm. by exists c.
Qed.

Lemma unmentioned_latest i g f : ¬ mentioned i g → latest (p_call i f) g = "".
Proof.
  intros Hm. destruct (decide (latest (p_call i f) g = "")) as [|Hn]; [done|].
  destruct (latest_said _ _ Hn) as (p & Hp & Hf). by rewrite <- Hf, (unmentioned_piece i g p f).
Qed.

Lemma unmentioned_said i g f : ¬ mentioned i g → said (p_call i f) g = "".
Proof.
  intros Hm. assert (∀ p, p ∈ g → p_call i f p = "") as Hp by (intros p; by apply unmentioned_piece).
  clear Hm. induction g as [|p g IH]; [done|]. rewrite said_cons, Hp, IH; [done| |by left].
  intros q Hq. apply Hp. by right.
Qed.

Lemma known_name_snoc_call fin g s i name p :
  known_name false g s i name → known_name fin (g ++ [p]) s i name.
Proof.
  intros H. apply (known_name_snoc _ _ _ _ p) in H.
  destruct H as [H|[H|[? _]]]; [by left|right; by left|done].
Qed.

(** The fields that have nothing to do with calls. *)
Definition plain_of (s : ChatCompletionsToResponsesStreamState) :=
  (xr_ResponseID s, xr_Model s, xr_ServiceTier s, xr_Usage s, xr_FinishReason s, xr_CompletedSent s,
   xr_Text s, xr_Reasoning s, xr_MessageItemID s, config_of s).

Lemma conveyed_call g c s s' :
  conveyed cfg model false g s → plain_of s' = plain_of s →
  (∀ i, call_said false (g ++ [SCall c]) s' i) →
  conveyed cfg model false (g ++ [SCall c]) s'.
Proof.
  intros [C1 C2 C3 C4 C5 C6 C7 C8 C9 C10 C11] Hp Hcalls.
  unfold plain_of in Hp. injection Hp as E1 E2 E3 E4 E5 E6 E7 E8 E9 E10.
  assert (config_of s' = config_of s) as Hcfg by (unfold config_of; congruence).
  constructor; rewrite ?latest_snoc, ?earliest_snoc, ?last_usage_snoc, ?said_snoc;
    cbn [p_head p_finish p_text p_reasoning String.eqb negb]; rewrite ?string_app_nil_r,
    ?andb_false_r; congruence || (intros; congruence) || auto.
  intros Hid. rewrite E1. by apply C2.
Qed.

(** What is recorded of one call. *)
Definition call_at (s : ChatCompletionsToResponsesStreamState) (i : Z) :=
  (xr_ToolCalls s !! i, xr_ToolItemIDs s !! i, announced s i, recorded s i).

Lemma call_said_elsewhere g c s s' i :
  i ≠ call_index c → config_of s' = config_of s → call_at s' i = call_at s i →
  call_said false g s i → call_said false (g ++ [SCall c]) s' i.
Proof.
  intros Hi Hcfg Hat. unfold call_at, recorded in Hat. injection Hat as E1 E2 E3 E4 E5 E6.
  assert (∀ f, p_call i f (SCall c) = "") as Hpc.
  { intros f. cbn. destruct (Z.eqb_spec (call_index c) i); [by subst|done]. }
  unfold call_said. rewrite E1, E2, E3, E6.
  destruct (xr_ToolCalls s !! i) as [d|].
  - rewrite mentioned_snoc, !latest_snoc, said_snoc, !Hpc, string_app_nil_r. cbn.
    intros (H1 & H2 & H3 & H4 & H5 & H6). split_and!; [by left|done..|].
    destruct (announced s i); [|done]. destruct H6 as (name & Hr & Hn). exists name.
    unfold recorded. rewrite E4, E5, E6.
    rewrite (classify_config s s') by done. split; [done|].
    eapply known_name_config; [exact Hcfg|]. by apply known_name_snoc_call.
  - rewrite mentioned_snoc. intros (H1 & H2). split; [|done].
    intros [?|(d & [= <-] & E)]; [done|by subst].
Qed.

(** The fragment without its arguments. *)
Definition strip (c : ChatToolCall) : ChatToolCall :=
  MkChatToolCall (tc_Index c) (tc_ID c) (tc_Type c) (MkChatFunctionCall (c_name c) "").

Lemma open_call_conveyed g c callID itemID s :
  (tc_ID c ≠ "" → callID = tc_ID c) → xr_ToolCalls s !! call_index c = None →
  conveyed cfg model false g s →
  conveyed cfg model false (g ++ [SCall (strip c)]) (open_call (call_index c) callID itemID c s).
Proof.
  intros Hid Hnone H. apply (conveyed_call g (strip c) s); [done|by destruct s|].
  intros i. pose proof (cy_calls _ _ _ _ _ H i) as Hi.
  destruct (decide (i = call_index c)) as [->|Hne].
  - unfold call_said in Hi. rewrite Hnone in Hi. destruct Hi as (Hm & Ha & Hns).
    unfold call_said, open_call. cbn. rewrite !lookup_insert_eq.
    change (announced _ _) with (announced s (call_index c)). rewrite Ha.
    rewrite mentioned_snoc, !latest_snoc, said_snoc, !unmentioned_latest, unmentioned_said by done.
    cbn [p_call strip c_name c_arguments tc_Function fc_Name fc_Arguments tc_ID].
    change (call_index (strip c)) with (call_index c). rewrite Z.eqb_refl.
    split_and!; [right; by exists (strip c)| |done| |done|done].
    + unfold c_name. by destruct (String.eqb_spec (fc_Name (tc_Function c)) "") as [->|].
    + by destruct (String.eqb_spec (tc_ID c) "").
  - apply (call_said_elsewhere g (strip c) s); try done.
    unfold call_at, announced, recorded. destruct s; cbn. by rewrite !lookup_insert_ne by done.
Qed.

Lemma update_call_conveyed g c stored s :
  xr_ToolCalls s !! call_index c = Some stored → conveyed cfg model false g s →
  conveyed cfg model false (g ++ [SCall (strip c)])
    (s{{ xr_ToolCalls := <[call_index c := update_call c stored]> (xr_ToolCalls s) }}).
Proof.
  intros Hsome H. apply (conveyed_call g (strip c) s); [done|by destruct s|].
  intros i. pose proof (cy_calls _ _ _ _ _ H i) as Hi.
  destruct (decide (i = call_index c)) as [->|Hne].
  - unfold call_said in Hi. rewrite Hsome in Hi. destruct Hi as (Hm & Hn & Hargs & Hid & Hit & Ha).
    unfold call_said. cbn. rewrite lookup_insert_eq.
    rewrite mentioned_snoc, !latest_snoc, said_snoc.
    cbn [p_call strip c_name c_arguments tc_Function fc_Name fc_Arguments tc_ID update_call].
    change (call_index (strip c)) with (call_index c). rewrite Z.eqb_refl.
    rewrite string_app_nil_r. split_and!; [by left| |done| |done|].
    + rewrite <- Hn. unfold c_name. by case_if.
    + by destruct (String.eqb_spec (tc_ID c) "").
    + change (announced _ _) with (announced s (call_index c)).
      destruct (announced s (call_index c)); [|done]. destruct Ha as (name & Hr & Hk).
      exists name. split; [exact Hr|]. eapply known_name_config; [reflexivity|].
      by apply known_name_snoc_call.
  - apply (call_said_elsewhere g (strip c) s); try done.
    unfold call_at, announced, recorded. destruct s; cbn. by rewrite !lookup_insert_ne by done.
Qed.

Lemma store_conveyed c g :
  triple (on_state (conveys_pieces false g)) (store_call (call_index c) c)
    (on_state (conveys_pieces false (g ++ [SCall (strip c)]))).
Proof.
  intros [s r] out H. unfold on_state, conveys_pieces in *. cbn [fst] in H.
  unfold store_call. unfold mbind, St_bind at 1. cbn [xr_state fst].
  destruct (xr_ToolCalls s !! call_index c) as [stored|] eqn:E.
  - cbn. by apply update_call_conveyed.
  - unfold emits, xr_emit, xr_draw, mbind, St_bind, mret, St_ret.
    pose proof (close_reasoning_content s) as Hc.
    destruct (closeChatReasoningItem s) as [o s1]. cbn [snd] in Hc.
    destruct (_ r) as [callID r1] eqn:Hid. destruct (generateItemID r1) as [itemID r2].
    cbn. apply open_call_conveyed.
    + intros Hne. destruct (String.eqb_spec (tc_ID c) ""); [done|]. by injection Hid.
    + unfold content in Hc. by assert (xr_ToolCalls s1 = xr_ToolCalls s) as -> by congruence.
    + by eapply conveyed_content.
Qed.

(** An announcement records what the name of the call makes of it. *)
Definition announced_state (i : Z) (name : string) (s : ChatCompletionsToResponsesStreamState)
    : ChatCompletionsToResponsesStreamState :=
  let '(isCustom, isToolSearch, ns, _) := classify s name in
  s{{ xr_toolAnnounced := <[i := true]> (xr_toolAnnounced s);
      xr_toolIsCustom := <[i := isCustom]> (xr_toolIsCustom s);
      xr_toolIsToolSearch := <[i := isToolSearch]> (xr_toolIsToolSearch s);
      xr_toolNamespace := match ns with
                          | Some ns => <[i := ns]> (xr_toolNamespace s)
                          | None => xr_toolNamespace s
                          end }}.

(** A call without a name is not announced while the name may tell its type. *)
Definition waits (force : bool) (s : ChatCompletionsToResponsesStreamState) (name : string) : bool :=
  negb force && (name ≟ "") && tools_declared s.

Lemma announce_content i stored force s :
  content (announceChatToolItem sha256_hex i stored force s).2 =
    content (if announced s i || waits force s (c_name stored) then s
             else announced_state i (c_name stored) s).
Proof.
  unfold announceChatToolItem, announced_state, waits, announced, c_name.
  destruct (default false (xr_toolAnnounced s !! i)); [done|]. cbn [orb].
  destruct (_ && tools_declared s); [done|].
  destruct (classify s _) as [[[isCustom isSearch] ns] itemName].
  unfold emits, mbind, St_bind, mret, St_ret. destruct s.
  by destruct (negb isCustom && _ && _).
Qed.

Lemma announced_conveyed fin g i stored s :
  xr_ToolCalls s !! i = Some stored → announced s i = false →
  known_name fin g s i (c_name stored) →
  conveyed cfg model fin g s → conveyed cfg model fin g (announced_state i (c_name stored) s).
Proof.
  intros Hst Ha Hk [C1 C2 C3 C4 C5 C6 C7 C8 C9 C10 C11].
  constructor; try assumption.
  intros j. specialize (C11 j). unfold call_said in *.
  change (xr_ToolCalls (announced_state i (c_name stored) s)) with (xr_ToolCalls s).
  change (xr_ToolItemIDs (announced_state i (c_name stored) s)) with (xr_ToolItemIDs s).
  destruct (decide (j = i)) as [->|Hne].
  - rewrite Hst in *. destruct C11 as (H1 & H2 & H3 & H4 & H5 & H6). rewrite Ha in H6.
    assert (announced (announced_state i (c_name stored) s) i = true) as ->.
    { unfold announced_state, announced. destruct (classify s _) as [[[]]]. cbn.
      by rewrite lookup_insert_eq. }
    split_and!; try done. exists (c_name stored). split; [|by eapply known_name_config].
    rewrite (classify_config s) by done. unfold announced_state, recorded.
    destruct (classify s _) as [[[isCustom isSearch] ns] nm]. cbn. rewrite !lookup_insert_eq. cbn.
    destruct ns; [by rewrite lookup_insert_eq|by rewrite H6].
  - assert (announced (announced_state i (c_name stored) s) j = announced s j ∧
      recorded (announced_state i (c_name stored) s) j = recorded s j) as [Ea Er].
    { unfold announced_state, announced, recorded. destruct (classify s _) as [[[? ?] ns] ?]. cbn.
      rewrite !lookup_insert_ne by done. destruct ns; by rewrite ?lookup_insert_ne by done. }
    rewrite Ea. assert (xr_toolNamespace (announced_state i (c_name stored) s) !! j =
      xr_toolNamespace s !! j) as En by (unfold recorded in Er; congruence). rewrite En, Er.
    destruct (xr_ToolCalls s !! j) as [d|]; [|done].
    destruct C11 as (H1 & H2 & H3 & H4 & H5 & H6). split_and!; try done.
Qed.

Lemma announce_conveyed fin g i stored force s :
  xr_ToolCalls s !! i = Some stored → (force = true → fin = true) →
  conveyed cfg model fin g s →
  conveyed cfg model fin g (announceChatToolItem sha256_hex i stored force s).2.
Proof.
  intros Hst Hf H. eapply conveyed_content; [apply announce_content|].
  destruct (announced s i) eqn:Ha; [done|]. cbn [orb].
  destruct (waits force s (c_name stored)) eqn:Hw; [done|]. apply announced_conveyed; try done.
  pose proof (cy_calls _ _ _ _ _ H i) as Hi. unfold call_said in Hi. rewrite Hst in Hi.
  destruct Hi as (_ & Hn & _). unfold known_name, waits in *.
  destruct force; [right; right; split; [by apply Hf|done]|]. cbn [negb andb] in Hw.
  destruct (String.eqb_spec (c_name stored) "") as [He|He]; [by left|].
  right; left. split; [done|]. rewrite Hn in *. destruct (latest_said _ _ He) as (p & ? & ?). eauto.
Qed.

Lemma announce_calls i stored force s :
  xr_ToolCalls (announceChatToolItem sha256_hex i stored force s).2 = xr_ToolCalls s.
Proof.
  pose proof (announce_content i stored force s) as Hc. unfold content in Hc.
  match type of Hc with _ = (_, xr_ToolCalls ?s', _, _, _) =>
    assert (xr_ToolCalls (announceChatToolItem sha256_hex i stored force s).2 = xr_ToolCalls s')
      as -> by congruence end.
  by case_if.
Qed.

(** The fragment joins the arguments of its call. *)
Lemma add_arguments_conveyed g c stored s :
  xr_ToolCalls s !! call_index c = Some stored →
  conveyed cfg model false (g ++ [SCall (strip c)]) s →
  conveyed cfg model false (g ++ [SCall c])
    (s{{ xr_ToolCalls := <[call_index c := add_arguments (c_arguments c) stored]>
                           (xr_ToolCalls s) }}).
Proof.
  intros Hst [C1 C2 C3 C4 C5 C6 C7 C8 C9 C10 C11].
  assert (∀ i f, f = c_name ∨ f = tc_ID → p_call i f (SCall c) = p_call i f (SCall (strip c)))
    as Hpc by by intros i f [-> | ->].
  assert (∀ i, mentioned i (g ++ [SCall c]) ↔ mentioned i (g ++ [SCall (strip c)])) as Hm.
  { intros i. rewrite !mentioned_snoc. f_equiv. split; intros (d & [= <-] & <-); eauto. }
  constructor; rewrite ?latest_snoc, ?earliest_snoc, ?last_usage_snoc, ?said_snoc in *;
    try assumption.
  intros i. specialize (C11 i). unfold call_said in *.
  cbn -[p_call latest said strip mentioned add_arguments].
  rewrite latest_snoc, Hpc, <- latest_snoc by by left.
  rewrite (latest_snoc (p_call i tc_ID)), (Hpc i tc_ID), <- latest_snoc by by right.
  destruct (decide (i = call_index c)) as [->|Hne].
  - rewrite lookup_insert_eq. rewrite Hst in C11.
    destruct C11 as (H1 & H2 & H3 & H4 & H5 & H6). split_and!; [by apply Hm|done| |done|done|].
    + cbn [c_arguments add_arguments tc_Function fc_Arguments].
      rewrite said_snoc in *. unfold c_arguments at 1 in H3. rewrite H3. cbn.
      change (call_index (strip c)) with (call_index c). rewrite !Z.eqb_refl.
      by rewrite string_app_nil_r.
    + change (announced _ _) with (announced s (call_index c)).
      destruct (announced s (call_index c)); [|done]. destruct H6 as (name & Hr & Hk).
      exists name. split; [exact Hr|].
      destruct Hk as [Hk|[(Hn & p & Hp & Hf)|[? _]]]; [by left| |done].
      right; left. split; [done|].
      apply elem_of_app in Hp as [Hp|Hp%list_elem_of_singleton]; [|subst p].
      * exists p. split; [apply elem_of_app; by left|done].
      * exists (SCall c). split; [apply elem_of_app; right; by apply list_elem_of_singleton|done].
  - rewrite lookup_insert_ne by done.
    assert (p_call i c_arguments (SCall c) = p_call i c_arguments (SCall (strip c))) as Ha.
    { cbn. fold (call_index c). by destruct (Z.eqb_spec (call_index c) i); [subst|]. }
    rewrite said_snoc, Ha, <- said_snoc. destruct (xr_ToolCalls s !! i) as [d|]; [|by rewrite Hm].
    rewrite Hm. destruct C11 as (H1 & H2 & H3 & H4 & H5 & H6). split_and!; try done.
    change (announced _ _) with (announced s i). destruct (announced s i); [|done].
    destruct H6 as (name & Hr & Hk). exists name. split; [exact Hr|].
    destruct Hk as [Hk|[(Hn & p & Hp & Hf)|[? _]]]; [by left| |done].
    right; left. split; [done|].
    apply elem_of_app in Hp as [Hp|Hp%list_elem_of_singleton]; [|subst p].
    + exists p. split; [apply elem_of_app; by left|done].
    + exists (SCall c). split; [apply elem_of_app; right; by apply list_elem_of_singleton|done].
Qed.

Lemma strip_nothing c : c_arguments c = "" → strip c = c.
Proof. destruct c as [idx id ty [name args]]. unfold strip, c_arguments. cbn. by intros ->. Qed.

Lemma feed_conveyed c g :
  triple (on_state (conveys_pieces false (g ++ [SCall (strip c)])))
    (xr_emit (feed_call sha256_hex (call_index c) (c_arguments c)))
    (on_state (conveys_pieces false (g ++ [SCall c]))).
Proof.
  apply triple_xr_emit. intros s out H. unfold conveys_pieces in *. unfold feed_call.
  pose proof (cy_calls _ _ _ _ _ H (call_index c)) as Hc. unfold call_said in Hc.
  destruct (xr_ToolCalls s !! call_index c) as [stored|] eqn:Hst.
  2:{ destruct Hc as [Hc _]. destruct Hc. apply mentioned_snoc. right. by exists (strip c). }
  unfold emits, mbind, St_bind, mret, St_ret.
  pose proof (announce_conveyed false _ _ _ false _ Hst ltac:(done) H) as H1.
  pose proof (announce_calls (call_index c) stored false s) as Hcalls.
  destruct (announceChatToolItem sha256_hex (call_index c) stored false s) as [o1 s1].
  cbn [snd] in H1, Hcalls. rewrite <- Hcalls in Hst.
  destruct (String.eqb_spec (c_arguments c) "") as [He|He].
  - cbn. by rewrite (strip_nothing c He) in H1.
  - pose proof (add_arguments_conveyed g c stored s1 Hst H1) as H2.
    set (s2 := s1{{ xr_ToolCalls := _ }}) in *.
    destruct (is_streamed s1 (call_index c)); [|exact H2].
    by eapply conveyed_content; [|exact H2].
Qed.

Lemma conveys_keeps : keeps_pieces sha256_hex (conveys_pieces false).
Proof.
  constructor.
  - apply head_conveyed.
  - apply reasoning_conveyed.
  - apply content_conveyed.
  - intros c g. eapply triple_emits; [apply store_conveyed|apply feed_conveyed].
  - apply finish_conveyed.
Qed.

(** *** The end of the stream *)

Lemma conveyed_ends g s : conveyed cfg model false g s → conveyed cfg model true g s.
Proof.
  intros [C1 C2 C3 C4 C5 C6 C7 C8 C9 C10 C11]. constructor; try done.
  intros i. specialize (C11 i). unfold call_said in *. destruct (xr_ToolCalls s !! i); [|done].
  destruct C11 as (H1 & H2 & H3 & H4 & H5 & H6). split_and!; try done.
  destruct (announced s i); [|done]. destruct H6 as (name & Hr & Hk). exists name.
  split; [done|]. destruct Hk as [Hk|[Hk|[? _]]]; [by left|right; by left|done].
Qed.

Lemma no_calls_empty fin g s :
  conveyed cfg model fin g s → xr_ToolCalls s = ∅ ↔ ∀ i, ¬ mentioned i g.
Proof.
  intros H. split.
  - intros He i. pose proof (cy_calls _ _ _ _ _ H i) as Hi. unfold call_said in Hi.
    rewrite He, lookup_empty in Hi. apply Hi.
  - intros Hm. apply map_empty. intros i. pose proof (cy_calls _ _ _ _ _ H i) as Hi.
    unfold call_said in Hi. destruct (xr_ToolCalls s !! i); [|done]. by destruct (Hm i), Hi.
Qed.

(** What the message shows when the stream ends: a stream of reasoning alone shows it. *)
Definition shown (g : list upiece) : list upiece :=
  if (said p_text g ≟ "") && negb (TrimSpace (said p_reasoning g) ≟ "") &&
     forallb (λ p, match p with SCall _ => false | _ => true end) g
  then g ++ [SText (said p_reasoning g)] else g.

Lemma no_call_pieces g :
  forallb (λ p, match p with SCall _ => false | _ => true end) g = true ↔ ∀ i, ¬ mentioned i g.
Proof.
  rewrite forallb_forall. split.
  - intros H i (c & Hc%list_elem_of_In & _). by specialize (H _ Hc).
  - intros H p Hp%list_elem_of_In. destruct p as [| | |c|]; try done.
    destruct (H (call_index c)). by exists c.
Qed.

Lemma shown_conveyed g :
  triple (on_state (conveys_pieces false g)) synthesizeChatReasoningFallbackMessage
    (on_state (conveys_pieces false (shown g))).
Proof.
  intros [s r] out H. unfold synthesizeChatReasoningFallbackMessage.
  unfold mbind, St_bind at 1. cbn [xr_state fst]. unfold on_state, conveys_pieces in H.
  cbn [fst] in H. pose proof (no_calls_empty _ _ _ H) as Hno. rewrite <- no_call_pieces in Hno.
  destruct (_ || _) eqn:Hc.
  - assert (shown g = g) as ->; [|exact H]. unfold shown.
    rewrite <- (cy_text _ _ _ _ _ H), <- (cy_reasoning _ _ _ _ _ H).
    destruct (xr_Text s ≟ "") eqn:Et; [|done].
    destruct (TrimSpace (xr_Reasoning s) ≟ "") eqn:Er; [done|]. cbn [negb andb].
    destruct (forallb _ g) eqn:Ef; [|done].
    pose proof (proj2 Hno eq_refl) as He. rewrite He in Hc.
    apply String.eqb_eq, (cy_message _ _ _ _ _ H) in Et. rewrite Et in Hc.
    rewrite !orb_false_r in Hc. cbn in Hc. apply String.eqb_eq in Hc. by rewrite Hc in Er.
  - apply orb_false_iff in Hc as [[[[_ Et]%orb_false_iff Er]%orb_false_iff He]%orb_false_iff Ew].
    apply negb_false_iff in Et, He. apply bool_decide_eq_true in He.
    assert (shown g = g ++ [SText (said p_reasoning g)]) as ->.
    { unfold shown. rewrite <- (cy_text _ _ _ _ _ H), <- (cy_reasoning _ _ _ _ _ H), Et, Ew.
      by rewrite (proj1 Hno He). }
    rewrite (cy_reasoning _ _ _ _ _ H) in *.
    exact (triple_emits _ _ _ _ _ (triple_emits _ _ _ _ _ (message_due g) (text_part_due g))
      (text_paid _ g Er) (s, r) out H).
Qed.

(** Calls that are there when they are closed end up announced. *)
Definition calls_closed (g : list upiece) (l : list Z) (s : ChatCompletionsToResponsesStreamState)
    (_ : list ResponsesStreamEvent) : Prop :=
  conveyed cfg model true g s ∧
  ∀ i, i ∈ l → is_Some (xr_ToolCalls s !! i) → announced s i = true.

Lemma calls_closed_content g l s s' out out' :
  content s' = content s → calls_closed g l s out → calls_closed g l s' out'.
Proof.
  intros Hc [H Hl]. split; [by eapply conveyed_content|]. intros i. unfold announced.
  assert (xr_ToolCalls s' = xr_ToolCalls s ∧ xr_toolAnnounced s' = xr_toolAnnounced s) as [-> ->]
    by (unfold content in Hc; split; congruence).
  apply Hl.
Qed.

Lemma announce_forced i stored s :
  let s' := (announceChatToolItem sha256_hex i stored true s).2 in
  announced s' i = true ∧ ∀ j, announced s j = true → announced s' j = true.
Proof.
  cbn zeta. pose proof (announce_content i stored true s) as Hc. unfold waits in Hc.
  cbn [negb andb] in Hc. rewrite orb_false_r in Hc.
  match type of Hc with _ = content ?s' =>
    assert (∀ j, announced (announceChatToolItem sha256_hex i stored true s).2 j = announced s' j)
      as Ha by (intros j; unfold announced, content in *; congruence) end.
  split; [|intros j Hj]; rewrite Ha; destruct (announced s i) eqn:E; try done;
    unfold announced, announced_state; destruct (classify s _) as [[[]]]; cbn;
    [by rewrite lookup_insert_eq|].
  destruct (decide (i = j)) as [->|]; [by rewrite lookup_insert_eq|by rewrite lookup_insert_ne].
Qed.

Lemma close_call_closed g l i :
  triple (calls_closed g l) (close_call sha256_hex i) (calls_closed g (l ++ [i])).
Proof.
  intros s out [H Hl]. unfold close_call. pose proof (cy_calls _ _ _ _ _ H i) as Hi.
  unfold call_said in Hi. destruct (xr_ToolCalls s !! i) as [c|] eqn:Hc.
  - destruct Hi as (_ & _ & _ & _ & [itemID ->] & _).
    unfold emits, mbind, St_bind, mret, St_ret.
    pose proof (announce_conveyed true _ _ _ true _ Hc ltac:(done) H) as H1.
    pose proof (announce_calls i c true s) as Hcalls.
    pose proof (announce_forced i c s) as [Hi Hmono].
    destruct (announceChatToolItem sha256_hex i c true s) as [o1 s1]. cbn [snd] in *.
    assert (∀ s, content (input_events sha256_hex i itemID c s).2 = content s) as Hin.
    { intros s2. unfold input_events, emits, mbind, St_bind, mret, St_ret. destruct s2.
      by destruct (default false _); [destruct (_ ≟ "")|destruct (default false _)]. }
    specialize (Hin s1). destruct (input_events sha256_hex i itemID c s1) as [o2 s2].
    apply (calls_closed_content _ _ s1 _ []); [by rewrite <- Hin|]. split; [done|].
    intros j [Hj|Hj%list_elem_of_singleton]%elem_of_app; [|by subst].
    rewrite Hcalls. intros Hs. by apply Hmono, Hl.
  - split; [done|]. intros j [Hj|Hj%list_elem_of_singleton]%elem_of_app; [by apply Hl|subst].
    cbn [snd]. rewrite Hc. by intros [].
Qed.

Lemma closed_items g :
  triple (conveys_pieces true g) (closeChatToolItems sha256_hex)
    (λ s out, calls_closed g (call_indices s) s out).
Proof.
  intros s out H. unfold closeChatToolItems.
  pose proof (triple_run (close_call sha256_hex) (λ i, [i]) (calls_closed g)
    (λ i l, close_call_closed g l i) (call_indices s) [] s out) as Hr.
  assert (calls_closed g [] s out) as H0 by (split; [done|]; intros i []%not_elem_of_nil).
  specialize (Hr H0). destruct (run_machine (close_call sha256_hex) (call_indices s) s) as [o s'].
  cbn [fst snd] in *. destruct Hr as [H' Hl]. split; [done|].
  intros i Hi. apply Hl. replace (concat ((λ i, [i]) <$> call_indices s)) with (call_indices s).
  - cbn [app]. unfold call_indices in *.
    assert (dom (xr_ToolCalls s') = dom (xr_ToolCalls s)) as Hd.
    { apply set_eq. intros j. rewrite !elem_of_dom.
      pose proof (cy_calls _ _ _ _ _ H j) as Hj. pose proof (cy_calls _ _ _ _ _ H' j) as Hj'.
      unfold call_said in *.
      destruct (xr_ToolCalls s !! j), (xr_ToolCalls s' !! j); try done;
        destruct Hj as [Hj _], Hj' as [Hj' _]; [by destruct Hj'|by destruct Hj]. }
    by rewrite <- !size_dom, Hd in *.
  - clear. induction (call_indices s) as [|j l IH]; [done|]. cbn. f_equal. exact IH.
Qed.

(** ** The answer *)

(** What the message whole would be: the text and the reasoning joined, every call once, under
    its last name and with its arguments joined. *)
Record whole_message_of (g : list upiece) (resp : ChatCompletionsResponse)
    (calls : list ChatToolCall) : Prop := {
  wm_id : cr_ID resp = latest (p_head cx_ID) g;
  wm_model : cr_Model resp = earliest (p_head cx_Model) "" g;
  wm_tier : cr_ServiceTier resp = latest (p_head cx_ServiceTier) g;
  wm_usage : cr_Usage resp = last_usage g;
  wm_choice : ∃ choice rest, cr_Choices resp = choice :: rest ∧
    ch_FinishReason choice = latest p_finish g ∧
    chatMessageContentText (cm_Content (ch_Message choice)) = said p_text g ∧
    message_reasoningText (ch_Message choice) = said p_reasoning g ∧
    cm_ToolCalls (ch_Message choice) = calls;
  wm_mentioned : ∀ i, mentioned i g ↔ 0 <= i < Z.of_nat (length calls);
  wm_calls : ∀ k c, calls !! k = Some c →
    let i := Z.of_nat k in
    tc_ID c = latest (p_call i tc_ID) g ∧ c_name c = latest (p_call i c_name) g ∧
    c_arguments c = said (p_call i c_arguments) g
}.

(** A call has one name. *)
Definition one_name (g : list upiece) : Prop :=
  ∀ i p, p ∈ g → p_call i c_name p = "" ∨ p_call i c_name p = latest (p_call i c_name) g.

(** An answer without what is drawn at random and without the clock. *)
Definition sans_id (o : ResponsesOutput) : ResponsesOutput := o{{ ro_ID := "" }}.
Definition unstamped (r : ResponsesResponse) : ResponsesResponse :=
  r{{ rr_CreatedAt := 0; rr_Output := sans_id <$> rr_Output r }}.

(** Items made with fresh identifiers. *)
Definition makes (m : St rng (list ResponsesOutput)) (l : list ResponsesOutput) : Prop :=
  ∀ r, sans_id <$> (m r).1 = l.

Lemma makes_nothing : makes (mret []) [].
Proof. by intros r. Qed.

Lemma makes_one (f : string → ResponsesOutput) o :
  (∀ id, sans_id (f id) = o) → makes (id ← generateItemID; mret [f id]) [o].
Proof.
  intros Hf r. unfold mbind, St_bind, mret, St_ret. destruct (generateItemID r) as [id r'].
  change ([sans_id (f id)] = [o]). by rewrite Hf.
Qed.

Lemma makes_emits a b la lb : makes a la → makes b lb → makes (a +> b) (la ++ lb).
Proof.
  intros Ha Hb r. specialize (Ha r). unfold emits, mbind, St_bind, mret, St_ret.
  destruct (a r) as [x r1]. specialize (Hb r1). destruct (b r1) as [y r2]. cbn [fst] in *.
  by rewrite fmap_app, Ha, Hb.
Qed.

Lemma makes_run {I} (f : I → St rng (list ResponsesOutput)) h l :
  (∀ i, makes (f i) (h i)) → makes (run_machine f l) (concat (h <$> l)).
Proof.
  intros Hf. induction l as [|i l IH]; [apply makes_nothing|]. exact (makes_emits _ _ _ _ (Hf i) IH).
Qed.

Definition reasoning_output (text : string) : ResponsesOutput :=
  ResponsesOutput0{{ ro_Type := "reasoning"; ro_Summary := [MkResponsesSummary "summary_text" text] }}.

Definition text_output (text : string) : ResponsesOutput :=
  message_item "" [ResponsesContentPart0{{ rp_Type := "output_text"; rp_Text := text }}].

Lemma chatOutput_makes s :
  makes (chatOutput sha256_hex s)
    ((if xr_Reasoning s ≟ "" then [] else [reasoning_output (xr_Reasoning s)]) ++
     (if negb (xr_MessageItemID s ≟ "") || bool_decide (xr_ToolCalls s = ∅)
      then [text_output (xr_Text s)] else []) ++
     concat ((λ i, match xr_ToolCalls s !! i with
                   | Some c => [call_item sha256_hex s i c ""]
                   | None => []
                   end) <$> call_indices s)).
Proof.
  unfold chatOutput. rewrite app_assoc. apply makes_emits; [apply makes_emits|apply makes_run].
  - case_if; [apply makes_nothing|by apply makes_one].
  - case_if; [by apply makes_one|apply makes_nothing].
  - intros i. unfold call_output. destruct (xr_ToolCalls s !! i); [|apply makes_nothing].
    apply makes_one. intros id. unfold call_item.
    by destruct (default false _); [|destruct (default false _)].
Qed.

(** The item of a call in the answer that is not streamed. *)
Definition whole_call (c : ChatToolCall) : list ResponsesOutput :=
  (toolCallOutputs sha256_hex (tg_custom cfg) (tg_functions cfg) (tg_search cfg)
     (tg_namespaces cfg) c (Rng (λ _, []) 0)).1.

Lemma toolCallOutputs_makes c :
  makes (toolCallOutputs sha256_hex (tg_custom cfg) (tg_functions cfg) (tg_search cfg)
           (tg_namespaces cfg) c) (sans_id <$> whole_call c).
Proof.
  intros r. unfold whole_call, toolCallOutputs, mbind, St_bind, mret, St_ret.
  destruct (customToolCallName _ _ _ _ _); [by destruct (generateItemID r)|].
  destruct (_ && _); [by destruct (generateItemID r)|]. destruct (negb _); [done|].
  destruct (match tg_namespaces cfg !! _ with Some ns => _ | None => _ end).
  by destruct (generateItemID r).
Qed.

Lemma message_makes m :
  makes (chatMessageToResponsesOutput sha256_hex m (tg_custom cfg) (tg_functions cfg)
           (tg_search cfg) (tg_namespaces cfg))
    ((if message_reasoningText m ≟ "" then [] else [reasoning_output (message_reasoningText m)]) ++
     (if negb (visible_text m ≟ "") || no_calls m then [text_output (visible_text m)] else []) ++
     concat ((λ c, sans_id <$> whole_call c) <$> cm_ToolCalls m)).
Proof.
  unfold chatMessageToResponsesOutput. rewrite app_assoc.
  apply makes_emits; [apply makes_emits|apply makes_run; apply toolCallOutputs_makes].
  - destruct (message_reasoningText m ≟ ""); [apply makes_nothing|by apply makes_one].
  - case_if; [by apply makes_one|apply makes_nothing].
Qed.

Lemma undeclared_classify s name : tools_declared s = false → (classify s name).1 = (false, false, None).
Proof.
  unfold tools_declared. rewrite !orb_false_iff, !negb_false_iff, !bool_decide_eq_true.
  intros [[[Hc Hf] Hs] Hn]. unfold ChatToResStream.classify, customToolCallName, custom_alias.
  by rewrite Hc, Hf, Hs, Hn, !lookup_empty, !map_to_list_empty.
Qed.

(** The item made of the kept call is the one made of the whole call. *)
Lemma call_item_whole g s i c d :
  one_name g → conveyed cfg model true g s → announced s i = true →
  xr_ToolCalls s !! i = Some d →
  tc_ID c = latest (p_call i tc_ID) g → tc_ID c ≠ "" →
  c_name c = latest (p_call i c_name) g → c_arguments c = said (p_call i c_arguments) g →
  Valid (call_arguments c) = true →
  [call_item sha256_hex s i d ""] = sans_id <$> whole_call c.
Proof.
  intros Hone H Ha Hd Hid Hne Hn Harg Hv. pose proof (cy_calls _ _ _ _ _ H i) as Hi.
  unfold call_said in Hi. rewrite Hd, Ha in Hi.
  destruct Hi as (_ & Hn' & Harg' & Hid' & _ & name & Hr & Hk).
  assert (tc_ID d = tc_ID c) as Eid by (rewrite Hid in *; by apply Hid').
  assert (c_name d = c_name c) as En by congruence.
  assert (call_arguments d = call_arguments c) as Ea.
  { unfold call_arguments. fold (c_arguments d) (c_arguments c). by rewrite Harg', Harg. }
  assert (recorded s i = (classify s (c_name c)).1) as Hrc.
  { rewrite Hr. destruct Hk as [[-> Hu]|[(Hnn & p & Hp & Hf)|[_ ->]]]; [| |congruence].
    - by rewrite !undeclared_classify.
    - destruct (Hone i p Hp) as [E|E]; [congruence|]. congruence. }
  unfold recorded in Hrc. injection Hrc as E1 E2 E3.
  unfold call_item. rewrite E1, E2, E3, Eid, Ea. fold (c_name d). rewrite En.
  unfold whole_call, toolCallOutputs. fold (c_name c). rewrite Hv.
  pose proof (cy_config _ _ _ _ _ H) as Hcfg. unfold customNameForStreamTool.
  rewrite <- Hcfg. unfold ChatToResStream.classify. cbn [fst snd config_of tg_custom tg_functions
    tg_search tg_namespaces].
  destruct (customToolCallName _ _ _ _ _) as [nm|]; [done|]. cbn.
  destruct (xr_ToolSearchDeclared s && _); [done|]. cbn.
  by destruct (xr_NamespaceTools s !! c_name c) as [[]|].
Qed.

(** The calls are kept under the indices the loops visit. *)
Lemma call_indices_whole g s n :
  conveyed cfg model true g s → (∀ i, mentioned i g ↔ 0 <= i < Z.of_nat n) →
  call_indices s = Z.of_nat <$> seq 0 n.
Proof.
  intros H Hm. unfold call_indices. f_equal. f_equal. rewrite <- size_dom.
  assert (dom (xr_ToolCalls s) = list_to_set (C:=gset Z) (Z.of_nat <$> seq 0 n)) as ->.
  { apply set_eq. intros i. rewrite elem_of_dom, elem_of_list_to_set, list_elem_of_fmap.
    pose proof (cy_calls _ _ _ _ _ H i) as Hi. unfold call_said in Hi.
    transitivity (mentioned i g).
    - destruct (xr_ToolCalls s !! i) as [c|]; destruct Hi as [Hi _]; split.
      + intros _. exact Hi.
      + intros _. by eexists.
      + by intros [].
      + intros Hx. by destruct Hi.
    - rewrite Hm. split.
      + intros Hr. exists (Z.to_nat i). rewrite elem_of_seq. lia.
      + intros (k & -> & Hk%elem_of_seq). lia. }
  rewrite size_list_to_set, length_fmap, length_seq; [done|].
  apply (NoDup_fmap_2 Z.of_nat), NoDup_seq.
Qed.

(** *** What is shown beside what is said *)

Lemma shown_cases g : shown g = g ∨ ∃ t, shown g = g ++ [SText t].
Proof. unfold shown. case_if; eauto. Qed.

Lemma shown_latest f g : (∀ t, f (SText t) = "") → latest f (shown g) = latest f g.
Proof. intros Hf. destruct (shown_cases g) as [->|[t ->]]; [done|]. by rewrite latest_snoc, Hf. Qed.

Lemma shown_said f g : (∀ t, f (SText t) = "") → said f (shown g) = said f g.
Proof. intros Hf. destruct (shown_cases g) as [->|[t ->]]; [done|]. rewrite said_snoc, Hf. apply string_app_nil_r. Qed.

Lemma shown_mentioned i g : mentioned i (shown g) ↔ mentioned i g.
Proof.
  destruct (shown_cases g) as [->|[t ->]]; [done|]. rewrite mentioned_snoc. split; [|by left].
  by intros [?|(c & ? & _)].
Qed.

Lemma shown_one_name g : one_name g → one_name (shown g).
Proof.
  intros H i p. rewrite shown_latest by done. destruct (shown_cases g) as [->|[t ->]]; [apply H|].
  intros [Hp|Hp%list_elem_of_singleton]%elem_of_app; [by apply H|]. subst p. by left.
Qed.

Lemma shown_whole g resp calls m :
  whole_message_of g resp calls →
  chatMessageContentText (cm_Content m) = said p_text g →
  message_reasoningText m = said p_reasoning g → cm_ToolCalls m = calls →
  visible_text m = said p_text (shown g) ∧
  (no_calls m = true ↔ ∀ i, ¬ mentioned i (shown g)).
Proof.
  clear sha256_hex cfg model. intros H Ht Hr Hc.
  assert (no_calls m = true ↔ ∀ i, ¬ mentioned i g) as Hno.
  { unfold no_calls. rewrite Hc. split.
    - intros Hn i Hm%(wm_mentioned _ _ _ H). destruct calls; [cbn in Hm; lia|done].
    - intros Hn. destruct calls; [done|]. destruct (Hn 0). apply (wm_mentioned _ _ _ H). cbn. lia. }
  split; [|rewrite Hno; split; intros Hm i; specialize (Hm i); by rewrite shown_mentioned in *].
  unfold visible_text, shown. rewrite Ht, Hr. rewrite <- no_call_pieces in Hno.
  replace (no_calls m) with (forallb (λ p, match p with SCall _ => false | _ => true end) g)
    by (apply eq_true_iff_eq; tauto).
  destruct (String.eqb_spec (said p_text g) "") as [Et|Et]; [|done]. cbn [andb].
  case_if; [|done]. by rewrite said_snoc, Et.
Qed.

(** *** The last event *)

Definition final_answer (s : ChatCompletionsToResponsesStreamState) (output : list ResponsesOutput)
    : ResponsesResponse :=
  let incomplete := xr_FinishReason s ≟ "length" in
  ResponsesResponse0{{ rr_ID := xr_ResponseID s;
                       rr_Object := "response";
                       rr_CreatedAt := xr_Created s;
                       rr_Model := xr_Model s;
                       rr_Status := if incomplete then "incomplete" else "completed";
                       rr_ServiceTier := xr_ServiceTier s;
                       rr_Output := output;
                       rr_Usage := xr_Usage s;
                       rr_IncompleteDetails :=
                         if incomplete then Some (MkResponsesIncompleteDetails "max_output_tokens")
                         else None }}.

Lemma close_message_content s : content (close_message s).2 = content s.
Proof.
  unfold close_message. case_if; [done|]. unfold emits, mbind, St_bind, mret, St_ret. destruct s. cbn.
  by case_if.
Qed.

Lemma stream_ends g x out :
  on_state (conveys_pieces false g) x out →
  ∃ events e s r, (FinalizeChatCompletionsResponsesStream sha256_hex x).1 = events ++ [e] ∧
    re_Type e = "response.completed" ∧
    re_Response e = Some (final_answer s (chatOutput sha256_hex s r).1) ∧
    conveyed cfg model true (shown g) s ∧
    (∀ i, i ∈ call_indices s → is_Some (xr_ToolCalls s !! i) → announced s i = true).
Proof.
  intros H. unfold FinalizeChatCompletionsResponsesStream.
  set (h := xr_emit ensureChatToResponsesCreated +> xr_emit closeChatReasoningItem +>
    synthesizeChatReasoningFallbackMessage +> xr_emit close_message +>
    xr_emit (closeChatToolItems sha256_hex)).
  assert (triple (on_state (conveys_pieces false g)) h
    (on_state (λ s out, calls_closed (shown g) (call_indices s) s out))) as Hh.
  { unfold h. eapply triple_emits; [eapply triple_emits; [eapply triple_emits;
      [eapply triple_emits|]|]|].
    - apply triple_quiet, created_content.
    - apply triple_quiet, close_reasoning_content.
    - apply shown_conveyed.
    - apply triple_quiet, close_message_content.
    - apply triple_xr_emit. eapply triple_weaken; [|intros s o Ho; exact Ho|apply closed_items].
      intros s o. apply conveyed_ends. }
  specialize (Hh x out H). unfold mbind, St_bind at 1. cbn [xr_state].
  unfold on_state, conveys_pieces in H. rewrite (cy_open _ _ _ _ _ H). unfold emits at 1.
  unfold mbind, St_bind at 1 2, mret, St_ret. destruct (h x) as [events [s r]]. cbn [fst snd] in Hh.
  destruct Hh as [Hc Hl]. unfold complete_stream, xr_draw, mbind, St_bind. cbn [xr_state fst].
  destruct (chatOutput sha256_hex s r) as [output r'] eqn:Ho.
  exists events. eexists _, s, r. rewrite Ho. split; [reflexivity|].
  split_and!; [done|done|done|done].
Qed.

Lemma earliest_model f m g : m ≠ "" → earliest f m g = m.
Proof.
  intros Hm. induction g as [|p g IH] using rev_ind; [done|]. rewrite earliest_snoc, IH.
  by destruct (String.eqb_spec m "").
Qed.
End Content.

(** ** Properties *)

(** The events of a whole stream, for a request with the tools of [cfg]. *)
Definition converted_stream (sha256_hex : string → string) (now : Z) (cfg : tool_config)
    (model : string) (chunks : list (option ChatCompletionsChunk)) : St rng (list ResponsesStreamEvent) :=
  λ r, let '(s, r) := NewChatCompletionsToResponsesStreamState now model r in
       let '(events, (_, r)) := convertChatChunks sha256_hex chunks (configure cfg s, r) in
       (events, r).

Lemma new_conveyed sha256_hex now cfg model r :
  let '(s, r') := NewChatCompletionsToResponsesStreamState now model r in
  conveyed sha256_hex cfg model false [] (configure cfg s).
Proof.
  unfold NewChatCompletionsToResponsesStreamState, mbind, St_bind, mret, St_ret.
  destruct (generateResponsesID r) as [id r']. constructor; try done; [by destruct cfg|].
  intros i. unfold call_said. cbn. rewrite !lookup_empty. split_and!; try done. apply mentioned_nil.
Qed.

(** A call that can be handed on: it has an identifier, and arguments that are JSON. *)
Definition sound_call (c : ChatToolCall) : Prop := tc_ID c ≠ "" ∧ Valid (call_arguments c) = true.

Lemma map_indices {A} (h : Z → list A) {B} (h' : B → list A) (l : list B) :
  (∀ k b, l !! k = Some b → h (Z.of_nat k) = h' b) →
  h <$> (Z.of_nat <$> seq 0 (length l)) = h' <$> l.
Proof.
  intros H. apply list_eq. intros k. rewrite !list_lookup_fmap. destruct (l !! k) as [b|] eqn:E.
  - pose proof (lookup_lt_Some _ _ _ E) as Hk. rewrite lookup_seq_lt by done. cbn. by rewrite (H k b E).
  - apply lookup_ge_None in E. by rewrite lookup_seq_ge.
Qed.

(** The items of the streamed answer are those of the whole one. *)
Lemma same_items sha256_hex cfg model g s resp calls m r r' :
  conveyed sha256_hex cfg model true (shown g) s →
  (∀ i, i ∈ call_indices s → is_Some (xr_ToolCalls s !! i) → announced s i = true) →
  whole_message_of g resp calls → one_name g → Forall sound_call calls →
  chatMessageContentText (cm_Content m) = said p_text g →
  message_reasoningText m = said p_reasoning g → cm_ToolCalls m = calls →
  sans_id <$> (chatOutput sha256_hex s r).1 =
  sans_id <$> (chatMessageToResponsesOutput sha256_hex m (tg_custom cfg) (tg_functions cfg)
                 (tg_search cfg) (tg_namespaces cfg) r').1.
Proof.
  intros H Hl Hw Hone Hcalls Ht Hr Hc.
  rewrite (chatOutput_makes sha256_hex s r), (message_makes sha256_hex cfg m r').
  destruct (shown_whole g resp calls m Hw Ht Hr Hc) as [Hv Hno].
  rewrite (cy_reasoning _ _ _ _ _ _ H), (shown_said p_reasoning), <- Hr by done. f_equal. f_equal.
  - pose proof (cy_message _ _ _ _ _ _ H) as Hm. pose proof (no_calls_empty _ _ _ _ _ _ H) as He.
    rewrite (cy_text _ _ _ _ _ _ H), <- Hv in *.
    replace (xr_MessageItemID s ≟ "") with (visible_text m ≟ "")
      by (apply eq_true_iff_eq; rewrite !String.eqb_eq; tauto).
    replace (bool_decide (xr_ToolCalls s = ∅)) with (no_calls m); [done|].
    apply eq_true_iff_eq. rewrite bool_decide_eq_true. tauto.
  - assert (∀ i, mentioned i (shown g) ↔ 0 <= i < Z.of_nat (length calls)) as Hm.
    { intros i. rewrite shown_mentioned. apply (wm_mentioned _ _ _ Hw). }
    rewrite Hc, (call_indices_whole _ _ _ _ _ _ H Hm). f_equal. apply map_indices.
    intros k c Hk. destruct (wm_calls _ _ _ Hw k c Hk) as (Hid & Hn & Ha).
    pose proof (Forall_lookup_1 _ _ _ _ Hcalls Hk) as [Hne Hvalid].
    assert (mentioned (Z.of_nat k) (shown g)) as Hmk.
    { apply Hm. apply lookup_lt_Some in Hk. lia. }
    pose proof (cy_calls _ _ _ _ _ _ H (Z.of_nat k)) as Hcs. unfold call_said in Hcs.
    destruct (xr_ToolCalls s !! Z.of_nat k) as [d|] eqn:Hd; [|by destruct Hcs as [[] _]].
    eapply (call_item_whole sha256_hex cfg model (shown g) s (Z.of_nat k) c d); try done.
    + by apply shown_one_name.
    + apply Hl; [|by eexists]. rewrite (call_indices_whole _ _ _ _ _ _ H Hm).
      apply list_elem_of_fmap. exists k. split; [done|]. apply elem_of_seq.
      apply lookup_lt_Some in Hk. lia.
    + by rewrite shown_latest.
    + by rewrite shown_latest.
    + by rewrite shown_said.
Qed.

Lemma some_items sha256_hex cfg m calls r :
  cm_ToolCalls m = calls →
  (∀ c, c ∈ calls → whole_call sha256_hex cfg c ≠ []) →
  (chatMessageToResponsesOutput sha256_hex m (tg_custom cfg) (tg_functions cfg)
     (tg_search cfg) (tg_namespaces cfg) r).1 ≠ [].
Proof.
  intros Hc Hne E. pose proof (message_makes sha256_hex cfg m r) as H. rewrite E in H.
  symmetry in H. apply app_nil in H as [_ [H1 H2]%app_nil]. unfold no_calls in H1.
  destruct (cm_ToolCalls m) as [|c l]; [by rewrite orb_true_r in H1|]. subst.
  apply app_nil in H2 as [H2%fmap_nil_inv _]. by apply (Hne c (list_elem_of_here _ _)).
Qed.

Lemma sound_call_items sha256_hex cfg c :
  sound_call c → whole_call sha256_hex cfg c ≠ [].
Proof.
  intros [_ Hv]. unfold whole_call, toolCallOutputs, mbind, St_bind, mret, St_ret. rewrite Hv.
  destruct (customToolCallName _ _ _ _ _); [done|]. destruct (_ && _); [done|].
  by destruct (tg_namespaces cfg !! _).
Qed.

(** The last event of a stream is made of what was said. *)
Lemma stream_answer sha256_hex now cfg model chunks r :
  ∃ events e s r1,
    (converted_stream sha256_hex now cfg model chunks r).1 = events ++ [e] ∧
    re_Type e = "response.completed" ∧
    re_Response e = Some (final_answer s (chatOutput sha256_hex s r1).1) ∧
    conveyed sha256_hex cfg model true (shown (says chunks)) s ∧
    (∀ i, i ∈ call_indices s → is_Some (xr_ToolCalls s !! i) → announced s i = true).
Proof.
  unfold converted_stream. pose proof (new_conveyed sha256_hex now cfg model r) as H0.
  destruct (NewChatCompletionsToResponsesStreamState now model r) as [s0 r0].
  pose proof (stream_keeps sha256_hex _ (conveys_keeps sha256_hex cfg model) chunks
    (configure cfg s0, r0) [] H0) as H1.
  unfold convertChatChunks, emits, mbind, St_bind, mret, St_ret.
  destruct (run_machine (ChatCompletionsChunkToResponsesEvents sha256_hex) chunks
    (configure cfg s0, r0)) as [o1 x1].
  destruct (stream_ends sha256_hex cfg model _ x1 _ H1) as (events & e & s & r1 & He & H).
  destruct (FinalizeChatCompletionsResponsesStream sha256_hex x1) as [o2 [s2 r2]].
  cbn [fst] in He. subst o2. exists (o1 ++ events), e, s, r1. by rewrite <- app_assoc.
Qed.

(** The conversion of a message that comes whole. *)
Lemma whole_response_answer sha256_hex now cfg model resp choice rest r :
  cr_ID resp ≠ "" → cr_Choices resp = choice :: rest →
  let output r := (chatMessageToResponsesOutput sha256_hex (ch_Message choice) (tg_custom cfg)
                     (tg_functions cfg) (tg_search cfg) (tg_namespaces cfg) r).1 in
  (∀ r, output r ≠ []) →
  unstamped (ChatCompletionsResponseToResponses sha256_hex now (Some resp) model (tg_custom cfg)
    (tg_functions cfg) (tg_search cfg) (tg_namespaces cfg) r).1 =
  let incomplete := ch_FinishReason choice ≟ "length" in
  ResponsesResponse0{{ rr_ID := cr_ID resp;
                       rr_Object := "response";
                       rr_Model := if model ≟ "" then cr_Model resp else model;
                       rr_Status := if incomplete then "incomplete" else "completed";
                       rr_ServiceTier := cr_ServiceTier resp;
                       rr_Output := sans_id <$> output r;
                       rr_Usage := ChatUsageToResponsesUsage (cr_Usage resp);
                       rr_IncompleteDetails :=
                         if incomplete then Some (MkResponsesIncompleteDetails "max_output_tokens")
                         else None }}.
Proof.
  intros Hid Hch output Hout. unfold ChatCompletionsResponseToResponses.
  apply String.eqb_neq in Hid. rewrite Hid, Hch. unfold mbind, St_bind, mret, St_ret.
  specialize (Hout r). subst output. cbn beta in *.
  destruct (chatMessageToResponsesOutput _ _ _ _ _ _ r) as [[|o l] r2]; [done|].
  destruct (ch_FinishReason choice ≟ "length"), (model ≟ ""); cbn;
    by destruct (cr_Usage resp).
Qed.

(** C7: The answer a client of the Responses API assembles from a converted Chat Completions
    stream is the one it would have got without streaming.  However the upstream cuts its message
    into chunks and in whatever order text, reasoning and fragments of calls come, the last event
    is response.completed, and it carries the identifier, model, service tier, status, usage and
    items of the conversion of the whole message, to the letter; only the identifiers drawn for
    items and the time of creation are its own.  The calls must be numbered from zero, have
    identifiers, one name each, and arguments that are JSON (or blank). *)
Theorem chat_stream_says_the_answer sha256_hex now now' cfg model chunks resp calls r r' :
  let g := says chunks in
  whole_message_of g resp calls → cr_ID resp ≠ "" → one_name g → Forall sound_call calls →
  ∃ events e answer,
    (converted_stream sha256_hex now cfg model chunks r).1 = events ++ [e] ∧
    re_Type e = "response.completed" ∧ re_Response e = Some answer ∧
    unstamped answer =
      unstamped (ChatCompletionsResponseToResponses sha256_hex now' (Some resp) model
        (tg_custom cfg) (tg_functions cfg) (tg_search cfg) (tg_namespaces cfg) r').1.
Proof.
  intros g Hw Hid Hone Hcalls.
  destruct (stream_answer sha256_hex now cfg model chunks r)
    as (events & e & s & r1 & He & Hty & Hresp & H & Hl).
  eexists _, _, _. split; [exact He|]. split; [exact Hty|]. split; [exact Hresp|].
  destruct (wm_choice _ _ _ Hw) as (choice & rest & Hch & Hfin & Ht & Hr & Hc).
  rewrite (whole_response_answer sha256_hex now' cfg model resp choice rest r' Hid Hch).
  2:{ intros r2. apply (some_items sha256_hex cfg _ calls r2 Hc). intros c Hin.
      apply sound_call_items. by eapply (proj1 (Forall_forall _ _) Hcalls). }
  rewrite <- (same_items sha256_hex cfg model g s resp calls (ch_Message choice) r1 r' H Hl Hw Hone
    Hcalls Ht Hr Hc).
  destruct H as [_ Hsid Hmodel Htier Husage Hfinish _ _ _ _ _].
  rewrite shown_latest in Hsid, Htier, Hfinish by done. rewrite (wm_id _ _ _ Hw) in *.
  assert (xr_Model s = if model ≟ "" then cr_Model resp else model) as Em.
  { rewrite Hmodel. destruct (String.eqb_spec model "") as [->|Hne]; [|by apply earliest_model].
    rewrite (wm_model _ _ _ Hw). destruct (shown_cases (says chunks)) as [->|[t ->]]; [done|].
    rewrite earliest_snoc. cbn. by rewrite andb_false_r. }
  assert (last_usage (shown (says chunks)) = last_usage g) as Eu.
  { destruct (shown_cases (says chunks)) as [->|[t ->]]; [done|]. by rewrite last_usage_snoc. }
  unfold unstamped, final_answer. cbn.
  by rewrite (Hsid Hid), Em, Htier, Husage, Hfinish, Hfin, Eu, (wm_tier _ _ _ Hw), (wm_usage _ _ _ Hw).
Qed.

(** *** Checks on a concrete stream *)

Definition call_of (p : upiece) : list ChatToolCall := match p with SCall c => [c] | _ => [] end.
Definition calls_in (g : list upiece) : list ChatToolCall := concat (call_of <$> g).

Lemma calls_in_spec c g : c ∈ calls_in g ↔ SCall c ∈ g.
Proof.
  unfold calls_in. induction g as [|p g IH]; cbn.
  - split; by intros ?%not_elem_of_nil.
  - rewrite elem_of_app, IH, elem_of_cons. f_equiv.
    destruct p; cbn; rewrite ?list_elem_of_singleton; split; try done; try by intros ?%not_elem_of_nil.
    + by intros ->.
    + by intros [= ->].
Qed.

Lemma mentioned_check i g : mentioned i g ↔ i ∈ call_index <$> calls_in g.
Proof.
  rewrite list_elem_of_fmap. unfold mentioned. split.
  - intros (c & Hc & <-). exists c. by rewrite calls_in_spec.
  - intros (c & -> & Hc%calls_in_spec). by exists c.
Qed.

Lemma one_name_check g :
  Forall (λ c, c_name c = "" ∨ c_name c = latest (p_call (call_index c) c_name) g) (calls_in g) →
  one_name g.
Proof.
  intros H i p Hp. destruct p as [| | |c|]; try by left. cbn.
  destruct (Z.eqb_spec (call_index c) i) as [<-|]; [|by left].
  by eapply (proj1 (Forall_forall _ _) H), calls_in_spec.
Qed.

Definition a_call (i : Z) (id name arguments : string) : ChatToolCall :=
  MkChatToolCall (Some i) id "function" (MkChatFunctionCall name arguments).

Definition a_chunk (delta : ChatDelta) (finish : option string) : option ChatCompletionsChunk :=
  Some (ChatCompletionsChunk0{{ cx_ID := "chatcmpl-1"; cx_Model := "deep";
                                cx_Choices := [MkChatChunkChoice 0 delta finish] }}).

(** Reasoning, two calls in turns, one of them custom and named late, and text between them. *)
Definition some_chunks : list (option ChatCompletionsChunk) :=
  [a_chunk (ChatDelta0{{ cd_ReasoningContent := Some "let me " }}) None;
   a_chunk (ChatDelta0{{ cd_ReasoningContent := Some "see" }}) None;
   a_chunk (ChatDelta0{{ cd_Content := Some "Calling" }}) None;
   a_chunk (ChatDelta0{{ cd_ToolCalls := [a_call 0 "c0" "find" "{"; a_call 1 "c1" "" "{}"] }}) None;
   a_chunk (ChatDelta0{{ cd_Content := Some " both"; cd_ToolCalls := [a_call 1 "" "patch" ""] }}) None;
   a_chunk (ChatDelta0{{ cd_ToolCalls := [a_call 0 "" "" "}"] }}) (Some "tool_calls")].

Definition some_calls : list ChatToolCall :=
  [a_call 0 "c0" "find" "{}"; a_call 1 "c1" "patch" "{}"].

Definition some_response : ChatCompletionsResponse :=
  ChatCompletionsResponse0{{ cr_ID := "chatcmpl-1"; cr_Model := "deep";
    cr_Choices := [MkChatChoice 0
      (ChatMessage0{{ cm_Content := MarshalString "Calling both";
                      cm_ReasoningContent := "let me see";
                      cm_ToolCalls := some_calls }})
      "tool_calls"] }}.

(** The client declared [patch] as a custom tool. *)
Definition some_tools : tool_config := MkToolConfig {["patch" := true]} ∅ false ∅.

Lemma some_whole : whole_message_of (says some_chunks) some_response some_calls.
Proof.
  constructor; [reflexivity|reflexivity|reflexivity|reflexivity| | |].
  - eexists _, []. split; [reflexivity|]. split; [reflexivity|].
    split; [vm_compute; reflexivity|]. split; reflexivity.
  - intros i. rewrite mentioned_check.
    replace (call_index <$> calls_in (says some_chunks)) with [0; 1; 1; 0] by done.
    rewrite !elem_of_cons. split.
    + intros [?|[?|[?|[?|[]%not_elem_of_nil]]]]; cbn; lia.
    + cbn. intros ?. destruct (decide (i = 0)) as [->|]; [by left|]. right; left. lia.
  - intros [|[|k]] c; cbn; intros [= <-]; by split_and!.
Qed.

Lemma some_sound : one_name (says some_chunks) ∧ Forall sound_call some_calls.
Proof.
  split.
  - apply one_name_check. vm_compute calls_in. repeat constructor; by (left + right).
  - by repeat constructor.
Qed.

Lemma chat_stream_says_the_answer_witness :
  ∃ events e answer,
    (converted_stream (λ _, "") 7 some_tools "gpt" some_chunks (Rng (λ _, []) 0)).1 = events ++ [e] ∧
    re_Type e = "response.completed" ∧ re_Response e = Some answer ∧
    unstamped answer =
      unstamped (ChatCompletionsResponseToResponses (λ _, "") 9 (Some some_response) "gpt"
        (tg_custom some_tools) (tg_functions some_tools) (tg_search some_tools)
        (tg_namespaces some_tools) (Rng (λ _, []) 0)).1.
Proof.
  apply (chat_stream_says_the_answer (λ _, "") 7 9 some_tools "gpt" some_chunks some_response
    some_calls (Rng (λ _, []) 0) (Rng (λ _, []) 0)).
  - exact some_whole.
  - discriminate.
  - exact (proj1 some_sound).
  - exact (proj2 some_sound).
Defined.

(** ** Where the converter does not do what it means to *)

Definition trace_of (tools : tool_config) (chunks : list (option ChatCompletionsChunk))
    : list (string * Z) :=
  (λ e, (re_Type e, re_OutputIndex e)) <$>
    (converted_stream (λ _, "") 7 tools "gpt" chunks (Rng (λ _, []) 0)).1.

(** The items of the last event. *)
Definition outputs_of (tools : tool_config) (chunks : list (option ChatCompletionsChunk))
    : list ResponsesOutput :=
  match last (converted_stream (λ _, "") 7 tools "gpt" chunks (Rng (λ n, [N.of_nat n]) 0)).1
        ≫= re_Response with
  | Some resp => rr_Output resp
  | None => []
  end.

Definition added_ids (tools : tool_config) (chunks : list (option ChatCompletionsChunk))
    : list string :=
  omap (λ e, if re_Type e ≟ "response.output_item.added" then ro_ID <$> re_Item e else None)
    (converted_stream (λ _, "") 7 tools "gpt" chunks (Rng (λ n, [N.of_nat n]) 0)).1.

Definition no_tools : tool_config := MkToolConfig ∅ ∅ false ∅.

(** The only call has the index 1: it is added, and neither done nor in the answer. *)
Definition one_based_calls : list (option ChatCompletionsChunk) :=
  [a_chunk (ChatDelta0{{ cd_ToolCalls := [a_call 1 "c1" "find" "{}"] }}) (Some "tool_calls")].

Example one_based_call_never_done :
  trace_of no_tools one_based_calls =
    [("response.created", 0); ("response.output_item.added", 0);
     ("response.function_call_arguments.delta", 0); ("response.completed", 0)] ∧
  outputs_of no_tools one_based_calls = [].
Proof. split; vm_compute; reflexivity. Qed.

(** Reasoning that goes on after text is sent on the item that is done. *)
Example resumed_reasoning_on_a_done_item :
  trace_of no_tools
    [a_chunk (ChatDelta0{{ cd_ReasoningContent := Some "a" }}) None;
     a_chunk (ChatDelta0{{ cd_Content := Some "b" }}) None;
     a_chunk (ChatDelta0{{ cd_ReasoningContent := Some "c" }}) (Some "stop")] =
    [("response.created", 0); ("response.output_item.added", 0);
     ("response.reasoning_summary_part.added", 0); ("response.reasoning_summary_text.delta", 0);
     ("response.reasoning_summary_text.done", 0); ("response.reasoning_summary_part.done", 0);
     ("response.output_item.done", 0); ("response.output_item.added", 1);
     ("response.content_part.added", 1); ("response.output_text.delta", 1);
     ("response.reasoning_summary_text.delta", 0); ("response.output_text.done", 1);
     ("response.content_part.done", 1); ("response.output_item.done", 1);
     ("response.completed", 0)].
Proof. vm_compute. reflexivity. Qed.

(** A call that comes before the text has the lower index and the later place in the answer; its
    item in the answer has another identifier than the one that was streamed. *)
Definition call_before_text : list (option ChatCompletionsChunk) :=
  [a_chunk (ChatDelta0{{ cd_ToolCalls := [a_call 0 "c0" "find" "{}"] }}) None;
   a_chunk (ChatDelta0{{ cd_Content := Some "b" }}) (Some "stop")].

Example answer_in_another_order :
  trace_of no_tools call_before_text =
    [("response.created", 0); ("response.output_item.added", 0);
     ("response.function_call_arguments.delta", 0); ("response.output_item.added", 1);
     ("response.content_part.added", 1); ("response.output_text.delta", 1);
     ("response.output_text.done", 1); ("response.content_part.done", 1);
     ("response.output_item.done", 1); ("response.function_call_arguments.done", 0);
     ("response.output_item.done", 0); ("response.completed", 0)] ∧
  (ro_Type <$> outputs_of no_tools call_before_text) = ["message"; "function_call"] ∧
  exists call message : string,
    added_ids no_tools call_before_text = [call; message] ∧
    exists other, (ro_ID <$> outputs_of no_tools call_before_text) = [message; other] ∧
    other ≠ call.
Proof.
  split; [vm_compute; reflexivity|]. split; [vm_compute; reflexivity|].
  eexists _, _. split; [vm_compute; reflexivity|]. eexists. split; [vm_compute; reflexivity|].
  discriminate.
Qed.
