(* ===== verification/ChatToResProtocol.v ===== *)
(** * ChatToResProtocol: what a client of a Responses stream made from Chat Completions sees

    The rules of output items as an observer of the events: an item is added once, under an index
    of its own, receives events of its kind while it is open, and is done once; the response is
    completed when all items are.  Examples show the upstreams for which the code breaks them. *)

From stdpp Require Import base tactics numbers list strings gmap.
From Stdlib Require Import ZArith Lia.
From S2P Require Import Prelude GoLib GoJson ApiTypes Upstream AnthropicToResponses.
From S2P Require Import ChatToResponses ChatToResStream ChatToResFacts.

Local Open Scope go_scope.
Local Open Scope Z_scope.

(** ** The client's rules *)

(** Items by index: identifier, type, and whether the item is done. *)
Record xclient : Type := XClient {
  x_seq : Z;
  x_created : bool;
  x_completed : bool;
  x_items : gmap Z (string * string * bool)
}.

Definition new_xclient : xclient := XClient 0 false false ∅.

(** The type of item an event inside an item belongs to. *)
Definition event_kind (ty : string) : option string :=
  switch ty
    [ (["response.reasoning_summary_part.added"; "response.reasoning_summary_text.delta";
        "response.reasoning_summary_text.done"; "response.reasoning_summary_part.done"],
       Some "reasoning");
      (["response.content_part.added"; "response.output_text.delta"; "response.output_text.done";
        "response.content_part.done"], Some "message");
      (["response.function_call_arguments.delta"; "response.function_call_arguments.done"],
       Some "function_call");
      (["response.custom_tool_call_input.delta"; "response.custom_tool_call_input.done"],
       Some "custom_tool_call") ]
    None.

Definition all_done (items : gmap Z (string * string * bool)) : bool :=
  bool_decide (map_Forall (λ _ e, e.2 = true) items) &&
  bool_decide (dom items = list_to_set (C:=gset Z) (Z.of_nat <$> seq 0 (size items))).

(** The rules; [None] when an event breaks one. *)
Definition xobserve (q : option xclient) (e : ResponsesStreamEvent) : option xclient :=
  c ← q;
  if negb (re_SequenceNumber e =? x_seq c) || x_completed c then None else
  let c := c{{ x_seq := x_seq c +! 1 }} in
  if re_Type e ≟ "response.created"
  then (if x_created c then None else Some (c{{ x_created := true }}))
  else if negb (x_created c) then None else
  switch (re_Type e)
    [ (["response.output_item.added"],
       match re_Item e, x_items c !! re_OutputIndex e with
       | Some item, None =>
           Some (c{{ x_items := <[re_OutputIndex e := (ro_ID item, ro_Type item, false)]>
                                  (x_items c) }})
       | _, _ => None
       end);
      (["response.output_item.done"],
       match re_Item e, x_items c !! re_OutputIndex e with
       | Some item, Some (id, ty, false) =>
           if (ro_ID item ≟ id) && (ro_Type item ≟ ty)
           then Some (c{{ x_items := <[re_OutputIndex e := (id, ty, true)]> (x_items c) }})
           else None
       | _, _ => None
       end);
      (["response.completed"],
       if all_done (x_items c) then Some (c{{ x_completed := true }}) else None) ]
    (match event_kind (re_Type e), x_items c !! re_OutputIndex e with
     | Some kind, Some (id, ty, false) =>
         if (re_ItemID e ≟ id) && (ty ≟ kind) then Some c else None
     | _, _ => None
     end).

Definition xobserves : option xclient → list ResponsesStreamEvent → option xclient :=
  foldl xobserve.

Definition whole_stream (events : list ResponsesStreamEvent) : Prop :=
  ∃ c, xobserves (Some new_xclient) events = Some c ∧ x_completed c = true.

(** ** The converter's items *)

Inductive slot : Type := SlotReasoning | SlotMessage | SlotCall (k : Z).

#[export] Instance slot_eq_dec : EqDecision slot.
Proof. solve_decision. Defined.

Definition slot_index (s : ChatCompletionsToResponsesStreamState) (x : slot) : option Z :=
  match x with
  | SlotReasoning =>
      if xr_ReasoningOpen s || xr_ReasoningDone s then Some (xr_ReasoningIndex s) else None
  | SlotMessage => if xr_MessageItemID s ≟ "" then None else Some (xr_MessageIndex s)
  | SlotCall k => xr_ToolOutputIndex s !! k
  end.

Definition call_type (s : ChatCompletionsToResponsesStreamState) (k : Z) : string :=
  if default false (xr_toolIsToolSearch s !! k) then "tool_search_call"
  else if default false (xr_toolIsCustom s !! k) then "custom_tool_call" else "function_call".

Definition entries : Type := slot → option (string * string * bool).

(** The items as the client should have them; [closed] are those that are done. *)
Definition slot_entry (closed : slot → bool) (s : ChatCompletionsToResponsesStreamState) : entries :=
  λ x,
  match x with
  | SlotReasoning =>
      if xr_ReasoningOpen s || xr_ReasoningDone s
      then Some (xr_ReasoningItemID s, "reasoning", closed SlotReasoning) else None
  | SlotMessage =>
      if xr_MessageItemID s ≟ "" then None
      else Some (xr_MessageItemID s, "message", closed SlotMessage)
  | SlotCall k =>
      if announced s k
      then Some (default "" (xr_ToolItemIDs s !! k), call_type s k, closed (SlotCall k)) else None
  end.

Definition set_entry (E : entries) (x : slot) (e : string * string * bool) : entries :=
  λ y, if decide (y = x) then Some e else E y.

(** The client has the items [E] of the state. *)
Record shows (E : entries) (s : ChatCompletionsToResponsesStreamState) (c : xclient) : Prop := {
  sh_seq : x_seq c = xr_SequenceNumber s;
  sh_created : x_created c = xr_CreatedSent s;
  sh_completed : x_completed c = xr_CompletedSent s;
  sh_open : xr_CompletedSent s = false;
  sh_index : ∀ x i, slot_index s x = Some i → 0 <= i < xr_nextOutputIndex s;
  sh_apart : ∀ x y i, slot_index s x = Some i → slot_index s y = Some i → x = y;
  sh_all : ∀ i, 0 <= i < xr_nextOutputIndex s → ∃ x, slot_index s x = Some i;
  sh_items : ∀ i e, x_items c !! i = Some e ↔ ∃ x, slot_index s x = Some i ∧ E x = Some e
}.

Definition watched (E : entries) (s : ChatCompletionsToResponsesStreamState)
    (out : list ResponsesStreamEvent) : Prop :=
  ∃ c, xobserves (Some new_xclient) out = Some c ∧ shows E s c.

(** The fields the client and the items depend on. *)
Definition frame_of (s : ChatCompletionsToResponsesStreamState) :=
  (xr_SequenceNumber s, xr_CreatedSent s, xr_CompletedSent s, xr_nextOutputIndex s).

Lemma shows_frame E E' s s' c :
  frame_of s' = frame_of s → (∀ x, slot_index s' x = slot_index s x) → (∀ x, E' x = E x) →
  shows E s c → shows E' s' c.
Proof.
  unfold frame_of. intros [= F1 F2 F3 F4] Hi HE [S1 S2 S3 S4 S5 S6 S7 S8].
  constructor; rewrite ?F1, ?F2, ?F3, ?F4; try done.
  - intros x i. rewrite Hi. apply S5.
  - intros x y i. rewrite !Hi. apply S6.
  - intros i Hr. destruct (S7 i Hr) as [x Hx]. exists x. by rewrite Hi.
  - intros i e. rewrite S8. f_equiv. intros x. by rewrite Hi, HE.
Qed.

Lemma watched_frame E E' s s' out :
  frame_of s' = frame_of s → (∀ x, slot_index s' x = slot_index s x) → (∀ x, E' x = E x) →
  watched E s out → watched E' s' out.
Proof. intros ??? (c & Hc & H). exists c. split; [done|by eapply shows_frame]. Qed.

(** A new item takes the next index. *)
Lemma watched_alloc E s s' x0 out :
  xr_SequenceNumber s' = xr_SequenceNumber s → xr_CreatedSent s' = xr_CreatedSent s →
  xr_CompletedSent s' = xr_CompletedSent s → 0 <= xr_nextOutputIndex s →
  xr_nextOutputIndex s' = xr_nextOutputIndex s + 1 →
  slot_index s x0 = None → slot_index s' x0 = Some (xr_nextOutputIndex s) →
  (∀ x, x ≠ x0 → slot_index s' x = slot_index s x) → E x0 = None →
  watched E s out → watched E s' out.
Proof.
  intros F1 F2 F3 Hpos F4 Hnone Hx0 Hx HE (c & Hc & [S1 S2 S3 S4 S5 S6 S7 S8]).
  exists c. split; [done|]. constructor; rewrite ?F1, ?F2, ?F3; try done.
  - intros x i Hi. rewrite F4. destruct (decide (x = x0)) as [->|Hne].
    + rewrite Hx0 in Hi. injection Hi as <-. lia.
    + rewrite Hx in Hi by done. apply S5 in Hi. lia.
  - intros x y i Hxi Hyi. destruct (decide (x = x0)) as [->|Hnx], (decide (y = x0)) as [->|Hny]; [done| | |].
    + rewrite Hx0 in Hxi. rewrite Hx in Hyi by done. apply S5 in Hyi. injection Hxi as <-. lia.
    + rewrite Hx0 in Hyi. rewrite Hx in Hxi by done. apply S5 in Hxi. injection Hyi as <-. lia.
    + rewrite Hx in Hxi, Hyi by done. by eapply S6.
  - intros i. rewrite F4. intros Hr. destruct (decide (i = xr_nextOutputIndex s)) as [->|Hne].
    + by exists x0.
    + destruct (S7 i ltac:(lia)) as [x Hxi]. exists x. rewrite Hx; [done|]. intros ->. congruence.
  - intros i e. rewrite S8. split; intros (x & Hxi & He); exists x.
    + rewrite Hx; [done|]. intros ->. congruence.
    + rewrite <- Hx; [done|]. intros ->. congruence.
Qed.

(** *** What an event does to the client *)

Lemma xobserves_app q l1 l2 : xobserves q (l1 ++ l2) = xobserves (xobserves q l1) l2.
Proof. apply foldl_app. Qed.

(** The state after an event. *)
Definition numbered (s : ChatCompletionsToResponsesStreamState)
    : ChatCompletionsToResponsesStreamState := s{{ xr_SequenceNumber := xr_SequenceNumber s +! 1 }}.

Lemma watched_event E E' s out ty template :
  watched E s out →
  (∀ c, shows E s c →
     ∃ c', xobserve (Some c) (template{{ re_Type := ty; re_SequenceNumber := x_seq c }}) = Some c' ∧
       shows E' (numbered s) c') →
  watched E' (chatToResponsesEvent ty template s).2 (out ++ (chatToResponsesEvent ty template s).1).
Proof.
  intros (c & Hc & H) Hstep. destruct (Hstep c H) as (c' & Ho & H'). exists c'.
  split; [|done]. rewrite xobserves_app, Hc. cbn [xobserves foldl chatToResponsesEvent fst].
  by rewrite <- (sh_seq _ _ _ H).
Qed.

(** The number of the event and the phase of the stream are as they should be. *)
Lemma observe_open E s c e :
  shows E s c → xr_CreatedSent s = true → re_SequenceNumber e = x_seq c →
  re_Type e ≠ "response.created" →
  xobserve (Some c) e =
    let c := c{{ x_seq := x_seq c +! 1 }} in
    switch (re_Type e)
      [ (["response.output_item.added"],
         match re_Item e, x_items c !! re_OutputIndex e with
         | Some item, None =>
             Some (c{{ x_items := <[re_OutputIndex e := (ro_ID item, ro_Type item, false)]>
                                    (x_items c) }})
         | _, _ => None
         end);
        (["response.output_item.done"],
         match re_Item e, x_items c !! re_OutputIndex e with
         | Some item, Some (id, ty, false) =>
             if (ro_ID item ≟ id) && (ro_Type item ≟ ty)
             then Some (c{{ x_items := <[re_OutputIndex e := (id, ty, true)]> (x_items c) }})
             else None
         | _, _ => None
         end);
        (["response.completed"],
         if all_done (x_items c) then Some (c{{ x_completed := true }}) else None) ]
      (match event_kind (re_Type e), x_items c !! re_OutputIndex e with
       | Some kind, Some (id, ty, false) =>
           if (re_ItemID e ≟ id) && (ty ≟ kind) then Some c else None
       | _, _ => None
       end).
Proof.
  intros H Hcr Hseq Hty. unfold xobserve. cbn [mbind option_bind]. rewrite Hseq, Z.eqb_refl.
  rewrite (sh_completed _ _ _ H), (sh_open _ _ _ H). cbn [negb orb].
  apply String.eqb_neq in Hty. rewrite Hty.
  match goal with |- context [x_created ?d] => change (x_created d) with (x_created c) end.
  by rewrite (sh_created _ _ _ H), Hcr.
Qed.

Lemma shows_numbered E s c :
  shows E s c → shows E (numbered s) (c{{ x_seq := x_seq c +! 1 }}).
Proof.
  intros [S1 S2 S3 S4 S5 S6 S7 S8]. constructor; try done. cbn. by rewrite S1.
Qed.

(** An entry that is set, of an item that has its index. *)
Lemma shows_set E s c x i e :
  slot_index s x = Some i → shows E s c →
  shows (set_entry E x e) s (c{{ x_items := <[i := e]> (x_items c) }}).
Proof.
  intros Hi [S1 S2 S3 S4 S5 S6 S7 S8]. constructor; try done.
  intros j e'.
  change (<[i := e]> (x_items c) !! j = Some e' ↔
    ∃ y, slot_index s y = Some j ∧ set_entry E x e y = Some e').
  unfold set_entry. destruct (decide (j = i)) as [->|Hne].
  - rewrite lookup_insert_eq. split.
    + intros [= <-]. exists x. by rewrite decide_True.
    + intros (y & Hy & Hey). assert (y = x) as -> by by eapply S6. by rewrite decide_True in Hey.
  - rewrite lookup_insert_ne, S8 by done.
    split; intros (y & Hy & Hey); exists y; (split; [done|]).
    + rewrite decide_False; [done|]. intros ->. congruence.
    + rewrite decide_False in Hey; [done|]. intros ->. congruence.
Qed.

Lemma kind_cases ty kind :
  event_kind ty = Some kind →
  ty ≠ "response.created" ∧ ty ≠ "response.output_item.added" ∧ ty ≠ "response.output_item.done" ∧
  ty ≠ "response.completed".
Proof. intros H. by repeat split; intros ->. Qed.

(** An event inside an item. *)
Lemma watched_inside E s out ty template x kind :
  watched E s out → xr_CreatedSent s = true → event_kind ty = Some kind →
  slot_index s x = Some (re_OutputIndex template) → E x = Some (re_ItemID template, kind, false) →
  watched E (chatToResponsesEvent ty template s).2 (out ++ (chatToResponsesEvent ty template s).1).
Proof.
  intros Hw Hcr Hk Hi He. eapply watched_event; [exact Hw|]. intros c H.
  exists (c{{ x_seq := x_seq c +! 1 }}). split; [|by apply shows_numbered].
  destruct (kind_cases _ _ Hk) as (N1 & N2 & N3 & N4).
  rewrite (observe_open E s c) by done.
  set (e := template{{ re_Type := ty; re_SequenceNumber := x_seq c }}).
  change (re_Type e) with ty. change (re_OutputIndex e) with (re_OutputIndex template).
  change (re_ItemID e) with (re_ItemID template). cbn zeta. rewrite switch_default.
  2:{ repeat constructor; cbn [fst existsb]; rewrite orb_false_r; by apply String.eqb_neq. }
  rewrite Hk.
  change (x_items (c{{ x_seq := x_seq c +! 1 }})) with (x_items c).
  assert (x_items c !! re_OutputIndex template = Some (re_ItemID template, kind, false))
    as -> by (apply (sh_items _ _ _ H); by exists x).
  by rewrite !String.eqb_refl.
Qed.

(** The fields of an event made from a template. *)
Ltac open_event template c :=
  cbn zeta;
  match goal with |- context [re_Item ?e] =>
    change (re_Type e) with (re_Type (e)); change (re_Item e) with (re_Item template);
    change (re_OutputIndex e) with (re_OutputIndex template)
  end;
  change (x_items (c{{ x_seq := x_seq c +! 1 }})) with (x_items c);
  cbn [re_Type switch existsb String.eqb Ascii.eqb Bool.eqb orb].

(** The first event of an item. *)
Lemma watched_added E s out template item x :
  watched E s out → xr_CreatedSent s = true → re_Item template = Some item →
  slot_index s x = Some (re_OutputIndex template) → E x = None →
  watched (set_entry E x (ro_ID item, ro_Type item, false))
    (chatToResponsesEvent "response.output_item.added" template s).2
    (out ++ (chatToResponsesEvent "response.output_item.added" template s).1).
Proof.
  intros Hw Hcr Hitem Hi He. eapply watched_event; [exact Hw|]. intros c H.
  set (i := re_OutputIndex template) in *.
  assert (x_items c !! i = None) as Hno.
  { destruct (x_items c !! i) as [e|] eqn:E1; [|done]. apply (sh_items _ _ _ H) in E1 as (y & Hy & Hey).
    assert (x = y) as -> by by eapply (sh_apart _ _ _ H). congruence. }
  eexists. split.
  { rewrite (observe_open E s c) by done. open_event template c. fold i. rewrite Hitem, Hno.
    reflexivity. }
  exact (shows_set E (numbered s) (c{{ x_seq := x_seq c +! 1 }}) x i _ Hi (shows_numbered _ _ _ H)).
Qed.

(** The last event of an item. *)
Lemma watched_done E s out template item x id ty :
  watched E s out → xr_CreatedSent s = true → re_Item template = Some item →
  ro_ID item = id → ro_Type item = ty →
  slot_index s x = Some (re_OutputIndex template) → E x = Some (id, ty, false) →
  watched (set_entry E x (id, ty, true))
    (chatToResponsesEvent "response.output_item.done" template s).2
    (out ++ (chatToResponsesEvent "response.output_item.done" template s).1).
Proof.
  intros Hw Hcr Hitem <- <- Hi He. eapply watched_event; [exact Hw|]. intros c H.
  set (i := re_OutputIndex template) in *.
  assert (x_items c !! i = Some (ro_ID item, ro_Type item, false)) as Hit
    by (apply (sh_items _ _ _ H); by exists x).
  eexists. split.
  { rewrite (observe_open E s c) by done. open_event template c. fold i. rewrite Hitem, Hit.
    rewrite !String.eqb_refl. reflexivity. }
  exact (shows_set E (numbered s) (c{{ x_seq := x_seq c +! 1 }}) x i _ Hi (shows_numbered _ _ _ H)).
Qed.

(** ** The handlers *)

(** The entries while the upstream talks: only the reasoning can be done. *)
Definition done_so_far (s : ChatCompletionsToResponsesStreamState) (x : slot) : bool :=
  bool_decide (x = SlotReasoning) && xr_ReasoningDone s.

Definition live (s : ChatCompletionsToResponsesStreamState) : entries :=
  slot_entry (done_so_far s) s.

Record base (n : nat) (s : ChatCompletionsToResponsesStreamState) : Prop := {
  bs_next : 0 <= xr_nextOutputIndex s <= Z.of_nat n;
  bs_once : xr_ReasoningOpen s && xr_ReasoningDone s = false;
  bs_calls : ∀ k, is_Some (xr_ToolOutputIndex s !! k) ↔ is_Some (xr_ToolCalls s !! k);
  bs_announced : ∀ k, announced s k = true → is_Some (xr_ToolCalls s !! k)
}.

Definition midst (closed : slot → bool) (n : nat) (s : ChatCompletionsToResponsesStreamState)
    (out : list ResponsesStreamEvent) : Prop :=
  watched (slot_entry closed s) s out ∧ base n s ∧ xr_CreatedSent s = true.

Definition mid (n : nat) (s : ChatCompletionsToResponsesStreamState)
    (out : list ResponsesStreamEvent) : Prop := midst (done_so_far s) n s out.

(** Fields the client and the invariant do not depend on. *)
Definition shape_of (s : ChatCompletionsToResponsesStreamState) :=
  (frame_of s, (xr_ReasoningOpen s, xr_ReasoningDone s, xr_ReasoningIndex s, xr_ReasoningItemID s),
   (xr_MessageItemID s, xr_MessageIndex s), (xr_ToolItemIDs s, xr_ToolOutputIndex s),
   (xr_toolAnnounced s, xr_toolIsCustom s, xr_toolIsToolSearch s)).

Lemma base_weaken n m s : (n <= m)%nat → base n s → base m s.
Proof. intros Hn [B1 B2 B3 B4]. constructor; try done. lia. Qed.

Lemma mid_weaken n m s out : (n <= m)%nat → mid n s out → mid m s out.
Proof. intros Hn (Hw & Hb & Hc). split; [done|]. split; [by eapply base_weaken|done]. Qed.

Lemma shape_slots s s' :
  shape_of s' = shape_of s →
  frame_of s' = frame_of s ∧ (∀ x, slot_index s' x = slot_index s x) ∧ (∀ x, live s' x = live s x).
Proof.
  destruct s, s'. unfold shape_of, frame_of. cbn. intros [=]. subst. by repeat split; intros [].
Qed.

Lemma base_shape n s s' :
  shape_of s' = shape_of s → (∀ k, is_Some (xr_ToolCalls s' !! k) ↔ is_Some (xr_ToolCalls s !! k)) →
  base n s → base n s'.
Proof.
  intros Hs Hcalls [B1 B2 B3 B4]. unfold shape_of, frame_of in Hs. constructor.
  - by replace (xr_nextOutputIndex s') with (xr_nextOutputIndex s) by congruence.
  - by replace (xr_ReasoningOpen s') with (xr_ReasoningOpen s) by congruence;
      replace (xr_ReasoningDone s') with (xr_ReasoningDone s) by congruence.
  - intros k. rewrite Hcalls.
    by replace (xr_ToolOutputIndex s') with (xr_ToolOutputIndex s) by congruence.
  - intros k Ha. apply Hcalls, B4. unfold announced in *.
    by replace (xr_toolAnnounced s) with (xr_toolAnnounced s') by congruence.
Qed.

Lemma mid_shape n s s' out :
  shape_of s' = shape_of s → (∀ k, is_Some (xr_ToolCalls s' !! k) ↔ is_Some (xr_ToolCalls s !! k)) →
  mid n s out → mid n s' out.
Proof.
  intros Hs Hcalls (Hw & Hb & Hc). destruct (shape_slots _ _ Hs) as (Hf & Hi & HE).
  split; [by eapply watched_frame|]. split; [by eapply base_shape|].
  unfold shape_of, frame_of in Hs. congruence.
Qed.

Lemma event_state ty t s : (chatToResponsesEvent ty t s).2 = numbered s.
Proof. done. Qed.

Lemma seq_state (a b : XREmit) s : ((a +> b) s).2 = (b (a s).2).2.
Proof.
  unfold emits, mbind, St_bind, mret, St_ret. destruct (a s) as [o1 s1]. cbn [snd].
  by destruct (b s1).
Qed.

Lemma seq_events (a b : XREmit) s : ((a +> b) s).1 = (a s).1 ++ (b (a s).2).1.
Proof.
  unfold emits, mbind, St_bind, mret, St_ret. destruct (a s) as [o1 s1]. cbn [fst snd].
  by destruct (b s1).
Qed.

Lemma live_numbered s x : live (numbered s) x = live s x.
Proof. by destruct x. Qed.

(** The invariant does not depend on the sequence number. *)
Lemma base_numbered n s : base n s → base n (numbered s).
Proof. intros [B1 B2 B3 B4]. by constructor. Qed.

(** An event inside an item leaves everything else as it was. *)
Lemma midst_inside closed n s out ty template x kind :
  midst closed n s out → event_kind ty = Some kind →
  slot_index s x = Some (re_OutputIndex template) →
  slot_entry closed s x = Some (re_ItemID template, kind, false) →
  midst closed n (chatToResponsesEvent ty template s).2
    (out ++ (chatToResponsesEvent ty template s).1).
Proof.
  intros (Hw & Hb & Hc) Hk Hi He. split; [|split; [by apply base_numbered|done]].
  eapply (watched_frame (slot_entry closed s)); [reflexivity|by intros []|by intros []|].
  by eapply watched_inside.
Qed.

Lemma mid_inside n s out ty template x kind :
  mid n s out → event_kind ty = Some kind →
  slot_index s x = Some (re_OutputIndex template) → live s x = Some (re_ItemID template, kind, false) →
  mid n (chatToResponsesEvent ty template s).2 (out ++ (chatToResponsesEvent ty template s).1).
Proof. intros. by eapply (midst_inside (done_so_far s)). Qed.

(** *** Reasoning *)

Lemma live_reasoning s :
  live s SlotReasoning =
    if xr_ReasoningOpen s || xr_ReasoningDone s
    then Some (xr_ReasoningItemID s, "reasoning", xr_ReasoningDone s) else None.
Proof. done. Qed.

Lemma alloc_next n s : base n s → Z.of_nat n < 2 ^ 62 → xr_nextOutputIndex s +! 1 = xr_nextOutputIndex s + 1.
Proof.
  intros [B1 _ _ _] Hn. apply int64_wrap_id. unfold int64_range.
  assert (2 ^ 62 < 2 ^ 63) by done. lia.
Qed.

Lemma base_alloc n s s' :
  base n s → Z.of_nat n < 2 ^ 62 → xr_nextOutputIndex s' = xr_nextOutputIndex s +! 1 →
  xr_ReasoningOpen s' && xr_ReasoningDone s' = false →
  (xr_ToolOutputIndex s', xr_ToolCalls s', xr_toolAnnounced s') =
    (xr_ToolOutputIndex s, xr_ToolCalls s, xr_toolAnnounced s) →
  base (S n) s'.
Proof.
  intros Hb Hn Hnext Hd [= E1 E2 E3]. rewrite (alloc_next n s Hb Hn) in Hnext.
  destruct Hb as [B1 B2 B3 B4]. constructor; unfold announced in *; rewrite ?E1, ?E2, ?E3; try done.
  lia.
Qed.

(** An item that is given an index and added. *)
Lemma mid_opens n s s1 x template item out :
  mid n s out → Z.of_nat n < 2 ^ 62 →
  (xr_SequenceNumber s1, xr_CreatedSent s1, xr_CompletedSent s1) =
    (xr_SequenceNumber s, xr_CreatedSent s, xr_CompletedSent s) →
  xr_nextOutputIndex s1 = xr_nextOutputIndex s +! 1 →
  slot_index s x = None → slot_index s1 x = Some (xr_nextOutputIndex s) →
  (∀ y, y ≠ x → slot_index s1 y = slot_index s y) → live s x = None →
  re_Item template = Some item → re_OutputIndex template = xr_nextOutputIndex s →
  (∀ y, live s1 y = set_entry (live s) x (ro_ID item, ro_Type item, false) y) →
  base (S n) s1 →
  mid (S n) (chatToResponsesEvent "response.output_item.added" template s1).2
    (out ++ (chatToResponsesEvent "response.output_item.added" template s1).1).
Proof.
  intros (Hw & Hb & Hc) Hn [= F1 F2 F3] Hnext Hx Hx1 Hy HE Hitem Hout HE1 Hb1.
  rewrite (alloc_next n s Hb Hn) in Hnext.
  assert (watched (live s) s1 out) as Hw1
    by (apply (watched_alloc (live s) s s1 x); try done; by destruct Hb; lia).
  split; [|split].
  - eapply (watched_frame (set_entry (live s) x (ro_ID item, ro_Type item, false)));
      [reflexivity|by intros []| |].
    + intros y. rewrite <- HE1. by destruct y.
    + apply (watched_added (live s) s1 out template item x); try done; [congruence|].
      by rewrite Hout.
  - by apply base_numbered.
  - change (xr_CreatedSent s1 = true). congruence.
Qed.

(** Emitting from a known state. *)
Lemma emit_at (R : ChatCompletionsToResponsesStreamState → list ResponsesStreamEvent → Prop) h s r out :
  R (h s).2 (out ++ (h s).1) →
  on_state R (xr_emit h (s, r)).2 (out ++ (xr_emit h (s, r)).1).
Proof. intros H. unfold xr_emit. by destruct (h s). Qed.

Lemma emits_at (a b : XREmit)
    (R : ChatCompletionsToResponsesStreamState → list ResponsesStreamEvent → Prop) s out :
  R (b (a s).2).2 ((out ++ (a s).1) ++ (b (a s).2).1) →
  R ((a +> b) s).2 (out ++ ((a +> b) s).1).
Proof.
  unfold emits, mbind, St_bind, mret, St_ret. destruct (a s) as [o1 s1]. cbn [fst snd].
  destruct (b s1) as [o2 s2]. cbn [fst snd]. by rewrite app_assoc.
Qed.

Lemma ensure_reasoning_mid n :
  Z.of_nat n < 2 ^ 62 →
  triple (on_state (λ s out, mid n s out ∧ xr_ReasoningDone s = false)) ensureChatReasoningItem
    (on_state (λ s out, mid (S n) s out ∧ xr_ReasoningDone s = false ∧ xr_ReasoningOpen s = true)).
Proof.
  intros Hn [s r] out [H Hd]. cbn [fst] in *. unfold ensureChatReasoningItem, mbind, St_bind.
  cbn [xr_state fst]. rewrite Hd, orb_false_r. destruct (xr_ReasoningOpen s) eqn:Ho.
  { cbn. rewrite app_nil_r. split; [|done]. eapply mid_weaken; [|exact H]. lia. }
  unfold xr_draw. destruct (generateItemID r) as [id r'].
  unfold allocOutputIndex. cbn [xr_update]. apply emit_at.
  split; [|done]. apply (emits_at _ _ (mid (S n))).
  eapply (mid_inside _ _ _ _ _ SlotReasoning "reasoning"); [|done|done|].
  - eapply (mid_opens n s _ SlotReasoning); [exact H|done|done|done| |done| | |done|done| |].
    + cbn. by rewrite Ho, Hd.
    + by intros [].
    + cbn. by rewrite Ho, Hd.
    + intros []; [|done|done]. unfold set_entry. rewrite decide_True by done.
      transitivity (Some (id, "reasoning", xr_ReasoningDone s)); [done|by rewrite Hd].
    + apply (base_alloc n s); try done. apply H.
  - rewrite event_state, live_numbered.
    transitivity (Some (id, "reasoning", xr_ReasoningDone s)); [done|by rewrite Hd].
Qed.

Lemma reasoning_delta_mid n t :
  triple (λ s out, mid n s out ∧ xr_ReasoningDone s = false ∧ xr_ReasoningOpen s = true)
    (reasoning_delta t) (λ s out, mid n s out ∧ xr_ReasoningDone s = false).
Proof.
  intros s out (H & Hd & Ho). unfold reasoning_delta. split; [|exact Hd].
  set (s1 := s{{ xr_Reasoning := xr_Reasoning s +:+ t }}).
  assert (mid n s1 out) as H1 by (by eapply mid_shape; [| |exact H]).
  eapply (mid_inside n s1 out _ _ SlotReasoning "reasoning"); try done.
  - transitivity (slot_index s SlotReasoning); [done|]. cbn. by rewrite Ho.
  - transitivity (live s SlotReasoning); [done|]. by rewrite live_reasoning, Ho, Hd.
Qed.

(** What is said next closes the reasoning. *)
Lemma close_reasoning_mid n :
  triple (mid n) closeChatReasoningItem (λ s out, mid n s out ∧ xr_ReasoningOpen s = false).
Proof.
  intros s out H. unfold closeChatReasoningItem. destruct (xr_ReasoningOpen s) eqn:Ho; cbn [negb].
  2:{ cbn. by rewrite app_nil_r. }
  assert (xr_ReasoningDone s = false) as Hd.
  { destruct H as (_ & [_ B2 _ _] & _). by rewrite Ho in B2. }
  set (s1 := s{{ xr_ReasoningOpen := false; xr_ReasoningDone := true }}).
  destruct H as (Hw & Hb & Hc).
  assert (Hopen : live s SlotReasoning = Some (xr_ReasoningItemID s, "reasoning", false))
    by (by rewrite live_reasoning, Ho, Hd).
  assert (Hi : ∀ x, slot_index s1 x = slot_index s x) by (intros []; try done; cbn; by rewrite Ho).
  assert (Hx : slot_index s1 SlotReasoning = Some (xr_ReasoningIndex s)) by done.
  assert (watched (live s) s1 out) as Hw1 by (by apply (watched_frame (live s) _ s)).
  split; [|done]. split; [|split; [|done]].
  - eapply (watched_frame (set_entry (live s) SlotReasoning (xr_ReasoningItemID s, "reasoning", true)));
      [reflexivity|reflexivity| |].
    { intros []; [|done|done]. done. }
    apply (emits_at _ _ (watched _)).
    eapply (watched_done (live s) _ _ _ _ SlotReasoning); [|done|done|done|done|exact Hx|exact Hopen].
    apply (emits_at _ _ (watched _)).
    eapply (watched_inside (live s) _ _ _ _ SlotReasoning); [|done|done|exact Hx|exact Hopen].
    by eapply (watched_inside (live s) _ _ _ _ SlotReasoning); [|done|done|exact Hx|exact Hopen].
  - by destruct Hb as [B1 B2 B3 B4].
Qed.

(** *** Text *)

Lemma ensure_message_mid n :
  Z.of_nat n < 2 ^ 62 →
  triple (on_state (λ s out, mid n s out ∧ xr_ReasoningOpen s = false))
    ensureChatToResponsesMessageItem
    (on_state (λ s out, mid (S n) s out ∧ xr_ReasoningOpen s = false ∧ xr_MessageItemID s ≠ "")).
Proof.
  intros Hn [s r] out [H Ho]. cbn [fst] in *.
  unfold ensureChatToResponsesMessageItem, mbind, St_bind. cbn [xr_state fst].
  destruct (String.eqb_spec (xr_MessageItemID s) "") as [Hm|Hm]; cbn [negb].
  2:{ cbn. rewrite app_nil_r. split; [|done]. eapply mid_weaken; [|exact H]. lia. }
  pose proof (item_id_nonempty r) as Hid. unfold xr_draw.
  destruct (generateItemID r) as [id r']. cbn [fst] in Hid.
  unfold allocOutputIndex. cbn [xr_update]. apply emit_at. split; [|done].
  assert (Hid' : (id ≟ "") = false) by (by apply String.eqb_neq).
  eapply (mid_opens n s _ SlotMessage); [exact H|done|done|done| | | | |done|done| |].
  - cbn. by rewrite Hm.
  - transitivity (if id ≟ "" then None else Some (xr_nextOutputIndex s)); [done|by rewrite Hid'].
  - by intros [].
  - cbn. by rewrite Hm.
  - intros []; [done| |done]. unfold set_entry. rewrite decide_True by done.
    transitivity (if id ≟ "" then None else Some (id, "message", false)); [done|by rewrite Hid'].
  - destruct H as (_ & Hb & _). apply (base_alloc n s); try done.
    apply (bs_once _ _ Hb).
Qed.

(** Events inside the message. *)
Lemma message_inside n s s1 out ty template :
  mid n s out → shape_of s1 = shape_of s → xr_ToolCalls s1 = xr_ToolCalls s →
  event_kind ty = Some "message" → xr_MessageItemID s ≠ "" →
  re_OutputIndex template = xr_MessageIndex s → re_ItemID template = xr_MessageItemID s →
  mid n (chatToResponsesEvent ty template s1).2 (out ++ (chatToResponsesEvent ty template s1).1).
Proof.
  intros H Hs Hc Hk Hm Hi Hid. destruct (shape_slots _ _ Hs) as (_ & Hidx & HE).
  apply String.eqb_neq in Hm.
  eapply (mid_inside n s1 out _ _ SlotMessage "message"); [|done| |].
  - eapply mid_shape; [exact Hs|by rewrite Hc|exact H].
  - rewrite Hidx, Hi. cbn. by rewrite Hm.
  - rewrite HE, Hid. cbn. by rewrite Hm.
Qed.

Definition messaging (n : nat) (s : ChatCompletionsToResponsesStreamState)
    (out : list ResponsesStreamEvent) : Prop :=
  mid n s out ∧ xr_ReasoningOpen s = false ∧ xr_MessageItemID s ≠ "".

Lemma text_part_mid n : triple (messaging n) ensureChatToResponsesTextPart (messaging n).
Proof.
  intros s out (H & Ho & Hm). unfold ensureChatToResponsesTextPart.
  case_if; [cbn; by rewrite app_nil_r|]. split; [|done]. by eapply message_inside.
Qed.

Lemma text_delta_mid n t : triple (messaging n) (text_delta t) (messaging n).
Proof.
  intros s out (H & Ho & Hm). unfold text_delta. split; [|done]. by eapply message_inside.
Qed.

(** *** Tool calls *)

Definition calling (n : nat) (idx : Z) (s : ChatCompletionsToResponsesStreamState)
    (out : list ResponsesStreamEvent) : Prop :=
  mid n s out ∧ is_Some (xr_ToolCalls s !! idx).

Lemma open_call_mid n idx callID itemID c s out :
  Z.of_nat n < 2 ^ 62 → mid n s out → xr_ToolCalls s !! idx = None →
  calling (S n) idx (open_call idx callID itemID c s) out.
Proof.
  intros Hn (Hw & Hb & Hc) Hno. set (s1 := open_call idx callID itemID c s).
  pose proof (alloc_next n s Hb Hn) as Hnext. destruct Hb as [B1 B2 B3 B4].
  assert (xr_ToolOutputIndex s !! idx = None) as Hno'.
  { apply eq_None_not_Some. rewrite B3, Hno. by intros []. }
  assert (∀ k, announced s k = true → k ≠ idx) as Hne.
  { intros k Ha ->. apply B4 in Ha. rewrite Hno in Ha. by destruct Ha. }
  assert (∀ y, live s1 y = live s y) as HE.
  { intros [| |k]; try done.
    change (live s1 (SlotCall k)) with (if announced s k
      then Some (default "" (<[idx := itemID]> (xr_ToolItemIDs s) !! k), call_type s k, false) else None).
    cbn [live slot_entry]. destruct (announced s k) eqn:Ha; [|done].
    by rewrite lookup_insert_ne by (intros ->; by apply (Hne k)). }
  split.
  2:{ change (xr_ToolCalls s1) with
        (<[idx := MkChatToolCall (tc_Index c) callID "function"
             (MkChatFunctionCall (fc_Name (tc_Function c)) "")]> (xr_ToolCalls s)).
      rewrite lookup_insert_eq. by eexists. }
  split; [|split; [|done]].
  - apply (watched_frame (live s) _ s1); [done|done|exact HE|].
    apply (watched_alloc (live s) s s1 (SlotCall idx)); try done; [lia| | |].
    + apply lookup_insert_eq.
    + intros [| |k] Hk; try done. apply lookup_insert_ne. congruence.
    + cbn. destruct (announced s idx) eqn:Ha; [|done]. by apply Hne in Ha.
  - constructor; [|done| |].
    + change (xr_nextOutputIndex s1) with (xr_nextOutputIndex s +! 1). rewrite Hnext. lia.
    + intros k. change (is_Some (<[idx := xr_nextOutputIndex s]> (xr_ToolOutputIndex s) !! k) ↔
        is_Some (<[idx := MkChatToolCall (tc_Index c) callID "function"
             (MkChatFunctionCall (fc_Name (tc_Function c)) "")]> (xr_ToolCalls s) !! k)).
      rewrite !lookup_insert_is_Some. by rewrite B3.
    + intros k Ha. change (is_Some (<[idx := MkChatToolCall (tc_Index c) callID "function"
             (MkChatFunctionCall (fc_Name (tc_Function c)) "")]> (xr_ToolCalls s) !! k)).
      apply lookup_insert_is_Some'. right. by apply B4.
Qed.

(** What reads the state first. *)
Lemma triple_read P (k : ChatCompletionsToResponsesStreamState → XR (list ResponsesStreamEvent)) R :
  (∀ s, triple (on_state (λ s' out, P s' out ∧ s' = s)) (k s) R) →
  triple (on_state P) (s ← xr_state; k s) R.
Proof. intros H x out Hp. by apply (H x.1 x out). Qed.

Lemma store_call_mid n idx c :
  Z.of_nat n < 2 ^ 62 →
  triple (on_state (mid n)) (store_call idx c) (on_state (calling (S n) idx)).
Proof.
  intros Hn. apply triple_read. intros s.
  destruct (xr_ToolCalls s !! idx) as [stored|] eqn:Hst.
  - eapply (triple_xr_update _ _ (calling (S n) idx)); [|apply triple_ret].
    intros s' out [H ->]. split.
    + eapply mid_weaken; [|eapply mid_shape; [| |exact H]]; [lia|done|].
      intros k. change (is_Some (<[idx := update_call c stored]> (xr_ToolCalls s) !! k) ↔
        is_Some (xr_ToolCalls s !! k)).
      rewrite lookup_insert_is_Some'. split; [intros [<-|?]; [by eexists|done]|by right].
    + change (is_Some (<[idx := update_call c stored]> (xr_ToolCalls s) !! idx)).
      rewrite lookup_insert_eq. by eexists.
  - apply (triple_emits _ (on_state (λ s out, mid n s out ∧ xr_ToolCalls s !! idx = None))).
    + apply triple_xr_emit. intros s1 o [H1 ->]. split; [by apply close_reasoning_mid|].
      pose proof (close_reasoning_content s) as Hc. unfold content in Hc. congruence.
    + intros [s1 r1] o [H1 Hn1]. unfold mbind, St_bind, xr_draw. cbn [fst] in *.
      destruct ((if tc_ID c ≟ "" then generateItemID else mret (tc_ID c)) r1) as [callID r2].
      destruct (generateItemID r2) as [itemID r3].
      unfold mret, St_ret, xr_update. cbn [fst snd]. rewrite app_nil_r.
      by apply open_call_mid.
Qed.

Section Calls.
Context (sha256_hex : string → string).

Definition announcing (idx : Z) (custom search : bool) (ns : option NamespacedToolName)
    (s : ChatCompletionsToResponsesStreamState) : ChatCompletionsToResponsesStreamState :=
  s{{ xr_toolAnnounced := <[idx := true]> (xr_toolAnnounced s);
      xr_toolIsCustom := <[idx := custom]> (xr_toolIsCustom s);
      xr_toolIsToolSearch := <[idx := search]> (xr_toolIsToolSearch s);
      xr_toolNamespace := match ns with
                          | Some ns => <[idx := ns]> (xr_toolNamespace s)
                          | None => xr_toolNamespace s
                          end }}.

Lemma call_slot n s idx :
  base n s → is_Some (xr_ToolCalls s !! idx) →
  slot_index s (SlotCall idx) = Some (default 0 (xr_ToolOutputIndex s !! idx)).
Proof. intros [_ _ B3 _] H. apply B3 in H as [i Hi]. cbn. by rewrite Hi. Qed.

Lemma announcing_entry closed idx custom search ns s y :
  closed (SlotCall idx) = false →
  slot_entry closed (announcing idx custom search ns s) y =
    set_entry (slot_entry closed s) (SlotCall idx)
      (default "" (xr_ToolItemIDs s !! idx),
       if search then "tool_search_call" else if custom then "custom_tool_call" else "function_call",
       false) y.
Proof.
  intros Hcl. unfold set_entry. destruct (decide (y = SlotCall idx)) as [->|Hne].
  - cbn [slot_entry]. unfold announced, call_type.
    change (xr_toolAnnounced (announcing idx custom search ns s)) with (<[idx := true]> (xr_toolAnnounced s)).
    change (xr_toolIsToolSearch (announcing idx custom search ns s)) with
      (<[idx := search]> (xr_toolIsToolSearch s)).
    change (xr_toolIsCustom (announcing idx custom search ns s)) with
      (<[idx := custom]> (xr_toolIsCustom s)).
    rewrite !lookup_insert_eq, Hcl. done.
  - destruct y as [| |k]; [done|done|]. cbn [slot_entry]. unfold announced, call_type.
    change (xr_toolAnnounced (announcing idx custom search ns s)) with (<[idx := true]> (xr_toolAnnounced s)).
    change (xr_toolIsToolSearch (announcing idx custom search ns s)) with
      (<[idx := search]> (xr_toolIsToolSearch s)).
    change (xr_toolIsCustom (announcing idx custom search ns s)) with
      (<[idx := custom]> (xr_toolIsCustom s)).
    by rewrite !lookup_insert_ne by congruence.
Qed.

(** The announcement of a call that is known. *)
Lemma announce_midst closed n idx stored force s out :
  midst closed n s out → is_Some (xr_ToolCalls s !! idx) → closed (SlotCall idx) = false →
  midst closed n (announceChatToolItem sha256_hex idx stored force s).2
    (out ++ (announceChatToolItem sha256_hex idx stored force s).1).
Proof.
  intros (Hw & Hb & Hc) Hsome Hcl. unfold announceChatToolItem.
  destruct (default false (xr_toolAnnounced s !! idx)) eqn:Ha; [cbn; by rewrite app_nil_r|].
  case_if; [cbn; by rewrite app_nil_r|].
  destruct (classify sha256_hex s (fc_Name (tc_Function stored))) as [[[custom search] ns] name].
  fold (announcing idx custom search ns s). set (s1 := announcing idx custom search ns s).
  assert (Hidx : slot_index s1 (SlotCall idx) = Some (default 0 (xr_ToolOutputIndex s !! idx)))
    by (by apply (call_slot n s)).
  apply (emits_at _ _ (midst closed n)).
  assert (Hadded : ∀ template item, re_Item template = Some item →
    re_OutputIndex template = default 0 (xr_ToolOutputIndex s !! idx) →
    ro_ID item = default "" (xr_ToolItemIDs s !! idx) →
    ro_Type item = (if search then "tool_search_call" else if custom then "custom_tool_call"
                    else "function_call") →
    midst closed n (chatToResponsesEvent "response.output_item.added" template s1).2
      (out ++ (chatToResponsesEvent "response.output_item.added" template s1).1)).
  { intros template item Hit Hoi Hid Hty. split; [|split; [|done]].
    - eapply (watched_frame (set_entry (slot_entry closed s) (SlotCall idx) (ro_ID item, ro_Type item, false)));
        [reflexivity|by intros []| |].
      + intros y. rewrite Hid, Hty. rewrite event_state.
        rewrite <- (announcing_entry closed idx custom search ns s y Hcl). by destruct y.
      + apply (watched_added (slot_entry closed s) s1 out template item (SlotCall idx));
          [|done|done|by rewrite Hoi|].
        * by apply (watched_frame (slot_entry closed s) _ s).
        * cbn. unfold announced. by rewrite Ha.
    - apply base_numbered. destruct Hb as [B1 B2 B3 B4]. constructor; try done.
      intros k. unfold announced. change (xr_toolAnnounced s1) with (<[idx := true]> (xr_toolAnnounced s)).
      destruct (decide (k = idx)) as [->|Hne]; [done|]. rewrite lookup_insert_ne by done. apply B4. }
  destruct (negb custom && negb search && _) eqn:Hd.
  2:{ unfold mret, St_ret. cbn [fst snd]. rewrite app_nil_r. by eapply Hadded. }
  apply andb_prop in Hd as [[Hcu Hse]%andb_prop _]. apply negb_true_iff in Hcu, Hse. subst.
  unfold arguments_delta. rewrite event_state.
  eapply (midst_inside closed n (numbered s1) _ _ _ (SlotCall idx) "function_call");
    [by eapply Hadded|done|exact Hidx|].
  transitivity (slot_entry closed s1 (SlotCall idx)); [done|].
  unfold s1. rewrite announcing_entry by done. unfold set_entry. by rewrite decide_True.
Qed.

(** What an announcement leaves as it was. *)
Definition stays (s : ChatCompletionsToResponsesStreamState) :=
  (xr_ReasoningOpen s, xr_ReasoningDone s, xr_ToolCalls s, xr_ToolItemIDs s).

Lemma announce_stays idx stored force s :
  stays (announceChatToolItem sha256_hex idx stored force s).2 = stays s.
Proof.
  unfold announceChatToolItem. case_if; [done|]. case_if; [done|].
  destruct (classify sha256_hex s _) as [[[custom search] ns] name].
  rewrite seq_state. by destruct (negb custom && _ && _), s.
Qed.

Lemma announce_mid n idx stored force :
  triple (calling n idx) (announceChatToolItem sha256_hex idx stored force) (calling n idx).
Proof.
  intros s out [H Hc]. pose proof (announce_stays idx stored force s) as Hs. unfold stays in Hs.
  split.
  - assert (Hd : xr_ReasoningDone (announceChatToolItem sha256_hex idx stored force s).2 =
      xr_ReasoningDone s) by congruence.
    unfold mid, done_so_far. rewrite Hd. by apply announce_midst.
  - by replace (xr_ToolCalls (announceChatToolItem sha256_hex idx stored force s).2)
      with (xr_ToolCalls s) by congruence.
Qed.

Lemma feed_mid n idx arguments :
  triple (calling n idx) (feed_call sha256_hex idx arguments) (mid n).
Proof.
  intros s out [H Hc]. unfold feed_call.
  destruct (xr_ToolCalls s !! idx) as [stored|] eqn:Hst; [|by destruct Hc].
  assert (H0 : calling n idx s out) by (split; [done|by rewrite Hst]).
  clear H Hc Hst. revert s out H0. eapply triple_emits; [apply announce_mid|].
  intros s out [H Hc]. destruct (arguments ≟ ""); [cbn; by rewrite app_nil_r|].
  set (s1 := s{{ xr_ToolCalls := <[idx := add_arguments arguments stored]> (xr_ToolCalls s) }}).
  assert (H1 : mid n s1 out).
  { eapply mid_shape; [| |exact H]; [done|]. intros k.
    change (is_Some (<[idx := add_arguments arguments stored]> (xr_ToolCalls s) !! k) ↔
      is_Some (xr_ToolCalls s !! k)).
    rewrite lookup_insert_is_Some'. split; [intros [<-|?]; done|by right]. }
  destruct (is_streamed s idx) eqn:Hstr.
  2:{ unfold mret, St_ret. cbn [fst snd]. by rewrite app_nil_r. }
  unfold is_streamed in Hstr. rewrite !andb_true_iff, !negb_true_iff in Hstr.
  destruct Hstr as [[Ha Hcu] Hse].
  eapply (mid_inside n s1 out _ _ (SlotCall idx) "function_call"); [done|done| |].
  - transitivity (slot_index s (SlotCall idx)); [done|]. apply (call_slot n); [apply H|done].
  - transitivity (live s (SlotCall idx)); [done|]. cbn. unfold announced, call_type.
    by rewrite Ha, Hcu, Hse.
Qed.

Lemma call_mid n c :
  Z.of_nat n < 2 ^ 62 →
  triple (on_state (mid n)) (toolCallEvents sha256_hex c) (on_state (mid (S n))).
Proof.
  intros Hn. eapply triple_emits; [by apply store_call_mid|]. apply triple_xr_emit, feed_mid.
Qed.
End Calls.

(** *** The other pieces *)

Lemma reasoning_mid n t :
  Z.of_nat n < 2 ^ 62 →
  triple (on_state (λ s out, mid n s out ∧ (t ≠ "" → xr_ReasoningDone s = false)))
    (reasoningEvents t)
    (on_state (λ s out, mid (S n) s out ∧ (t ≠ "" → xr_ReasoningDone s = false))).
Proof.
  intros Hn. unfold reasoningEvents. destruct (String.eqb_spec t "") as [He|He].
  - eapply triple_weaken; [| |apply triple_ret]; [intros x out H; exact H|].
    intros x out [H Hd]. split; [|done]. eapply mid_weaken; [|exact H]. lia.
  - eapply triple_weaken; [| |eapply triple_emits; [by apply ensure_reasoning_mid|
      apply triple_xr_emit, reasoning_delta_mid]].
    + intros x out [H Hd]. split; [done|by apply Hd].
    + by intros x out [H Hd].
Qed.

Lemma text_mid n t :
  Z.of_nat n < 2 ^ 62 →
  triple (on_state (mid n)) (contentEvents t) (on_state (mid (S n))).
Proof.
  intros Hn. unfold contentEvents. destruct (String.eqb_spec t "") as [He|He].
  - eapply triple_weaken; [| |apply triple_ret]; [intros x out H; exact H|].
    intros x out H. eapply mid_weaken; [|exact H]. lia.
  - eapply triple_weaken; [intros x out H; exact H| |eapply triple_emits; [eapply triple_emits; [
      eapply triple_emits; [apply triple_xr_emit, close_reasoning_mid|by apply ensure_message_mid]|
      apply triple_xr_emit, text_part_mid]|apply triple_xr_emit, text_delta_mid]].
    by intros x out (H & _).
Qed.

(** *** The beginning *)

Definition before (n : nat) (s : ChatCompletionsToResponsesStreamState)
    (out : list ResponsesStreamEvent) : Prop := watched (live s) s out ∧ base n s.

Lemma created_mid n : triple (before n) ensureChatToResponsesCreated (mid n).
Proof.
  intros s out [Hw Hb]. unfold ensureChatToResponsesCreated.
  destruct (xr_CreatedSent s) eqn:Hc; [cbn; by rewrite app_nil_r|].
  set (s1 := s{{ xr_CreatedSent := true }}).
  split; [|split; [|done]].
  2:{ by destruct Hb as [B1 B2 B3 B4]. }
  destruct Hw as (c & Hobs & Hshow).
  match goal with |- watched _ (chatToResponsesEvent _ ?t _).2 _ => set (template := t) end.
  exists ((c{{ x_seq := x_seq c +! 1 }}){{ x_created := true }}). split.
  - rewrite xobserves_app, Hobs. cbn [xobserves foldl chatToResponsesEvent fst].
    change (xr_SequenceNumber s1) with (xr_SequenceNumber s).
    rewrite <- (sh_seq _ _ _ Hshow). unfold xobserve. cbn [mbind option_bind].
    match goal with |- context [re_SequenceNumber ?e] => change (re_SequenceNumber e) with (x_seq c) end.
    rewrite Z.eqb_refl, (sh_completed _ _ _ Hshow), (sh_open _ _ _ Hshow). cbn [negb orb].
    match goal with |- context [x_created ?d] => change (x_created d) with (x_created c) end.
    by rewrite (sh_created _ _ _ Hshow), Hc.
  - destruct Hshow as [S1 S2 S3 S4 S5 S6 S7 S8]. constructor; try done.
    transitivity (x_seq c +! 1); [done|]. by rewrite S1.
Qed.

Lemma note_chunk_shape c s :
  shape_of (note_chunk c s) = shape_of s ∧ xr_ToolCalls (note_chunk c s) = xr_ToolCalls s.
Proof. destruct s. unfold note_chunk. repeat case_match; done. Qed.

(** ** What is said, and when *)

Definition is_head (p : upiece) : Prop := match p with SHead _ => True | _ => False end.

(** Something other than reasoning has been said. *)
Definition speaks (p : upiece) : bool :=
  match p with SText t => negb (t ≟ "") | SCall _ => true | _ => false end.
Definition spoken (g : list upiece) : bool := existsb speaks g.

(** The upstream reasons before it speaks. *)
Definition reasons_first (g : list upiece) : Prop :=
  ∀ g1 t g2, g = g1 ++ SReasoning t :: g2 → t ≠ "" → spoken g1 = false.

Record sayable (g : list upiece) : Prop := {
  sy_head : ∀ p rest, g = p :: rest → is_head p;
  sy_reasons : reasons_first g;
  sy_length : Z.of_nat (length g) < 2 ^ 62
}.

Lemma sayable_snoc g p : sayable (g ++ [p]) → sayable g ∧ (g = [] → is_head p).
Proof.
  intros [H1 H2 H3]. rewrite length_app in H3. cbn in H3. split; [split|].
  - intros q rest ->. by eapply (H1 q (rest ++ [p])).
  - intros g1 t g2 ->. eapply (H2 g1 t (g2 ++ [p])). by rewrite <- app_assoc.
  - lia.
  - intros ->. by eapply H1.
Qed.

Lemma spoken_snoc g p : spoken (g ++ [p]) = spoken g || speaks p.
Proof. unfold spoken. rewrite existsb_app. cbn. by rewrite orb_false_r. Qed.

Definition follows_pieces (g : list upiece) (s : ChatCompletionsToResponsesStreamState)
    (out : list ResponsesStreamEvent) : Prop :=
  sayable g → before (length g) s out ∧ (g ≠ [] → xr_CreatedSent s = true) ∧
    (xr_ReasoningDone s = true → spoken g = true).

(** A piece after the first. *)
Lemma piece_follows g p h :
  ¬ is_head p →
  (sayable (g ++ [p]) → ∀ n, Z.of_nat n < 2 ^ 62 →
   triple (on_state (λ s out, mid n s out ∧ (xr_ReasoningDone s = true → spoken g = true))) h
     (on_state (λ s out, mid (S n) s out ∧
        (xr_ReasoningDone s = true → spoken (g ++ [p]) = true)))) →
  triple (on_state (follows_pieces g)) h (on_state (follows_pieces (g ++ [p]))).
Proof.
  intros Hp Hh [s r] out H Hok. destruct (sayable_snoc g p Hok) as [Hg Hhead].
  destruct (H Hg) as ((Hw & Hb) & Hc & Hd). cbn [fst] in *.
  assert (Hne : g ≠ []) by (intros ->; by apply Hp, Hhead).
  destruct (Hh Hok (length g) (sy_length _ Hg) (s, r) out) as [(Hw' & Hb' & Hc') Hd'].
  { split; [|done]. split; [done|]. split; [done|by apply Hc]. }
  rewrite length_app. cbn [length]. rewrite Nat.add_1_r. by split_and!.
Qed.

(** A piece that says nothing. *)
Lemma silence_follows g p :
  ¬ is_head p →
  triple (on_state (follows_pieces g)) (mret []) (on_state (follows_pieces (g ++ [p]))).
Proof.
  intros Hp. apply piece_follows; [done|]. intros _ n Hn.
  eapply triple_weaken; [| |apply triple_ret]; [intros x out H; exact H|].
  intros x out [H Hd]. split; [eapply mid_weaken; [|exact H]; lia|].
  intros Hx. by rewrite spoken_snoc, Hd.
Qed.

Section Pieces.
Context (sha256_hex : string → string).

Lemma follows_keeps : keeps_pieces sha256_hex follows_pieces.
Proof.
  constructor.
  - intros c g. apply (triple_xr_update _ _ (follows_pieces g)).
    + intros s out H Hok. destruct (H Hok) as ((Hw & Hb) & Hc & Hd).
      destruct (note_chunk_shape c s) as [Hs Hcalls]. destruct (shape_slots _ _ Hs) as (Hf & Hi & HE).
      unfold shape_of, frame_of in Hs. split; [split|split].
      * by eapply watched_frame.
      * eapply base_shape; [exact Hs|by rewrite Hcalls|exact Hb].
      * by replace (xr_CreatedSent (note_chunk c s)) with (xr_CreatedSent s) by congruence.
      * by replace (xr_ReasoningDone (note_chunk c s)) with (xr_ReasoningDone s) by congruence.
    + apply triple_xr_emit. intros s out H Hok. destruct (sayable_snoc _ _ Hok) as [Hg _].
      destruct (H Hg) as (Hb & Hc & Hd). destruct (created_mid _ s out Hb) as (Hw & Hb' & Hc').
      rewrite length_app, Nat.add_1_r. split_and!; [split; [exact Hw|]|done|].
      * eapply base_weaken; [|exact Hb']. lia.
      * rewrite spoken_snoc, orb_false_r. unfold ensureChatToResponsesCreated. by case_if.
  - intros t g. destruct (decide (t = "")) as [->|Ht]; [apply silence_follows; by intros []|].
    apply piece_follows; [by intros []|]. intros Hok n Hn.
    assert (spoken g = false) as Hsp by (by eapply (sy_reasons _ Hok g t [])).
    eapply triple_weaken; [| |apply (reasoning_mid n t Hn)].
    + intros x out [H Hd]. split; [done|]. intros _. rewrite Hsp in Hd.
      destruct (xr_ReasoningDone x.1); [|done]. by destruct (Hd eq_refl).
    + intros x out [H Hd]. split; [done|]. by rewrite (Hd Ht).
  - intros t g. destruct (decide (t = "")) as [->|Ht]; [apply silence_follows; by intros []|].
    apply piece_follows; [by intros []|]. intros Hok n Hn.
    eapply triple_weaken; [| |apply (text_mid n t Hn)]; [by intros x out [H _]|].
    intros x out H. split; [done|]. intros _. rewrite spoken_snoc. cbn.
    apply String.eqb_neq in Ht. by rewrite Ht, orb_true_r.
  - intros c g. apply piece_follows; [by intros []|]. intros Hok n Hn.
    eapply triple_weaken; [| |apply (call_mid sha256_hex n c Hn)]; [by intros x out [H _]|].
    intros x out H. split; [done|]. intros _. by rewrite spoken_snoc, orb_true_r.
  - intros r g. apply piece_follows; [by intros []|]. intros Hok n Hn.
    eapply triple_xr_update; [|apply triple_ret]. intros s out [H Hd]. split.
    + eapply mid_weaken; [|eapply mid_shape; [| |exact H]]; [lia|by case_if|by case_if].
    + rewrite spoken_snoc, orb_false_r. by case_if.
Qed.
End Pieces.

(** ** The end of the stream *)

Lemma triple_both P P' R R' h :
  triple (on_state P) h (on_state R) → triple (on_state P') h (on_state R') →
  triple (on_state (λ s out, P s out ∧ P' s out)) h (on_state (λ s out, R s out ∧ R' s out)).
Proof. intros H H' x out [Hp Hp']. split; [by apply H|by apply H']. Qed.

Lemma fallback_mid n :
  Z.of_nat n < 2 ^ 62 →
  triple (on_state (λ s out, mid n s out ∧ xr_ReasoningOpen s = false))
    synthesizeChatReasoningFallbackMessage
    (on_state (λ s out, mid (S n) s out ∧ xr_ReasoningOpen s = false)).
Proof.
  intros Hn. apply triple_read. intros s. case_if.
  - eapply triple_weaken; [| |apply triple_ret]; [intros x out H; exact H|].
    intros x out [[H Ho] _]. split; [|done]. eapply mid_weaken; [|exact H]. lia.
  - eapply triple_weaken; [| |eapply triple_emits; [eapply triple_emits; [by apply ensure_message_mid|
      apply triple_xr_emit, text_part_mid]|apply triple_xr_emit, text_delta_mid]].
    + by intros x out [H _].
    + by intros x out (H & Ho & _).
Qed.

(** When the reasoning and the message are done, and the calls of [l]. *)
Definition finished (l : list Z) (x : slot) : bool :=
  match x with SlotCall k => bool_decide (k ∈ l) | _ => true end.

Lemma close_message_midst n :
  triple (λ s out, mid n s out ∧ xr_ReasoningOpen s = false) close_message (midst (finished []) n).
Proof.
  intros s out [H Ho]. assert (Hr : ∀ x, x ≠ SlotMessage → slot_entry (finished []) s x = live s x).
  { intros [| |k]; [|done|done]. intros _. rewrite live_reasoning, Ho. cbn. rewrite Ho.
    by destruct (xr_ReasoningDone s). }
  unfold close_message. destruct (String.eqb_spec (xr_MessageItemID s) "") as [Hm|Hm].
  - unfold mret, St_ret. cbn [fst snd]. rewrite app_nil_r.
    destruct H as (Hw & Hb & Hc). split; [|done]. eapply watched_frame; [done|done| |exact Hw].
    intros x. destruct (decide (x = SlotMessage)) as [->|Hx]; [|by apply Hr].
    cbn. by rewrite Hm.
  - set (index := xr_MessageIndex s). set (id := xr_MessageItemID s).
    apply (emits_at _ _ (midst _ n)).
    match goal with |- context [(if xr_TextPartOpen s then ?a else ?b) s] =>
      assert (Hin : mid n ((if xr_TextPartOpen s then a else b) s).2
                      (out ++ ((if xr_TextPartOpen s then a else b) s).1) ∧
        ∃ z, ((if xr_TextPartOpen s then a else b) s).2 = s{{ xr_SequenceNumber := z }});
      [|destruct ((if xr_TextPartOpen s then a else b) s) as [o1 s1]] end.
    { destruct (xr_TextPartOpen s).
      - split; [|by eexists]. apply (emits_at _ _ (mid n)).
        eapply (message_inside n (numbered s)); [|done|done|done|done|done|done].
        by eapply message_inside.
      - split; [cbn; by rewrite app_nil_r|]. exists (xr_SequenceNumber s). by destruct s. }
    cbn [fst snd] in *. destruct Hin as ((Hw & Hb & Hc) & z & ->).
    apply String.eqb_neq in Hm. split; [|split; [by apply base_numbered|done]].
    eapply (watched_frame (set_entry (live s) SlotMessage (id, "message", true)));
      [reflexivity|reflexivity| |].
    + intros x. unfold set_entry. destruct (decide (x = SlotMessage)) as [->|Hx].
      * transitivity (slot_entry (finished []) s SlotMessage); [done|]. cbn. by rewrite Hm.
      * rewrite <- Hr by done. by destruct x.
    + eapply (watched_done (live s) _ _ _ _ SlotMessage); [|done|done|done|done| |].
      * eapply watched_frame; [done|done| |exact Hw]. by intros [].
      * transitivity (slot_index s SlotMessage); [done|]. cbn. by rewrite Hm.
      * cbn. by rewrite Hm.
Qed.

Section Closing.
Context (sha256_hex : string → string) (cfg : tool_config) (model : string) (n : nat).

Notation conveyed := (conveyed sha256_hex cfg model true).

(** The kind a call was announced as is the kind it is closed as. *)
Lemma call_item_type s i c id :
  negb (default false (xr_toolIsCustom s !! i) && default false (xr_toolIsToolSearch s !! i)) →
  ro_Type (call_item sha256_hex s i c id) = call_type s i ∧
  ro_ID (call_item sha256_hex s i c id) = id.
Proof.
  unfold call_item, call_type.
  destruct (default false (xr_toolIsCustom s !! i)), (default false (xr_toolIsToolSearch s !! i)); done.
Qed.

Lemma announced_kinds g s i c :
  conveyed g s → xr_ToolCalls s !! i = Some c → announced s i = true →
  is_Some (xr_ToolItemIDs s !! i) ∧
  negb (default false (xr_toolIsCustom s !! i) && default false (xr_toolIsToolSearch s !! i)).
Proof.
  intros H Hc Ha. pose proof (cy_calls _ _ _ _ _ _ H i) as Hi. unfold call_said in Hi.
  rewrite Hc, Ha in Hi. destruct Hi as (_ & _ & _ & _ & Hid & name & Hr & _). split; [done|].
  unfold recorded, classify in Hr. injection Hr as -> -> _. by destruct (bool_decide _).
Qed.

Lemma input_midst closed i itemID c s out :
  midst closed n s out → is_Some (xr_ToolCalls s !! i) →
  slot_entry closed s (SlotCall i) = Some (itemID, call_type s i, false) →
  negb (default false (xr_toolIsCustom s !! i) && default false (xr_toolIsToolSearch s !! i)) →
  midst closed n (input_events sha256_hex i itemID c s).2
    (out ++ (input_events sha256_hex i itemID c s).1) ∧
  ∃ z, (input_events sha256_hex i itemID c s).2 = s{{ xr_SequenceNumber := z }}.
Proof.
  intros H Hc He Hx. pose proof (call_slot n s i (proj1 (proj2 H)) Hc) as Hi.
  unfold input_events, call_type in *.
  destruct (default false (xr_toolIsCustom s !! i)); [|destruct (default false _)].
  - destruct (default false _); [done|]. split.
    + apply (emits_at _ _ (midst closed n)).
      case_if.
      * unfold mret, St_ret. cbn [fst snd]. rewrite app_nil_r.
        by eapply (midst_inside closed n s _ _ _ (SlotCall i)).
      * eapply (midst_inside closed n (numbered s) _ _ _ (SlotCall i)); [|done|done|done].
        by eapply (midst_inside closed n s _ _ _ (SlotCall i)).
    + rewrite seq_state. case_if; by eexists.
  - unfold mret, St_ret. cbn [fst snd]. rewrite app_nil_r. split; [done|].
    exists (xr_SequenceNumber s). by destruct s.
  - split; [|by eexists]. by eapply (midst_inside closed n s _ _ _ (SlotCall i)).
Qed.

Lemma close_call_midst g l i s out :
  i ∉ l → midst (finished l) n s out → conveyed g s →
  midst (finished (l ++ [i])) n (close_call sha256_hex i s).2
    (out ++ (close_call sha256_hex i s).1).
Proof.
  intros Hl H Hcy. unfold close_call. pose proof (cy_calls _ _ _ _ _ _ Hcy i) as Hi.
  unfold call_said in Hi. destruct (xr_ToolCalls s !! i) as [c|] eqn:Hc.
  2:{ cbn [fst snd]. rewrite app_nil_r. destruct H as (Hw & Hb & Hcr). split; [|done].
      eapply watched_frame; [done|done| |exact Hw]. intros [| |k]; [done|done|]. cbn.
      destruct (announced s k) eqn:Ha; [|done]. do 2 f_equal. apply bool_decide_ext.
      rewrite elem_of_app, list_elem_of_singleton. split; [intros [?| ->]; [done|]|by left].
      destruct Hi as (_ & Hi & _). congruence. }
  destruct Hi as (_ & _ & _ & _ & [itemID Hid] & _). rewrite Hid.
  assert (Hopen : finished l (SlotCall i) = false) by (by apply bool_decide_eq_false).
  pose proof (announce_midst sha256_hex (finished l) n i c true s out H ltac:(by rewrite Hc) Hopen) as H1.
  pose proof (announce_conveyed sha256_hex cfg model true g i c true s Hc ltac:(done) Hcy) as Hcy1.
  pose proof (announce_forced sha256_hex i c s) as [Ha _].
  pose proof (announce_stays sha256_hex i c true s) as Hst. unfold stays in Hst.
  apply (emits_at _ _ (midst _ n)). rewrite seq_state, seq_events.
  destruct (announceChatToolItem sha256_hex i c true s) as [o1 s1]. cbn [fst snd] in *.
  assert (xr_ToolCalls s1 !! i = Some c) as Hc1 by (rewrite <- Hc; congruence).
  destruct (announced_kinds g s1 i c Hcy1 Hc1 Ha) as [_ Hk].
  assert (Hid1 : xr_ToolItemIDs s1 !! i = Some itemID) by (rewrite <- Hid; congruence).
  assert (He : slot_entry (finished l) s1 (SlotCall i) = Some (itemID, call_type s1 i, false))
    by (cbn [slot_entry]; by rewrite Ha, Hid1, Hopen).
  destruct (input_midst (finished l) i itemID c s1 _ H1 ltac:(by rewrite Hc1) He Hk) as [H2 [z Hz]].
  rewrite app_assoc. destruct (input_events sha256_hex i itemID c s1) as [o2 s2].
  cbn [fst snd] in *. subst s2. set (s2 := s1{{ xr_SequenceNumber := z }}) in *.
  destruct (call_item_type s2 i c itemID Hk) as [Hty Hcid].
  destruct H2 as (Hw & Hb & Hcr). split; [|split; [by apply base_numbered|done]].
  eapply (watched_frame (set_entry (slot_entry (finished l) s2) (SlotCall i)
    (itemID, call_type s2 i, true))); [reflexivity|reflexivity| |].
  - intros x. unfold set_entry. destruct (decide (x = SlotCall i)) as [->|Hne].
    + transitivity (slot_entry (finished (l ++ [i])) s1 (SlotCall i)); [done|]. cbn [slot_entry].
      rewrite Ha, Hid1. cbn [finished]. rewrite bool_decide_true; [done|].
      apply elem_of_app. right. by apply list_elem_of_singleton.
    + transitivity (slot_entry (finished (l ++ [i])) s2 x); [by destruct x|].
      destruct x as [| |k]; [done|done|]. cbn [slot_entry finished].
      destruct (announced s2 k); [|done]. do 2 f_equal. apply bool_decide_ext.
      rewrite elem_of_app, list_elem_of_singleton. split; [intros [?|?]; [done|congruence]|by left].
  - eapply (watched_done (slot_entry (finished l) s2) _ _ _ _ (SlotCall i));
      [exact Hw|done|done|exact Hcid|exact Hty| |exact He].
    apply (call_slot n s2); [done|]. change (is_Some (xr_ToolCalls s1 !! i)).
    by rewrite Hc1.
Qed.
(** *** All calls *)

Definition closing (g : list upiece) (l : list Z) (s : ChatCompletionsToResponsesStreamState)
    (out : list ResponsesStreamEvent) : Prop :=
  NoDup l → midst (finished l) n s out ∧ calls_closed sha256_hex cfg model g l s out.

Lemma close_call_closing g l i :
  triple (closing g l) (close_call sha256_hex i) (closing g (l ++ [i])).
Proof.
  intros s out H [Hl [Hi _]]%NoDup_app. destruct (H Hl) as [Hm Hcl]. split.
  - apply (close_call_midst g); [|done|apply Hcl]. intros Hin. by eapply Hi, list_elem_of_singleton.
  - by apply close_call_closed.
Qed.

Lemma concat_singletons {A} (l : list A) : concat ((λ a, [a]) <$> l) = l.
Proof. induction l as [|a l IH]; [done|]. cbn. f_equal. exact IH. Qed.

Lemma call_indices_NoDup s : NoDup (call_indices s).
Proof. apply (NoDup_fmap_2 Z.of_nat), NoDup_seq. Qed.

(** Every call is done at the end, when the upstream numbered the calls without a gap. *)
Lemma close_calls_closing g m :
  (∀ i, mentioned i g ↔ 0 <= i < Z.of_nat m) →
  triple (λ s out, midst (finished []) n s out ∧ conveyed g s) (closeChatToolItems sha256_hex)
    (λ s out, midst (finished (Z.of_nat <$> seq 0 m)) n s out ∧
       ∀ k, is_Some (xr_ToolCalls s !! k) →
         k ∈ Z.of_nat <$> seq 0 m ∧ announced s k = true).
Proof.
  intros Hm s out [H Hcy]. unfold closeChatToolItems.
  assert (Hind : call_indices s = Z.of_nat <$> seq 0 m)
    by (by apply (call_indices_whole sha256_hex cfg model g s m)).
  pose proof (triple_run (close_call sha256_hex) (λ i, [i]) (closing g)
    (λ i l, close_call_closing g l i) (call_indices s) [] s out) as Hr.
  rewrite concat_singletons in Hr. cbn [app] in Hr. destruct Hr as [Hd [Hcy' Ha]].
  - intros _. split; [done|]. split; [done|]. by intros i Hi%not_elem_of_nil.
  - apply call_indices_NoDup.
  - rewrite Hind in *. split; [exact Hd|]. intros k Hk.
    assert (k ∈ Z.of_nat <$> seq 0 m) as Hin; [|split; [done|by apply Ha]].
    apply list_elem_of_fmap. pose proof (cy_calls _ _ _ _ _ _ Hcy' k) as Hc. unfold call_said in Hc.
    destruct Hk as [c Hk]. rewrite Hk in Hc. destruct Hc as [Hc%Hm _].
    exists (Z.to_nat k). rewrite elem_of_seq. lia.
Qed.
End Closing.

(** *** The last event *)

Lemma items_done l n s out c :
  midst (finished l) n s out → shows (slot_entry (finished l) s) s c →
  (∀ k, is_Some (xr_ToolCalls s !! k) → k ∈ l ∧ announced s k = true) → all_done (x_items c) = true.
Proof.
  intros (_ & [B1 B2 B3 B4] & _) [S1 S2 S3 S4 S5 S6 S7 S8] Hcalls.
  assert (Hdom : dom (x_items c) = list_to_set (C:=gset Z) (Z.of_nat <$> seq 0 (Z.to_nat (xr_nextOutputIndex s)))).
  { apply set_eq. intros i. rewrite elem_of_dom, elem_of_list_to_set, list_elem_of_fmap. split.
    - intros [e He]. apply S8 in He as (x & Hx & _). apply S5 in Hx.
      exists (Z.to_nat i). rewrite elem_of_seq. lia.
    - intros (j & -> & Hj%elem_of_seq). destruct (S7 (Z.of_nat j) ltac:(lia)) as [x Hx].
      assert (∃ e, slot_entry (finished l) s x = Some e) as [e He].
      { destruct x as [| |k]; cbn in *.
        - destruct (_ || _); [by eexists|done].
        - destruct (_ ≟ _); [done|by eexists].
        - destruct (Hcalls k) as [_ ->]; [apply B3; by eexists|by eexists]. }
      exists e. apply S8. by exists x. }
  unfold all_done. apply andb_true_iff. split; apply bool_decide_eq_true.
  - intros i e He. apply S8 in He as (x & _ & He). destruct x as [| |k]; cbn in He.
    + destruct (_ || _); [by injection He as <-|done].
    + destruct (_ ≟ _); [done|by injection He as <-].
    + destruct (announced s k) eqn:Ha; [|done]. injection He as <-. cbn.
      apply bool_decide_eq_true. apply Hcalls. by apply B4.
  - rewrite Hdom. do 3 f_equal. rewrite <- size_dom, Hdom.
    rewrite size_list_to_set, length_fmap, length_seq; [done|].
    apply (NoDup_fmap_2 Z.of_nat), NoDup_seq.
Qed.

Lemma complete_whole sha256_hex l n x out :
  on_state (λ s out, midst (finished l) n s out ∧
    (∀ k, is_Some (xr_ToolCalls s !! k) → k ∈ l ∧ announced s k = true)) x out →
  whole_stream (out ++ (complete_stream sha256_hex x).1).
Proof.
  destruct x as [s r]. intros [H Hcalls]. cbn [fst] in *. destruct (proj1 H) as (c & Hobs & Hshow).
  unfold complete_stream, mbind, St_bind, xr_draw. cbn [xr_state fst].
  destruct (chatOutput sha256_hex s r) as [output r'].
  match goal with |- whole_stream (_ ++ ?l) => assert (∃ e, l = [e] ∧ re_Type e = "response.completed" ∧
    re_SequenceNumber e = xr_SequenceNumber s) as (e & -> & Hty & Hseq) by (by eexists) end.
  exists ((c{{ x_seq := x_seq c +! 1 }}){{ x_completed := true }}). split; [|done].
  rewrite xobserves_app, Hobs. cbn [xobserves foldl].
  rewrite (observe_open _ s c e Hshow); [|apply H|by rewrite Hseq, (sh_seq _ _ _ Hshow)|by rewrite Hty].
  rewrite Hty. cbn [switch existsb String.eqb Ascii.eqb Bool.eqb orb].
  change (x_items (c{{ x_seq := x_seq c +! 1 }})) with (x_items c).
  by rewrite (items_done l n s out c H Hshow Hcalls).
Qed.

Section Whole.
Context (sha256_hex : string → string) (cfg : tool_config) (model : string).

Notation conveys fin g := (conveys_pieces sha256_hex cfg model fin g).

Lemma end_closes n g m :
  Z.of_nat n < 2 ^ 62 → (∀ i, mentioned i g ↔ 0 <= i < Z.of_nat m) →
  triple (on_state (λ s out, before n s out ∧ conveys false g s out))
    (xr_emit ensureChatToResponsesCreated +> xr_emit closeChatReasoningItem +>
     synthesizeChatReasoningFallbackMessage +> xr_emit close_message +>
     xr_emit (closeChatToolItems sha256_hex))
    (on_state (λ s out, midst (finished (Z.of_nat <$> seq 0 m)) (S n) s out ∧
       ∀ k, is_Some (xr_ToolCalls s !! k) → k ∈ Z.of_nat <$> seq 0 m ∧ announced s k = true)).
Proof.
  intros Hn Hm. eapply triple_emits; [eapply triple_emits; [eapply triple_emits;
    [eapply triple_emits|]|]|].
  - apply triple_both;
      [apply triple_xr_emit, created_mid|apply triple_quiet, created_content].
  - apply triple_both;
      [apply triple_xr_emit, close_reasoning_mid|apply triple_quiet, close_reasoning_content].
  - apply triple_both;
      [by apply fallback_mid|apply shown_conveyed].
  - apply triple_both;
      [apply triple_xr_emit, close_message_midst|apply triple_quiet, close_message_content].
  - apply triple_xr_emit. eapply triple_weaken; [|intros s out H; exact H|
      eapply (close_calls_closing sha256_hex cfg model (S n) (shown g) m)].
    + intros s out [H Hc]. split; [exact H|]. by apply conveyed_ends.
    + intros i. by rewrite shown_mentioned.
Qed.

Lemma finalized_whole n g m x out :
  Z.of_nat n < 2 ^ 62 → (∀ i, mentioned i g ↔ 0 <= i < Z.of_nat m) →
  on_state (λ s out, before n s out ∧ conveys false g s out) x out →
  whole_stream (out ++ (FinalizeChatCompletionsResponsesStream sha256_hex x).1).
Proof.
  intros Hn Hm H. pose proof (end_closes n g m Hn Hm x out H) as Hh.
  unfold FinalizeChatCompletionsResponsesStream. unfold mbind, St_bind at 1. cbn [xr_state].
  destruct H as [_ Hcy]. rewrite (cy_open _ _ _ _ _ _ Hcy). unfold emits at 1.
  unfold mbind at 1, St_bind at 1.
  match type of Hh with on_state _ (?h x).2 _ => destruct (h x) as [o1 x1] end.
  cbn [fst snd] in Hh. pose proof (complete_whole sha256_hex _ _ x1 _ Hh) as Hw.
  unfold mbind, St_bind, mret, St_ret. destruct (complete_stream sha256_hex x1) as [o2 x2].
  cbn [fst] in *. by rewrite app_assoc.
Qed.

Lemma says_head chunks p rest : says chunks = p :: rest → is_head p.
Proof.
  induction chunks as [|[c|] chunks IH]; [done| |exact IH]. by intros [= <- _].
Qed.

Lemma new_follows now r :
  let '(s, _) := NewChatCompletionsToResponsesStreamState now model r in
  follows_pieces [] (configure cfg s) [].
Proof.
  unfold NewChatCompletionsToResponsesStreamState, mbind, St_bind, mret, St_ret.
  destruct (generateResponsesID r) as [id r']. intros _. split; [|done]. split.
  - exists new_xclient. split; [done|]. constructor; try done.
    + intros []; [done|done|]. cbn. by rewrite lookup_empty.
    + intros []; [done|done|]. cbn. by rewrite lookup_empty.
    + intros i Hi. exfalso. cbn in Hi. lia.
    + intros i e. cbn. rewrite lookup_empty. split; [done|]. intros ([] & Hx & _); [done|done|].
      cbn in Hx. by rewrite lookup_empty in Hx.
  - constructor; try done. by intros k; unfold announced; cbn; rewrite ?lookup_empty.
Qed.
End Whole.

(** ** Properties *)

(** C13: a client that follows the rules of output items accepts the whole converted stream: the
    events are numbered in order, every item is added once under an index of its own before any
    event of its kind, nothing comes for an item that is done, and the response is completed
    when all items are done and their indices have no gap.  The upstream reasons before it
    speaks and numbers its calls from zero without a gap, however the fragments of the calls are
    interleaved. *)
Theorem chat_events_keep_protocol sha256_hex now cfg model chunks m r :
  reasons_first (says chunks) →
  (∀ i, mentioned i (says chunks) ↔ 0 <= i < Z.of_nat m) →
  Z.of_nat (length (says chunks)) < 2 ^ 62 →
  whole_stream (converted_stream sha256_hex now cfg model chunks r).1.
Proof.
  intros Hreasons Hm Hlen. unfold converted_stream.
  pose proof (new_conveyed sha256_hex now cfg model r) as Hc.
  pose proof (new_follows cfg model now r) as Hf.
  destruct (NewChatCompletionsToResponsesStreamState now model r) as [s0 r0].
  pose proof (stream_keeps sha256_hex _ (conveys_keeps sha256_hex cfg model) chunks
    (configure cfg s0, r0) [] Hc) as Hc1.
  pose proof (stream_keeps sha256_hex _ (follows_keeps sha256_hex) chunks
    (configure cfg s0, r0) [] Hf) as Hf1.
  unfold convertChatChunks, emits, mbind, St_bind, mret, St_ret.
  destruct (run_machine (ChatCompletionsChunkToResponsesEvents sha256_hex) chunks
    (configure cfg s0, r0)) as [o1 x1]. cbn [fst snd app] in *.
  destruct Hf1 as [Hb _]; [constructor; [apply says_head|done|done]|].
  pose proof (finalized_whole sha256_hex cfg model _ _ m x1 o1 Hlen Hm (conj Hb Hc1)) as Hw.
  by destruct (FinalizeChatCompletionsResponsesStream sha256_hex x1) as [o2 [s2 r2]].
Qed.

(** ** Witnesses and examples *)

Fixpoint reasons_from (spoke : bool) (g : list upiece) : bool :=
  match g with
  | [] => true
  | p :: g =>
      match p with SReasoning t => (t ≟ "") || negb spoke | _ => true end &&
      reasons_from (spoke || speaks p) g
  end.

Lemma reasons_check g : reasons_from false g = true → reasons_first g.
Proof.
  assert (∀ g1 spoke t g2, reasons_from spoke (g1 ++ SReasoning t :: g2) = true → t ≠ "" →
    spoke || spoken g1 = false) as H; [|intros Hg g1 t g2 ->; by apply (H g1 false t g2)].
  clear. induction g1 as [|p g1 IH]; intros spoke t g2; cbn.
  - intros [Hs _]%andb_prop Ht. apply String.eqb_neq in Ht. rewrite Ht in Hs.
    rewrite orb_false_r. by apply negb_true_iff.
  - intros [_ Hs]%andb_prop Ht. rewrite orb_assoc. by eapply IH.
Qed.

Lemma chat_events_keep_protocol_witness :
  whole_stream (converted_stream (λ _, "") 7 some_tools "gpt" some_chunks (Rng (λ _, []) 0)).1.
Proof.
  apply (chat_events_keep_protocol (λ _, "") 7 some_tools "gpt" some_chunks 2).
  - apply reasons_check. vm_compute. reflexivity.
  - exact (wm_mentioned _ _ _ some_whole).
  - vm_compute. reflexivity.
Defined.

(** What the client makes of a stream. *)
Definition accepted (chunks : list (option ChatCompletionsChunk)) : bool :=
  match xobserves (Some new_xclient)
          (converted_stream (λ _, "") 7 no_tools "gpt" chunks (Rng (λ n, [N.of_nat n]) 0)).1 with
  | Some c => x_completed c
  | None => false
  end.

(** The client does not accept the stream whose only call has the index 1, nor the one that
    reasons again after text. *)
Example one_based_call_rejected :
  accepted one_based_calls = false ∧
  accepted [a_chunk (ChatDelta0{{ cd_ToolCalls := [a_call 0 "c1" "find" "{}"] }}) (Some "tool_calls")]
    = true.
Proof. split; vm_compute; reflexivity. Qed.

Example resumed_reasoning_rejected :
  accepted
    [a_chunk (ChatDelta0{{ cd_ReasoningContent := Some "a" }}) None;
     a_chunk (ChatDelta0{{ cd_Content := Some "b" }}) None;
     a_chunk (ChatDelta0{{ cd_ReasoningContent := Some "c" }}) (Some "stop")] = false ∧
  accepted
    [a_chunk (ChatDelta0{{ cd_ReasoningContent := Some "a" }}) None;
     a_chunk (ChatDelta0{{ cd_ReasoningContent := Some "c" }}) None;
     a_chunk (ChatDelta0{{ cd_Content := Some "b" }}) (Some "stop")] = true.
Proof. split; vm_compute; reflexivity. Qed.
