(* ===== verification/AbuseLimiter.v ===== *)
(** * AbuseLimiter: clients that keep failing to authenticate

    Models [backend/internal/service/invalid_auth_abuse_limiter.go].  The limiter lives in memory;
    each method is one function of its state, given the clock reading it takes.  Mutexes leave no
    trace: methods run one after the other. *)

From stdpp Require Import base tactics numbers list strings gmap.
From Stdlib Require Import ZArith Lia Ascii.
From coqutil Require Export Datatypes.RecordSetters.
From S2P Require Import Prelude GoLib.

Export DoubleBraceUpdate.

Local Open Scope go_scope.
Local Open Scope Z_scope.

Definition invalidAuthAbuseShardCount : Z := 16.

Record invalidAuthAbuseEntry : Type := MkEntry {
  ab_failures : Z;
  ab_windowStart : Z;
  ab_blockedUntil : Z
}.

Notation invalidAuthAbuseShard := (gmap string invalidAuthAbuseEntry).

Record invalidAuthOverflow : Type := MkOverflow {
  ao_failures : Z;
  ao_windowStart : Z;
  ao_blockedUntil : Z
}.

Record invalidAuthAbuseLimiter : Type := MkLimiter {
  al_threshold : Z;
  al_window : Z;
  al_block : Z;
  al_capacity : Z;
  al_shards : list invalidAuthAbuseShard;
  al_overflow : invalidAuthOverflow;
  al_tracked : Z;
  al_recorded : Z;
  al_blocked : Z;
  al_rejected : Z;
  al_expired : Z;
  al_overflowed : Z;
  al_globalBlocked : Z;
  al_cleanupNext : Z;
  al_cleanupCursor : Z
}.

Record InvalidAuthAbuseHealth : Type := MkHealth {
  ah_Enabled : bool;
  ah_Tracked : Z;
  ah_Capacity : Z;
  ah_Recorded : Z;
  ah_Blocks : Z;
  ah_Rejected : Z;
  ah_Expired : Z;
  ah_Overflowed : Z;
  ah_GlobalBlocked : Z
}.

(** The part of the configuration it reads. *)
Record InvalidAbuseConfig : Type := MkInvalidAbuseConfig {
  cf_Enabled : bool;
  cf_Threshold : Z;
  cf_WindowSeconds : Z;
  cf_BlockSeconds : Z;
  cf_Capacity : Z
}.

Definition newInvalidAuthAbuseLimiter (cfg : option InvalidAbuseConfig)
    : option invalidAuthAbuseLimiter :=
  match cfg with
  | None => None
  | Some c =>
      if negb (cf_Enabled c) then None else
      if (cf_Threshold c <=? 0) || (cf_WindowSeconds c <=? 0) || (cf_BlockSeconds c <=? 0)
         || (cf_Capacity c <=? 0)
      then None else
      Some {| al_threshold := cf_Threshold c;
              al_window := cf_WindowSeconds c *! Second;
              al_block := cf_BlockSeconds c *! Second;
              al_capacity := cf_Capacity c;
              al_shards := replicate (Z.to_nat invalidAuthAbuseShardCount) ∅;
              al_overflow := MkOverflow 0 zeroTime zeroTime;
              al_tracked := 0; al_recorded := 0; al_blocked := 0; al_rejected := 0;
              al_expired := 0; al_overflowed := 0; al_globalBlocked := 0;
              al_cleanupNext := 0; al_cleanupCursor := 0 |}
  end.

Definition entryExpired (l : invalidAuthAbuseLimiter) (entry : invalidAuthAbuseEntry) (now : Z)
    : bool :=
  negb (now <? ab_blockedUntil entry) && negb (now <? ab_windowStart entry)
  && negb (now <? ab_windowStart entry + al_window l).

(** FNV-1a over the bytes of the key, in 32 bits. *)
Fixpoint fnv1a (hash : Z) (clientKey : string) : Z :=
  match clientKey with
  | EmptyString => hash
  | String c s =>
      fnv1a ((Z.lxor hash (Z.of_N (N_of_ascii c)) * 16777619) `mod` 2 ^ 32) s
  end.

Definition shard (clientKey : string) : nat :=
  Z.to_nat (fnv1a 2166136261 clientKey `mod` invalidAuthAbuseShardCount).

Definition entry_of (l : invalidAuthAbuseLimiter) (clientKey : string)
    : option invalidAuthAbuseEntry :=
  al_shards l !! shard clientKey ≫= λ m, m !! clientKey.

(** Counters of 64 bits without sign. *)
Definition uint64_add (a b : Z) : Z := (a + b) `mod` 2 ^ 64.

Definition set_entry (clientKey : string) (entry : invalidAuthAbuseEntry)
    (l : invalidAuthAbuseLimiter) : invalidAuthAbuseLimiter :=
  l{{ al_shards := alter (λ m, <[clientKey := entry]> m) (shard clientKey) (al_shards l) }}.

Definition drop_entry (clientKey : string) (l : invalidAuthAbuseLimiter)
    : invalidAuthAbuseLimiter :=
  l{{ al_shards := alter (λ m, delete clientKey m) (shard clientKey) (al_shards l);
      al_tracked := al_tracked l +! -1;
      al_expired := uint64_add (al_expired l) 1 }}.

(** The look-up that drops an expired entry. *)
Definition live_entry (clientKey : string) (now : Z)
    : St invalidAuthAbuseLimiter (option invalidAuthAbuseEntry) := λ l,
  match entry_of l clientKey with
  | Some entry =>
      if entryExpired l entry now then (None, drop_entry clientKey l)
      else (Some entry, l)
  | None => (None, l)
  end.

Definition reserveEntry : St invalidAuthAbuseLimiter bool := λ l,
  if al_capacity l <=? al_tracked l then (false, l)
  else (true, l{{ al_tracked := al_tracked l +! 1 }}).

(** The loop over a shard that deletes the expired entries. *)
Definition sweep (i : nat) (now : Z) (l : invalidAuthAbuseLimiter) : invalidAuthAbuseLimiter :=
  let entries := default ∅ (al_shards l !! i) in
  let kept := filter (λ kv, entryExpired l kv.2 now = false) entries in
  let gone := Z.of_nat (size entries - size kept) in
  l{{ al_shards := alter (λ _, kept) i (al_shards l);
      al_tracked := al_tracked l -! gone;
      al_expired := uint64_add (al_expired l) gone }}.

Definition maybeCleanupAtCapacity (now : Z) : St invalidAuthAbuseLimiter unit := λ l,
  if al_tracked l <? al_capacity l then (tt, l) else
  if now <? al_cleanupNext l then (tt, l) else
  let index := al_cleanupCursor l in
  let l := l{{ al_cleanupNext := now + 100 * Millisecond;
               al_cleanupCursor := (index + 1) `mod` 2 ^ 32 }} in
  (tt, sweep (Z.to_nat (index `mod` invalidAuthAbuseShardCount)) now l).

Definition checkOverflow (now : Z) (l : invalidAuthAbuseLimiter) : Z * bool :=
  let o := al_overflow l in
  if now <? ao_blockedUntil o then (time_sub (ao_blockedUntil o) now, true) else (0, false).

Definition recordOverflow (now : Z) : St invalidAuthAbuseLimiter unit := λ l,
  let l := l{{ al_overflowed := uint64_add (al_overflowed l) 1 }} in
  let o := al_overflow l in
  if now <? ao_blockedUntil o then (tt, l) else
  let o :=
    if (ao_windowStart o =? zeroTime) || negb (now <? ao_windowStart o + al_window l)
    then o{{ ao_windowStart := now; ao_failures := 0 }} else o in
  let o := o{{ ao_failures := ao_failures o +! 1 }} in
  if al_threshold l <=? ao_failures o then
    let until := now + al_block l in
    (tt, l{{ al_overflow := MkOverflow 0 until until;
             al_blocked := uint64_add (al_blocked l) 1 }})
  else (tt, l{{ al_overflow := o }}).

Definition check (clientKey : string) (now : Z) : St invalidAuthAbuseLimiter (Z * bool) :=
  if clientKey ≟ "" then mret (0, false) else
  _ ← maybeCleanupAtCapacity now;
  entry ← live_entry clientKey now;
  match entry with
  | Some entry =>
      if now <? ab_blockedUntil entry then
        _ ← modify (λ l, l{{ al_rejected := uint64_add (al_rejected l) 1 }});
        mret (time_sub (ab_blockedUntil entry) now, true)
      else mret (0, false)
  | None =>
      l ← get;
      if al_capacity l <=? al_tracked l then
        let '(retry, blocked) := checkOverflow now l in
        if blocked then
          _ ← modify (λ l, l{{ al_rejected := uint64_add (al_rejected l) 1;
                               al_globalBlocked := uint64_add (al_globalBlocked l) 1 }});
          mret (retry, true)
        else mret (0, false)
      else mret (0, false)
  end.

(** What a failure does to the entry of a client: the entry, and whether it is blocked anew. *)
Definition count_failure (l : invalidAuthAbuseLimiter) (now : Z) (entry : invalidAuthAbuseEntry)
    : invalidAuthAbuseEntry * bool :=
  if now <? ab_blockedUntil entry then (entry, false) else
  let entry :=
    if (now <? ab_windowStart entry) || negb (now <? ab_windowStart entry + al_window l)
    then entry{{ ab_windowStart := now; ab_failures := 0 }} else entry in
  let entry := entry{{ ab_failures := ab_failures entry +! 1 }} in
  if al_threshold l <=? ab_failures entry then
    let until := now + al_block l in (MkEntry 0 until until, true)
  else (entry, false).

Definition record (clientKey : string) (now : Z) : St invalidAuthAbuseLimiter unit :=
  if clientKey ≟ "" then mret tt else
  _ ← modify (λ l, l{{ al_recorded := uint64_add (al_recorded l) 1 }});
  _ ← maybeCleanupAtCapacity now;
  entry ← live_entry clientKey now;
  reserved ← match entry with
             | Some entry => mret (Some entry)
             | None =>
                 ok ← reserveEntry;
                 mret (if (ok : bool) then Some (MkEntry 0 now zeroTime) else None)
             end;
  match reserved with
  | None => recordOverflow now
  | Some entry =>
      l ← get;
      let '(entry, blocked) := count_failure l now entry in
      modify (λ l, set_entry clientKey entry
        (if (blocked : bool) then l{{ al_blocked := uint64_add (al_blocked l) 1 }} else l))
  end.

Definition health (l : invalidAuthAbuseLimiter) : InvalidAuthAbuseHealth :=
  MkHealth true (al_tracked l) (al_capacity l) (al_recorded l) (al_blocked l) (al_rejected l)
    (al_expired l) (al_overflowed l) (al_globalBlocked l).

(** ** The service's methods: without a limiter they do nothing *)

Definition CheckInvalidAuthAbuse (clientKey : string) (now : Z)
    : St (option invalidAuthAbuseLimiter) (Z * bool) := λ s,
  match s with
  | None => ((0, false), None)
  | Some l => let '(r, l) := check clientKey now l in (r, Some l)
  end.

Definition RecordInvalidAuthFailure (clientKey : string) (now : Z)
    : St (option invalidAuthAbuseLimiter) unit := λ s,
  match s with
  | None => (tt, None)
  | Some l => let '(r, l) := record clientKey now l in (r, Some l)
  end.

Definition InvalidAuthAbuseHealth_of (s : option invalidAuthAbuseLimiter)
    : InvalidAuthAbuseHealth :=
  match s with
  | None => MkHealth false 0 0 0 0 0 0 0 0
  | Some l => health l
  end.
