(* ===== verification/AbuseFacts.v ===== *)
(** * AbuseFacts: the abuse limiter keeps its bounds and keeps clients apart

    The memory of the limiter is bounded whatever arrives; while no more clients than its capacity
    fail, each client is treated by a private automaton of its own history alone; and a client
    that fails too often is blocked for the configured time, and then no longer. *)

From stdpp Require Import base tactics numbers list strings gmap.
From Stdlib Require Import ZArith Lia.
From S2P Require Import Prelude GoLib AbuseLimiter.

Local Open Scope Z_scope.

(** ** The shards *)

Lemma fnv1a_range h k : 0 ≤ h < 2 ^ 32 → 0 ≤ fnv1a h k < 2 ^ 32.
Proof.
  revert h. induction k as [|c k IH]; intros h Hh; cbn -[Z.pow]; [done|].
  apply IH, Z.mod_pos_bound. lia.
Qed.

Lemma shard_bound k : (shard k < 16)%nat.
Proof.
  unfold shard. pose proof (Z.mod_pos_bound (fnv1a 2166136261 k) 16 ltac:(lia)).
  unfold invalidAuthAbuseShardCount. lia.
Qed.

(** The keys with an entry, over all shards. *)
Definition stored_keys (l : invalidAuthAbuseLimiter) : gset string :=
  ⋃ (dom <$> al_shards l).

(** An entry is in the shard of its key. *)
Definition owned (l : invalidAuthAbuseLimiter) : Prop :=
  ∀ i m k, al_shards l !! i = Some m → is_Some (m !! k) → i = shard k.

(** Every entry is tracked, and no more are than the capacity. *)
Record well (l : invalidAuthAbuseLimiter) : Prop := {
  well_shards : length (al_shards l) = 16%nat;
  well_owned : owned l;
  well_tracked : al_tracked l = Z.of_nat (size (stored_keys l));
  well_bound : al_tracked l ≤ al_capacity l;
  well_capacity : al_capacity l < 2 ^ 63
}.

Lemma elem_of_stored l k : owned l → k ∈ stored_keys l ↔ is_Some (entry_of l k).
Proof.
  intros Ho. unfold stored_keys. rewrite elem_of_union_list. split.
  - intros (X & HX & Hk). apply list_elem_of_fmap in HX as (m & -> & Hm).
    apply list_elem_of_lookup in Hm as [i Hi]. apply elem_of_dom in Hk.
    pose proof (Ho i m k Hi Hk) as ->. unfold entry_of. by rewrite Hi.
  - unfold entry_of. intros [e He]. apply bind_Some in He as (m & Hi & He).
    exists (dom m). split; [|apply elem_of_dom; eauto].
    apply list_elem_of_fmap. exists m. split; [done|]. by eapply list_elem_of_lookup_2.
Qed.

(** ** A change of one shard *)

(** [l'] is [l] with a function applied to one shard, and other counters. *)
Definition reshards (i : nat) (f : invalidAuthAbuseShard → invalidAuthAbuseShard)
    (l l' : invalidAuthAbuseLimiter) : Prop :=
  al_shards l' = alter f i (al_shards l).

Lemma entry_of_reshards i f l l' k :
  reshards i f l l' →
  entry_of l' k =
    if decide (i = shard k) then (f <$> al_shards l !! i) ≫= λ m, m !! k else entry_of l k.
Proof.
  unfold reshards, entry_of. intros ->. case_decide as E.
  - subst i. by rewrite list_lookup_alter_eq.
  - by rewrite list_lookup_alter_ne.
Qed.

Lemma owned_reshards i f l l' :
  owned l → reshards i f l l' →
  (∀ m k, al_shards l !! i = Some m → is_Some (f m !! k) → is_Some (m !! k) ∨ i = shard k) →
  owned l'.
Proof.
  intros Ho Hr Hf j m k Hj Hk. unfold reshards in Hr. rewrite Hr in Hj.
  destruct (decide (i = j)) as [<-|Hne].
  - rewrite list_lookup_alter_eq in Hj. apply fmap_Some in Hj as (m0 & Hm0 & ->).
    destruct (Hf m0 k Hm0 Hk) as [H|H]; [by apply (Ho i m0)|done].
  - rewrite list_lookup_alter_ne in Hj by done. by apply (Ho j m).
Qed.

(** ** What the operations do to the entries *)

Definition same_limits (l l' : invalidAuthAbuseLimiter) : Prop :=
  al_threshold l' = al_threshold l ∧ al_window l' = al_window l ∧ al_block l' = al_block l ∧
  al_capacity l' = al_capacity l.

(** An entry is as good as none once it has expired. *)
Definition unexpired (l : invalidAuthAbuseLimiter) (now : Z) (o : option invalidAuthAbuseEntry)
    : option invalidAuthAbuseEntry :=
  e ← o; if entryExpired l e now then None else Some e.

Lemma expired_limits l l' e t : same_limits l l' → entryExpired l' e t = entryExpired l e t.
Proof. intros (_ & H & _). unfold entryExpired. by rewrite H. Qed.

Lemma unexpired_limits l l' t o : same_limits l l' → unexpired l' t o = unexpired l t o.
Proof. intros H. destruct o as [e|]; cbn; [|done]. by rewrite (expired_limits l l'). Qed.

Lemma expired_mono l e t t' : t ≤ t' → entryExpired l e t = true → entryExpired l e t' = true.
Proof.
  unfold entryExpired. rewrite !andb_true_iff, !negb_true_iff, !Z.ltb_ge. lia.
Qed.

Lemma unexpired_later l t t' o : t ≤ t' → unexpired l t' (unexpired l t o) = unexpired l t' o.
Proof.
  intros Ht. destruct o as [e|]; cbn; [|done]. destruct (entryExpired l e t) eqn:E; [|done].
  by rewrite (expired_mono l e t t' Ht E).
Qed.

Lemma stored_delete l l' k :
  owned l → owned l' → (∀ c, entry_of l' c = if decide (c = k) then None else entry_of l c) →
  stored_keys l' = stored_keys l ∖ {[k]}.
Proof.
  intros Ho Ho' He. apply set_eq. intros c.
  rewrite elem_of_difference, !elem_of_stored, He, elem_of_singleton by done.
  case_decide; [|naive_solver]. split; [by intros []|naive_solver].
Qed.

Lemma stored_insert l l' k e :
  owned l → owned l' → (∀ c, entry_of l' c = if decide (c = k) then Some e else entry_of l c) →
  stored_keys l' = {[k]} ∪ stored_keys l.
Proof.
  intros Ho Ho' He. apply set_eq. intros c.
  rewrite elem_of_union, !elem_of_stored, He, elem_of_singleton by done.
  case_decide; naive_solver.
Qed.

Lemma well_reshards i f l l' :
  well l → reshards i f l l' → owned l' → al_capacity l' = al_capacity l →
  al_tracked l' = Z.of_nat (size (stored_keys l')) → al_tracked l' ≤ al_capacity l → well l'.
Proof.
  intros W Hr Ho Hc Ht Hb. pose proof (well_capacity l W).
  split; [|done|done|lia|lia]. unfold reshards in Hr. rewrite Hr, length_alter. apply W.
Qed.

Lemma nonneg_tracked l : well l → 0 ≤ al_tracked l.
Proof. intros W. rewrite (well_tracked l W). lia. Qed.

Lemma live_entry_spec k t l :
  well l →
  let '(r, l') := live_entry k t l in
  r = unexpired l t (entry_of l k) ∧ same_limits l l' ∧ well l' ∧
  (∀ c, entry_of l' c = if decide (c = k) then r else entry_of l c) ∧
  al_tracked l' ≤ al_tracked l.
Proof.
  intros W. unfold live_entry, unexpired. destruct (entry_of l k) as [e|] eqn:Ek; cbn [mbind option_bind].
  2: { split_and!; try done. intros c. by case_decide as E; [subst c|]. }
  destruct (entryExpired l e t) eqn:Ex.
  2: { split_and!; try done. intros c. by case_decide as E; [subst c|]. }
  set (l' := drop_entry k l).
  assert (Hr : reshards (shard k) (λ m, delete k m) l l') by done.
  assert (He : ∀ c, entry_of l' c = if decide (c = k) then None else entry_of l c).
  { intros c. rewrite (entry_of_reshards _ _ _ _ c Hr). unfold entry_of.
    destruct (decide (shard k = shard c)) as [E|E], (decide (c = k)) as [->|Hne]; try done.
    - destruct (al_shards l !! shard k) as [m|]; [|done].
      change (delete k m !! k = None). by rewrite lookup_delete_eq.
    - rewrite E. destruct (al_shards l !! shard c) as [m|]; [|done].
      change (delete k m !! c = m !! c). by rewrite lookup_delete_ne. }
  assert (Ho : owned l').
  { apply (owned_reshards _ _ _ _ (well_owned l W) Hr). intros m c _ Hc. left.
    destruct Hc as [x Hx]. apply lookup_delete_Some in Hx as [_ Hx]. eauto. }
  pose proof (stored_delete l l' k (well_owned l W) Ho He) as Hs.
  assert (Hin : k ∈ stored_keys l) by (apply elem_of_stored; [apply W|rewrite Ek; eauto]).
  assert (Hsz : Z.of_nat (size (stored_keys l')) = al_tracked l - 1).
  { rewrite Hs, (well_tracked l W), size_difference by set_solver. rewrite size_singleton.
    assert (size (stored_keys l) ≠ 0%nat) by (rewrite size_non_empty_iff; set_solver). lia. }
  pose proof (nonneg_tracked l W) as H0. pose proof (well_bound l W) as Hb.
  pose proof (well_capacity l W) as Hcap.
  assert (Ht : al_tracked l' = al_tracked l - 1).
  { cbn. unfold int64_add. apply int64_wrap_id. unfold int64_range. lia. }
  split_and!; try done; [|lia].
  apply (well_reshards _ _ _ _ W Hr Ho); [done|lia..].
Qed.

Lemma unexpired_filter l t (m : invalidAuthAbuseShard) c :
  unexpired l t (filter (λ kv, entryExpired l kv.2 t = false) m !! c) = unexpired l t (m !! c).
Proof.
  rewrite map_lookup_filter. destruct (m !! c) as [e|]; cbn; [|done].
  destruct (entryExpired l e t) eqn:Ex.
  - rewrite option_guard_False by done. done.
  - rewrite option_guard_True by done. cbn. by rewrite Ex.
Qed.

Lemma filter_sizes (P : string * invalidAuthAbuseEntry → Prop) `{∀ x, Decision (P x)}
    (m : invalidAuthAbuseShard) :
  size m = (size (filter P m) + size (filter (λ kv, ¬ P kv) m))%nat.
Proof.
  rewrite <- (map_filter_union_complement P m) at 1.
  apply map_size_disj_union, map_disjoint_filter_complement.
Qed.

Lemma filter_split_is_Some (P : string * invalidAuthAbuseEntry → Prop) `{∀ x, Decision (P x)}
    (m : invalidAuthAbuseShard) c :
  is_Some (filter P m !! c) ↔ is_Some (m !! c) ∧ filter (λ kv, ¬ P kv) m !! c = None.
Proof.
  rewrite !map_lookup_filter. destruct (m !! c) as [e|]; cbn; [|by split; [intros []|intros [[] _]]].
  destruct (decide (P (c, e))) as [Hp|Hp].
  - rewrite option_guard_True, option_guard_False by naive_solver. cbn. naive_solver.
  - rewrite option_guard_False, option_guard_True by done. cbn. split; [by intros []|naive_solver].
Qed.

(** A sweep of a shard: only expired entries go. *)
Lemma sweep_spec i t l :
  (i < 16)%nat → well l →
  let l' := sweep i t l in
  same_limits l l' ∧ well l' ∧ al_tracked l' ≤ al_tracked l ∧
  (∀ c, unexpired l t (entry_of l' c) = unexpired l t (entry_of l c)) ∧
  stored_keys l' ⊆ stored_keys l.
Proof.
  intros Hi W l'.
  destruct (al_shards l !! i) as [m|] eqn:Em.
  2: { apply lookup_ge_None in Em. rewrite (well_shards l W) in Em. lia. }
  set (kept := filter (λ kv, entryExpired l kv.2 t = false) m).
  assert (Hr : reshards i (λ _, kept) l l').
  { unfold reshards, l', sweep. rewrite Em. done. }
  assert (He : ∀ c, entry_of l' c = if decide (i = shard c) then kept !! c else entry_of l c).
  { intros c. rewrite (entry_of_reshards _ _ _ _ c Hr), Em. done. }
  assert (Ho : owned l').
  { apply (owned_reshards _ _ _ _ (well_owned l W) Hr). intros m0 c Hm0 [x Hx]. left.
    rewrite Em in Hm0. injection Hm0 as <-. apply map_lookup_filter_Some in Hx as [Hx _]. eauto. }
  assert (Hs : stored_keys l' =
    stored_keys l ∖ dom (filter (λ kv, ¬ entryExpired l kv.2 t = false) m)).
  { apply set_eq. intros c. rewrite elem_of_difference, !elem_of_stored, He by (done || apply W).
    rewrite not_elem_of_dom. unfold kept. case_decide as E.
    - unfold entry_of. rewrite <- E, Em. cbn. rewrite filter_split_is_Some. done.
    - split; [|by intros [? _]]. intros Hc. split; [done|]. apply map_lookup_filter_None. left.
      destruct (m !! c) as [x|] eqn:Ec; [|done]. destruct E. by apply (well_owned l W i m); eauto. }
  assert (Hin : dom (filter (λ kv, ¬ entryExpired l kv.2 t = false) m) ⊆ stored_keys l).
  { intros c [x Hc]%elem_of_dom. apply map_lookup_filter_Some in Hc as [Hc _].
    apply elem_of_stored; [apply W|]. unfold entry_of.
    pose proof (well_owned l W i m c Em ltac:(eauto)) as <-. rewrite Em. cbn. eauto. }
  assert (Ht : al_tracked l' = Z.of_nat (size (stored_keys l'))).
  { rewrite Hs, size_difference, size_dom by done.
    pose proof (filter_sizes (λ kv, entryExpired l kv.2 t = false) m) as Hf.
    pose proof (subseteq_size _ _ Hin) as Hle. rewrite size_dom in Hle.
    pose proof (nonneg_tracked l W). pose proof (well_bound l W). pose proof (well_capacity l W).
    pose proof (well_tracked l W). fold kept in Hf.
    assert (al_tracked l' = int64_sub (al_tracked l) (Z.of_nat (size m - size kept))) as ->
      by (unfold l', sweep; by rewrite Em).
    unfold int64_sub. rewrite int64_wrap_id; unfold int64_range; lia. }
  assert (Hle : (size (stored_keys l') ≤ size (stored_keys l))%nat)
    by (apply subseteq_size; rewrite Hs; set_solver).
  pose proof (well_tracked l W). pose proof (well_bound l W).
  split_and!; [done| |lia| |rewrite Hs; set_solver].
  - apply (well_reshards _ _ _ _ W Hr Ho); [done|done|lia].
  - intros c. rewrite He. case_decide as E; [|done]. unfold entry_of. rewrite <- E, Em. cbn.
    apply unexpired_filter.
Qed.

Lemma cleanup_spec t l :
  well l →
  let l' := (maybeCleanupAtCapacity t l).2 in
  same_limits l l' ∧ well l' ∧ al_tracked l' ≤ al_tracked l ∧
  (∀ c, unexpired l t (entry_of l' c) = unexpired l t (entry_of l c)) ∧
  stored_keys l' ⊆ stored_keys l.
Proof.
  intros W. unfold maybeCleanupAtCapacity.
  destruct (al_tracked l <? al_capacity l); [by split_and!|].
  destruct (t <? al_cleanupNext l); [by split_and!|]. cbn [snd].
  match goal with |- context [sweep ?i t ?l1] => apply (sweep_spec i t l1) end.
  - pose proof (Z.mod_pos_bound (al_cleanupCursor l) 16 ltac:(lia)).
    unfold invalidAuthAbuseShardCount. lia.
  - by destruct W; split.
Qed.

(** ** The methods *)

(** Only counters differ. *)
Definition same_entries (l l' : invalidAuthAbuseLimiter) : Prop :=
  al_shards l' = al_shards l ∧ al_tracked l' = al_tracked l ∧ same_limits l l'.

Lemma same_entries_of l l' c : same_entries l l' → entry_of l' c = entry_of l c.
Proof. intros (H & _). unfold entry_of. by rewrite H. Qed.

Lemma same_entries_stored l l' : same_entries l l' → stored_keys l' = stored_keys l.
Proof. intros (H & _). unfold stored_keys. by rewrite H. Qed.

Lemma same_entries_well l l' : same_entries l l' → well l → well l'.
Proof.
  intros Hs W. pose proof (same_entries_stored l l' Hs) as Hk.
  destruct Hs as (H1 & H2 & H3). destruct W as [A B C D E].
  destruct H3 as (_ & _ & _ & H3).
  split; [by rewrite H1| |by rewrite H2, Hk|lia|lia]. intros i m k Hi. rewrite H1 in Hi. eauto.
Qed.

Lemma same_limits_trans l1 l2 l3 : same_limits l1 l2 → same_limits l2 l3 → same_limits l1 l3.
Proof. intros (?&?&?&?) (?&?&?&?). split_and!; congruence. Qed.

Lemma count_failure_limits l l' t e :
  same_limits l l' → count_failure l' t e = count_failure l t e.
Proof. intros (H1 & H2 & H3 & _). unfold count_failure. by rewrite H1, H2, H3. Qed.

(** What a check answers about a client with an entry, or with none. *)
Definition verdict (o : option invalidAuthAbuseEntry) (now : Z) : Z * bool :=
  match o with
  | Some e =>
      if now <? ab_blockedUntil e then (time_sub (ab_blockedUntil e) now, true) else (0, false)
  | None => (0, false)
  end.

(** The entries after the sweep and the look-up every method starts with. *)
Lemma lookup_spec k t l :
  well l →
  let '(r, l') := (_ ← maybeCleanupAtCapacity t; live_entry k t) l in
  r = unexpired l t (entry_of l k) ∧ same_limits l l' ∧ well l' ∧ al_tracked l' ≤ al_tracked l ∧
  stored_keys l' ⊆ stored_keys l ∧
  (∀ c, unexpired l t (entry_of l' c) = unexpired l t (entry_of l c)) ∧ entry_of l' k = r.
Proof.
  intros W. unfold mbind, St_bind. pose proof (cleanup_spec t l W) as (L1 & W1 & T1 & U1 & S1).
  destruct (maybeCleanupAtCapacity t l) as [[] l1]. cbn [snd] in *.
  pose proof (live_entry_spec k t l1 W1) as H. destruct (live_entry k t l1) as [r l2].
  destruct H as (-> & L2 & W2 & E2 & T2).
  assert (Hr : unexpired l1 t (entry_of l1 k) = unexpired l t (entry_of l k))
    by (by rewrite (unexpired_limits l l1), U1).
  split_and!; [done|exact (same_limits_trans _ _ _ L1 L2)|done|lia| | |].
  - intros c Hc. apply S1. apply elem_of_stored in Hc; [|apply W2]. rewrite E2 in Hc.
    apply elem_of_stored; [apply W1|]. case_decide as E; [|done]. subst c.
    destruct (entry_of l1 k); [done|]. by destruct Hc.
  - intros c. rewrite <- U1, E2. case_decide as E; [|done]. subst c.
    rewrite (unexpired_limits l l1) by done. by rewrite unexpired_later by lia.
  - by rewrite E2, decide_True.
Qed.

(** A client with an entry, or that finds a place free. *)
Definition admitted (k : string) (l : invalidAuthAbuseLimiter) : Prop :=
  k ∈ stored_keys l ∨ al_tracked l < al_capacity l.

Lemma place_free k l l2 :
  well l → well l2 → stored_keys l2 ⊆ stored_keys l → al_tracked l2 ≤ al_tracked l →
  entry_of l2 k = None → admitted k l → al_tracked l2 < al_capacity l.
Proof.
  intros W W2 S T Hn [Hk|Hp]; [|lia].
  assert (Hout : k ∉ stored_keys l2) by (rewrite elem_of_stored by apply W2; rewrite Hn; by intros []).
  assert (stored_keys l2 ⊂ stored_keys l) as Hlt%subset_size by set_solver.
  pose proof (well_bound l W). rewrite (well_tracked l W), (well_tracked l2 W2) in *. lia.
Qed.

Lemma check_spec k t l :
  k ≠ "" → well l →
  let '(r, l') := check k t l in
  same_limits l l' ∧ well l' ∧ stored_keys l' ⊆ stored_keys l ∧
  (∀ c, unexpired l t (entry_of l' c) = unexpired l t (entry_of l c)) ∧
  (admitted k l → r = verdict (unexpired l t (entry_of l k)) t).
Proof.
  intros Hk W. unfold check. apply String.eqb_neq in Hk. rewrite Hk.
  pose proof (lookup_spec k t l W) as H. unfold mbind, St_bind in *.
  destruct (maybeCleanupAtCapacity t l) as [[] l1]. destruct (live_entry k t l1) as [o l2].
  destruct H as (<- & L2 & W2 & T2 & S2 & U2 & E2).
  assert (Hdone : ∀ l3, same_entries l2 l3 →
    same_limits l l3 ∧ well l3 ∧ stored_keys l3 ⊆ stored_keys l ∧
    (∀ c, unexpired l t (entry_of l3 c) = unexpired l t (entry_of l c))).
  { intros l3 E. split_and!; [by eapply same_limits_trans, E|by eapply same_entries_well| |].
    - by rewrite (same_entries_stored l2).
    - intros c. by rewrite (same_entries_of l2). }
  destruct o as [e|]; cbn [verdict].
  - destruct (t <? ab_blockedUntil e).
    + split_and!; try apply Hdone; done.
    + split_and!; try apply (Hdone l2); done.
  - unfold get. destruct (Z.leb_spec (al_capacity l2) (al_tracked l2)) as [Hf|Hf].
    + assert (al_capacity l2 = al_capacity l) by apply L2.
      destruct (checkOverflow t l2) as [retry []].
      * split_and!; try apply Hdone; try done.
        intros Ha. pose proof (place_free k l l2 W W2 S2 T2 E2 Ha). lia.
      * split_and!; try apply (Hdone l2); try done.
    + split_and!; try apply (Hdone l2); done.
Qed.

(** The entry a failure is counted in: the live one, or a new one. *)
Definition counting_entry (o : option invalidAuthAbuseEntry) (now : Z) : invalidAuthAbuseEntry :=
  default (MkEntry 0 now zeroTime) o.

Lemma set_entry_spec k e l :
  well l →
  let l' := set_entry k e l in
  owned l' ∧ stored_keys l' = {[k]} ∪ stored_keys l ∧
  (∀ c, entry_of l' c = if decide (c = k) then Some e else entry_of l c).
Proof.
  intros W l'. assert (Hr : reshards (shard k) (λ m, <[k := e]> m) l l') by done.
  assert (He : ∀ c, entry_of l' c = if decide (c = k) then Some e else entry_of l c).
  { intros c. rewrite (entry_of_reshards _ _ _ _ c Hr). unfold entry_of.
    destruct (decide (shard k = shard c)) as [E|E], (decide (c = k)) as [->|Hne]; try done.
    - destruct (al_shards l !! shard k) as [m|] eqn:Em.
      + change (<[k := e]> m !! k = Some e). by rewrite lookup_insert_eq.
      + apply lookup_ge_None in Em. rewrite (well_shards l W) in Em.
        pose proof (shard_bound k). lia.
    - rewrite E. destruct (al_shards l !! shard c) as [m|]; [|done].
      change (<[k := e]> m !! c = m !! c). by rewrite lookup_insert_ne. }
  assert (Ho : owned l').
  { apply (owned_reshards _ _ _ _ (well_owned l W) Hr). intros m c _ [x Hx].
    apply lookup_insert_Some in Hx as [[-> _]|[_ Hx]]; [by right|left; eauto]. }
  split_and!; [done| |done]. by apply (stored_insert l l' k e (well_owned l W)).
Qed.

(** Storing an entry under a key that is stored already, or that a place was reserved for. *)
Lemma store_spec k e l reserved :
  well l → al_shards reserved = al_shards l → same_limits l reserved →
  al_tracked reserved = Z.of_nat (size ({[k]} ∪ stored_keys l)) →
  al_tracked reserved ≤ al_capacity l →
  let l' := set_entry k e reserved in
  well l' ∧ stored_keys l' = {[k]} ∪ stored_keys l ∧
  (∀ c, entry_of l' c = if decide (c = k) then Some e else entry_of l c).
Proof.
  intros W Hs L Ht Hb l'. destruct (set_entry_spec k e l W) as (Ho & Hk & He).
  assert (Es : al_shards l' = al_shards (set_entry k e l)) by (cbn; by rewrite Hs).
  assert (Hk' : stored_keys l' = {[k]} ∪ stored_keys l)
    by (rewrite <- Hk; unfold stored_keys; by rewrite Es).
  split_and!; [|done|intros c; rewrite <- He; unfold entry_of; by rewrite Es].
  apply (well_reshards (shard k) (λ m, <[k := e]> m) l); try done.
  - intros i m c Hi. rewrite Es in Hi. by apply Ho.
  - apply L.
  - by rewrite Hk'.
Qed.

(** The end of [record], for the entry the failure is counted in. *)
Definition count_in (k : string) (t : Z) (e : invalidAuthAbuseEntry)
    (l : invalidAuthAbuseLimiter) : invalidAuthAbuseLimiter :=
  let '(e, blocked) := count_failure l t e in
  set_entry k e
    (if (blocked : bool) then l{{ al_blocked := uint64_add (al_blocked l) 1 }} else l).

Lemma count_in_spec k t e l reserved :
  well l → al_shards reserved = al_shards l → same_limits l reserved →
  al_tracked reserved = Z.of_nat (size ({[k]} ∪ stored_keys l)) →
  al_tracked reserved ≤ al_capacity l →
  let l' := count_in k t e reserved in
  same_limits l l' ∧ well l' ∧ stored_keys l' = {[k]} ∪ stored_keys l ∧
  (∀ c, entry_of l' c =
    if decide (c = k) then Some (count_failure l t e).1 else entry_of l c).
Proof.
  intros W Hs L Ht Hb l'. unfold l', count_in. rewrite (count_failure_limits l) by done.
  destruct (count_failure l t e) as [e' []]; (split; [by destruct L|]); by apply store_spec.
Qed.

Lemma unexpired_stored k l t e :
  well l → unexpired l t (entry_of l k) = Some e → k ∈ stored_keys l.
Proof.
  intros W H. apply elem_of_stored; [apply W|]. destruct (entry_of l k); [eauto|done].
Qed.

Lemma overflow_same t l : same_entries l (recordOverflow t l).2.
Proof.
  unfold recordOverflow. cbv zeta.
  destruct (t <? _); [done|]. by destruct (al_threshold _ <=? _).
Qed.

Definition recorded_once (l : invalidAuthAbuseLimiter) : invalidAuthAbuseLimiter :=
  l{{ al_recorded := uint64_add (al_recorded l) 1 }}.

Lemma record_run k t l :
  k ≠ "" →
  (record k t l).2 =
    let '(o, l2) := (_ ← maybeCleanupAtCapacity t; live_entry k t) (recorded_once l) in
    match o with
    | Some e => count_in k t e l2
    | None =>
        if al_capacity l2 <=? al_tracked l2 then (recordOverflow t l2).2
        else count_in k t (MkEntry 0 t zeroTime) (l2{{ al_tracked := (al_tracked l2 +! 1)%go }})
    end.
Proof.
  intros Hk. apply String.eqb_neq in Hk. unfold record. rewrite Hk.
  unfold modify, mbind, St_bind, mret, St_ret, get, count_in, reserveEntry.
  destruct (maybeCleanupAtCapacity t _) as [[] l1]. destruct (live_entry k t l1) as [[e|] l2].
  - by destruct (count_failure l2 t e).
  - destruct (al_capacity l2 <=? al_tracked l2); [done|].
    by destruct (count_failure _ t (MkEntry 0 t zeroTime)).
Qed.

(** What [record] leaves, when it counts the failure in an entry. *)
Definition recorded_well (k : string) (t : Z) (l l' : invalidAuthAbuseLimiter) : Prop :=
  same_limits l l' ∧ well l' ∧ stored_keys l' ⊆ {[k]} ∪ stored_keys l ∧
  (∀ c, c ≠ k → unexpired l t (entry_of l' c) = unexpired l t (entry_of l c)) ∧
  (admitted k l →
   entry_of l' k =
     Some (count_failure l t (counting_entry (unexpired l t (entry_of l k)) t)).1).

Lemma recorded_finish k t l l2 o e reserved :
  well l2 → same_limits l l2 →
  (∀ c, unexpired l t (entry_of l2 c) = unexpired l t (entry_of l c)) →
  stored_keys l2 ⊆ stored_keys l → o = unexpired l t (entry_of l k) →
  al_shards reserved = al_shards l2 → same_limits l2 reserved →
  al_tracked reserved = Z.of_nat (size ({[k]} ∪ stored_keys l2)) →
  al_tracked reserved ≤ al_capacity l2 → counting_entry o t = e →
  recorded_well k t l (count_in k t e reserved).
Proof.
  intros W2 L U S2 Hr Hs Hl Ht Hb He.
  destruct (count_in_spec k t e l2 reserved W2 Hs Hl Ht Hb) as (L3 & W3 & S3 & E3).
  unfold recorded_well.
  split_and!; [exact (same_limits_trans _ _ _ L L3)|done|set_solver| |].
  - intros c Hc. rewrite E3, decide_False by done. apply U.
  - intros _. by rewrite E3, decide_True, <- Hr, He, (count_failure_limits l l2) by done.
Qed.

Lemma record_spec k t l :
  k ≠ "" → well l → recorded_well k t l (record k t l).2.
Proof.
  intros Hk W. rewrite record_run by done.
  assert (E0 : same_entries l (recorded_once l)) by done.
  pose proof (same_entries_well _ _ E0 W) as W0.
  pose proof (lookup_spec k t _ W0) as H.
  destruct ((_ ← maybeCleanupAtCapacity t; live_entry k t) (recorded_once l)) as [o l2].
  destruct H as (Hr & L2 & W2 & T2 & S2 & U2 & Ek).
  rewrite (same_entries_of _ _ _ E0), (unexpired_limits _ _ _ _ (proj2 (proj2 E0))) in Hr.
  rewrite (same_entries_stored _ _ E0) in S2. destruct E0 as (_ & Et & L0). rewrite Et in T2.
  pose proof (same_limits_trans _ _ _ L0 L2) as L.
  assert (U : ∀ c, unexpired l t (entry_of l2 c) = unexpired l t (entry_of l c)).
  { intros c. specialize (U2 c). by rewrite !(unexpired_limits _ _ _ _ L0) in U2. }
  pose proof (well_tracked l2 W2) as Tk.
  pose proof (λ e reserved, recorded_finish k t l l2 o e reserved W2 L U S2 Hr) as Hfinish.
  destruct o as [e|].
  - assert (Hin : k ∈ stored_keys l2)
      by (apply elem_of_stored; [apply W2|rewrite Ek; eauto]).
    apply Hfinish; try done; [|apply W2].
    rewrite Tk. do 2 f_equal. set_solver.
  - assert (Hout : k ∉ stored_keys l2).
    { rewrite elem_of_stored by apply W2. rewrite Ek. by intros []. }
    assert (Hc : al_capacity l2 = al_capacity l) by apply L.
    destruct (Z.leb_spec (al_capacity l2) (al_tracked l2)) as [Hf|Hf].
    + pose proof (overflow_same t l2) as E. split_and!.
      * exact (same_limits_trans _ _ _ L (proj2 (proj2 E))).
      * by apply (same_entries_well l2).
      * rewrite (same_entries_stored l2) by done. set_solver.
      * intros c _. by rewrite (same_entries_of l2).
      * intros Ha. pose proof (place_free k l l2 W W2 S2 ltac:(lia) Ek Ha). lia.
    + pose proof (nonneg_tracked l2 W2). pose proof (well_capacity l2 W2).
      assert (Ht : (al_tracked l2 +! 1)%go = al_tracked l2 + 1)
        by (unfold int64_add; apply int64_wrap_id; unfold int64_range; lia).
      apply Hfinish; try done; change (al_tracked (_{{al_tracked := ?x}})) with x; rewrite Ht;
        [|lia].
      rewrite size_union, size_singleton by set_solver. lia.
Qed.

(** ** Histories *)

Inductive abuse_event : Type :=
| AbCheck (clientKey : string) (now : Z)
| AbRecord (clientKey : string) (now : Z).

Definition ev_client (e : abuse_event) : string :=
  match e with AbCheck k _ | AbRecord k _ => k end.
Definition ev_time (e : abuse_event) : Z := match e with AbCheck _ t | AbRecord _ t => t end.

(** The answers to the checks of a client. *)
Definition abuse_do (c : string) (e : abuse_event)
    : St invalidAuthAbuseLimiter (list (Z * bool)) :=
  match e with
  | AbCheck k t => r ← check k t; mret (if decide (k = c) then [r] else [])
  | AbRecord k t => _ ← record k t; mret []
  end.

(** The private automaton of a client: it sees its own history only, and has no capacity. *)
Definition client_do (l : invalidAuthAbuseLimiter) (e : abuse_event)
    : St (option invalidAuthAbuseEntry) (list (Z * bool)) := λ o,
  match e with
  | AbCheck _ t => ([verdict (unexpired l t o) t], o)
  | AbRecord _ t => ([], Some (count_failure l t (counting_entry (unexpired l t o) t)).1)
  end.

Definition of_client (c : string) (l : list abuse_event) : list abuse_event :=
  filter (λ e, ev_client e = c) l.

Definition clients (l : list abuse_event) : gset string := list_to_set (ev_client <$> l).

(** Times do not run backwards. *)
Fixpoint in_order (from : Z) (l : list abuse_event) : Prop :=
  match l with
  | [] => True
  | e :: l' => from ≤ ev_time e ∧ in_order (ev_time e) l'
  end.

Lemma empty_key_silent c e l :
  ev_client e = "" → c ≠ "" → abuse_do c e l = ([], l).
Proof.
  intros He Hc. destruct e as [k t|k t]; cbn in He; subst k; [|done].
  unfold abuse_do, mbind, St_bind, mret, St_ret. change (check "" t l) with ((0, false), l).
  cbv beta iota. by rewrite decide_False by congruence.
Qed.

Lemma abuse_do_well c e l :
  well l →
  well (abuse_do c e l).2 ∧ same_limits l (abuse_do c e l).2 ∧
  stored_keys (abuse_do c e l).2 ⊆ {[ev_client e]} ∪ stored_keys l.
Proof.
  intros W. destruct (decide (ev_client e = "")) as [He|He].
  - destruct e as [k t|k t]; cbn in He; subst k; cbn; (split_and!; [done|done|set_solver]).
  - destruct e as [k t|k t]; cbn in He; unfold abuse_do, mbind, St_bind.
    + pose proof (check_spec k t l He W) as H. destruct (check k t l) as [r l'].
      destruct H as (L & W' & S & _). cbn. split_and!; [done|done|set_solver].
    + pose proof (record_spec k t l He W) as (L & W' & S & _).
      by destruct (record k t l) as [r l'].
Qed.

(** One event of the limiter, seen by the automaton of a client. *)
Lemma abuse_do_client c e l o from :
  c ≠ "" → well l → from ≤ ev_time e →
  unexpired l from (entry_of l c) = unexpired l from o →
  (ev_client e = c → admitted c l) →
  let '(r, l') := abuse_do c e l in
  let '(r', o') := if decide (ev_client e = c) then client_do l e o else ([], o) in
  r = r' ∧ unexpired l' (ev_time e) (entry_of l' c) = unexpired l' (ev_time e) o'.
Proof.
  intros Hc W Ht Hs Hp.
  assert (Hs' : unexpired l (ev_time e) (entry_of l c) = unexpired l (ev_time e) o)
    by (rewrite <- (unexpired_later l from), Hs by done; by apply unexpired_later).
  destruct (decide (ev_client e = "")) as [He|He].
  { rewrite (empty_key_silent c e l He Hc). rewrite decide_False by congruence. done. }
  destruct e as [k t|k t]; cbn [ev_client ev_time] in *; unfold abuse_do, mbind, St_bind.
  - pose proof (check_spec k t l He W) as H. destruct (check k t l) as [r l'].
    destruct H as (L & W' & _ & U & Hr). unfold mret, St_ret.
    destruct (decide (k = c)) as [->|Hne]; cbn [client_do];
      (split; [|by rewrite !(unexpired_limits l l' _ _ L), U]); [|done].
    by rewrite (Hr (Hp eq_refl)), Hs'.
  - pose proof (record_spec k t l He W) as (L & W' & _ & U & Hr).
    destruct (record k t l) as [r l']. cbn [snd] in *. unfold mret, St_ret. cbn [client_do].
    destruct (decide (k = c)) as [->|Hne]; cbn [client_do].
    + split; [done|]. by rewrite !(unexpired_limits l l' _ _ L), (Hr (Hp eq_refl)), Hs'.
    + split; [done|]. by rewrite !(unexpired_limits l l' _ _ L), U.
Qed.

Lemma clients_cons e evs : clients (e :: evs) = {[ev_client e]} ∪ clients evs.
Proof. done. Qed.

Lemma client_do_limits l l' e o : same_limits l l' → client_do l' e o = client_do l e o.
Proof.
  intros L. destruct e; cbn; rewrite (unexpired_limits l l') by done; [done|].
  by rewrite (count_failure_limits l l').
Qed.

Lemma client_run_limits l l' evs o :
  same_limits l l' → run_machine (client_do l') evs o = run_machine (client_do l) evs o.
Proof.
  intros L. revert o. induction evs as [|e evs IH]; intros o; [done|]. cbn.
  unfold mbind, St_bind. rewrite (client_do_limits l l') by done.
  destruct (client_do l e o) as [r o1]. by rewrite IH.
Qed.

Lemma limiter_refines_clients c evs l o from :
  c ≠ "" → well l → in_order from evs →
  unexpired l from (entry_of l c) = unexpired l from o →
  Z.of_nat (size (stored_keys l ∪ clients evs)) ≤ al_capacity l →
  (run_machine (abuse_do c) evs l).1 = (run_machine (client_do l) (of_client c evs) o).1.
Proof.
  intros Hc. revert l o from. induction evs as [|e evs IH]; intros l o from W Ht Hs Hp; [done|].
  destruct Ht as [Ht Hts]. rewrite clients_cons in Hp.
  assert (Ha : ev_client e = c → admitted c l).
  { intros <-. destruct (decide (ev_client e ∈ stored_keys l)) as [Hin|Hin]; [by left|right].
    rewrite (well_tracked l W).
    assert (stored_keys l ⊂ stored_keys l ∪ ({[ev_client e]} ∪ clients evs)) as Hlt%subset_size
      by set_solver. lia. }
  pose proof (abuse_do_client c e l o from Hc W Ht Hs Ha) as Hstep.
  pose proof (abuse_do_well c e l W) as (W' & L & S).
  rewrite run_machine_cons. destruct (abuse_do c e l) as [r l']. cbn [snd] in *.
  assert (Hp' : Z.of_nat (size (stored_keys l' ∪ clients evs)) ≤ al_capacity l').
  { assert (al_capacity l' = al_capacity l) as -> by apply L.
    assert (stored_keys l' ∪ clients evs ⊆ stored_keys l ∪ ({[ev_client e]} ∪ clients evs))
      as Hle%subseteq_size by set_solver. lia. }
  unfold of_client. rewrite filter_cons. fold (of_client c evs).
  destruct (decide (ev_client e = c)) as [Ec|Ec].
  - rewrite run_machine_cons. destruct (client_do l e o) as [r' o']. destruct Hstep as [-> Hs'].
    specialize (IH l' o' (ev_time e) W' Hts Hs' Hp').
    rewrite (client_run_limits l l') in IH by done.
    destruct (run_machine (abuse_do c) evs l') as [rs lf].
    destruct (run_machine (client_do l) (of_client c evs) o'). cbn in *. by rewrite IH.
  - destruct Hstep as [-> Hs']. specialize (IH l' o (ev_time e) W' Hts Hs' Hp').
    rewrite (client_run_limits l l') in IH by done.
    destruct (run_machine (abuse_do c) evs l') as [rs lf]. done.
Qed.

Lemma well_new cfg l :
  newInvalidAuthAbuseLimiter (Some cfg) = Some l → int64_range (cf_Capacity cfg) →
  well l ∧ stored_keys l = ∅ ∧ (∀ c, entry_of l c = None).
Proof.
  unfold newInvalidAuthAbuseLimiter. destruct (cf_Enabled cfg); cbn [negb]; [|done].
  case_match eqn:Hc; [done|]. intros [= <-] Hr. bool_props.
  match goal with |- well ?l0 ∧ _ => assert (Hk : stored_keys l0 = ∅) end.
  { apply set_eq. intros k. split; [|set_solver]. unfold stored_keys. cbn. set_solver. }
  split_and!; [|done|].
  - split; cbn -[stored_keys]; rewrite ?Hk; try done; try lia.
    + intros i m k Hi [x Hx]. change (replicate 16 (∅ : invalidAuthAbuseShard) !! i = Some m) in Hi.
      by apply lookup_replicate in Hi as [-> _].
    + unfold int64_range in Hr. lia.
  - intros c. change (replicate 16 (∅ : invalidAuthAbuseShard) !! shard c ≫= (λ m, m !! c) = None).
    destruct (replicate _ _ !! shard c) as [m|] eqn:E; [|done].
    by apply lookup_replicate in E as [-> _].
Qed.

Lemma abuse_run_well c evs l :
  well l →
  well (run_machine (abuse_do c) evs l).2 ∧ same_limits l (run_machine (abuse_do c) evs l).2.
Proof.
  revert l. induction evs as [|e evs IH]; intros l W; [by split|]. rewrite run_machine_cons.
  pose proof (abuse_do_well c e l W) as (W' & L & _).
  destruct (abuse_do c e l) as [r l']. specialize (IH l' W') as [W2 L2].
  destruct (run_machine (abuse_do c) evs l') as [rs lf]. cbn in *.
  split; [done|]. by apply (same_limits_trans _ l').
Qed.

(** ** The automaton of one client *)

(** A failure within the window of an entry that does not block. *)
Lemma count_within l t k t0 :
  0 ≤ k < 2 ^ 63 - 1 → zeroTime ≤ t0 → t0 ≤ t < t0 + al_window l →
  count_failure l t (MkEntry k t0 zeroTime) =
    if al_threshold l <=? k + 1 then (MkEntry 0 (t + al_block l) (t + al_block l), true)
    else (MkEntry (k + 1) t0 zeroTime, false).
Proof.
  intros Hk Hz Ht. unfold count_failure. cbn [ab_blockedUntil ab_windowStart].
  destruct (Z.ltb_spec t zeroTime); [lia|]. destruct (Z.ltb_spec t t0); [lia|].
  destruct (Z.ltb_spec t (t0 + al_window l)); [|lia]. cbn [orb negb].
  cbv zeta. change ((MkEntry k t0 zeroTime){{ab_failures := ?x}}) with (MkEntry x t0 zeroTime).
  cbn [ab_failures]. assert (int64_add k 1 = k + 1) as ->; [|done].
  unfold int64_add. apply int64_wrap_id. unfold int64_range. lia.
Qed.

Lemma counting_some e now : counting_entry (Some e) now = e.
Proof. done. Qed.

Lemma unexpired_within l t k t0 :
  t0 ≤ t < t0 + al_window l →
  unexpired l t (Some (MkEntry k t0 zeroTime)) = Some (MkEntry k t0 zeroTime).
Proof.
  intros Ht. unfold unexpired, entryExpired. cbn [mbind option_bind ab_windowStart].
  rewrite (proj2 (Z.ltb_lt t (t0 + al_window l))) by lia. by rewrite andb_false_r.
Qed.

(** Failures short of the threshold, all within the window of the first. *)
Lemma client_counts c l t0 k ts o :
  al_threshold l < 2 ^ 63 → zeroTime ≤ t0 → 0 ≤ k →
  Forall (λ t, t0 ≤ t < t0 + al_window l) ts → k + Z.of_nat (length ts) < al_threshold l →
  o = Some (MkEntry k t0 zeroTime) →
  run_machine (client_do l) (AbRecord c <$> ts) o =
    ([], Some (MkEntry (k + Z.of_nat (length ts)) t0 zeroTime)).
Proof.
  intros Hth Hz Hk Hts. revert k o Hk.
  induction Hts as [|t ts Ht Hts IH]; intros k o Hk Hlen ->.
  { cbn. by rewrite Z.add_0_r. }
  cbn [length] in Hlen.
  change (AbRecord c <$> t :: ts) with (AbRecord c t :: (AbRecord c <$> ts)).
  rewrite run_machine_cons. unfold client_do at 1. rewrite unexpired_within by done.
  rewrite counting_some, count_within by (done || lia).
  destruct (Z.leb_spec (al_threshold l) (k + 1)); [lia|]. cbn [fst].
  rewrite (IH (k + 1)) by (done || lia). cbn [length]. do 3 f_equal. lia.
Qed.

(** The failures of a client up to the threshold, and a check. *)
Lemma client_blocked c l ts tn :
  0 < al_threshold l < 2 ^ 63 → 0 < al_window l →
  let t0 := default tn (head ts) in
  zeroTime ≤ t0 → Forall (λ x, t0 ≤ x < t0 + al_window l) (ts ++ [tn]) →
  Z.of_nat (length ts) < al_threshold l →
  (run_machine (client_do l) (AbRecord c <$> (ts ++ [tn])) None).2 =
    Some (if Z.of_nat (length ts) + 1 =? al_threshold l
          then MkEntry 0 (tn + al_block l) (tn + al_block l)
          else MkEntry (Z.of_nat (length ts) + 1) t0 zeroTime).
Proof.
  intros Hth Hw t0 Hz Hts Hn. apply Forall_app in Hts as [Hts Htn]. inversion_clear Htn as [|?? Ht _].
  assert (Hfirst : ∀ x, x = t0 → count_failure l x (MkEntry 0 x zeroTime) =
    if al_threshold l <=? 1 then (MkEntry 0 (x + al_block l) (x + al_block l), true)
    else (MkEntry 1 t0 zeroTime, false)).
  { intros x ->. rewrite count_within by lia. done. }
  destruct ts as [|t1 ts].
  - assert (run_machine (client_do l) (AbRecord c <$> [] ++ [tn]) None =
      ([], Some (count_failure l tn (MkEntry 0 tn zeroTime)).1)) as -> by done.
    rewrite Hfirst by done. cbn [length snd]. change (Z.of_nat 0 + 1) with 1.
    destruct (Z.leb_spec (al_threshold l) 1), (Z.eqb_spec 1 (al_threshold l)); try lia; done.
  - rewrite fmap_app, run_machine_app. cbn [length] in *.
    change (AbRecord c <$> t1 :: ts) with (AbRecord c t1 :: (AbRecord c <$> ts)).
    rewrite run_machine_cons. unfold client_do at 1.
    change (counting_entry (unexpired l t1 None) t1) with (MkEntry 0 t1 zeroTime).
    rewrite (Hfirst t1) by done.
    destruct (Z.leb_spec (al_threshold l) 1); [lia|]. cbn [fst].
    inversion_clear Hts as [|?? _ Hts'].
    rewrite (client_counts c l t0 1 ts) by (done || lia). unfold mbind, St_bind, mret, St_ret.
    cbn [fmap list_fmap run_machine]. unfold mbind, St_bind. unfold client_do.
    rewrite unexpired_within, counting_some, count_within by (done || lia). cbn.
    destruct (Z.leb_spec (al_threshold l) (1 + Z.of_nat (length ts) + 1)),
      (Z.eqb_spec (Z.of_nat (S (length ts)) + 1) (al_threshold l)); try lia; cbn; [done|].
    do 2 f_equal. lia.
Qed.

Lemma records_silent c l ts o : (run_machine (client_do l) (AbRecord c <$> ts) o).1 = [].
Proof.
  revert o. induction ts as [|t ts IH]; intros o; [done|].
  change (AbRecord c <$> t :: ts) with (AbRecord c t :: (AbRecord c <$> ts)).
  rewrite run_machine_cons. destruct (client_do l (AbRecord c t) o) as [r o1] eqn:E.
  injection E as <- _. specialize (IH o1).
  by destruct (run_machine (client_do l) (AbRecord c <$> ts) o1).
Qed.

(** A check of a client that was just blocked, or just not. *)
Lemma final_verdict l (blocked : bool) until n t0 t :
  zeroTime ≤ t →
  [verdict (unexpired l t (Some (if blocked then MkEntry 0 until until
                                 else MkEntry n t0 zeroTime))) t] =
    [if blocked && (t <? until) then (time_sub until t, true) else (0, false)].
Proof.
  intros Hz. f_equal. unfold unexpired, entryExpired, verdict. cbn [mbind option_bind].
  destruct blocked; cbn [ab_blockedUntil ab_windowStart andb].
  - destruct (t <? until) eqn:E; cbn [negb andb]; [cbn [ab_blockedUntil]; by rewrite E|].
    case_if; [done|]. cbn [ab_blockedUntil]. by rewrite E.
  - case_if; [done|]. cbn [ab_blockedUntil]. by rewrite (proj2 (Z.ltb_ge t zeroTime)) by lia.
Qed.

(** ** The properties *)

Lemma new_limits cfg l :
  newInvalidAuthAbuseLimiter (Some cfg) = Some l →
  al_threshold l = cf_Threshold cfg ∧ al_block l = int64_mul (cf_BlockSeconds cfg) Second ∧
  al_window l = int64_mul (cf_WindowSeconds cfg) Second ∧ al_capacity l = cf_Capacity cfg ∧
  0 < cf_Threshold cfg.
Proof.
  unfold newInvalidAuthAbuseLimiter. destruct (cf_Enabled cfg); cbn [negb]; [|done].
  case_match eqn:Hc; [done|]. intros [= <-]. by bool_props.
Qed.

(** C33: the memory of the limiter is bounded: whatever clients fail or ask, and whatever the
    clock reads, the entries it keeps are exactly those it counts, and no more than its
    capacity. *)
Theorem abuse_memory_bounded cfg l0 c evs :
  newInvalidAuthAbuseLimiter (Some cfg) = Some l0 → int64_range (cf_Capacity cfg) →
  let l := (run_machine (abuse_do c) evs l0).2 in
  al_tracked l = Z.of_nat (size (stored_keys l)) ∧ 0 ≤ al_tracked l ≤ cf_Capacity cfg.
Proof.
  intros Hn Hr. destruct (well_new cfg l0 Hn Hr) as (W & _).
  destruct (abuse_run_well c evs l0 W) as [W' L]. destruct (new_limits cfg l0 Hn) as (_&_&_&Hc&_).
  pose proof (well_bound _ W') as Hb. destruct L as (_ & _ & _ & L). rewrite L, Hc in Hb.
  split; [apply W'|]. split; [by apply nonneg_tracked|done].
Qed.

(** C32: the limiter keeps clients apart: as long as no more clients turn up than its capacity,
    each is answered by a private automaton of its own failures and checks, whatever the others
    do, and sweeps of expired entries go unnoticed. *)
Theorem limiter_keeps_clients_apart cfg l0 c evs from :
  newInvalidAuthAbuseLimiter (Some cfg) = Some l0 → int64_range (cf_Capacity cfg) →
  c ≠ "" → in_order from evs → Z.of_nat (size (clients evs)) ≤ cf_Capacity cfg →
  (run_machine (abuse_do c) evs l0).1 = (run_machine (client_do l0) (of_client c evs) None).1.
Proof.
  intros Hn Hr Hc Ho Hs. destruct (well_new cfg l0 Hn Hr) as (W & Hk & He).
  apply (limiter_refines_clients c evs l0 None from Hc W Ho); [by rewrite He|].
  destruct (new_limits cfg l0 Hn) as (_&_&_&Hcap&_). rewrite Hk, Hcap.
  by replace (∅ ∪ clients evs) with (clients evs) by set_solver.
Qed.

(** C34: a client is blocked by its threshold-th failure within a window, for exactly the
    configured time, and by no fewer: whatever other clients do meanwhile. *)
Theorem client_blocked_for_block cfg l0 c evs from ts tn t :
  newInvalidAuthAbuseLimiter (Some cfg) = Some l0 →
  int64_range (cf_Capacity cfg) → cf_Threshold cfg < 2 ^ 63 → 0 < al_window l0 →
  c ≠ "" → in_order from evs → Z.of_nat (size (clients evs)) ≤ cf_Capacity cfg →
  of_client c evs = (AbRecord c <$> ts ++ [tn]) ++ [AbCheck c t] →
  let t0 := default tn (head ts) in
  zeroTime ≤ t0 → zeroTime ≤ t → Forall (λ x, t0 ≤ x < t0 + al_window l0) (ts ++ [tn]) →
  Z.of_nat (length ts) < cf_Threshold cfg →
  (run_machine (abuse_do c) evs l0).1 =
    [if (Z.of_nat (length ts) + 1 =? cf_Threshold cfg) && (t <? tn + al_block l0)
     then (time_sub (tn + al_block l0) t, true) else (0, false)].
Proof.
  intros Hn Hr Hth Hw Hc Ho Hs He t0 Hz Hzt Hts Hlen.
  destruct (well_new cfg l0 Hn Hr) as (W & Hk & Hnone).
  destruct (new_limits cfg l0 Hn) as (E1&_&_&Hcap&Hpos). rewrite <- E1 in *.
  rewrite (limiter_refines_clients c evs l0 None from Hc W Ho).
  2: by rewrite Hnone.
  2: { rewrite Hk, Hcap. by replace (∅ ∪ clients evs) with (clients evs) by set_solver. }
  pose proof (client_blocked c l0 ts tn ltac:(lia) Hw Hz Hts Hlen) as Hb.
  pose proof (records_silent c l0 (ts ++ [tn]) None) as Hq.
  rewrite He, run_machine_app.
  destruct (run_machine (client_do l0) (AbRecord c <$> ts ++ [tn]) None) as [rs o].
  cbn [fst snd] in Hb, Hq. subst rs o. cbn [run_machine]. unfold mbind, St_bind. cbn [client_do].
  cbn. by apply final_verdict.
Qed.

(** ** Samples *)

Definition sample_config : InvalidAbuseConfig := MkInvalidAbuseConfig true 2 60 300 8.

Definition sample_limiter : invalidAuthAbuseLimiter :=
  default (MkLimiter 0 0 0 0 [] (MkOverflow 0 0 0) 0 0 0 0 0 0 0 0 0)
    (newInvalidAuthAbuseLimiter (Some sample_config)).

Definition sample_history : list abuse_event :=
  [AbRecord "10.0.0.1" (1 * Second); AbRecord "10.0.0.2" (2 * Second);
   AbCheck "10.0.0.2" (3 * Second); AbRecord "10.0.0.1" (4 * Second);
   AbCheck "10.0.0.1" (10 * Second)].

Lemma abuse_memory_bounded_witness :
  let l := (run_machine (abuse_do "10.0.0.1") sample_history sample_limiter).2 in
  al_tracked l = Z.of_nat (size (stored_keys l)) ∧ 0 ≤ al_tracked l ≤ cf_Capacity sample_config.
Proof.
  apply (abuse_memory_bounded sample_config sample_limiter "10.0.0.1" sample_history).
  - reflexivity.
  - vm_compute. split; [discriminate|reflexivity].
Defined.

Lemma limiter_keeps_clients_apart_witness :
  (run_machine (abuse_do "10.0.0.1") sample_history sample_limiter).1 =
    (run_machine (client_do sample_limiter) (of_client "10.0.0.1" sample_history) None).1.
Proof.
  apply (limiter_keeps_clients_apart sample_config sample_limiter "10.0.0.1" sample_history 0).
  - reflexivity.
  - vm_compute. split; [discriminate|reflexivity].
  - discriminate.
  - vm_compute. repeat split; discriminate.
  - vm_compute. discriminate.
Defined.

Lemma client_blocked_for_block_witness :
  (run_machine (abuse_do "10.0.0.1") sample_history sample_limiter).1 =
    [if (Z.of_nat (length [1 * Second]) + 1 =? cf_Threshold sample_config) &&
        (10 * Second <? 4 * Second + al_block sample_limiter)
     then (time_sub (4 * Second + al_block sample_limiter) (10 * Second), true)
     else (0, false)].
Proof.
  apply (client_blocked_for_block sample_config sample_limiter "10.0.0.1" sample_history 0
    [1 * Second] (4 * Second) (10 * Second)).
  - reflexivity.
  - vm_compute. split; [discriminate|reflexivity].
  - vm_compute. reflexivity.
  - vm_compute. reflexivity.
  - discriminate.
  - vm_compute. repeat split; discriminate.
  - vm_compute. discriminate.
  - vm_compute. reflexivity.
  - vm_compute. discriminate.
  - vm_compute. discriminate.
  - repeat constructor; vm_compute; (discriminate || reflexivity).
  - vm_compute. reflexivity.
Defined.
