(* ===== verification/AppErrors.v ===== *)
(** * AppErrors: application errors

    Models [backend/internal/pkg/errors] ([errors.go], [types.go], [http.go]).  A method on a
    nil [*ApplicationError] has no counterpart: the constructors never return nil. *)

From stdpp Require Import base tactics numbers list strings gmap.
From Stdlib Require Import ZArith Lia.
From S2P Require Import Prelude.

Local Open Scope go_scope.
Local Open Scope Z_scope.

Definition UnknownCode : Z := 500.
Definition UnknownReason : string := "".
Definition UnknownMessage : string := "internal error".

Record Status : Type := MkStatus {
  st_Code : Z;
  st_Reason : string;
  st_Message : string;
  st_Metadata : option (gmap string string)
}.

(** A Go [error]: an [ApplicationError] with its cause, an error that wraps another
    ([fmt.Errorf] with [%w]), or one that wraps nothing. *)
Inductive error : Type :=
| EApp (status : Status) (cause : option error)
| EWrapped (text : string) (cause : error)
| EPlain (text : string).

(** The [ApplicationError]s of the program. *)
Record ApplicationError : Type := MkApplicationError {
  ae_Status : Status;
  ae_cause : option error
}.

Definition as_error (e : ApplicationError) : error := EApp (ae_Status e) (ae_cause e).

(** Go's pair of a value and an error, of which one counts. *)
Notation result A := (sum A error).

(** [if err != nil { return ..., err }] after a call over a state. *)
Definition try_bind {S A B : Type} (m : St S (result A)) (f : A → St S (result B))
    : St S (result B) := λ s,
  match m s with
  | (inl a, s') => f a s'
  | (inr err, s') => (inr err, s')
  end.

Notation "x ⇐ m ; k" := (try_bind m (λ x, k))
  (at level 20, m at level 100, k at level 200, right associativity) : go_scope.

Definition int32_wrap (z : Z) : Z := (z + 2 ^ 31) `mod` 2 ^ 32 - 2 ^ 31.

Definition New (code : Z) (reason message : string) : ApplicationError :=
  MkApplicationError (MkStatus (int32_wrap code) reason message None) None.

Definition BadRequest : string → string → ApplicationError := New 400.
Definition TooManyRequests : string → string → ApplicationError := New 429.
Definition Unauthorized : string → string → ApplicationError := New 401.
Definition Forbidden : string → string → ApplicationError := New 403.
Definition NotFound : string → string → ApplicationError := New 404.
Definition Conflict : string → string → ApplicationError := New 409.
Definition InternalServer : string → string → ApplicationError := New 500.
Definition ServiceUnavailable : string → string → ApplicationError := New 503.
Definition GatewayTimeout : string → string → ApplicationError := New 504.
Definition ClientClosed : string → string → ApplicationError := New 499.

(** [Clone] copies the metadata: values have no identity here. *)
Definition Clone (e : ApplicationError) : ApplicationError := e.

Definition WithCause (e : ApplicationError) (cause : error) : ApplicationError :=
  MkApplicationError (ae_Status (Clone e)) (Some cause).

Definition WithMetadata (e : ApplicationError) (md : option (gmap string string))
    : ApplicationError :=
  let s := ae_Status (Clone e) in
  MkApplicationError (MkStatus (st_Code s) (st_Reason s) (st_Message s) md) (ae_cause e).

(** [errors.As(err, &se)] with an [*ApplicationError] target: the first of the chain. *)
Fixpoint As (e : error) : option ApplicationError :=
  match e with
  | EApp s c => Some (MkApplicationError s c)
  | EWrapped _ c => As c
  | EPlain _ => None
  end.

Definition FromError (e : error) : ApplicationError :=
  match As e with
  | Some se => se
  | None => WithCause (New UnknownCode UnknownReason UnknownMessage) e
  end.

(** [e.Is(err)] *)
Definition Is (e : ApplicationError) (err : error) : bool :=
  match As err with
  | Some se =>
      (st_Code (ae_Status se) =? st_Code (ae_Status e)) &&
      (st_Reason (ae_Status se) ≟ st_Reason (ae_Status e))
  | None => false
  end.

(** Go's [errors.Is(err, target)]: some error of the chain is the target or says it is.  Errors
    made by [errors.New] are told apart by their texts, which are distinct. *)
Fixpoint errors_Is (err target : error) : bool :=
  match err with
  | EApp s c =>
      Is (MkApplicationError s c) target ||
      match c with Some c => errors_Is c target | None => false end
  | EWrapped _ c => errors_Is c target
  | EPlain t => match target with EPlain t' => t ≟ t' | _ => false end
  end.

Definition Code (err : option error) : Z :=
  match err with None => 200 | Some e => st_Code (ae_Status (FromError e)) end.

Definition Reason (err : option error) : string :=
  match err with None => UnknownReason | Some e => st_Reason (ae_Status (FromError e)) end.

Definition Message (err : option error) : string :=
  match err with None => "" | Some e => st_Message (ae_Status (FromError e)) end.

Definition IsBadRequest (err : option error) : bool := Code err =? 400.
Definition IsTooManyRequests (err : option error) : bool := Code err =? 429.
Definition IsUnauthorized (err : option error) : bool := Code err =? 401.
Definition IsForbidden (err : option error) : bool := Code err =? 403.
Definition IsNotFound (err : option error) : bool := Code err =? 404.
Definition IsConflict (err : option error) : bool := Code err =? 409.
Definition IsInternalServer (err : option error) : bool := Code err =? 500.
Definition IsServiceUnavailable (err : option error) : bool := Code err =? 503.
Definition IsGatewayTimeout (err : option error) : bool := Code err =? 504.
Definition IsClientClosed (err : option error) : bool := Code err =? 499.

Definition ToHTTP (err : option error) : Z * Status :=
  match err with
  | None => (200, MkStatus 200 "" "" None)
  | Some e =>
      let s := ae_Status (FromError e) in
      (st_Code s, MkStatus (st_Code s) (st_Reason s) (st_Message s) (st_Metadata s))
  end.

(** Attaching a cause or metadata, or wrapping, changes neither code nor reason. *)
Lemma Code_WithCause e c : Code (Some (as_error (WithCause e c))) = Code (Some (as_error e)).
Proof. done. Qed.

Lemma Code_WithMetadata e md :
  Code (Some (as_error (WithMetadata e md))) = Code (Some (as_error e)).
Proof. done. Qed.
