(* ===== verification/LogRedact.v ===== *)
(** * LogRedact: redaction of sensitive values

    Models [RedactJSON], [RedactText] and the functions they use of
    [backend/internal/util/logredact/redact.go], without extra keys, as every modelled caller
    uses them.  [encoding/json] and [regexp] work on reflected Go values and compiled patterns:
    they are the parameters of the class [GoValues], and [strings.ToLower]'s Unicode tables are
    one of its fields. *)

From stdpp Require Import base tactics numbers list strings gmap.
From Stdlib Require Import ZArith Lia.
From S2P Require Import Prelude GoLib GoJson AppErrors.

Local Open Scope go_scope.
Local Open Scope Z_scope.

(** What [json.Unmarshal] puts into an [any]; an object's members have distinct names. *)
Inductive json (N : Type) : Type :=
| JNull
| JBool (b : bool)
| JNumber (n : N)
| JString (s : string)
| JArray (l : list (json N))
| JObject (m : list (string * json N)).

#[global] Arguments JNull {N}.
#[global] Arguments JBool {N} _.
#[global] Arguments JNumber {N} _.
#[global] Arguments JString {N} _.
#[global] Arguments JArray {N} _.
#[global] Arguments JObject {N} _.

(** Go values of type [any] and the standard library's conversions of them. *)
Class GoValues (V N : Type) : Type := {
  Marshal : V → string + error;
  of_json : json N → V;
  Unmarshal : string → json N + error;
  ToLower : string → string;
  ToUpper : string → string;
  sha256_hex : string → string;
  redact_patterns : string → string
}.

(** The documented behaviour the theorems rely on: what [Marshal] writes is valid JSON, which
    [TrimSpace] leaves alone, and a decoded value is written so that it decodes to itself. *)
Class GoValuesLaws (V N : Type) `{GoValues V N} : Prop := {
  marshal_valid v s : Marshal v = inl s → Valid s = true ∧ TrimSpace s = s ∧ s ≠ "";
  marshal_decodes j s : Marshal (of_json j) = inl s → Unmarshal s = inl j;
  decoded_marshals s j : Unmarshal s = inl j → ∃ s', Marshal (of_json j) = inl s'
}.

Section Redact.
Context {V N : Type} `{GoValues V N}.

Definition maxRedactDepth : Z := 32.

Definition defaultSensitiveKeyList : list string :=
  ["authorization_code"; "code"; "code_verifier"; "access_token"; "refresh_token"; "id_token";
   "client_secret"; "password"].

Definition normalizeKey (key : string) : string := ToLower (TrimSpace key).

Definition isSensitiveKey (key : string) : bool :=
  existsb (String.eqb (normalizeKey key)) defaultSensitiveKeyList.

Fixpoint redactValueWithDepth (value : json N) (depth : Z) : json N :=
  if maxRedactDepth <? depth then JString "<depth limit exceeded>" else
  match value with
  | JObject m =>
      JObject (map (λ p, (p.1, if isSensitiveKey p.1 then JString "***"
                               else redactValueWithDepth p.2 (depth + 1))) m)
  | JArray l => JArray (map (λ item, redactValueWithDepth item (depth + 1)) l)
  | _ => value
  end.

Definition RedactJSON (raw : string) : string :=
  if raw ≟ "" then "" else
  match Unmarshal raw with
  | inr _ => "<non-json payload redacted>"
  | inl value =>
      match Marshal (of_json (redactValueWithDepth value 0)) with
      | inl encoded => encoded
      | inr _ => "<redacted>"
      end
  end.

Definition RedactText (input : string) : string :=
  let input := TrimSpace input in
  if input ≟ "" then "" else
  if Valid input then RedactJSON input else redact_patterns input.

(** A value with no sensitive member and no deeper than the limit. *)
Fixpoint innocuous (fuel : nat) (value : json N) : bool :=
  match fuel with
  | O => false
  | S fuel =>
      match value with
      | JObject m => forallb (λ p, negb (isSensitiveKey p.1) && innocuous fuel p.2) m
      | JArray l => forallb (innocuous fuel) l
      | _ => true
      end
  end.

Lemma redact_innocuous_at fuel value depth :
  depth + Z.of_nat fuel <= maxRedactDepth + 1 → innocuous fuel value = true →
  redactValueWithDepth value depth = value.
Proof.
  revert value depth. induction fuel as [|fuel IH]; intros value depth Hd Hv; [done|].
  assert (E : (maxRedactDepth <? depth) = false) by (apply Z.ltb_ge; lia).
  destruct value as [| | | |l|m]; cbn -[isSensitiveKey] in *; rewrite E; try done; f_equal.
  - rewrite forallb_forall in Hv. rewrite <- (map_id l) at 2. apply map_ext_in.
    intros x Hx. apply IH; [lia|auto].
  - rewrite forallb_forall in Hv. rewrite <- (map_id m) at 2. apply map_ext_in.
    intros [k x] Hx. specialize (Hv _ Hx). cbn [fst snd] in *. bool_props.
    match goal with H : isSensitiveKey k = false |- _ => rewrite H end.
    by rewrite IH by (done || lia).
Qed.

(** Redaction leaves a value with nothing sensitive as it is. *)
Lemma redact_innocuous value :
  innocuous 33 value = true → redactValueWithDepth value 0 = value.
Proof. apply redact_innocuous_at. unfold maxRedactDepth. lia. Qed.

End Redact.
