(* ===== verification/IdempotencyStore.v ===== *)
(** * IdempotencyStore: the table of idempotency records and its clients' view of it

    Models the record of [backend/internal/service/idempotency.go], the SQL statements of
    [backend/internal/repository/idempotency_repo.go] over the table that
    [backend/migrations/057_add_idempotency_records.sql] declares, and, for the programs that use
    the table concurrently, a monad of programs whose atomic steps are calls of the
    [IdempotencyRepository], readings of the clock and runs of the guarded operation.

    Times are nanoseconds; PostgreSQL runs each statement atomically, as documented.  The
    columns' length limits are not modelled: every value the clients store fits, error reasons
    over 128 bytes apart, which make the statement fail. *)

From stdpp Require Import base tactics numbers list strings gmap sorting.
From Stdlib Require Import ZArith Lia.
From coqutil Require Export Datatypes.RecordSetters.
From S2P Require Import Prelude GoLib AppErrors.

Export DoubleBraceUpdate.

Local Open Scope go_scope.
Local Open Scope Z_scope.

Definition IdempotencyStatusProcessing : string := "processing".
Definition IdempotencyStatusSucceeded : string := "succeeded".
Definition IdempotencyStatusFailedRetryable : string := "failed_retryable".

Record IdempotencyRecord : Type := MkIdempotencyRecord {
  i_ID : Z;
  i_Scope : string;
  i_KeyHash : string;
  i_Fingerprint : string;
  i_Status : string;
  i_ResponseStatus : option Z;
  i_ResponseBody : option string;
  i_ErrorReason : option string;
  i_LockedUntil : option Z;
  i_ExpiresAt : Z;
  i_CreatedAt : Z;
  i_UpdatedAt : Z
}.

(** ** The table *)

(** The rows by identifier, and the sequence behind [BIGSERIAL]. *)
Record table : Type := MkTable {
  t_rows : gmap Z IdempotencyRecord;
  t_nextID : Z
}.

Definition empty_table : table := MkTable ∅ 1.

Definition is_key (scope keyHash : string) (r : IdempotencyRecord) : bool :=
  (i_Scope r ≟ scope) && (i_KeyHash r ≟ keyHash).

(** The row with a scope and key: the unique index allows one. *)
Definition find_key (scope keyHash : string) (t : table) : option IdempotencyRecord :=
  snd <$> List.find (λ p, is_key scope keyHash p.2) (map_to_list (t_rows t)).

(** The row statements [UPDATE ... WHERE id = $1 AND cond]: the number of rows affected. *)
Definition update_row (id : Z) (cond : IdempotencyRecord → bool)
    (f : IdempotencyRecord → IdempotencyRecord) : St table Z := λ t,
  match t_rows t !! id with
  | Some r => if cond r then (1, MkTable (<[id := f r]> (t_rows t)) (t_nextID t)) else (0, t)
  | None => (0, t)
  end.

(** [INSERT ... ON CONFLICT (scope, idempotency_key_hash) DO NOTHING]; the sequence advances
    either way.  The record comes back with its identifier when it was inserted. *)
Definition CreateProcessing (dbnow : Z) (record : IdempotencyRecord)
    : St table (bool * IdempotencyRecord) := λ t,
  match find_key (i_Scope record) (i_KeyHash record) t with
  | Some _ => ((false, record), MkTable (t_rows t) (t_nextID t + 1))
  | None =>
      let id := t_nextID t in
      let row := record{{ i_ID := id;
                          i_ResponseStatus := None;
                          i_ResponseBody := None;
                          i_ErrorReason := None;
                          i_CreatedAt := dbnow;
                          i_UpdatedAt := dbnow }} in
      ((true, record{{ i_ID := id; i_CreatedAt := dbnow; i_UpdatedAt := dbnow }}),
       MkTable (<[id := row]> (t_rows t)) (id + 1))
  end.

Definition GetByScopeAndKeyHash (scope keyHash : string) : St table (option IdempotencyRecord) :=
  λ t, (find_key scope keyHash t, t).

Definition TryReclaim (dbnow id : Z) (fromStatus : string) (now newLockedUntil newExpiresAt : Z)
    : St table bool :=
  affected ← update_row id
    (λ r, (i_Status r ≟ fromStatus) &&
          match i_LockedUntil r with None => true | Some l => l <=? now end)
    (λ r, r{{ i_Status := IdempotencyStatusProcessing;
              i_LockedUntil := Some newLockedUntil;
              i_ErrorReason := None;
              i_UpdatedAt := dbnow;
              i_ExpiresAt := newExpiresAt }});
  mret (0 <? affected).

Definition ExtendProcessingLock (dbnow id : Z) (requestFingerprint : string)
    (newLockedUntil newExpiresAt : Z) : St table bool :=
  affected ← update_row id
    (λ r, (i_Status r ≟ IdempotencyStatusProcessing) &&
          (i_Fingerprint r ≟ requestFingerprint))
    (λ r, r{{ i_LockedUntil := Some newLockedUntil;
              i_ExpiresAt := newExpiresAt;
              i_UpdatedAt := dbnow }});
  mret (0 <? affected).

Definition MarkSucceeded (dbnow id responseStatus : Z) (responseBody : string) (expiresAt : Z)
    : St table unit :=
  _ ← update_row id (λ _, true)
    (λ r, r{{ i_Status := IdempotencyStatusSucceeded;
              i_ResponseStatus := Some responseStatus;
              i_ResponseBody := Some responseBody;
              i_ErrorReason := None;
              i_LockedUntil := None;
              i_ExpiresAt := expiresAt;
              i_UpdatedAt := dbnow }});
  mret tt.

Definition MarkFailedRetryable (dbnow id : Z) (errorReason : string) (lockedUntil expiresAt : Z)
    : St table unit :=
  _ ← update_row id (λ _, true)
    (λ r, r{{ i_Status := IdempotencyStatusFailedRetryable;
              i_ErrorReason := Some errorReason;
              i_LockedUntil := Some lockedUntil;
              i_ExpiresAt := expiresAt;
              i_UpdatedAt := dbnow }});
  mret tt.

(** The rows the cleanup may choose, oldest expiry first; rows that expire at the same time
    come in an order PostgreSQL leaves open, here that of the map. *)
Definition expiry_order (p q : Z * IdempotencyRecord) : Prop := i_ExpiresAt p.2 <= i_ExpiresAt q.2.

#[export] Instance expiry_order_dec p q : Decision (expiry_order p q).
Proof. unfold expiry_order. apply _. Defined.

Definition victims (now limit : Z) (t : table) : list Z :=
  firstn (Z.to_nat limit)
    (fst <$> merge_sort expiry_order
       (List.filter (λ p, i_ExpiresAt p.2 <=? now) (map_to_list (t_rows t)))).

Definition DeleteExpired (now limit : Z) : St table Z := λ t,
  let limit := if limit <=? 0 then 500 else limit in
  let ids := victims now limit t in
  (Z.of_nat (length ids),
   MkTable (foldr (λ id m, delete id m) (t_rows t) ids) (t_nextID t)).

(** ** Programs over the store *)

(** The atomic steps of a request, with the type of their answer; [V] is what the guarded
    operation returns ([any] in Go).  [OpStart] and [OpFinish] are the two ends of a run of the
    operation, for the record identifier its context carries. *)
Inductive op (V : Type) : Type → Type :=
| OpNow : op V Z
| OpCreate (record : IdempotencyRecord) : op V (result (bool * IdempotencyRecord))
| OpGet (scope keyHash : string) : op V (result (option IdempotencyRecord))
| OpReclaim (id : Z) (fromStatus : string) (now newLockedUntil newExpiresAt : Z)
    : op V (result bool)
| OpExtend (id : Z) (fingerprint : string) (newLockedUntil newExpiresAt : Z) : op V (result bool)
| OpSucceeded (id responseStatus : Z) (responseBody : string) (expiresAt : Z)
    : op V (result unit)
| OpFailed (id : Z) (errorReason : string) (lockedUntil expiresAt : Z) : op V (result unit)
| OpStart (id : option Z) : op V unit
| OpFinish (id : option Z) : op V (result V).

#[global] Arguments OpNow {V}.
#[global] Arguments OpCreate {V} _.
#[global] Arguments OpGet {V} _ _.
#[global] Arguments OpReclaim {V} _ _ _ _ _.
#[global] Arguments OpExtend {V} _ _ _ _.
#[global] Arguments OpSucceeded {V} _ _ _ _.
#[global] Arguments OpFailed {V} _ _ _ _.
#[global] Arguments OpStart {V} _.
#[global] Arguments OpFinish {V} _.

Inductive prog (V A : Type) : Type :=
| Ret (a : A)
| Do {B : Type} (o : op V B) (k : B → prog V A).

#[global] Arguments Ret {V A} _.
#[global] Arguments Do {V A B} _ _.

#[export] Instance prog_ret V : MRet (prog V) := λ A, Ret.
#[export] Instance prog_bind V : MBind (prog V) :=
  λ A B f, fix go p := match p with Ret a => f a | Do o k => Do o (λ b, go (k b)) end.

Definition call {V B : Type} (o : op V B) : prog V B := Do o Ret.

(** The guarded operation, run with a record identifier in its context. *)
Definition exec {V : Type} (id : option Z) : prog V (result V) :=
  _ ← call (OpStart id); call (OpFinish id).

(** *** One program alone, on a store that answers *)

Record world : Type := MkWorld {
  w_table : table;
  w_clock : Z;
  w_runs : list (option Z)
}.

Definition on_table {A : Type} (f : St table A) : St world (result A) := λ w,
  let '(a, t) := f (w_table w) in (inl a, MkWorld t (w_clock w) (w_runs w)).

(** [w_runs] keeps the runs of the guarded operation, whose answer is [answer]. *)
Definition perform {V B : Type} (answer : result V) (o : op V B) : St world B :=
  match o in op _ B return St world B with
  | OpNow => λ w, (w_clock w, w)
  | OpCreate r => λ w, on_table (CreateProcessing (w_clock w) r) w
  | OpGet s h => on_table (GetByScopeAndKeyHash s h)
  | OpReclaim id st now l e => λ w, on_table (TryReclaim (w_clock w) id st now l e) w
  | OpExtend id f l e => λ w, on_table (ExtendProcessingLock (w_clock w) id f l e) w
  | OpSucceeded id st b e => λ w, on_table (MarkSucceeded (w_clock w) id st b e) w
  | OpFailed id r l e => λ w, on_table (MarkFailedRetryable (w_clock w) id r l e) w
  | OpStart id => λ w, (tt, MkWorld (w_table w) (w_clock w) (w_runs w ++ [id]))
  | OpFinish _ => λ w, (answer, w)
  end.

Fixpoint run {V A : Type} (answer : result V) (p : prog V A) : St world A :=
  match p with
  | Ret a => mret a
  | Do o k => b ← perform answer o; run answer (k b)
  end.

Lemma run_bind {V A B : Type} (outcome : result V) (p : prog V A) (f : A → prog V B) w :
  run outcome (p ≫= f) w = let '(a, w') := run outcome p w in run outcome (f a) w'.
Proof.
  revert w. induction p as [a|B' o k IH]; intros w; [done|].
  cbn [mbind prog_bind run]. unfold mbind, St_bind. destruct (perform outcome o w) as [b w'].
  apply IH.
Qed.

(** *** Many programs, a clock that advances, a store that may fail *)

(** What is observed of the guarded operation. *)
Inductive event : Type :=
| Started (id : option Z)
| Finished (id : option Z) (ok : bool).

Record system (V A : Type) : Type := MkSystem {
  s_table : table;
  s_clock : Z;
  s_log : list event;
  s_pool : list (prog V A)
}.

#[global] Arguments MkSystem {V A} _ _ _ _.
#[global] Arguments s_table {V A} _.
#[global] Arguments s_clock {V A} _.
#[global] Arguments s_log {V A} _.
#[global] Arguments s_pool {V A} _.

(** A statement: it answers and takes effect, or it fails, having taken effect or not. *)
Definition statement {A : Type} (f : St table A) (t : table) (b : result A) (t' : table) : Prop :=
  (b = inl (f t).1 ∧ t' = (f t).2) ∨ (∃ e, b = inr e ∧ (t' = t ∨ t' = (f t).2)).

Definition is_ok {A : Type} (b : result A) : bool := match b with inl _ => true | inr _ => false end.

(** The answers of an atomic step, with what it does to the table and what is observed. *)
Definition answers {V B : Type} (o : op V B)
    : Z → table → B → table → list event → Prop :=
  match o in op _ B return Z → table → B → table → list event → Prop with
  | OpNow => λ clock t b t' ev, b = clock ∧ t' = t ∧ ev = []
  | OpCreate r => λ clock t b t' ev, statement (CreateProcessing clock r) t b t' ∧ ev = []
  | OpGet s h => λ _ t b t' ev, statement (GetByScopeAndKeyHash s h) t b t' ∧ ev = []
  | OpReclaim id st now l e => λ clock t b t' ev,
      statement (TryReclaim clock id st now l e) t b t' ∧ ev = []
  | OpExtend id f l e => λ clock t b t' ev,
      statement (ExtendProcessingLock clock id f l e) t b t' ∧ ev = []
  | OpSucceeded id st body e => λ clock t b t' ev,
      statement (MarkSucceeded clock id st body e) t b t' ∧ ev = []
  | OpFailed id r l e => λ clock t b t' ev,
      statement (MarkFailedRetryable clock id r l e) t b t' ∧ ev = []
  | OpStart id => λ _ t _ t' ev, t' = t ∧ ev = [Started id]
  | OpFinish id => λ _ t b t' ev, t' = t ∧ ev = [Finished id (is_ok b)]
  end.

(** The steps of the system: a request arrives, one takes a step, time passes, the cleanup
    runs.  A process that dies is a request that takes no further step. *)
Inductive sys_step {V A : Type} (arrives : prog V A → Prop) (horizon : Z)
    : system V A → system V A → Prop :=
| step_arrive t c log pool p :
    arrives p → sys_step arrives horizon (MkSystem t c log pool) (MkSystem t c log (pool ++ [p]))
| step_thread t c log pool i B (o : op V B) k b t' ev :
    pool !! i = Some (Do o k) → answers o c t b t' ev →
    sys_step arrives horizon (MkSystem t c log pool) (MkSystem t' c (log ++ ev) (<[i := k b]> pool))
| step_clock t c log pool c' :
    c <= c' <= horizon →
    sys_step arrives horizon (MkSystem t c log pool) (MkSystem t c' log pool)
| step_cleanup t c log pool limit :
    sys_step arrives horizon (MkSystem t c log pool)
      (MkSystem (DeleteExpired c limit t).2 c log pool).

Inductive reachable {V A : Type} (arrives : prog V A → Prop) (horizon : Z) (s0 : system V A)
    : system V A → Prop :=
| reach_refl : reachable arrives horizon s0 s0
| reach_step s s' :
    reachable arrives horizon s0 s → sys_step arrives horizon s s' → reachable arrives horizon s0 s'.
