(* ===== verification/Idempotency.v ===== *)
(** * Idempotency: the coordinator of guarded operations

    Models [backend/internal/service/idempotency.go].  The counters and audit log lines of
    [idempotency_observability.go], which no result depends on, are left out; a nil executor is
    an argument error of the Go caller and has no counterpart. *)

From stdpp Require Import base tactics numbers list strings gmap.
From Stdlib Require Import ZArith Lia Ascii String.
From S2P Require Import Prelude GoLib GoJson AppErrors LogRedact IdempotencyStore.

Local Open Scope go_scope.
Local Open Scope Z_scope.

Definition ErrIdempotencyKeyRequired : ApplicationError :=
  BadRequest "IDEMPOTENCY_KEY_REQUIRED" "idempotency key is required".
Definition ErrIdempotencyKeyInvalid : ApplicationError :=
  BadRequest "IDEMPOTENCY_KEY_INVALID" "idempotency key is invalid".
Definition ErrIdempotencyKeyConflict : ApplicationError :=
  Conflict "IDEMPOTENCY_KEY_CONFLICT" "idempotency key reused with different payload".
Definition ErrIdempotencyInProgress : ApplicationError :=
  Conflict "IDEMPOTENCY_IN_PROGRESS" "idempotent request is still processing".
Definition ErrIdempotencyRetryBackoff : ApplicationError :=
  Conflict "IDEMPOTENCY_RETRY_BACKOFF" "idempotent request is in retry backoff window".
Definition ErrIdempotencyStoreUnavail : ApplicationError :=
  ServiceUnavailable "IDEMPOTENCY_STORE_UNAVAILABLE" "idempotency store unavailable".
Definition ErrIdempotencyInvalidPayload : ApplicationError :=
  BadRequest "IDEMPOTENCY_PAYLOAD_INVALID" "failed to normalize request payload".

Definition Hour : Z := 3600000000000.

Record IdempotencyConfig : Type := MkIdempotencyConfig {
  ic_DefaultTTL : Z;
  ic_SystemOperationTTL : Z;
  ic_ProcessingTimeout : Z;
  ic_FailedRetryBackoff : Z;
  ic_MaxStoredResponseLen : Z;
  ic_ObserveOnly : bool
}.

Definition DefaultIdempotencyConfig : IdempotencyConfig :=
  MkIdempotencyConfig (24 * Hour) (1 * Hour) (30 * Second) (5 * Second) (64 * 1024) true.

Record IdempotencyExecuteOptions (V : Type) : Type := MkIdempotencyExecuteOptions {
  io_Scope : string;
  io_ActorScope : string;
  io_Method : string;
  io_Route : string;
  io_IdempotencyKey : string;
  io_Payload : V;
  io_TTL : Z;
  io_RequireKey : bool
}.

#[global] Arguments MkIdempotencyExecuteOptions {V} _ _ _ _ _ _ _ _.
#[global] Arguments io_Scope {V} _.
#[global] Arguments io_ActorScope {V} _.
#[global] Arguments io_Method {V} _.
#[global] Arguments io_Route {V} _.
#[global] Arguments io_IdempotencyKey {V} _.
#[global] Arguments io_Payload {V} _.
#[global] Arguments io_TTL {V} _.
#[global] Arguments io_RequireKey {V} _.

Record IdempotencyExecuteResult (V : Type) : Type := MkIdempotencyExecuteResult {
  ir_Data : V;
  ir_Replayed : bool
}.

#[global] Arguments MkIdempotencyExecuteResult {V} _ _.
#[global] Arguments ir_Data {V} _.
#[global] Arguments ir_Replayed {V} _.

(** The coordinator; [None] is a nil repository. *)
Record IdempotencyCoordinator : Type := MkIdempotencyCoordinator {
  c_repo : bool;
  c_cfg : IdempotencyConfig
}.

Definition NewIdempotencyCoordinator (repo : bool) (cfg : IdempotencyConfig)
    : IdempotencyCoordinator := MkIdempotencyCoordinator repo cfg.

Definition DefaultWriteIdempotencyTTL (coordinator : option IdempotencyCoordinator) : Z :=
  let defaultTTL := ic_DefaultTTL DefaultIdempotencyConfig in
  match coordinator with
  | Some c => if 0 <? ic_DefaultTTL (c_cfg c) then ic_DefaultTTL (c_cfg c) else defaultTTL
  | None => defaultTTL
  end.

Definition DefaultSystemOperationIdempotencyTTL (coordinator : option IdempotencyCoordinator)
    : Z :=
  let defaultTTL := ic_SystemOperationTTL DefaultIdempotencyConfig in
  match coordinator with
  | Some c =>
      if 0 <? ic_SystemOperationTTL (c_cfg c) then ic_SystemOperationTTL (c_cfg c) else defaultTTL
  | None => defaultTTL
  end.

(** The record identifier in the context of the guarded operation. *)
Definition withIdempotencyRecordID (id : Z) : option Z := if id <=? 0 then None else Some id.

Definition IdempotencyRecordIDFromContext (ctx : option Z) : Z * bool :=
  match ctx with Some id => (id, 0 <? id) | None => (0, false) end.

(** Every rune of the key is an ASCII character that prints: a byte from 128 on belongs to a
    rune above 126, or is read as U+FFFD. *)
Definition key_rune (c : ascii) : bool := negb ((byte_of c <? 33)%N || (126 <? byte_of c)%N).

Definition NormalizeIdempotencyKey (raw : string) : result string :=
  let key := TrimSpace raw in
  if key ≟ "" then inl "" else
  if 128 <? Z.of_nat (String.length key) then inr (as_error ErrIdempotencyKeyInvalid) else
  if forallb key_rune (list_ascii_of_string key) then inl key
  else inr (as_error ErrIdempotencyKeyInvalid).

(** [utf8.ValidString] *)
Fixpoint valid_utf8_from (fuel : nat) (s : string) : bool :=
  match fuel, s with
  | _, EmptyString => true
  | O, _ => false
  | S fuel, _ =>
      match rune_len s with
      | Some n => valid_utf8_from fuel (String.substring n (String.length s - n) s)
      | None => false
      end
  end.

Definition ValidString (s : string) : bool := valid_utf8_from (String.length s) s.

(** [s[:maxBytes]], shortened to a rune boundary. *)
Fixpoint shorten (s : string) (maxBytes : nat) : nat :=
  match maxBytes with
  | O => O
  | S n => if ValidString (String.substring 0 maxBytes s) then maxBytes else shorten s n
  end.

Definition truncateUTF8 (s : string) (maxBytes : Z) : string :=
  if (maxBytes <=? 0) || (Z.of_nat (String.length s) <=? maxBytes) then s
  else String.substring 0 (shorten s (Z.to_nat maxBytes)) s.

Definition conflictWithRetryAfter (base : ApplicationError) (lockedUntil : option Z) (now : Z)
    : error :=
  match lockedUntil with
  | None => as_error base
  | Some l =>
      let sec := int_seconds (time_sub l now) in
      let sec := if sec <=? 0 then 1 else sec in
      as_error (WithMetadata base (Some {[ "retry_after" := FormatInt sec ]}))
  end.

Definition RetryAfterSecondsFromError (err : option error) : Z :=
  match err ≫= As with
  | None => 0
  | Some appErr =>
      match st_Metadata (ae_Status appErr) with
      | None => 0
      | Some md =>
          let v := TrimSpace (default "" (md !! "retry_after")) in
          if v ≟ "" then 0 else
          match ParseInt v with
          | Some seconds => if seconds <=? 0 then 0 else seconds
          | None => 0
          end
      end
  end.

Section Coordinator.
Context {V N : Type} `{GoValues V N}.

Definition HashIdempotencyKey (key : string) : string := sha256_hex key.

Definition BuildIdempotencyFingerprint (method route actorScope : string) (payload : V)
    : result string :=
  let method := if method ≟ "" then "POST" else method in
  let route := if route ≟ "" then "/" else route in
  let actorScope := if actorScope ≟ "" then "anonymous" else actorScope in
  match Marshal payload with
  | inr err => inr (as_error (WithCause ErrIdempotencyInvalidPayload err))
  | inl raw =>
      inl (sha256_hex (ToUpper method +:+ newline +:+ route +:+ newline +:+ actorScope +:+
                       newline +:+ raw))
  end.

Definition marshalStoredResponse (cfg : IdempotencyConfig) (data : V) : result string :=
  match Marshal data with
  | inr err => inr err
  | inl raw =>
      let redacted := RedactText raw in
      inl (if (0 <? ic_MaxStoredResponseLen cfg) &&
              (ic_MaxStoredResponseLen cfg <? Z.of_nat (String.length redacted))
           then truncateUTF8 redacted (ic_MaxStoredResponseLen cfg) +:+ "...(truncated)"
           else redacted)
  end.

Definition decodeStoredResponse (stored : option string) : result V :=
  match stored with
  | None => inl (of_json (JObject []))
  | Some s =>
      if TrimSpace s ≟ "" then inl (of_json (JObject [])) else
      match Unmarshal s with
      | inr err => inr (EWrapped "decode stored response" err)
      | inl out => inl (of_json out)
      end
  end.

Definition answer : Type := result (IdempotencyExecuteResult V).

Definition unavailable (cause : error) : answer :=
  inr (as_error (WithCause ErrIdempotencyStoreUnavail cause)).

(** The end of [Execute], once the record is claimed. *)
Definition run_claimed (cfg : IdempotencyConfig) (expiresAt id : Z) : prog V answer :=
  if id =? 0 then mret (inr (as_error ErrIdempotencyStoreUnavail)) else
  outcome ← exec (withIdempotencyRecordID id);
  match outcome with
  | inr execErr =>
      t ← call OpNow;
      let backoffUntil := t + ic_FailedRetryBackoff cfg in
      let reason := Reason (Some execErr) in
      let reason := if reason ≟ "" then "EXECUTION_FAILED" else reason in
      _ ← call (OpFailed id reason backoffUntil expiresAt);
      mret (inr execErr)
  | inl data =>
      match marshalStoredResponse cfg data with
      | inr marshalErr => mret (unavailable marshalErr)
      | inl storedBody =>
          marked ← call (OpSucceeded id 200 storedBody expiresAt);
          match marked with
          | inr markErr => mret (unavailable markErr)
          | inl _ => mret (inl (MkIdempotencyExecuteResult data false))
          end
      end
  end.

(** The switch on the status of a record somebody else made. *)
Definition answer_existing (cfg : IdempotencyConfig) (now lockedUntil expiresAt : Z)
    (existing : IdempotencyRecord) : prog V answer :=
  switch (i_Status existing)
    [ ([IdempotencyStatusSucceeded],
       mret (match decodeStoredResponse (i_ResponseBody existing) with
             | inr parseErr => unavailable parseErr
             | inl data => inl (MkIdempotencyExecuteResult data true)
             end));
      ([IdempotencyStatusProcessing],
       mret (inr (conflictWithRetryAfter ErrIdempotencyInProgress (i_LockedUntil existing) now)));
      ([IdempotencyStatusFailedRetryable],
       if match i_LockedUntil existing with Some l => now <? l | None => false end then
         mret (inr (conflictWithRetryAfter ErrIdempotencyRetryBackoff (i_LockedUntil existing) now))
       else
       taken ← call (OpReclaim (i_ID existing) IdempotencyStatusFailedRetryable now lockedUntil
                       expiresAt);
       match taken with
       | inr reclaimErr => mret (unavailable reclaimErr)
       | inl false =>
           mret (inr (conflictWithRetryAfter ErrIdempotencyInProgress (i_LockedUntil existing) now))
       | inl true => run_claimed cfg expiresAt (i_ID existing)
       end) ]
    (mret (inr (as_error ErrIdempotencyKeyConflict))).

(** The branch of [Execute] that finds the key already claimed. *)
Definition not_owner (cfg : IdempotencyConfig) (scope keyHash fingerprint : string)
    (now lockedUntil expiresAt : Z) : prog V answer :=
  got ← call (OpGet scope keyHash);
  match got with
  | inr getErr => mret (unavailable getErr)
  | inl None => mret (inr (as_error ErrIdempotencyStoreUnavail))
  | inl (Some existing) =>
      if negb (i_Fingerprint existing ≟ fingerprint)
      then mret (inr (as_error ErrIdempotencyKeyConflict)) else
      if now <? i_ExpiresAt existing
      then answer_existing cfg now lockedUntil expiresAt existing else
      taken ← call (OpReclaim (i_ID existing) (i_Status existing) now lockedUntil expiresAt);
      match taken with
      | inr reclaimErr => mret (unavailable reclaimErr)
      | inl true => run_claimed cfg expiresAt (i_ID existing)
      | inl false =>
          got ← call (OpGet scope keyHash);
          match got with
          | inr latestErr => mret (unavailable latestErr)
          | inl None => mret (inr (as_error ErrIdempotencyStoreUnavail))
          | inl (Some latest) =>
              if negb (i_Fingerprint latest ≟ fingerprint)
              then mret (inr (as_error ErrIdempotencyKeyConflict))
              else answer_existing cfg now lockedUntil expiresAt latest
          end
      end
  end.

Definition new_record (scope keyHash fingerprint : string) (lockedUntil expiresAt : Z)
    : IdempotencyRecord :=
  MkIdempotencyRecord 0 scope keyHash fingerprint IdempotencyStatusProcessing None None None
    (Some lockedUntil) expiresAt 0 0.

Definition effective_ttl (cfg : IdempotencyConfig) (opts : IdempotencyExecuteOptions V) : Z :=
  if io_TTL opts <=? 0 then ic_DefaultTTL cfg else io_TTL opts.

(** The part of [Execute] that works on the store, for a normalized key and a fingerprint. *)
Definition execute_keyed (cfg : IdempotencyConfig) (opts : IdempotencyExecuteOptions V)
    (key fingerprint : string) : prog V answer :=
  let ttl := effective_ttl cfg opts in
  now ← call OpNow;
  let expiresAt := now + ttl in
  let lockedUntil := now + ic_ProcessingTimeout cfg in
  let keyHash := HashIdempotencyKey key in
  created ← call (OpCreate (new_record (io_Scope opts) keyHash fingerprint lockedUntil expiresAt));
  match created with
  | inr err => mret (unavailable err)
  | inl (true, record) => run_claimed cfg expiresAt (i_ID record)
  | inl (false, _) =>
      not_owner cfg (io_Scope opts) keyHash fingerprint now lockedUntil expiresAt
  end.

Definition Execute (c : IdempotencyCoordinator) (opts : IdempotencyExecuteOptions V)
    : prog V answer :=
  match NormalizeIdempotencyKey (io_IdempotencyKey opts) with
  | inr err => mret (inr err)
  | inl key =>
      if key ≟ "" then
        if io_RequireKey opts && negb (ic_ObserveOnly (c_cfg c))
        then mret (inr (as_error ErrIdempotencyKeyRequired)) else
        outcome ← exec None;
        mret (match outcome with
              | inr execErr => inr execErr
              | inl data => inl (MkIdempotencyExecuteResult data false)
              end)
      else if negb (c_repo c) then mret (inr (as_error ErrIdempotencyStoreUnavail))
      else if io_Scope opts ≟ "" then
        mret (inr (as_error (BadRequest "IDEMPOTENCY_SCOPE_REQUIRED"
                               "idempotency scope is required")))
      else
      match BuildIdempotencyFingerprint (io_Method opts) (io_Route opts) (io_ActorScope opts)
              (io_Payload opts) with
      | inr err => mret (inr err)
      | inl fingerprint => execute_keyed (c_cfg c) opts key fingerprint
      end
  end.

End Coordinator.
