(* ===== verification/IdempotencyFacts.v ===== *)
(** * IdempotencyFacts: a guarded operation succeeds at most once per key

    A discipline of claims that every program of the coordinator follows, the invariant of any
    number of disciplined programs over a table that may fail, and what each request answers. *)

From stdpp Require Import base tactics numbers list strings gmap sorting.
From Stdlib Require Import ZArith Lia.
From S2P Require Import Prelude GoLib GoJson AppErrors LogRedact IdempotencyStore Idempotency.

Local Open Scope go_scope.
Local Open Scope Z_scope.

(** ** What is observed of one record's operation *)

Inductive phase : Type := Idle | Busy | Done.

(** The operation of record [id] runs only when it is idle, and never again once it succeeded. *)
Definition observe (id : Z) (q : option phase) (e : event) : option phase :=
  match q, e with
  | None, _ => None
  | Some ph, Started (Some i) =>
      if i =? id then match ph with Idle => Some Busy | _ => None end else Some ph
  | Some ph, Finished (Some i) ok =>
      if i =? id
      then match ph with Busy => Some (if ok : bool then Done else Idle) | _ => None end
      else Some ph
  | Some ph, _ => Some ph
  end.

Definition observed (id : Z) (log : list event) : option phase := foldl (observe id) (Some Idle) log.

Lemma observed_app id l1 l2 : observed id (l1 ++ l2) = foldl (observe id) (observed id l1) l2.
Proof. apply foldl_app. Qed.

(** ** The discipline *)

(** What a program holds: nothing, a record it may run the operation for, a record whose
    operation it is running, a record whose operation it ran. *)
Inductive claim : Type :=
| Free
| Claimed (id : Z)
| Running (id : Z)
| Ran (id : Z) (ok : bool).

Definition claim_id (c : claim) : option Z :=
  match c with Free => None | Claimed id | Running id | Ran id _ => Some id end.

(** The phase of a record while a program holds it. *)
Definition claim_phase (c : claim) : phase :=
  match c with Running _ => Busy | Ran _ true => Done | _ => Idle end.

Section Discipline.
Context {V : Type} (start horizon : Z).

(** When a program holding [c] may take a step: it runs the operation of a record it claimed,
    marks a record it ran the operation of, and reclaims failed records only; the records it
    writes outlive the horizon. *)
Definition may {B : Type} (o : op V B) (c : claim) : Prop :=
  match o with
  | OpNow => True
  | OpCreate r =>
      c = Free ∧ i_Status r = IdempotencyStatusProcessing ∧ horizon < i_ExpiresAt r
  | OpGet _ _ => c = Free
  | OpReclaim id from _ _ e =>
      c = Free ∧ from = IdempotencyStatusFailedRetryable ∧ horizon < e
  | OpExtend _ _ _ _ => False
  | OpSucceeded id _ _ e => c = Ran id true ∧ horizon < e
  | OpFailed id _ _ e => c = Ran id false ∧ horizon < e
  | OpStart None | OpFinish None => c = Free
  | OpStart (Some id) => c = Claimed id
  | OpFinish (Some id) => c = Running id
  end.

(** The answers a step can get. *)
Definition sane {B : Type} (o : op V B) : B → Prop :=
  match o in op _ B return B → Prop with
  | OpNow => λ t, start <= t <= horizon
  | OpCreate _ => λ b, match b with inl (true, r) => 0 < i_ID r | _ => True end
  | OpGet _ _ => λ b,
      match b with inl (Some r) => 0 < i_ID r ∧ horizon < i_ExpiresAt r | _ => True end
  | _ => λ _, True
  end.

(** What the program holds after the answer. *)
Definition next {B : Type} (o : op V B) (c : claim) : B → claim :=
  match o in op _ B return B → claim with
  | OpCreate _ => λ b, match b with inl (true, r) => Claimed (i_ID r) | _ => c end
  | OpReclaim id _ _ _ _ => λ b, match b with inl true => Claimed id | _ => c end
  | OpSucceeded _ _ _ _ => λ _, Free
  | OpFailed _ _ _ _ => λ _, Free
  | OpStart (Some id) => λ _, Running id
  | OpFinish (Some id) => λ b, Ran id (is_ok b)
  | _ => λ _, c
  end.

Fixpoint disciplined {A : Type} (c : claim) (p : prog V A) : Prop :=
  match p with
  | Ret _ => True
  | Do o k => may o c ∧ ∀ b, sane o b → disciplined (next o c b) (k b)
  end.
End Discipline.

(** ** The table *)

Section Table.
Context (horizon : Z).

Definition row_ok (t : table) (id : Z) (r : IdempotencyRecord) : Prop :=
  i_ID r = id ∧ 0 < id < t_nextID t ∧ horizon < i_ExpiresAt r.

(** Every row is stored under its identifier, outlives the horizon, and no two have one key. *)
Definition table_ok (t : table) : Prop :=
  0 < t_nextID t ∧ map_Forall (row_ok t) (t_rows t) ∧
  ∀ i j r r', t_rows t !! i = Some r → t_rows t !! j = Some r' →
    i_Scope r = i_Scope r' → i_KeyHash r = i_KeyHash r' → i = j.

Lemma is_key_spec s h r : is_key s h r = true ↔ i_Scope r = s ∧ i_KeyHash r = h.
Proof. unfold is_key. by rewrite andb_true_iff, !String.eqb_eq. Qed.

Lemma find_key_some s h t r :
  find_key s h t = Some r →
  ∃ id, t_rows t !! id = Some r ∧ i_Scope r = s ∧ i_KeyHash r = h.
Proof.
  unfold find_key. intros Hf. apply fmap_Some in Hf as ([id r'] & Hf & ->).
  apply List.find_some in Hf as [Hin Hk]. apply list_elem_of_In, elem_of_map_to_list in Hin.
  apply is_key_spec in Hk. by exists id.
Qed.

Lemma find_key_none s h t :
  find_key s h t = None →
  ∀ id r, t_rows t !! id = Some r → i_Scope r = s → i_KeyHash r = h → False.
Proof.
  unfold find_key. intros Hf id r Hr Hs Hh. apply fmap_None in Hf.
  assert (Hin : In (id, r) (map_to_list (t_rows t))) by by apply list_elem_of_In, elem_of_map_to_list.
  apply (List.find_none _ _ Hf) in Hin. cbn in Hin.
  assert (is_key s h r = true) by by apply is_key_spec. congruence.
Qed.

Lemma update_row_cases id cond f t :
  let '(n, t') := update_row id cond f t in
  (n = 0 ∧ t' = t) ∨
  (n = 1 ∧ ∃ r, t_rows t !! id = Some r ∧ cond r = true ∧
     t' = MkTable (<[id := f r]> (t_rows t)) (t_nextID t)).
Proof.
  unfold update_row. destruct (t_rows t !! id) as [r|]; [|by left].
  destruct (cond r) eqn:E; [right|by left]. split; [done|]. by exists r.
Qed.

(** A statement that leaves identifier and key alone and sets a late expiry keeps the table. *)
Lemma table_ok_update id r r' t :
  table_ok t → t_rows t !! id = Some r → i_ID r' = i_ID r → i_Scope r' = i_Scope r →
  i_KeyHash r' = i_KeyHash r → horizon < i_ExpiresAt r' →
  table_ok (MkTable (<[id := r']> (t_rows t)) (t_nextID t)).
Proof.
  intros (Hn & Hrows & Huniq) Hr Hid Hs Hk He. split_and!; [done| |].
  - apply map_Forall_insert_2; [|done]. destruct (Hrows id r Hr) as (? & ? & ?).
    split_and!; cbn; congruence || lia.
  - intros i j ri rj. cbn. rewrite !lookup_insert_Some.
    intros [[<- <-] | [Hi Hri]] [[<- <-] | [Hj Hrj]] E1 E2; [done| | |by eapply Huniq].
    + rewrite Hs in E1. rewrite Hk in E2. by eapply Huniq.
    + rewrite Hs in E1. rewrite Hk in E2. by eapply Huniq.
Qed.

(** What a statement may do to a row nobody works on: nothing, or make it "processing". *)
Definition benign (t t' : table) (id : Z) : Prop :=
  t_rows t' !! id = t_rows t !! id ∨
  ∃ r, t_rows t' !! id = Some r ∧ i_Status r = IdempotencyStatusProcessing.

Lemma create_cases now record t :
  table_ok t → horizon < i_ExpiresAt record → i_Status record = IdempotencyStatusProcessing →
  let '((owner, record'), t') := CreateProcessing now record t in
  table_ok t' ∧ (∀ id, benign t t' id) ∧
  (owner = true → 0 < i_ID record' ∧ t_rows t !! i_ID record' = None ∧
     ∃ r, t_rows t' !! i_ID record' = Some r ∧ i_Status r = IdempotencyStatusProcessing).
Proof.
  intros (Hn & Hrows & Huniq) He Hst. unfold CreateProcessing.
  destruct (find_key (i_Scope record) (i_KeyHash record) t) as [r|] eqn:Ef.
  - split_and!; [|by intros id; left|done]. split_and!; [cbn; lia| |done].
    intros id r' Hr'. destruct (Hrows id r' Hr') as (? & ? & ?). split_and!; cbn; try done; lia.
  - assert (Hnew : t_rows t !! t_nextID t = None).
    { apply eq_None_not_Some. intros [r Hr]. destruct (Hrows _ _ Hr) as (_ & ? & _). lia. }
    split_and!; [split_and!| |].
    + cbn. lia.
    + cbn. apply map_Forall_insert_2; [split_and!; cbn; done || lia|].
      intros id r' Hr'. destruct (Hrows id r' Hr') as (? & ? & ?). split_and!; cbn; try done; lia.
    + intros i j ri rj. cbn. rewrite !lookup_insert_Some.
      intros [[<- <-] | [Hi Hri]] [[<- <-] | [Hj Hrj]] E1 E2; [done| | |by eapply Huniq];
        exfalso; cbn in E1, E2; by eapply find_key_none.
    + intros id. destruct (decide (id = t_nextID t)) as [->|Hne].
      * right. eexists. cbn. by rewrite lookup_insert_eq.
      * left. cbn. by rewrite lookup_insert_ne.
    + intros _. cbn. split_and!; [done|done|]. eexists. by rewrite lookup_insert_eq.
Qed.

Lemma reclaim_cases dbnow id from now l e t :
  table_ok t → horizon < e →
  let '(taken, t') := TryReclaim dbnow id from now l e t in
  table_ok t' ∧ (∀ id', benign t t' id') ∧
  (taken = true → (∃ r, t_rows t !! id = Some r ∧ i_Status r = from) ∧
     ∃ r', t_rows t' !! id = Some r' ∧ i_Status r' = IdempotencyStatusProcessing).
Proof.
  intros Hok He. unfold TryReclaim, mbind, St_bind.
  match goal with |- context [update_row id ?c ?f t] => pose proof (update_row_cases id c f t) as Hc;
    destruct (update_row id c f t) as [n t'] end.
  destruct Hc as [[-> ->] | (-> & r & Hr & Hcond & ->)]; cbn [mret St_ret].
  - split_and!; [done|by left|done].
  - bool_props. split_and!.
    + by apply (table_ok_update id r).
    + intros id'. destruct (decide (id' = id)) as [->|Hne].
      * right. eexists. cbn. by rewrite lookup_insert_eq.
      * left. cbn. by rewrite lookup_insert_ne.
    + intros _. split; [by exists r|]. eexists. cbn. by rewrite lookup_insert_eq.
Qed.

(** The two marks: the row of the record gets the status, no other changes. *)
Definition marks (st : string) (id : Z) (t t' : table) : Prop :=
  table_ok t' ∧ (∀ id', id' ≠ id → t_rows t' !! id' = t_rows t !! id') ∧
  (is_Some (t_rows t !! id) → ∃ r, t_rows t' !! id = Some r ∧ i_Status r = st).

Lemma update_marks st id f t :
  table_ok t →
  (∀ r, i_ID (f r) = i_ID r ∧ i_Scope (f r) = i_Scope r ∧ i_KeyHash (f r) = i_KeyHash r ∧
        horizon < i_ExpiresAt (f r) ∧ i_Status (f r) = st) →
  marks st id t (update_row id (λ _, true) f t).2.
Proof.
  intros Hok Hf. pose proof (update_row_cases id (λ _, true) f t) as Hc. unfold update_row in *.
  unfold marks. destruct (t_rows t !! id) as [r|] eqn:Er; [|by split; [|split; [|intros []]]].
  destruct (Hf r) as (H1 & H2 & H3 & H4 & H5). split; [|split]; cbn.
  - by apply (table_ok_update id r).
  - intros id' Hne. by rewrite lookup_insert_ne.
  - intros _. eexists. by rewrite lookup_insert_eq.
Qed.

Lemma succeeded_marks now id st b e t :
  table_ok t → horizon < e →
  marks IdempotencyStatusSucceeded id t (MarkSucceeded now id st b e t).2.
Proof.
  intros Hok He. unfold MarkSucceeded, mbind, St_bind.
  match goal with |- context [update_row id ?c ?f t] =>
    assert (Hm : marks IdempotencyStatusSucceeded id t (update_row id c f t).2)
      by (by apply update_marks); by destruct (update_row id c f t) end.
Qed.

Lemma failed_marks now id reason l e t :
  table_ok t → horizon < e →
  marks IdempotencyStatusFailedRetryable id t (MarkFailedRetryable now id reason l e t).2.
Proof.
  intros Hok He. unfold MarkFailedRetryable, mbind, St_bind.
  match goal with |- context [update_row id ?c ?f t] =>
    assert (Hm : marks IdempotencyStatusFailedRetryable id t (update_row id c f t).2)
      by (by apply update_marks); by destruct (update_row id c f t) end.
Qed.

(** Before the horizon the cleanup finds nothing to delete. *)
Lemma cleanup_deletes_nothing now limit t :
  table_ok t → now <= horizon → (DeleteExpired now limit t).2 = t.
Proof.
  intros (_ & Hrows & _) Hnow. unfold DeleteExpired.
  assert (Hv : ∀ l, victims now l t = []).
  { intros l. unfold victims.
    assert (E : List.filter (λ p : Z * IdempotencyRecord, i_ExpiresAt p.2 <=? now)
      (map_to_list (t_rows t)) = []).
    { assert (Hin : ∀ p, In p (map_to_list (t_rows t)) → (i_ExpiresAt p.2 <=? now) = false).
      { intros [id r] Hp. apply list_elem_of_In, elem_of_map_to_list in Hp.
        destruct (Hrows id r Hp) as (_ & _ & He). cbn. apply Z.leb_gt. lia. }
      revert Hin. induction (map_to_list (t_rows t)) as [|p l' IH]; intros Hin; [done|].
      cbn. rewrite Hin by by left. apply IH. intros q Hq. apply Hin. by right. }
    rewrite E. cbn. by rewrite firstn_nil. }
  rewrite Hv. by destruct t.
Qed.
End Table.

(** ** The invariant of the system *)

Section Invariant.
Context {V A : Type} (start horizon : Z).

Definition holds_only (cl : list claim) (i : nat) (id : Z) : Prop :=
  ∀ j c, cl !! j = Some c → claim_id c = Some id → j = i.

Definition unheld (cl : list claim) (id : Z) : Prop :=
  ∀ j c, cl !! j = Some c → claim_id c ≠ Some id.

(** What is known of a record that a program holds, and of one that none holds. *)
Definition held_ok (t : table) (log : list event) (c : claim) (id : Z) : Prop :=
  (∃ r, t_rows t !! id = Some r ∧ i_Status r = IdempotencyStatusProcessing) ∧
  observed id log = Some (claim_phase c).

Definition free_ok (t : table) (log : list event) (id : Z) : Prop :=
  ∃ ph, observed id log = Some ph ∧
    (t_rows t !! id = None ∨
     (∃ r, t_rows t !! id = Some r ∧ i_Status r = IdempotencyStatusFailedRetryable) → ph = Idle).

Record inv (s : system V A) (cl : list claim) : Prop := Inv {
  inv_clock : start <= s_clock s <= horizon;
  inv_table : table_ok horizon (s_table s);
  inv_pool : Forall2 (disciplined start horizon) cl (s_pool s);
  inv_held i c id :
    cl !! i = Some c → claim_id c = Some id →
    holds_only cl i id ∧ held_ok (s_table s) (s_log s) c id;
  inv_free id : unheld cl id → free_ok (s_table s) (s_log s) id
}.

Lemma held_or_unheld (cl : list claim) id :
  (∃ i c, cl !! i = Some c ∧ claim_id c = Some id) ∨ unheld cl id.
Proof.
  induction cl as [|c cl IH]; [by right|].
  destruct (decide (claim_id c = Some id)) as [E|E]; [left; by exists 0%nat, c|].
  destruct IH as [(i & c' & Hi & Hc')|Hu]; [left; by exists (S i), c'|right].
  intros [|j] c' Hj; [by injection Hj as <-|]. by apply (Hu j).
Qed.

(** The invariant keeps every record's observations legal. *)
Lemma inv_observed s cl id : inv s cl → is_Some (observed id (s_log s)).
Proof.
  intros HI. destruct (held_or_unheld cl id) as [(i & c & Hi & Hc)|Hu].
  - destruct (inv_held _ _ HI i c id Hi Hc) as (_ & _ & E). by rewrite E.
  - destruct (inv_free _ _ HI id Hu) as (ph & E & _). by rewrite E.
Qed.

(** One program steps: what its step must establish for the invariant to survive. *)
Lemma inv_step t t' clock log log' pool i c c' (p p' : prog V A) cl :
  inv (MkSystem t clock log pool) cl → cl !! i = Some c → pool !! i = Some p →
  table_ok horizon t' → disciplined start horizon c' p' →
  (∀ id, claim_id c ≠ Some id → claim_id c' ≠ Some id →
     observed id log' = observed id log ∧ benign t t' id) →
  (∀ id, claim_id c' = Some id → (claim_id c = Some id ∨ unheld cl id) ∧ held_ok t' log' c' id) →
  (∀ id, claim_id c = Some id → claim_id c' ≠ Some id → free_ok t' log' id) →
  inv (MkSystem t' clock log' (<[i := p']> pool)) (<[i := c']> cl).
Proof.
  intros HI Hc Hp Ht Hp' Hother Hnew Hold.
  assert (Hlen : (i < length cl)%nat) by by eapply lookup_lt_Some.
  split; cbn.
  - apply (inv_clock _ _ HI).
  - done.
  - apply Forall2_insert; [apply (inv_pool _ _ HI)|done].
  - intros j cj id Hj Hcj. destruct (decide (j = i)) as [->|Hne].
    + rewrite list_lookup_insert_eq in Hj by done. injection Hj as <-.
      destruct (Hnew id Hcj) as [Hfrom Hh]. split; [|done].
      intros k ck Hk Hck. destruct (decide (k = i)) as [->|Hki]; [done|].
      rewrite list_lookup_insert_ne in Hk by done. destruct Hfrom as [Hfrom|Hu].
      * by eapply (inv_held _ _ HI i c id Hc Hfrom).
      * by destruct (Hu k ck Hk).
    + rewrite list_lookup_insert_ne in Hj by done.
      destruct (inv_held _ _ HI j cj id Hj Hcj) as (Hu & (r & Hr & Hst) & Hob).
      assert (Hc1 : claim_id c ≠ Some id) by (intros E; by destruct Hne; symmetry; apply (Hu i c)).
      assert (Hc2 : claim_id c' ≠ Some id).
      { intros E. destruct (Hnew id E) as [[Hfrom|Hfree] _]; [done|]. by apply (Hfree j cj). }
      destruct (Hother id Hc1 Hc2) as [Eob Hben]. split; [|split].
      * intros k ck Hk Hck. destruct (decide (k = i)) as [->|Hki].
        -- rewrite list_lookup_insert_eq in Hk by done. by injection Hk as <-.
        -- rewrite list_lookup_insert_ne in Hk by done. by apply (Hu k ck).
      * destruct Hben as [Eq|Hben]; [|done]. exists r. split; [|done]. by rewrite <- Hr.
      * by rewrite Eob.
  - intros id Hu.
    assert (Hc2 : claim_id c' ≠ Some id) by (apply (Hu i); by rewrite list_lookup_insert_eq).
    destruct (decide (claim_id c = Some id)) as [E|Hc1]; [by apply Hold|].
    assert (Hu' : unheld cl id).
    { intros j cj Hj. destruct (decide (j = i)) as [->|Hne]; [by simplify_eq|].
      apply (Hu j). by rewrite list_lookup_insert_ne. }
    destruct (Hother id Hc1 Hc2) as [Eob Hben].
    destruct (inv_free _ _ HI id Hu') as (ph & Hph & Himp). exists ph. split; [by rewrite Eob|].
    intros Hrow. destruct Hben as [Eq|(r & Hr & Hst)].
    + apply Himp. cbn. by rewrite Eq in Hrow.
    + cbn in *. destruct Hrow as [Hrow|(r' & Hr' & Hst')]; [congruence|].
      rewrite Hr in Hr'. injection Hr' as <-. by rewrite Hst in Hst'.
Qed.

(** A record with no row, or whose operation failed, is nobody's and idle. *)
Lemma inv_idle s cl id :
  inv s cl →
  t_rows (s_table s) !! id = None ∨
  (∃ r, t_rows (s_table s) !! id = Some r ∧ i_Status r = IdempotencyStatusFailedRetryable) →
  unheld cl id ∧ observed id (s_log s) = Some Idle.
Proof.
  intros HI Hrow.
  assert (Hu : unheld cl id).
  { intros j c Hj Hc. destruct (inv_held _ _ HI j c id Hj Hc) as (_ & (r & Hr & Hst) & _).
    destruct Hrow as [Hrow|(r' & Hr' & Hst')]; [congruence|].
    rewrite Hr in Hr'. injection Hr' as <-. by rewrite Hst in Hst'. }
  split; [done|]. destruct (inv_free _ _ HI id Hu) as (ph & Hph & Himp). by rewrite Hph, Himp.
Qed.

Lemma benign_refl t id : benign t t id.
Proof. by left. Qed.

Lemma statement_cases {B} (f : St table B) t b t' (P : table → Prop) :
  statement f t b t' → P t → P (f t).2 → P t'.
Proof. by intros [[_ ->] | (e & _ & [-> | ->])]. Qed.

(** A step that changes no claim. *)
Lemma inv_quiet t t' clock log log' pool i c (p p' : prog V A) cl :
  inv (MkSystem t clock log pool) cl → cl !! i = Some c → pool !! i = Some p →
  table_ok horizon t' ∧ (∀ id, benign t t' id) → (∀ id, observed id log' = observed id log) →
  disciplined start horizon c p' →
  inv (MkSystem t' clock log' (<[i := p']> pool)) (<[i := c]> cl).
Proof.
  intros HI Hc Hp [Ht Hb] Hlog Hp'. eapply inv_step; try done.
  - intros id Hid. split; [by left|]. destruct (inv_held _ _ HI i c id Hc Hid) as (_ & Hr & Ho).
    split; [|by rewrite Hlog]. destruct (Hb id) as [Eq|Hr']; [|done].
    destruct Hr as (r & Hr & Hst). exists r. split; [|done]. by rewrite <- Hr.
Qed.

(** A program takes up a record that was idle. *)
Lemma inv_take t t' clock log pool i (p p' : prog V A) cl id :
  inv (MkSystem t clock log pool) cl → cl !! i = Some Free → pool !! i = Some p →
  table_ok horizon t' → (∀ id', benign t t' id') →
  (∃ r, t_rows t' !! id = Some r ∧ i_Status r = IdempotencyStatusProcessing) →
  unheld cl id ∧ observed id log = Some Idle →
  disciplined start horizon (Claimed id) p' →
  inv (MkSystem t' clock log (<[i := p']> pool)) (<[i := Claimed id]> cl).
Proof.
  intros HI Hc Hp Ht Hb Hrow [Hu Hob] Hp'. eapply inv_step; try done.
  intros id' [= <-]. split; [by right|done].
Qed.

(** A program runs the operation of its record: only the observations of that record change. *)
Lemma inv_run t clock log pool i c c' (p p' : prog V A) cl id e :
  inv (MkSystem t clock log pool) cl → cl !! i = Some c → pool !! i = Some p →
  claim_id c = Some id → claim_id c' = Some id →
  observe id (Some (claim_phase c)) e = Some (claim_phase c') →
  (∀ id' q, id' ≠ id → observe id' q e = q) →
  disciplined start horizon c' p' →
  inv (MkSystem t clock (log ++ [e]) (<[i := p']> pool)) (<[i := c']> cl).
Proof.
  intros HI Hc Hp Hid Hid' He Hother Hp'. destruct (inv_held _ _ HI i c id Hc Hid) as (_ & Hr & Ho).
  cbn [s_table s_log] in Hr, Ho. eapply inv_step; try done.
  - apply (inv_table _ _ HI).
  - intros id1 H1 _. split; [|by left]. rewrite observed_app. cbn [foldl].
    apply Hother. congruence.
  - intros id1 H1. rewrite Hid' in H1. injection H1 as <-. split; [by left|]. split; [done|].
    rewrite observed_app, Ho. exact He.
  - intros id1 H1 H2. congruence.
Qed.

(** A program marks its record and lets it go. *)
Lemma inv_release t t' clock log pool i id ok st (p p' : prog V A) cl :
  inv (MkSystem t clock log pool) cl → cl !! i = Some (Ran id ok) → pool !! i = Some p →
  (t' = t ∨ marks horizon st id t t') → st ≠ IdempotencyStatusProcessing →
  (st = IdempotencyStatusFailedRetryable → ok = false) →
  disciplined start horizon Free p' →
  inv (MkSystem t' clock log (<[i := p']> pool)) (<[i := Free]> cl).
Proof.
  intros HI Hc Hp Ht' Hst Hok Hp'.
  destruct (inv_held _ _ HI i _ id Hc eq_refl) as (_ & (r & Hr & Hpr) & Ho).
  cbn [s_table s_log] in Hr, Hpr, Ho.
  eapply inv_step; try done.
  - destruct Ht' as [->|(? & _)]; [apply (inv_table _ _ HI)|done].
  - intros id1 H1 _. split; [done|]. left. destruct Ht' as [->|(_ & Hne & _)]; [done|].
    apply Hne. intros ->. by apply H1.
  - intros id1 H1 _. cbn in H1. injection H1 as <-. exists (claim_phase (Ran id ok)).
    split; [done|]. intros Hrow. destruct Ht' as [->|(_ & _ & Hm)].
    + destruct Hrow as [Hrow|(r' & Hr' & Hst')]; [congruence|].
      rewrite Hr in Hr'. injection Hr' as <-. by rewrite Hpr in Hst'.
    + destruct Hm as (r' & Hr' & Hst'); [by exists r|].
      destruct Hrow as [Hrow|(r2 & Hr2 & Hst2)]; [congruence|].
      rewrite Hr' in Hr2. injection Hr2 as <-. rewrite Hst' in Hst2. by rewrite (Hok Hst2).
Qed.

Lemma inv_thread t t' clock log pool i B (o : op V B) k b ev cl :
  inv (MkSystem t clock log pool) cl → pool !! i = Some (Do o k) →
  answers o clock t b t' ev →
  ∃ cl', inv (MkSystem t' clock (log ++ ev) (<[i := k b]> pool)) cl'.
Proof.
  intros HI Hp Ha. pose proof (inv_table _ _ HI) as Ht. pose proof (inv_clock _ _ HI) as Hck.
  cbn in Ht, Hck.
  destruct (Forall2_lookup_r _ _ _ _ _ (inv_pool _ _ HI) Hp) as (c & Hc & Hmay & Hd).
  exists (<[i := next o c b]> cl).
  destruct o as [|record|s h|id from now l e|id f l e|id st body e|id reason l e|[id|]|[id|]];
    cbn in Ha, Hmay.
  - destruct Ha as (-> & -> & ->). rewrite app_nil_r.
    eapply inv_quiet; try done; [split; [done|]; intros; apply benign_refl|].
    by apply (Hd clock).
  - destruct Ha as [Hs ->]. rewrite app_nil_r. destruct Hmay as (-> & Hst & He).
    pose proof (create_cases horizon clock record t Ht He Hst) as Hcr.
    destruct Hs as [[-> ->] | (err & -> & Ht')].
    + destruct (CreateProcessing clock record t) as [[[] record'] t2]; cbn [fst snd] in *;
        destruct Hcr as (Ht2 & Hb & Hown); cbn [next] in *.
      * destruct (Hown eq_refl) as (Hpos & Hnone & Hrow). eapply inv_take; try done.
        -- apply (inv_idle _ _ _ HI). by left.
        -- apply (Hd (inl (true, record'))). done.
      * eapply inv_quiet; try done. by apply (Hd (inl (false, record'))).
    + destruct (CreateProcessing clock record t) as [[owner record'] t2]; cbn [fst snd] in *.
      destruct Hcr as (Ht2 & Hb & _). cbn [next]. eapply inv_quiet; try done.
      * destruct Ht' as [-> | ->]; split; try done. intros; apply benign_refl.
      * by apply (Hd (inr err)).
  - destruct Ha as [Hs ->]. rewrite app_nil_r. subst c.
    assert (t' = t) as -> by (by destruct Hs as [[_ ->] | (err & _ & [-> | ->])]).
    eapply inv_quiet; try done; [split; [done|]; intros; apply benign_refl|]. apply (Hd b).
    destruct Hs as [[-> _] | (err & -> & _)]; cbn; [|done].
    destruct (find_key s h t) as [r|] eqn:Ef; [|done].
    apply find_key_some in Ef as (id & Hr & _). destruct Ht as (_ & Hrows & _).
    destruct (Hrows id r Hr) as (-> & ? & ?). lia.
  - destruct Ha as [Hs ->]. rewrite app_nil_r. destruct Hmay as (-> & -> & He).
    pose proof (reclaim_cases horizon clock id IdempotencyStatusFailedRetryable now l e t Ht He) as Hre.
    destruct Hs as [[-> ->] | (err & -> & Ht')].
    + destruct (TryReclaim clock id _ now l e t) as [[] t2]; cbn [fst snd] in *;
        destruct Hre as (Ht2 & Hb & Htk); cbn [next] in *.
      * destruct (Htk eq_refl) as (Hrow & Hrow'). eapply inv_take; try done.
        -- apply (inv_idle _ _ _ HI). by right.
        -- by apply (Hd (inl true)).
      * eapply inv_quiet; try done. by apply (Hd (inl false)).
    + destruct (TryReclaim clock id _ now l e t) as [taken t2]; cbn [fst snd] in *.
      destruct Hre as (Ht2 & Hb & _). cbn [next]. eapply inv_quiet; try done.
      * destruct Ht' as [-> | ->]; split; try done. intros; apply benign_refl.
      * by apply (Hd (inr err)).
  - done.
  - destruct Ha as [Hs ->]. rewrite app_nil_r. destruct Hmay as (-> & He). cbn [next].
    apply (inv_release t t' clock log pool i id true IdempotencyStatusSucceeded
      (Do (OpSucceeded id st body e) k) (k b) cl HI Hc Hp); try done; [|by apply (Hd b)].
    apply (statement_cases _ _ _ _ (λ t2, t2 = t ∨ marks horizon IdempotencyStatusSucceeded id t t2) Hs);
      [by left|right]. by apply succeeded_marks.
  - destruct Ha as [Hs ->]. rewrite app_nil_r. destruct Hmay as (-> & He). cbn [next].
    apply (inv_release t t' clock log pool i id false IdempotencyStatusFailedRetryable
      (Do (OpFailed id reason l e) k) (k b) cl HI Hc Hp); try done; [|by apply (Hd b)].
    apply (statement_cases _ _ _ _ (λ t2, t2 = t ∨ marks horizon IdempotencyStatusFailedRetryable id t t2) Hs);
      [by left|right]. by apply failed_marks.
  - destruct Ha as [-> ->]. subst c. cbn [next].
    eapply (inv_run t clock log pool i _ _ _ _ cl id); try done; [| |by apply (Hd b)].
    + cbn. by rewrite Z.eqb_refl.
    + intros id' [q|] Hne; cbn; [|done]. by destruct (Z.eqb_spec id id').
  - destruct Ha as [-> ->]. subst c. cbn [next].
    eapply inv_quiet; try done; [split; [done|]; intros; apply benign_refl| |by apply (Hd b)].
    intros id. rewrite observed_app. cbn [foldl]. by destruct (observed id log).
  - destruct Ha as [-> ->]. subst c. cbn [next].
    eapply (inv_run t clock log pool i _ _ _ _ cl id); try done; [| |by apply (Hd b)].
    + cbn. rewrite Z.eqb_refl. by destruct (is_ok b).
    + intros id' [q|] Hne; cbn; [|done]. by destruct (Z.eqb_spec id id').
  - destruct Ha as [-> ->]. subst c. cbn [next].
    eapply inv_quiet; try done; [split; [done|]; intros; apply benign_refl| |by apply (Hd b)].
    intros id. rewrite observed_app. cbn [foldl]. by destruct (observed id log).
Qed.

(** Disciplined programs keep the invariant whatever the system does. *)
Lemma inv_system arrives s s' cl :
  (∀ p, arrives p → disciplined start horizon Free p) →
  inv s cl → sys_step arrives horizon s s' → ∃ cl', inv s' cl'.
Proof.
  intros Harr HI Hstep. destruct Hstep as [t c log pool p Hp|t c log pool i B o k b t' ev Hp Ha
    |t c log pool c' Hc|t c log pool limit].
  - exists (cl ++ [Free]). destruct HI as [Hck Ht Hpool Hheld Hfree]. cbn in *. split; cbn; try done.
    + apply Forall2_app; [done|]. constructor; [by apply Harr|constructor].
    + intros i c0 id Hi Hc0. rewrite lookup_snoc_Some in Hi.
      destruct Hi as [[_ Hi]|[_ <-]]; [|done]. destruct (Hheld i c0 id Hi Hc0) as [Ho Hh].
      split; [|done]. intros j cj Hj Hcj. rewrite lookup_snoc_Some in Hj.
      destruct Hj as [[_ Hj]|[_ <-]]; [|done]. by apply (Ho j cj).
    + intros id Hu. apply Hfree. intros j cj Hj. apply (Hu j). by apply lookup_app_l_Some.
  - by eapply inv_thread.
  - exists cl. destruct HI as [Hck Ht Hpool Hheld Hfree]. cbn in *. split; cbn; try done. lia.
  - exists cl. destruct (inv_clock _ _ HI) as [_ Hck]. pose proof (inv_table _ _ HI) as Ht.
    by rewrite (cleanup_deletes_nothing horizon).
Qed.

Lemma inv_reachable arrives s0 s cl :
  (∀ p, arrives p → disciplined start horizon Free p) →
  inv s0 cl → reachable arrives horizon s0 s → ∃ cl', inv s cl'.
Proof.
  intros Harr H0 Hr. induction Hr as [|s s' _ (cl' & HI) Hstep]; [by exists cl|].
  by eapply inv_system.
Qed.

End Invariant.

(** ** The coordinator is disciplined *)

Section Programs.
Context {V N : Type} `{GoValues V N} (start horizon : Z).

Lemma disciplined_claimed cfg e id :
  horizon < e → 0 < id → disciplined start horizon (Claimed id) (run_claimed (V := V) cfg e id).
Proof.
  intros He Hid. unfold run_claimed.
  assert (E : (id =? 0) = false) by (apply Z.eqb_neq; lia). rewrite E.
  assert (E' : withIdempotencyRecordID id = Some id)
    by (unfold withIdempotencyRecordID; destruct (Z.leb_spec id 0); [lia|done]).
  rewrite E'. cbn. split; [done|]. intros _ _. split; [done|].
  intros [data|execErr] _; cbn.
  - destruct (marshalStoredResponse cfg data) as [body|err]; [|done].
    cbn. split; [done|]. by intros [[]|markErr] _.
  - split; [done|]. intros t _. split; [done|]. by intros _ _.
Qed.

Lemma disciplined_existing cfg now l e r :
  horizon < e → 0 < i_ID r →
  disciplined start horizon Free (answer_existing (V := V) cfg now l e r).
Proof.
  intros He Hid. unfold answer_existing. apply switch_all; [|done].
  repeat apply List.Forall_cons; try apply List.Forall_nil; cbn [snd]; try done.
  destruct (match i_LockedUntil r with Some l0 => now <? l0 | None => false end); [done|].
  cbn. split; [done|]. intros [[]|err] _; cbn; try done. by apply disciplined_claimed.
Qed.

Lemma disciplined_not_owner cfg scope keyHash fp now l e :
  now <= horizon → horizon < e →
  disciplined start horizon Free (not_owner (V := V) cfg scope keyHash fp now l e).
Proof.
  intros Hnow He. unfold not_owner. cbn. split; [done|].
  intros [[r|]|err] Hsane; cbn in *; try done. destruct Hsane as [Hid Hexp].
  destruct (negb (i_Fingerprint r ≟ fp)); [done|].
  destruct (Z.ltb_spec now (i_ExpiresAt r)); [|lia]. by apply disciplined_existing.
Qed.

Lemma disciplined_execute (c : IdempotencyCoordinator) (opts : IdempotencyExecuteOptions V) :
  horizon - start < effective_ttl (c_cfg c) opts →
  disciplined start horizon Free (Execute c opts).
Proof.
  intros Httl. unfold Execute. destruct (NormalizeIdempotencyKey _) as [key|err]; [|done].
  destruct (key ≟ "").
  { destruct (io_RequireKey opts && _); [done|]. cbn. split; [done|]. intros _ _.
    split; [done|]. by intros b _. }
  destruct (negb (c_repo c)); [done|]. destruct (io_Scope opts ≟ ""); [done|].
  destruct (BuildIdempotencyFingerprint _ _ _ _) as [fp|err]; [|done].
  unfold execute_keyed. cbn. split; [done|]. intros now Hnow. split; [split_and!; cbn; done || lia|].
  intros [[[] r]|err] Hsane; cbn in *; [| |done].
  - apply disciplined_claimed; [lia|done].
  - apply disciplined_not_owner; lia.
Qed.
End Programs.

(** ** One request after the other *)

Section Sequence.
Context {V N : Type} `{GoValues V N} `{!GoValuesLaws V N}.

Lemma find_key_insert s h t id row n :
  find_key s h t = None → i_Scope row = s → i_KeyHash row = h →
  find_key s h (MkTable (<[id := row]> (t_rows t)) n) = Some row.
Proof.
  intros Hn Hs Hh. destruct (find_key s h (MkTable _ n)) as [r|] eqn:E.
  - apply find_key_some in E as (i & Hr & Hs' & Hh'). cbn in Hr.
    apply lookup_insert_Some in Hr as [[_ ->]|[_ Hr]]; [done|].
    exfalso. by eapply find_key_none.
  - exfalso. apply (find_key_none _ _ _ E id row); [|done..]. cbn. by rewrite lookup_insert_eq.
Qed.

(** The row after the operation succeeded, and after it failed. *)
Definition succeeded_row (now expiresAt : Z) (body : string) (r : IdempotencyRecord)
    : IdempotencyRecord :=
  r{{ i_Status := IdempotencyStatusSucceeded;
      i_ResponseStatus := Some 200;
      i_ResponseBody := Some body;
      i_ErrorReason := None;
      i_LockedUntil := None;
      i_ExpiresAt := expiresAt;
      i_UpdatedAt := now }}.

Definition failed_row (now lockedUntil expiresAt : Z) (reason : string) (r : IdempotencyRecord)
    : IdempotencyRecord :=
  r{{ i_Status := IdempotencyStatusFailedRetryable;
      i_ErrorReason := Some reason;
      i_LockedUntil := Some lockedUntil;
      i_ExpiresAt := expiresAt;
      i_UpdatedAt := now }}.

Definition failure_reason (e : error) : string :=
  if Reason (Some e) ≟ "" then "EXECUTION_FAILED" else Reason (Some e).

Definition set_row (w : world) (id : Z) (r : IdempotencyRecord) (runs : list (option Z)) : world :=
  MkWorld (MkTable (<[id := r]> (t_rows (w_table w))) (t_nextID (w_table w))) (w_clock w) runs.

Lemma run_claimed_run cfg e id r w (outcome : result V) :
  t_rows (w_table w) !! id = Some r → 0 < id →
  run outcome (run_claimed cfg e id) w =
    match outcome with
    | inr err =>
        (inr err, set_row w id (failed_row (w_clock w) (w_clock w + ic_FailedRetryBackoff cfg) e
                                  (failure_reason err) r) (w_runs w ++ [Some id]))
    | inl data =>
        match marshalStoredResponse cfg data with
        | inr err => (unavailable err, MkWorld (w_table w) (w_clock w) (w_runs w ++ [Some id]))
        | inl body =>
            (inl (MkIdempotencyExecuteResult data false),
             set_row w id (succeeded_row (w_clock w) e body r) (w_runs w ++ [Some id]))
        end
    end.
Proof.
  intros Hr Hid. unfold run_claimed.
  assert (E : (id =? 0) = false) by (apply Z.eqb_neq; lia). rewrite E.
  assert (E' : withIdempotencyRecordID id = Some id)
    by (unfold withIdempotencyRecordID; destruct (Z.leb_spec id 0); [lia|done]).
  rewrite E'. destruct w as [[rows n] clock runs]. cbn in Hr.
  destruct outcome as [data|err]; cbn -[marshalStoredResponse].
  - unfold mbind, St_bind. cbn -[marshalStoredResponse].
    destruct (marshalStoredResponse cfg data) as [body|err]; [|done].
    cbn -[MarkSucceeded]. unfold on_table, MarkSucceeded, update_row, mbind, St_bind.
    cbn [w_table t_rows]. by rewrite Hr.
  - unfold mbind, St_bind. cbn -[MarkFailedRetryable Reason].
    unfold mbind, St_bind. cbn -[MarkFailedRetryable Reason].
    unfold on_table, MarkFailedRetryable, update_row, mbind, St_bind.
    cbn [w_table t_rows].  by rewrite Hr.
Qed.

Definition started_row (w : world) (cfg : IdempotencyConfig) (opts : IdempotencyExecuteOptions V)
    (key fp : string) : IdempotencyRecord :=
  (new_record (io_Scope opts) (HashIdempotencyKey key) fp (w_clock w + ic_ProcessingTimeout cfg)
     (w_clock w + effective_ttl cfg opts)){{ i_ID := t_nextID (w_table w);
                                            i_CreatedAt := w_clock w;
                                            i_UpdatedAt := w_clock w }}.

Definition started_world (w : world) (cfg : IdempotencyConfig) (opts : IdempotencyExecuteOptions V)
    (key fp : string) : world :=
  MkWorld (MkTable (<[t_nextID (w_table w) := started_row w cfg opts key fp]> (t_rows (w_table w)))
             (t_nextID (w_table w) + 1)) (w_clock w) (w_runs w).

(** A key nobody used: the record is made and the operation runs. *)
Lemma run_fresh cfg opts key fp w (outcome : result V) :
  find_key (io_Scope opts) (HashIdempotencyKey key) (w_table w) = None →
  run outcome (execute_keyed cfg opts key fp) w =
  run outcome (run_claimed cfg (w_clock w + effective_ttl cfg opts) (t_nextID (w_table w)))
    (started_world w cfg opts key fp).
Proof.
  intros Hf. unfold execute_keyed. destruct w as [[rows n] clock runs]. cbn in *.
  unfold mbind, St_bind, on_table. cbn. unfold CreateProcessing. cbn. by rewrite Hf.
Qed.

(** A key whose record is alive: the answer depends on the record. *)
Lemma run_existing cfg opts key fp w (outcome : result V) r :
  find_key (io_Scope opts) (HashIdempotencyKey key) (w_table w) = Some r →
  i_Fingerprint r = fp → w_clock w < i_ExpiresAt r →
  ∃ n, run outcome (execute_keyed cfg opts key fp) w =
    run outcome (answer_existing cfg (w_clock w) (w_clock w + ic_ProcessingTimeout cfg)
                   (w_clock w + effective_ttl cfg opts) r)
      (MkWorld (MkTable (t_rows (w_table w)) n) (w_clock w) (w_runs w)).
Proof.
  intros Hf Hfp He. unfold execute_keyed. destruct w as [[rows n] clock runs]. cbn in *.
  exists (n + 1). unfold mbind, St_bind, on_table. cbn. unfold CreateProcessing. cbn. rewrite Hf.
  cbn. unfold mbind, St_bind, on_table, GetByScopeAndKeyHash. cbn.
  unfold find_key in *. cbn in *. rewrite Hf. cbn.
  rewrite Hfp, String.eqb_refl. cbn. by destruct (Z.ltb_spec clock (i_ExpiresAt r)); [|lia].
Qed.

Lemma run_conflict cfg opts key fp w (outcome : result V) r :
  find_key (io_Scope opts) (HashIdempotencyKey key) (w_table w) = Some r →
  i_Fingerprint r ≠ fp →
  (run outcome (execute_keyed cfg opts key fp) w).1 = inr (as_error ErrIdempotencyKeyConflict) ∧
  w_runs (run outcome (execute_keyed cfg opts key fp) w).2 = w_runs w ∧
  t_rows (w_table (run outcome (execute_keyed cfg opts key fp) w).2) = t_rows (w_table w).
Proof.
  intros Hf Hfp. unfold execute_keyed. destruct w as [[rows n] clock runs]. cbn in *.
  unfold mbind, St_bind, on_table. cbn. unfold CreateProcessing. cbn. rewrite Hf.
  cbn. unfold mbind, St_bind, on_table, GetByScopeAndKeyHash. cbn.
  unfold find_key in *. cbn in *. rewrite Hf. cbn.
  apply String.eqb_neq in Hfp. by rewrite Hfp.
Qed.

(** A request the coordinator takes to the store, with its normalized key and fingerprint. *)
Definition accepts (c : IdempotencyCoordinator) (opts : IdempotencyExecuteOptions V)
    (key fp : string) : Prop :=
  NormalizeIdempotencyKey (io_IdempotencyKey opts) = inl key ∧ key ≠ "" ∧ c_repo c = true ∧
  io_Scope opts ≠ "" ∧
  BuildIdempotencyFingerprint (io_Method opts) (io_Route opts) (io_ActorScope opts)
    (io_Payload opts) = inl fp.

Lemma accepts_keyed c opts key fp :
  accepts c opts key fp → Execute c opts = execute_keyed (c_cfg c) opts key fp.
Proof.
  intros (Hk & Hne & Hrepo & Hs & Hfp). unfold Execute. rewrite Hk, Hrepo, Hfp.
  apply String.eqb_neq in Hne, Hs. by rewrite Hne, Hs.
Qed.

(** A small value with nothing sensitive is stored as it is, and read back. *)
Definition stored_whole (cfg : IdempotencyConfig) (j : json N) (raw : string) : Prop :=
  Marshal (of_json j) = inl raw ∧ innocuous 33 j = true ∧
  (ic_MaxStoredResponseLen cfg <= 0 ∨
   Z.of_nat (String.length raw) <= ic_MaxStoredResponseLen cfg).

Lemma stored_roundtrip cfg j raw :
  stored_whole cfg j raw →
  marshalStoredResponse cfg (of_json j) = inl raw ∧
  decodeStoredResponse (Some raw) = inl (of_json j).
Proof.
  intros (Hm & Hi & Hlen). destruct (marshal_valid _ _ Hm) as (Hv & Htr & Hne).
  pose proof (marshal_decodes _ _ Hm) as Hd. apply String.eqb_neq in Hne.
  assert (Hr : RedactText raw = raw).
  { unfold RedactText, RedactJSON. by rewrite Htr, Hne, Hv, Hd, redact_innocuous, Hm. }
  unfold marshalStoredResponse, decodeStoredResponse. rewrite Hm, Hr, Htr, Hne, Hd.
  split; [|done].
  destruct (Z.ltb_spec 0 (ic_MaxStoredResponseLen cfg)); [|done].
  destruct (Z.ltb_spec (ic_MaxStoredResponseLen cfg) (Z.of_nat (String.length raw))); [lia|done].
Qed.

Definition later (d : Z) (w : world) : world := MkWorld (w_table w) (w_clock w + d) (w_runs w).

(** The world after the first request for a key. *)
Definition settled (w : world) (row : IdempotencyRecord) : world :=
  MkWorld (MkTable (<[t_nextID (w_table w) := row]> (t_rows (w_table w)))
             (t_nextID (w_table w) + 1)) (w_clock w) (w_runs w ++ [Some (t_nextID (w_table w))]).

Lemma existing_succeeded cfg now l e r :
  i_Status r = IdempotencyStatusSucceeded →
  answer_existing (V := V) cfg now l e r =
  mret (match decodeStoredResponse (i_ResponseBody r) with
        | inr parseErr => unavailable parseErr
        | inl data => inl (MkIdempotencyExecuteResult data true)
        end).
Proof. intros Hs. unfold answer_existing. by rewrite Hs. Qed.

Lemma existing_failed cfg now l e r lu id w (outcome : result V) :
  i_Status r = IdempotencyStatusFailedRetryable → i_LockedUntil r = Some lu → i_ID r = id →
  t_rows (w_table w) !! id = Some r →
  run outcome (answer_existing cfg now l e r) w =
    if now <? lu then (inr (conflictWithRetryAfter ErrIdempotencyRetryBackoff (Some lu) now), w)
    else run outcome (run_claimed cfg e id)
           (set_row w id (r{{ i_Status := IdempotencyStatusProcessing;
                              i_LockedUntil := Some l;
                              i_ErrorReason := None;
                              i_UpdatedAt := w_clock w;
                              i_ExpiresAt := e }}) (w_runs w)).
Proof.
  intros Hs Hl Hid Hr. unfold answer_existing. rewrite Hs, Hl, Hid.
  change (switch IdempotencyStatusFailedRetryable _ _) with
    (if now <? lu then
       mret (inr (conflictWithRetryAfter ErrIdempotencyRetryBackoff (Some lu) now)) else
     taken ← call (OpReclaim id IdempotencyStatusFailedRetryable now l e);
     match taken with
     | inr reclaimErr => mret (unavailable (V := V) reclaimErr)
     | inl false => mret (inr (conflictWithRetryAfter ErrIdempotencyInProgress (Some lu) now))
     | inl true => run_claimed cfg e id
     end).
  destruct (Z.ltb_spec now lu) as [Hlt|Hge]; [done|].
  assert (Et : TryReclaim (w_clock w) id IdempotencyStatusFailedRetryable now l e (w_table w) =
    (true, MkTable (<[id := r{{ i_Status := IdempotencyStatusProcessing;
                              i_LockedUntil := Some l;
                              i_ErrorReason := None;
                              i_UpdatedAt := w_clock w;
                              i_ExpiresAt := e }}]> (t_rows (w_table w))) (t_nextID (w_table w)))).
  { unfold TryReclaim, update_row, mbind, St_bind. rewrite Hr, Hs, Hl.
    destruct (Z.leb_spec lu now); [done|lia]. }
  unfold call. cbn [mbind prog_bind run perform]. unfold mbind, St_bind, on_table.
  rewrite Et. done.
Qed.

Lemma run_first c opts key fp w (outcome : result V) :
  accepts c opts key fp →
  find_key (io_Scope opts) (HashIdempotencyKey key) (w_table w) = None →
  0 < t_nextID (w_table w) →
  run outcome (Execute c opts) w =
    let cfg := c_cfg c in
    let e := w_clock w + effective_ttl cfg opts in
    let r := started_row w cfg opts key fp in
    match outcome with
    | inr err =>
        (inr err, settled w (failed_row (w_clock w) (w_clock w + ic_FailedRetryBackoff cfg) e
                               (failure_reason err) r))
    | inl data =>
        match marshalStoredResponse cfg data with
        | inr err => (unavailable err, settled w r)
        | inl body => (inl (MkIdempotencyExecuteResult data false),
                       settled w (succeeded_row (w_clock w) e body r))
        end
    end.
Proof.
  intros Ha Hf Hn. rewrite (accepts_keyed c opts key fp Ha), (run_fresh _ _ _ _ _ _ Hf).
  rewrite (run_claimed_run _ _ _ (started_row w (c_cfg c) opts key fp));
    [|cbn [started_world w_table t_rows]; by rewrite lookup_insert_eq|done].
  unfold set_row, started_world, settled. cbn [w_table t_rows t_nextID w_clock w_runs].
  destruct outcome as [data|err]; [destruct (marshalStoredResponse (c_cfg c) data)|];
    by rewrite ?insert_insert_eq.
Qed.

End Sequence.
