(* ===== verification/IdempotencyLaws.v ===== *)
(** * IdempotencyLaws: the guarantees of the idempotency coordinator

    The theorems about [Execute], with samples of the standard library's conversions on which
    they are evaluated, and three places where the code does not keep its promise. *)

From stdpp Require Import base tactics numbers list strings gmap sorting.
From Stdlib Require Import ZArith Lia.
From S2P Require Import Prelude GoLib GoJson AppErrors LogRedact IdempotencyStore Idempotency.
From S2P Require Import IdempotencyFacts.

Local Open Scope go_scope.
Local Open Scope Z_scope.

(** ** A scheduler *)

Section Schedule.
Context {V A : Type} (outcome : result V).

(** A statement that answers. *)
Definition settle {B : Type} (f : St table B) (t : table) : result B * table * list event :=
  (inl (f t).1, (f t).2, []).

(** One step of a program on a store that answers, the operation's outcome given. *)
Definition act {B : Type} (o : op V B) : Z → table → B * table * list event :=
  match o in op _ B return Z → table → B * table * list event with
  | OpNow => λ clock t, (clock, t, [])
  | OpCreate r => λ clock, settle (CreateProcessing clock r)
  | OpGet s h => λ _, settle (GetByScopeAndKeyHash s h)
  | OpReclaim id st now l e => λ clock, settle (TryReclaim clock id st now l e)
  | OpExtend id f l e => λ clock, settle (ExtendProcessingLock clock id f l e)
  | OpSucceeded id st body e => λ clock, settle (MarkSucceeded clock id st body e)
  | OpFailed id r l e => λ clock, settle (MarkFailedRetryable clock id r l e)
  | OpStart id => λ _ t, (tt, t, [Started id])
  | OpFinish id => λ _ t, (outcome, t, [Finished id (is_ok outcome)])
  end.

Lemma act_answers {B} (o : op V B) clock t :
  let '(b, t', ev) := act o clock t in answers o clock t b t' ev.
Proof.
  destruct o; cbn -[statement]; try done; split; try done; by left.
Qed.

(** The program at index [i] steps. *)
Definition tick (s : system V A) (i : nat) : system V A :=
  match s_pool s !! i with
  | Some (Do o k) =>
      let '(b, t', ev) := act o (s_clock s) (s_table s) in
      MkSystem t' (s_clock s) (s_log s ++ ev) (<[i := k b]> (s_pool s))
  | _ => s
  end.

Lemma schedule_reachable arrives horizon s0 s l :
  reachable arrives horizon s0 s → reachable arrives horizon s0 (foldl tick s l).
Proof.
  revert s. induction l as [|i l IH]; intros s Hs; [done|]. cbn. apply IH. unfold tick.
  destruct (s_pool s !! i) as [[a|B o k]|] eqn:Ei; [done| |done].
  pose proof (act_answers o (s_clock s) (s_table s)) as Ha.
  destruct (act o (s_clock s) (s_table s)) as [[b t'] ev]. eapply reach_step; [done|].
  destruct s as [t c log pool]. cbn in Ei, Ha |- *. by apply (step_thread _ _ _ _ _ _ _ _ o k).
Qed.

Lemma pool_reachable (arrives : prog V A → Prop) horizon t c ps :
  Forall arrives ps →
  reachable arrives horizon (MkSystem t c [] []) (MkSystem t c [] ps).
Proof.
  induction ps as [|p ps IH] using rev_ind; [intros _; apply reach_refl|].
  intros [Hps Hp]%Forall_app. eapply reach_step; [by apply IH|]. apply step_arrive.
  by inversion_clear Hp.
Qed.
End Schedule.

(** ** Samples of the standard library's conversions *)

(** Booleans, whose conversions obey the documented laws; [None] does not marshal. *)
#[export] Instance bool_values : GoValues (option bool) Z := {|
  Marshal v := match v with
               | Some true => inl "true" | Some false => inl "false"
               | None => inr (EPlain "json: unsupported type")
               end;
  of_json j := match j with JBool b => Some b | _ => None end;
  Unmarshal s := if s ≟ "true" then inl (JBool true) else if s ≟ "false" then inl (JBool false)
                 else inr (EPlain "invalid character");
  ToLower k := k;
  ToUpper k := k;
  sha256_hex k := k;
  redact_patterns k := k |}.

#[export] Instance bool_values_laws : GoValuesLaws (option bool) Z.
Proof.
  constructor.
  - intros v raw Hm. destruct v as [[]|]; [..|done]; injection Hm as <-; by vm_compute.
  - intros j raw Hm. destruct j as [|[]| | | |]; try done; by injection Hm as <-.
  - intros raw j Hu. cbn in Hu. destruct (raw ≟ "true"); [injection Hu as <-; by eexists|].
    destruct (raw ≟ "false"); [injection Hu as <-; by eexists|done].
Qed.

Definition sample_config : IdempotencyConfig :=
  MkIdempotencyConfig (100 * Second) (100 * Second) (30 * Second) (5 * Second) 40 false.

Definition sample_coordinator : IdempotencyCoordinator :=
  NewIdempotencyCoordinator true sample_config.

Definition sample_options {V : Type} (payload : V) : IdempotencyExecuteOptions V :=
  MkIdempotencyExecuteOptions "admin" "user:1" "POST" "/things" "key-1" payload 0 true.

(** ** At most once *)

(** C2: however many requests arrive, however they interleave, whatever process dies and
    whichever statement fails with or without taking effect, while records outlive the requests'
    time to live: the operation of a record never starts while it is running, and never again
    once it succeeded; and no two records have one scope and key. *)
Theorem operation_succeeds_at_most_once {V N : Type} `{GoValues V N} c start horizon t s :
  start <= horizon → table_ok horizon t →
  reachable (λ p, ∃ opts, horizon - start < effective_ttl (c_cfg c) opts ∧ p = Execute c opts)
    horizon (MkSystem t start [] []) s →
  (∀ id, is_Some (observed id (s_log s))) ∧
  (∀ i j r r', t_rows (s_table s) !! i = Some r → t_rows (s_table s) !! j = Some r' →
     i_Scope r = i_Scope r' → i_KeyHash r = i_KeyHash r' → i = j).
Proof.
  intros Hle Ht Hr.
  assert (H0 : inv start horizon (MkSystem (V := V) (A := answer (V := V)) t start [] []) []).
  { split; cbn; try done. intros id _. exists Idle. by split. }
  assert (HI : ∃ cl, inv start horizon s cl); [eapply inv_reachable; [|exact H0|exact Hr]|].
  - intros p (opts & Httl & ->). by apply disciplined_execute.
  - destruct HI as [cl HI]. split; [|by destruct (inv_table _ _ _ _ HI) as (_ & _ & Hu)].
    intros id. by eapply inv_observed.
Qed.

Definition sample_pool : list (prog (option bool) (answer (V := option bool))) :=
  [Execute sample_coordinator (sample_options (Some true));
   Execute sample_coordinator (sample_options (Some true))].

(** Two requests with one key, interleaved: the operation runs once. *)
Lemma operation_succeeds_at_most_once_witness :
  let s := foldl (tick (inl (Some true))) (MkSystem empty_table 0 [] sample_pool)
             [0; 1; 0; 1; 0; 1; 0; 0; 1]%nat in
  s_log s = [Started (Some 1); Finished (Some 1) true] ∧
  (∀ id, is_Some (observed id (s_log s))) ∧
  (∀ i j r r', t_rows (s_table s) !! i = Some r → t_rows (s_table s) !! j = Some r' →
     i_Scope r = i_Scope r' → i_KeyHash r = i_KeyHash r' → i = j).
Proof.
  intros s. split; [by vm_compute|].
  apply (operation_succeeds_at_most_once sample_coordinator 0 (99 * Second) empty_table).
  - vm_compute. discriminate.
  - split; [by vm_compute|]. split; [apply map_Forall_empty|].
    intros i j r r' Hi. change (t_rows empty_table) with (∅ : gmap Z IdempotencyRecord) in Hi.
    by rewrite lookup_empty in Hi.
  - apply schedule_reachable, pool_reachable. repeat constructor;
      exists (sample_options (Some true)); by split.
Defined.

(** ** Requests one after the other *)

Section Sequence.
Context {V N : Type} `{GoValues V N} `{!GoValuesLaws V N}.

(** C26: a repeated request replays, when its answer is stored whole: the answer encodes, holds
    no member that is masked in logs, is not nested deeper than the masking goes, and is within
    the limit on stored responses.  Then, once the operation of a request with a valid key that
    had no record yet succeeded, with no statement failing, every later request with the same key
    and payload, until the record expires, gets the same data marked as replayed, and the
    operation does not run again.  Answers that are not stored whole are not replayed as they
    were: [replay_masks_redeem_code], [replay_of_long_response_fails]. *)
Theorem replay_returns_first_answer c opts key fp w j raw :
  accepts c opts key fp →
  find_key (io_Scope opts) (HashIdempotencyKey key) (w_table w) = None →
  0 < t_nextID (w_table w) → stored_whole (c_cfg c) j raw →
  let '(first, w1) := run (inl (of_json j)) (Execute c opts) w in
  first = inl (MkIdempotencyExecuteResult (of_json j) false) ∧
  w_runs w1 = w_runs w ++ [Some (t_nextID (w_table w))] ∧
  ∀ d outcome, 0 <= d < effective_ttl (c_cfg c) opts →
    let '(second, w2) := run outcome (Execute c opts) (later d w1) in
    second = inl (MkIdempotencyExecuteResult (of_json j) true) ∧ w_runs w2 = w_runs w1.
Proof.
  intros Ha Hf Hn Hst. destruct (stored_roundtrip _ _ _ Hst) as [Hm Hd].
  rewrite (run_first c opts key fp w _ Ha Hf Hn). cbv zeta. rewrite Hm.
  split; [done|]. split; [done|].
  intros d outcome Hdt. rewrite (accepts_keyed c opts key fp Ha).
  set (row := succeeded_row _ _ _ _).
  destruct (run_existing (c_cfg c) opts key fp (later d (settled w row)) outcome row) as [n ->].
  - by apply find_key_insert.
  - done.
  - change (w_clock w + d < w_clock w + effective_ttl (c_cfg c) opts). lia.
  - rewrite existing_succeeded by done. change (i_ResponseBody row) with (Some raw). by rewrite Hd.
Qed.

(** C30: a failed operation may be retried, but not at once: within the backoff a repeated
    request is refused with the time to wait and the operation does not run; from the end of the
    backoff until the record expires it runs again, and its outcome is the answer. *)
Theorem failure_is_retried_after_backoff c opts key fp w err :
  accepts c opts key fp →
  find_key (io_Scope opts) (HashIdempotencyKey key) (w_table w) = None →
  0 < t_nextID (w_table w) →
  let '(first, w1) := run (inr err) (Execute c opts) w in
  let backoff := ic_FailedRetryBackoff (c_cfg c) in
  first = inr err ∧ w_runs w1 = w_runs w ++ [Some (t_nextID (w_table w))] ∧
  ∀ d outcome, 0 <= d < effective_ttl (c_cfg c) opts →
    let '(second, w2) := run outcome (Execute c opts) (later d w1) in
    if d <? backoff then
      second = inr (conflictWithRetryAfter ErrIdempotencyRetryBackoff (Some (w_clock w + backoff))
                      (w_clock w + d)) ∧ w_runs w2 = w_runs w1
    else
      w_runs w2 = w_runs w1 ++ [Some (t_nextID (w_table w))] ∧
      second = match outcome with
               | inr err' => inr err'
               | inl data =>
                   match marshalStoredResponse (c_cfg c) data with
                   | inr err' => unavailable err'
                   | inl _ => inl (MkIdempotencyExecuteResult data false)
                   end
               end.
Proof.
  intros Ha Hf Hn. rewrite (run_first c opts key fp w _ Ha Hf Hn). cbv zeta.
  split; [done|]. split; [done|]. intros d outcome Hdt. rewrite (accepts_keyed c opts key fp Ha).
  set (row := failed_row _ _ _ _ _). set (id := t_nextID (w_table w)).
  destruct (run_existing (c_cfg c) opts key fp (later d (settled w row)) outcome row) as [n ->].
  { by apply find_key_insert. } { done. }
  { change (w_clock w + d < w_clock w + effective_ttl (c_cfg c) opts). lia. }
  rewrite (existing_failed _ _ _ _ row (w_clock w + ic_FailedRetryBackoff (c_cfg c)) id); try done;
    [|cbn [settled later w_table t_rows]; by rewrite lookup_insert_eq].
  change (w_clock (later d (settled w row))) with (w_clock w + d).
  destruct (Z.ltb_spec d (ic_FailedRetryBackoff (c_cfg c))) as [Hlt|Hge];
    destruct (Z.ltb_spec (w_clock w + d) (w_clock w + ic_FailedRetryBackoff (c_cfg c))); try lia; [done|].
  erewrite (run_claimed_run _ _ id); [|cbn [set_row w_table t_rows]; by rewrite lookup_insert_eq|done].
  destruct outcome as [data|err']; [destruct (marshalStoredResponse (c_cfg c) data)|]; done.
Qed.

(** A key belongs to the request it was first used for: with another payload, method, route
    or actor it is refused, whatever became of the first request; the operation does not run and
    no record changes. *)
Theorem other_request_conflicts c opts key fp w r (outcome : result V) :
  accepts c opts key fp →
  find_key (io_Scope opts) (HashIdempotencyKey key) (w_table w) = Some r →
  i_Fingerprint r ≠ fp →
  let '(ans, w') := run outcome (Execute c opts) w in
  ans = inr (as_error ErrIdempotencyKeyConflict) ∧ w_runs w' = w_runs w ∧
  t_rows (w_table w') = t_rows (w_table w).
Proof.
  intros Ha Hf Hfp. rewrite (accepts_keyed c opts key fp Ha).
  pose proof (run_conflict (c_cfg c) opts key fp w outcome r Hf Hfp) as Hc.
  by destruct (run outcome (execute_keyed (c_cfg c) opts key fp) w).
Qed.

End Sequence.

Definition sample_world : world := MkWorld empty_table 1000 [].

Definition sample_fingerprint (raw : string) : string :=
  "POST" +:+ newline +:+ "/things" +:+ newline +:+ "user:1" +:+ newline +:+ raw.

Lemma sample_accepts (b : bool) :
  accepts sample_coordinator (sample_options (Some b)) "key-1"
    (sample_fingerprint (if b then "true" else "false")).
Proof. by destruct b. Qed.

Definition sample_request : IdempotencyExecuteOptions (option bool) := sample_options (Some true).

Lemma replay_returns_first_answer_witness :
  let '(first, w1) := run (inl (of_json (JBool false))) (Execute sample_coordinator sample_request) sample_world in
  first = inl (MkIdempotencyExecuteResult (of_json (JBool false)) false) ∧
  w_runs w1 = w_runs sample_world ++ [Some (t_nextID (w_table sample_world))] ∧
  ∀ d outcome, 0 <= d < effective_ttl (c_cfg sample_coordinator) sample_request →
    let '(second, w2) := run outcome (Execute sample_coordinator sample_request) (later d w1) in
    second = inl (MkIdempotencyExecuteResult (of_json (JBool false)) true) ∧ w_runs w2 = w_runs w1.
Proof.
  apply (replay_returns_first_answer sample_coordinator sample_request "key-1"
    (sample_fingerprint "true") sample_world (JBool false) "false").
  - apply (sample_accepts true).
  - by vm_compute.
  - by vm_compute.
  - split; [done|]. split; [done|]. right. by vm_compute.
Defined.

Lemma failure_is_retried_after_backoff_witness :
  let '(first, w1) := run (inr (EPlain "upstream timed out")) (Execute sample_coordinator sample_request) sample_world in
  let backoff := ic_FailedRetryBackoff (c_cfg sample_coordinator) in
  first = inr (EPlain "upstream timed out") ∧ w_runs w1 = w_runs sample_world ++ [Some (t_nextID (w_table sample_world))] ∧
  ∀ d outcome, 0 <= d < effective_ttl (c_cfg sample_coordinator) sample_request →
    let '(second, w2) := run outcome (Execute sample_coordinator sample_request) (later d w1) in
    if d <? backoff then
      second = inr (conflictWithRetryAfter ErrIdempotencyRetryBackoff
                      (Some (w_clock sample_world + backoff)) (w_clock sample_world + d)) ∧
      w_runs w2 = w_runs w1
    else
      w_runs w2 = w_runs w1 ++ [Some (t_nextID (w_table sample_world))] ∧
      second = match outcome with
               | inr err' => inr err'
               | inl data =>
                   match marshalStoredResponse (c_cfg sample_coordinator) data with
                   | inr err' => unavailable err'
                   | inl _ => inl (MkIdempotencyExecuteResult data false)
                   end
               end.
Proof.
  apply (failure_is_retried_after_backoff sample_coordinator sample_request "key-1"
    (sample_fingerprint "true") sample_world (EPlain "upstream timed out")).
  - apply (sample_accepts true).
  - by vm_compute.
  - by vm_compute.
Defined.

Definition sample_row : IdempotencyRecord :=
  (new_record "admin" "key-1" (sample_fingerprint "true") 500 100000){{ i_ID := 1 }}.

Definition sample_busy_world : world := MkWorld (MkTable {[ 1 := sample_row ]} 2) 1000 [].

Lemma other_request_conflicts_witness :
  let '(ans, w') := run (inl None) (Execute sample_coordinator (sample_options (Some false))) sample_busy_world in
  ans = inr (as_error ErrIdempotencyKeyConflict) ∧ w_runs w' = w_runs sample_busy_world ∧
  t_rows (w_table w') = t_rows (w_table sample_busy_world).
Proof.
  apply (other_request_conflicts sample_coordinator (sample_options (Some false)) "key-1"
    (sample_fingerprint "false") sample_busy_world sample_row (inl None)).
  - apply (sample_accepts false).
  - by vm_compute.
  - by vm_compute.
Defined.

(** ** Where the promise is not kept *)

(** JSON as the program writes it, for the values the examples use. *)
Fixpoint show (v : json Z) : string :=
  match v with
  | JNull => "null"
  | JBool true => "true"
  | JBool false => "false"
  | JNumber n => FormatInt n
  | JString s => MarshalString s
  | JArray l => "[" +:+ comma_join (map show l) +:+ "]"
  | JObject m => "{" +:+ comma_join (map (λ p, MarshalString p.1 +:+ ":" +:+ show p.2) m) +:+ "}"
  end.

Definition code_response (code : string) : json Z :=
  JObject [("code", JString code); ("id", JNumber 7)].

Definition long_response : json Z := JString "0123456789012345678901234567890123456789".

#[local] Instance json_values : GoValues (json Z) Z := {|
  Marshal v := inl (show v);
  of_json j := j;
  Unmarshal raw :=
    match List.find (λ v, show v ≟ raw)
            [code_response "ABC-123"; code_response "***"; long_response] with
    | Some v => inl v
    | None => inr (EPlain "invalid character")
    end;
  ToLower k := k;
  ToUpper k := k;
  sha256_hex k := k;
  redact_patterns k := k |}.

Definition json_request : IdempotencyExecuteOptions (json Z) := sample_options JNull.

(** The answers to a request and to its repetition one second later. *)
Definition twice (data : json Z) : answer * answer :=
  let '(first, w1) := run (inl data) (Execute sample_coordinator json_request) sample_world in
  (first, (run (inl data) (Execute sample_coordinator json_request) (later Second w1)).1).

(** The stored response went through the redaction meant for logs: a client that lost the answer
    to its redeem-code request and repeats it gets three stars for the code. *)
Example replay_masks_redeem_code :
  twice (code_response "ABC-123") =
  (inl (MkIdempotencyExecuteResult (code_response "ABC-123") false),
   inl (MkIdempotencyExecuteResult (code_response "***") true)).
Proof. by vm_compute. Qed.

(** A response longer than the limit is stored cut short, which is no JSON: the repetition of a
    request that succeeded is told the store is unavailable. *)
Example replay_of_long_response_fails :
  match twice long_response with
  | (inl first, inr e) => ir_Replayed first = false ∧ Code (Some e) = 503
  | _ => False
  end ∧
  match marshalStoredResponse sample_config long_response with
  | inl stored => Valid stored = false
  | inr _ => False
  end.
Proof. by vm_compute. Qed.

(** Two requests find the record of an earlier one expired.  The first reclaims it, runs and
    succeeds; the second's [TryReclaim] asks for the status it read, "succeeded", and for no
    expired time: it takes the fresh record and the operation succeeds a second time within one
    time to live. *)
Definition expired_row : IdempotencyRecord :=
  sample_row{{ i_Status := IdempotencyStatusSucceeded; i_LockedUntil := None;
               i_ExpiresAt := 900 }}.

Definition reclaim_race : system (option bool) (answer (V := option bool)) :=
  foldl (tick (inl (Some true)))
    (MkSystem (MkTable {[ 1 := expired_row ]} 2) 1000 [] sample_pool)
    [0; 0; 0; 1; 1; 1; 0; 0; 0; 0; 1; 1; 1]%nat.

Example expired_record_runs_twice :
  s_log reclaim_race =
    [Started (Some 1); Finished (Some 1) true; Started (Some 1); Finished (Some 1) true] ∧
  reachable (λ p, ∃ opts, p = Execute sample_coordinator opts) 1000
    (MkSystem (MkTable {[ 1 := expired_row ]} 2) 1000 [] []) reclaim_race.
Proof.
  split; [by vm_compute|]. apply schedule_reachable, pool_reachable.
  repeat constructor; by eexists.
Qed.
