(* ===== verification/SystemLock.v ===== *)
(** * SystemLock: the global lock of system operations

    Models [backend/internal/service/system_operation_lock_service.go]: a lease on one record of
    the idempotency table, renewed in the background.  [Acquire] answers with the goroutine it
    starts; [renewLoop] is a program with one iteration per tick of its ticker.  The step relation
    at the end runs calls, goroutines and releases of any number of processes in turns; a nil
    service, store or context has no counterpart. *)

From stdpp Require Import base tactics numbers list strings gmap sorting.
From Stdlib Require Import ZArith Lia.
From S2P Require Import Prelude GoLib GoJson AppErrors LogRedact IdempotencyStore Idempotency.
From S2P Require Import IdempotencyFacts.

Local Open Scope go_scope.
Local Open Scope Z_scope.

Definition systemOperationLockScope : string := "admin.system.operations.global_lock".
Definition systemOperationLockKey : string := "global-system-operation-lock".

Definition ErrSystemOperationBusy : ApplicationError :=
  Conflict "SYSTEM_OPERATION_BUSY" "another system operation is in progress".

Record SystemOperationLock : Type := MkSystemOperationLock {
  sl_recordID : Z;
  sl_operationID : string
}.

Record SystemOperationLockService : Type := MkSystemOperationLockService {
  ss_lease : Z;
  ss_renewInterval : Z;
  ss_ttl : Z
}.

Definition NewSystemOperationLockService (cfg : IdempotencyConfig) : SystemOperationLockService :=
  let lease := ic_ProcessingTimeout cfg in
  let lease := if lease <=? 0 then 30 * Second else lease in
  let renewInterval := lease /! 3 in
  let renewInterval := if renewInterval <? Second then Second else renewInterval in
  let ttl := ic_SystemOperationTTL cfg in
  let ttl := if ttl <=? 0 then Hour else ttl in
  MkSystemOperationLockService lease renewInterval ttl.

Definition busyError (operationID : string) (lockedUntil : option Z) (now : Z) : error :=
  let metadata : gmap string string := ∅ in
  let metadata := if operationID ≟ "" then metadata
                  else <["operation_id" := operationID]> metadata in
  let metadata :=
    match lockedUntil with
    | None => metadata
    | Some l =>
        let sec := int_seconds (time_sub l now) in
        let sec := if sec <=? 0 then 1 else sec in
        <["retry_after" := FormatInt sec]> metadata
    end in
  if (Z.of_nat (size metadata) =? 0) then as_error ErrSystemOperationBusy
  else as_error (WithMetadata ErrSystemOperationBusy (Some metadata)).

Section Lock.
Context {V N : Type} `{GoValues V N}.

Definition lock_record (operationID : string) (lockedUntil expiresAt : Z) : IdempotencyRecord :=
  new_record systemOperationLockScope (HashIdempotencyKey systemOperationLockKey) operationID
    lockedUntil expiresAt.

(** What [Acquire] returns, with the goroutines it has started. *)
Inductive goroutine : Type := GoRenewLoop (lock : SystemOperationLock).
Definition acquired : Type := result SystemOperationLock * list goroutine.

Definition refused (err : error) : acquired := (inr err, []).

(** The end of [Acquire]: the lock of the claimed record, and [go s.renewLoop(lock)]. *)
Definition locked (id : Z) (operationID : string) : acquired :=
  if id =? 0 then refused (as_error ErrIdempotencyStoreUnavail)
  else let lock := MkSystemOperationLock id operationID in (inl lock, [GoRenewLoop lock]).

Definition store_unavailable (cause : error) : acquired :=
  refused (as_error (WithCause ErrIdempotencyStoreUnavail cause)).

(** [Acquire] once the record was found to exist. *)
Definition take_over (operationID : string)
    (now lockedUntil expiresAt : Z) : prog V acquired :=
  let keyHash := HashIdempotencyKey systemOperationLockKey in
  got ← call (OpGet systemOperationLockScope keyHash);
  match got with
  | inr getErr => mret (store_unavailable getErr)
  | inl None => mret (refused (as_error ErrIdempotencyStoreUnavail))
  | inl (Some existing) =>
      if (i_Status existing ≟ IdempotencyStatusProcessing) &&
         match i_LockedUntil existing with Some l => now <? l | None => false end
      then mret (refused (busyError (i_Fingerprint existing) (i_LockedUntil existing) now)) else
      reclaimed ← call (OpReclaim (i_ID existing) (i_Status existing) now lockedUntil expiresAt);
      match reclaimed with
      | inr reclaimErr => mret (store_unavailable reclaimErr)
      | inl true => mret (locked (i_ID existing) operationID)
      | inl false =>
          latest ← call (OpGet systemOperationLockScope keyHash);
          mret (refused (match latest with
                         | inl (Some latest) =>
                             busyError (i_Fingerprint latest) (i_LockedUntil latest) now
                         | _ => as_error ErrSystemOperationBusy
                         end))
      end
  end.

Definition Acquire (s : SystemOperationLockService) (operationID : string)
    : prog V acquired :=
  if operationID ≟ "" then
    mret (refused (as_error (BadRequest "SYSTEM_OPERATION_ID_REQUIRED" "operation id is required")))
  else
  now ← call OpNow;
  let expiresAt := now + ss_ttl s in
  let lockedUntil := now + ss_lease s in
  created ← call (OpCreate (lock_record operationID lockedUntil expiresAt));
  match created with
  | inr err => mret (store_unavailable err)
  | inl (true, record) => mret (locked (i_ID record) operationID)
  | inl (false, _) => take_over operationID now lockedUntil expiresAt
  end.

Definition quoted (s : string) : string := String quote s +:+ String quote "".

Definition Release (s : SystemOperationLockService) (lock : SystemOperationLock)
    (succeeded : bool) (failureReason : string) : prog V (result unit) :=
  now ← call OpNow;
  let expiresAt := now + ss_ttl s in
  if succeeded then
    let responseBody := "{" +:+ quoted "operation_id" +:+ ":" +:+ quoted (sl_operationID lock) +:+
                        "," +:+ quoted "released" +:+ ":true}" in
    call (OpSucceeded (sl_recordID lock) 200 responseBody expiresAt)
  else
    let reason := if failureReason ≟ "" then "SYSTEM_OPERATION_FAILED" else failureReason in
    t ← call OpNow;
    call (OpFailed (sl_recordID lock) reason t expiresAt).

(** One iteration of [renewLoop]: whether the loop goes on. *)
Definition renew (s : SystemOperationLockService) (lock : SystemOperationLock) : prog V bool :=
  now ← call OpNow;
  ok ← call (OpExtend (sl_recordID lock) (sl_operationID lock) (now + ss_lease s) (now + ss_ttl s));
  mret (match ok with inr _ => true | inl ok => ok end).

Fixpoint renewLoop (s : SystemOperationLockService) (lock : SystemOperationLock) (ticks : nat)
    : prog V unit :=
  match ticks with
  | O => mret tt
  | S ticks => goes_on ← renew s lock; if goes_on : bool then renewLoop s lock ticks else mret tt
  end.

(** ** Calls, goroutines and releases in turns *)

(** A call of [Acquire], what its caller has afterwards, the goroutine of a lock between two
    ticks and in an iteration, and a call of [Release]; [read] is the last [time.Now()]. *)
Inductive thread : Type :=
| Acquiring (read : option Z) (p : prog V acquired)
| Holding (lock : SystemOperationLock)
| Waiting (lock : SystemOperationLock)
| Renewing (lock : SystemOperationLock) (read : option Z) (p : prog V bool)
| Releasing (p : prog V (result unit))
| Ended.

Record lock_system : Type := MkLockSystem {
  ls_table : table;
  ls_clock : Z;
  ls_threads : list thread
}.

Definition reads {B : Type} (o : op V B) (read : option Z) : B → option Z :=
  match o in op _ B return B → option Z with OpNow => Some | _ => λ _, read end.

(** The timeout of the context a renewal's statement runs in. *)
Definition renewTimeout : Z := 2 * Second.

(** A statement takes no effect once its context has timed out. *)
Definition timely (read : option Z) (clock : Z) (t t' : table) : Prop :=
  match read with Some now => now + renewTimeout < clock → t' = t | None => True end.

Definition is_lock (r : IdempotencyRecord) : bool :=
  is_key systemOperationLockScope (HashIdempotencyKey systemOperationLockKey) r.

(** What the users of other keys do to the table: the lock's record is left alone, records keep
    their identifier and key, and identifiers come from the sequence. *)
Definition others (t t' : table) : Prop :=
  t_nextID t <= t_nextID t' ∧
  ∀ id, match t_rows t !! id, t_rows t' !! id with
        | Some r, Some r' => i_ID r' = i_ID r ∧ is_lock r' = is_lock r ∧ (is_lock r = true → r' = r)
        | Some r, None => is_lock r = false
        | None, Some r' => t_nextID t <= id < t_nextID t' ∧ i_ID r' = id ∧ is_lock r' = false
        | None, None => True
        end.

Definition thread_of (answer : acquired) : thread :=
  match answer.1 with inl lock => Holding lock | inr _ => Ended end.

Definition started_by (g : goroutine) : thread := let 'GoRenewLoop lock := g in Waiting lock.

Definition is_statement {B : Type} (o : op V B) : bool :=
  match o with OpNow => false | _ => true end.

(** A step; [true] when it is a statement of [Release].  A goroutine that is told to stop, and a
    process that dies, take no further step. *)
Inductive lock_step (s : SystemOperationLockService) : bool → lock_system → lock_system → Prop :=
| lock_arrive t c ths operationID :
    lock_step s false (MkLockSystem t c ths)
      (MkLockSystem t c (ths ++ [Acquiring None (Acquire s operationID)]))
| lock_acquire t c ths i read B (o : op V B) k b t' ev :
    ths !! i = Some (Acquiring read (Do o k)) → answers o c t b t' ev →
    lock_step s false (MkLockSystem t c ths)
      (MkLockSystem t' c (<[i := Acquiring (reads o read b) (k b)]> ths))
| lock_return t c ths i read answer :
    ths !! i = Some (Acquiring read (Ret answer)) →
    lock_step s false (MkLockSystem t c ths)
      (MkLockSystem t c (<[i := thread_of answer]> ths ++ (started_by <$> answer.2)))
| lock_tick t c ths i lock :
    ths !! i = Some (Waiting lock) →
    lock_step s false (MkLockSystem t c ths)
      (MkLockSystem t c (<[i := Renewing lock None (renew s lock)]> ths))
| lock_renew t c ths i lock read B (o : op V B) k b t' ev :
    ths !! i = Some (Renewing lock read (Do o k)) → answers o c t b t' ev → timely read c t t' →
    lock_step s false (MkLockSystem t c ths)
      (MkLockSystem t' c (<[i := Renewing lock (reads o read b) (k b)]> ths))
| lock_renewed t c ths i lock read (goes_on : bool) :
    ths !! i = Some (Renewing lock read (Ret goes_on)) →
    lock_step s false (MkLockSystem t c ths)
      (MkLockSystem t c (<[i := if goes_on then Waiting lock else Ended]> ths))
| lock_release t c ths i lock succeeded reason :
    ths !! i = Some (Holding lock) →
    lock_step s false (MkLockSystem t c ths)
      (MkLockSystem t c (<[i := Releasing (Release s lock succeeded reason)]> ths))
| lock_released t c ths i B (o : op V B) k b t' ev :
    ths !! i = Some (Releasing (Do o k)) → answers o c t b t' ev →
    lock_step s (is_statement o) (MkLockSystem t c ths)
      (MkLockSystem t' c (<[i := Releasing (k b)]> ths))
| lock_clock t c ths c' :
    c <= c' → lock_step s false (MkLockSystem t c ths) (MkLockSystem t c' ths)
| lock_cleanup t c ths limit :
    lock_step s false (MkLockSystem t c ths) (MkLockSystem (DeleteExpired c limit t).2 c ths)
| lock_others t c ths t' :
    others t t' → lock_step s false (MkLockSystem t c ths) (MkLockSystem t' c ths).

(** Any number of steps; with [released = false], none of them a release. *)
Inductive lock_steps (s : SystemOperationLockService) (released : bool) (y : lock_system)
    : lock_system → Prop :=
| lock_steps_refl : lock_steps s released y y
| lock_steps_snoc y1 y2 b :
    lock_steps s released y y1 → lock_step s b y1 y2 → (b = true → released = true) →
    lock_steps s released y y2.

End Lock.
