(* ===== verification/SystemLockFacts.v ===== *)
(** * SystemLockFacts: what the system lock guarantees, and where it does not

    What [Acquire] answers for every state of the lock's record, what renewal does for a lock
    on a fresh record, and why a lock taken over from an earlier operation is lost. *)

From stdpp Require Import base tactics numbers list strings gmap sorting.
From Stdlib Require Import ZArith Lia.
From S2P Require Import Prelude GoLib GoJson AppErrors LogRedact IdempotencyStore Idempotency.
From S2P Require Import IdempotencyFacts IdempotencyLaws SystemLock.

Local Open Scope go_scope.
Local Open Scope Z_scope.

Section Facts.
Context {V N : Type} `{GoValues V N}.

Definition find_lock (t : table) : option IdempotencyRecord :=
  find_key systemOperationLockScope (HashIdempotencyKey systemOperationLockKey) t.

(** The lease of a record is still running. *)
Definition leased (r : IdempotencyRecord) (now : Z) : bool :=
  match i_LockedUntil r with Some l => now <? l | None => false end.

(** The record of the lock, stored under its identifier. *)
Definition lock_row (w : world) (r : IdempotencyRecord) : Prop :=
  find_lock (w_table w) = Some r ∧ t_rows (w_table w) !! i_ID r = Some r ∧ 0 < i_ID r.

Definition taken_row (s : SystemOperationLockService) (now : Z) (r : IdempotencyRecord)
    : IdempotencyRecord :=
  r{{ i_Status := IdempotencyStatusProcessing;
      i_LockedUntil := Some (now + ss_lease s);
      i_ErrorReason := None;
      i_UpdatedAt := now;
      i_ExpiresAt := now + ss_ttl s }}.

Lemma reclaim_run now id from l e r (t : table) :
  t_rows t !! id = Some r → i_Status r = from →
  TryReclaim now id from now l e t =
    if leased r now then (false, t)
    else (true, MkTable (<[id := r{{ i_Status := IdempotencyStatusProcessing;
                                     i_LockedUntil := Some l;
                                     i_ErrorReason := None;
                                     i_UpdatedAt := now;
                                     i_ExpiresAt := e }}]> (t_rows t)) (t_nextID t)).
Proof.
  intros Hr <-. unfold TryReclaim, update_row, mbind, St_bind, leased. rewrite Hr, String.eqb_refl.
  destruct (i_LockedUntil r) as [lu|]; [|done].
  destruct (Z.leb_spec lu now), (Z.ltb_spec now lu); try lia; done.
Qed.

(** The key of the record does not change when it is taken. *)
Lemma find_lock_update t id r r' :
  (∀ i j ri rj, t_rows t !! i = Some ri → t_rows t !! j = Some rj →
     i_Scope ri = i_Scope rj → i_KeyHash ri = i_KeyHash rj → i = j) →
  find_lock t = Some r → t_rows t !! id = Some r →
  i_Scope r' = i_Scope r → i_KeyHash r' = i_KeyHash r →
  ∀ n, find_lock (MkTable (<[id := r']> (t_rows t)) n) = Some r'.
Proof.
  intros Hu Hf Hr Hs Hk n. unfold find_lock in *.
  apply find_key_some in Hf as (id' & Hr0 & Hsc & Hkh).
  assert (id' = id) as -> by by eapply Hu.
  destruct (find_key _ _ (MkTable _ n)) as [r2|] eqn:E.
  - apply find_key_some in E as (i & Hi & Hsi & Hki). cbn in Hi.
    apply lookup_insert_Some in Hi as [[_ ->]|[Hne Hi]]; [done|].
    destruct Hne. symmetry. eapply Hu; [exact Hi|exact Hr|congruence|congruence].
  - exfalso. apply (find_key_none _ _ _ E id r'); [cbn; by rewrite lookup_insert_eq|congruence..].
Qed.

(** The lock of a record, with its renewal started. *)
Definition granted (id : Z) (operationID : string) : acquired :=
  let lock := MkSystemOperationLock id operationID in (inl lock, [GoRenewLoop lock]).

(** [Acquire] on a record that exists. *)
Lemma acquire_existing s operationID w (outcome : result V) r :
  operationID ≠ "" → lock_row w r →
  ∃ n, run outcome (Acquire s operationID) w =
    let now := w_clock w in
    if leased r now then
      (refused (busyError (i_Fingerprint r) (i_LockedUntil r) now),
       MkWorld (MkTable (t_rows (w_table w)) n) now (w_runs w))
    else
      (granted (i_ID r) operationID,
       MkWorld (MkTable (<[i_ID r := taken_row s now r]> (t_rows (w_table w))) n) now (w_runs w)).
Proof.
  intros Hop (Hf & Hr & Hid). destruct w as [[rows n] clock runs]. exists (n + 1).
  apply String.eqb_neq in Hop. unfold Acquire. rewrite Hop. cbn [w_table w_clock w_runs t_rows] in *.
  assert (Hlk : locked (i_ID r) operationID = granted (i_ID r) operationID).
  { unfold locked. destruct (Z.eqb_spec (i_ID r) 0); [lia|done]. }
  assert (Hf' : find_key systemOperationLockScope (HashIdempotencyKey systemOperationLockKey)
    (MkTable rows (n + 1)) = Some r) by exact Hf.
  unfold call. cbn [mbind prog_bind run perform]. unfold mbind, St_bind. cbn [w_clock].
  unfold on_table at 1. cbn [w_table w_clock w_runs].
  assert (Hc : CreateProcessing clock (lock_record operationID (clock + ss_lease s) (clock + ss_ttl s))
    (MkTable rows n) = ((false, lock_record operationID (clock + ss_lease s) (clock + ss_ttl s)),
                        MkTable rows (n + 1))).
  { unfold CreateProcessing. change (find_key _ _ (MkTable rows n)) with (find_lock (MkTable rows n)).
    by rewrite Hf. }
  rewrite Hc. unfold take_over, call. cbn [mbind prog_bind run perform].
  unfold mbind, St_bind, on_table at 1, GetByScopeAndKeyHash. cbn [w_table w_clock w_runs].
  rewrite Hf'. cbv beta iota.
  match goal with |- context [if ?b then mret _ else Do _ _] => destruct b eqn:Eb end.
  - assert (El : leased r clock = true) by by bool_props. cbv zeta. by rewrite El.
  - cbn [run perform]. unfold mbind, St_bind, on_table at 1. cbn [w_table w_clock w_runs].
    rewrite (reclaim_run clock (i_ID r) (i_Status r) _ _ r (MkTable rows (n + 1)) Hr eq_refl).
    cbv zeta. destruct (leased r clock).
    + cbn [run perform]. unfold mbind, St_bind, on_table at 1, GetByScopeAndKeyHash.
      cbn [w_table w_clock w_runs]. by rewrite Hf'.
    + cbn [run]. by rewrite Hlk.
Qed.

(** [Acquire] on a key nobody has used. *)
Lemma acquire_new s operationID w (outcome : result V) :
  operationID ≠ "" → find_lock (w_table w) = None → 0 < t_nextID (w_table w) →
  let now := w_clock w in
  let id := t_nextID (w_table w) in
  run outcome (Acquire s operationID) w =
    (granted id operationID,
     MkWorld (MkTable (<[id := (lock_record operationID (now + ss_lease s) (now + ss_ttl s))
                                 {{ i_ID := id; i_CreatedAt := now; i_UpdatedAt := now }}]>
                         (t_rows (w_table w))) (id + 1)) now (w_runs w)).
Proof.
  intros Hop Hf Hn. destruct w as [[rows n] clock runs]. cbn [w_table w_clock t_nextID] in *.
  apply String.eqb_neq in Hop. unfold Acquire. rewrite Hop. cbv zeta.
  unfold call. cbn [mbind prog_bind run perform]. unfold mbind, St_bind. cbn [w_clock].
  unfold on_table at 1. cbn [w_table w_clock w_runs].
  unfold CreateProcessing. change (find_key _ _ (MkTable rows n)) with (find_lock (MkTable rows n)).
  rewrite Hf. unfold locked. destruct (Z.eqb_spec n 0); [lia|]. cbn.
  by destruct (Z.eqb_spec n 0); [lia|].
Qed.

(** One renewal of a lock whose record is there. *)
Lemma renew_run s lock w (outcome : result V) r :
  t_rows (w_table w) !! sl_recordID lock = Some r →
  run outcome (renew s lock) w =
    if (i_Status r ≟ IdempotencyStatusProcessing) && (i_Fingerprint r ≟ sl_operationID lock)
    then (true, MkWorld (MkTable (<[sl_recordID lock :=
                    r{{ i_LockedUntil := Some (w_clock w + ss_lease s);
                        i_ExpiresAt := w_clock w + ss_ttl s;
                        i_UpdatedAt := w_clock w }}]> (t_rows (w_table w)))
                  (t_nextID (w_table w))) (w_clock w) (w_runs w))
    else (false, w).
Proof.
  intros Hr. destruct w as [[rows n] clock runs]. cbn [w_table w_clock t_rows t_nextID w_runs] in *.
  unfold renew, call. cbn [mbind prog_bind run perform]. unfold mbind, St_bind, on_table.
  cbn [w_table w_clock w_runs]. unfold ExtendProcessingLock, update_row, mbind, St_bind.
  cbn [t_rows t_nextID]. rewrite Hr.
  by destruct ((i_Status r ≟ IdempotencyStatusProcessing) && (i_Fingerprint r ≟ sl_operationID lock)).
Qed.

(** ** The guarantees *)

Definition unique_keys (t : table) : Prop :=
  ∀ i j r r', t_rows t !! i = Some r → t_rows t !! j = Some r' →
    i_Scope r = i_Scope r' → i_KeyHash r = i_KeyHash r' → i = j.

(** A table in which the lock is free: nobody ever took it, or its lease is over. *)
Inductive lock_free (w : world) : option IdempotencyRecord → Prop :=
| free_new : find_lock (w_table w) = None → 0 < t_nextID (w_table w) → lock_free w None
| free_left r : lock_row w r → leased r (w_clock w) = false → unique_keys (w_table w) →
    lock_free w (Some r).

(** The record once the lock is taken. *)
Definition held_row (s : SystemOperationLockService) (operationID : string) (w : world)
    (o : option IdempotencyRecord) : IdempotencyRecord :=
  match o with
  | None => (lock_record operationID (w_clock w + ss_lease s) (w_clock w + ss_ttl s))
              {{ i_ID := t_nextID (w_table w); i_CreatedAt := w_clock w; i_UpdatedAt := w_clock w }}
  | Some r => taken_row s (w_clock w) r
  end.

Lemma acquire_free s operationID w (outcome : result V) o :
  operationID ≠ "" → lock_free w o →
  let r := held_row s operationID w o in
  ∃ n, run outcome (Acquire s operationID) w =
    (granted (i_ID r) operationID,
     MkWorld (MkTable (<[i_ID r := r]> (t_rows (w_table w))) n) (w_clock w) (w_runs w)) ∧
    lock_row (MkWorld (MkTable (<[i_ID r := r]> (t_rows (w_table w))) n) (w_clock w) (w_runs w)) r.
Proof.
  intros Hop Hfree. destruct Hfree as [Hf Hn|r Hrow Hl Hu].
  - eexists. split; [by apply acquire_new|]. split_and!.
    + by apply find_key_insert.
    + cbn [w_table t_rows]. by rewrite lookup_insert_eq.
    + done.
  - destruct (acquire_existing s operationID w outcome r Hop Hrow) as [n E].
    exists n. rewrite E. cbv zeta. rewrite Hl. split; [done|]. destruct Hrow as (Hf & Hr & Hid). split_and!.
    + by apply (find_lock_update _ (i_ID r) r).
    + cbn [w_table t_rows]. by rewrite lookup_insert_eq.
    + done.
Qed.

(** A lock on a fresh record lives as long as it is renewed: each renewal is accepted and
    pushes the end of the lease on, so another operation is refused for a further lease. *)
Theorem fresh_lock_is_renewed s op1 op2 w (outcome : result V) d d' :
  op1 ≠ "" → op2 ≠ "" → lock_free w None → 0 <= d → d <= d' < d + ss_lease s →
  let '(first, started, w1) := run outcome (Acquire s op1) w in
  match first with
  | inl lock =>
      let '(goes_on, w2) := run outcome (renew s lock) (later d w1) in
      started = [GoRenewLoop lock] ∧ goes_on = true ∧
      ∃ e, (run outcome (Acquire s op2) (later (d' - d) w2)).1.1 = inr e ∧ IsConflict (Some e) = true
  | inr _ => False
  end.
Proof.
  intros H1 H2 Hfree Hd Hd'. destruct (acquire_free s op1 w outcome None H1 Hfree) as (n & -> & Hrow).
  set (r := held_row s op1 w None) in *. unfold granted. cbv zeta iota.
  match goal with |- context [later d ?w1] => set (w1' := w1) in * end.
  destruct Hrow as (Hf & Hr & Hid).
  rewrite (renew_run s (MkSystemOperationLock (i_ID r) op1) (later d w1') outcome r Hr).
  assert (E : (i_Status r ≟ IdempotencyStatusProcessing) &&
    (i_Fingerprint r ≟ sl_operationID (MkSystemOperationLock (i_ID r) op1)) = true).
  { cbn. by rewrite String.eqb_refl. }
  rewrite E. split; [done|]. split; [done|].
  set (r' := r{{ i_LockedUntil := Some (w_clock (later d w1') + ss_lease s);
                 i_ExpiresAt := w_clock (later d w1') + ss_ttl s;
                 i_UpdatedAt := w_clock (later d w1') }}).
  match goal with |- context [later (d' - d) ?w2] => set (w2' := w2) in * end.
  inversion Hfree as [Hnone Hpos|].
  assert (Hrow' : lock_row (later (d' - d) w2') r').
  { split_and!; [|cbn [later w2' w_table t_rows sl_recordID]; by rewrite lookup_insert_eq|done].
    subst w2' w1'. unfold find_lock. cbn [later w_table t_rows sl_recordID].
    rewrite insert_insert_eq. by apply find_key_insert. }
  destruct (acquire_existing s op2 (later (d' - d) w2') outcome r' H2 Hrow') as [n' ->]. cbv zeta.
  assert (El : leased r' (w_clock (later (d' - d) w2')) = true).
  { change (w_clock w + d + (d' - d) <? w_clock w + d + ss_lease s = true). apply Z.ltb_lt. lia. }
  rewrite El. eexists. split; [done|]. unfold busyError. by case_if.
Qed.

(** C31: a lock taken over from an earlier operation cannot be kept: taking it over leaves the
    earlier operation's identifier in the record, so the first renewal is told the ownership is
    lost and renewing ends; one lease later the lock is free to anybody, with the operation
    still running. *)
Theorem taken_over_lock_is_lost s op1 op2 w r (outcome : result V) :
  op1 ≠ "" → op2 ≠ "" → lock_free w (Some r) → i_Fingerprint r ≠ op1 →
  let '(first, started, w1) := run outcome (Acquire s op1) w in
  match first with
  | inl lock =>
      started = [GoRenewLoop lock] ∧
      ∀ d ticks, 0 <= d →
        run outcome (renewLoop s lock ticks) (later d w1) = (tt, later d w1) ∧
        (ss_lease s <= d →
         (run outcome (Acquire s op2) (later d w1)).1.1 =
           inl (MkSystemOperationLock (sl_recordID lock) op2))
  | inr _ => False
  end.
Proof.
  intros H1 H2 Hfree Hfp. destruct (acquire_free s op1 w outcome _ H1 Hfree) as (n & -> & Hrow).
  set (r' := held_row s op1 w (Some r)) in *. unfold granted. cbv zeta iota. split; [done|]. intros d ticks Hd.
  match goal with |- context [later d ?w1] => set (w1' := w1) in * end. split.
  - destruct ticks as [|ticks]; [done|]. cbn [renewLoop].
    assert (Hren : run outcome (renew s (MkSystemOperationLock (i_ID r') op1)) (later d w1') =
      (false, later d w1')).
    { rewrite (renew_run s (MkSystemOperationLock (i_ID r') op1) (later d w1') outcome r')
        by apply Hrow.
      apply String.eqb_neq in Hfp.
      change (i_Fingerprint r') with (i_Fingerprint r). cbn [sl_operationID].
      by rewrite Hfp, andb_false_r. }
    rewrite run_bind, Hren. done.
  - intros Hl. assert (Hrow' : lock_row (later d w1') r') by exact Hrow.
    destruct (acquire_existing s op2 (later d w1') outcome r' H2 Hrow') as [n' ->]. cbv zeta.
    assert (El : leased r' (w_clock (later d w1')) = false).
    { change (w_clock w + d <? w_clock w + ss_lease s = false). apply Z.ltb_ge. lia. }
    by rewrite El.
Qed.

End Facts.

(** ** Samples *)

Definition sample_service : SystemOperationLockService := NewSystemOperationLockService sample_config.

Definition sample_outcome : result (option bool) := inl None.

(** The record an earlier update left behind. *)
Definition released_row : IdempotencyRecord :=
  (new_record systemOperationLockScope systemOperationLockKey "update-1" 500 100000000000)
    {{ i_ID := 1; i_Status := IdempotencyStatusSucceeded; i_LockedUntil := None }}.

Definition released_world : world := MkWorld (MkTable {[ 1 := released_row ]} 2) 1000 [].

Lemma sample_free : lock_free (V := option bool) sample_world None.
Proof. by constructor. Qed.

Lemma released_free : lock_free (V := option bool) released_world (Some released_row).
Proof.
  constructor; [by split_and!|done|].
  intros i j r r' Hi Hj _ _. cbn in Hi, Hj.
  apply lookup_singleton_Some in Hi as [<- _]. by apply lookup_singleton_Some in Hj as [<- _].
Qed.

Lemma fresh_lock_is_renewed_witness :
  let '(first, started, w1) := run sample_outcome (Acquire sample_service "update-2") sample_world in
  match first with
  | inl lock =>
      let '(goes_on, w2) := run sample_outcome (renew sample_service lock) (later (10 * Second) w1) in
      started = [GoRenewLoop lock] ∧ goes_on = true ∧
      ∃ e, (run sample_outcome (Acquire sample_service "rollback-3")
              (later (35 * Second - 10 * Second) w2)).1.1 = inr e ∧ IsConflict (Some e) = true
  | inr _ => False
  end.
Proof.
  apply (fresh_lock_is_renewed sample_service "update-2" "rollback-3" sample_world sample_outcome
    (10 * Second) (35 * Second)); [done|done|apply sample_free|done|done].
Defined.

Lemma taken_over_lock_is_lost_witness :
  let '(first, started, w1) := run sample_outcome (Acquire sample_service "update-2") released_world in
  match first with
  | inl lock =>
      started = [GoRenewLoop lock] ∧
      ∀ d ticks, 0 <= d →
        run sample_outcome (renewLoop sample_service lock ticks) (later d w1) = (tt, later d w1) ∧
        (ss_lease sample_service <= d →
         (run sample_outcome (Acquire sample_service "rollback-3") (later d w1)).1.1 =
           inl (MkSystemOperationLock (sl_recordID lock) "rollback-3"))
  | inr _ => False
  end.
Proof.
  apply (taken_over_lock_is_lost sample_service "update-2" "rollback-3" released_world
    released_row sample_outcome); [done|done|apply released_free|done].
Defined.

(** The operation that lost its lock still releases it: the mark is by record, not by operation,
    so the lock the next operation holds is freed and a third one starts beside it. *)
Example stale_release_frees_the_next_lock :
  let '(first, _, w1) := run sample_outcome (Acquire sample_service "update-2") released_world in
  let '(second, _, w2) := run sample_outcome (Acquire sample_service "rollback-3") (later (31 * Second) w1) in
  match first, second with
  | inl lock1, inl lock2 =>
      let '(_, w3) := run sample_outcome (Release sample_service lock1 true "") (later Second w2) in
      let '(third, _, _) := run sample_outcome (Acquire sample_service "restart-4") (later Second w3) in
      third = inl (MkSystemOperationLock 1 "restart-4") ∧
      i_LockedUntil <$> find_lock (w_table w2) = Some (Some (61 * Second + 1000))
  | _, _ => False
  end.
Proof. by vm_compute. Qed.
