(* ===== verification/SystemLockPool.v ===== *)
(** * SystemLockPool: the system lock among interleaved calls, renewals and faults

    What every program of the lock service may do to the table, the invariant of any number of
    them, and the exclusion that follows: while a lease of the lock's record runs, nobody else
    is granted the lock. *)

From stdpp Require Import base tactics numbers list strings gmap sorting.
From Stdlib Require Import ZArith Lia.
From S2P Require Import Prelude GoLib GoJson AppErrors LogRedact IdempotencyStore Idempotency.
From S2P Require Import IdempotencyFacts IdempotencyLaws SystemLock SystemLockFacts.

Local Open Scope go_scope.
Local Open Scope Z_scope.

Section Pool.
Context {V N : Type} `{GoValues V N} (s : SystemOperationLockService).

(** ** The table *)

Record lock_table (t : table) : Prop := {
  lt_ids : ∀ id r, t_rows t !! id = Some r → i_ID r = id ∧ 0 < id < t_nextID t;
  lt_next : 0 < t_nextID t;
  lt_one : ∀ i j r r', t_rows t !! i = Some r → t_rows t !! j = Some r' →
    is_lock r = true → is_lock r' = true → i = j;
  lt_expiry : ∀ id r l, t_rows t !! id = Some r → is_lock r = true →
    i_Status r = IdempotencyStatusProcessing → i_LockedUntil r = Some l → l <= i_ExpiresAt r
}.

(** An identifier that is the lock's, if there is such a record at all. *)
Definition known (t : table) (id : Z) : Prop :=
  id < t_nextID t ∧ ∀ r, t_rows t !! id = Some r → is_lock r = true.

Definition grows (t t' : table) : Prop :=
  t_nextID t <= t_nextID t' ∧
  ∀ id r', t_rows t' !! id = Some r' →
    (∃ r, t_rows t !! id = Some r ∧ is_lock r' = is_lock r) ∨ t_nextID t <= id.

Lemma grows_refl t : grows t t.
Proof. split; [lia|]. intros id r Hr. left. by exists r. Qed.

Lemma known_grows t t' id : grows t t' → known t id → known t' id.
Proof.
  intros [Hn Hrows] [Hid Hk]. split; [lia|]. intros r' Hr'.
  destruct (Hrows id r' Hr') as [(r & Hr & ->)|?]; [by apply Hk|lia].
Qed.

(** A statement that updates a record of the lock, or none. *)
Lemma update_grows id cond f t :
  lock_table t → (∀ r, i_ID (f r) = i_ID r ∧ is_lock (f r) = is_lock r) →
  (∀ r l, is_lock (f r) = true → i_Status (f r) = IdempotencyStatusProcessing →
     i_LockedUntil (f r) = Some l → l <= i_ExpiresAt (f r)) →
  lock_table (update_row id cond f t).2 ∧ grows t (update_row id cond f t).2.
Proof.
  intros [T1 T2 T3 T4] Hf He. unfold update_row.
  destruct (t_rows t !! id) as [r|] eqn:Er; [|by split; [constructor|apply grows_refl]].
  destruct (cond r); [|by split; [constructor|apply grows_refl]].
  destruct (Hf r) as [Hid Hlk]. split; [constructor|split]; cbn.
  - intros j rj. rewrite lookup_insert_Some. intros [[<- <-]|[_ Hj]]; [|by apply T1].
    rewrite Hid. by apply T1.
  - done.
  - intros i j ri rj. rewrite !lookup_insert_Some.
    intros [[<- <-]|[_ Hi]] [[<- <-]|[_ Hj]] Hli Hlj; [done| | |by eapply T3].
    + rewrite Hlk in Hli. by eapply T3.
    + rewrite Hlk in Hlj. by eapply T3.
  - intros j rj l. rewrite lookup_insert_Some. intros [[<- <-]|[_ Hj]]; [by apply He|by eapply T4].
  - lia.
  - intros j rj. rewrite lookup_insert_Some. intros [[<- <-]|[_ Hj]]; left; [by exists r|by exists rj].
Qed.

Lemma find_lock_row t r :
  lock_table t → find_lock t = Some r ↔ ∃ id, t_rows t !! id = Some r ∧ is_lock r = true.
Proof.
  intros [T1 T2 T3 T4]. split.
  - intros (id & Hr & Hs & Hk)%find_key_some. exists id. split; [done|by apply is_key_spec].
  - intros (id & Hr & Hl). destruct (find_lock t) as [r'|] eqn:E.
    + apply find_key_some in E as (id' & Hr' & Hs & Hk).
      assert (id' = id) as -> by (eapply T3; try done; by apply is_key_spec). congruence.
    + exfalso. apply is_key_spec in Hl as [Hs Hk]. by eapply find_key_none.
Qed.

(** ** What the programs may do *)

Inductive role : Type := Asks | Renews | Frees.

(** A program of a role, that last read the clock as [read] and knows [ids] as the lock's. *)
Definition allowed {B : Type} (ro : role) (ids : list Z) (read : option Z) (o : op V B) : Prop :=
  match o with
  | OpNow => True
  | OpCreate r =>
      ro = Asks ∧ ∃ op now, read = Some now ∧ r = lock_record op (now + ss_lease s) (now + ss_ttl s)
  | OpGet scope hash =>
      scope = systemOperationLockScope ∧ hash = HashIdempotencyKey systemOperationLockKey
  | OpReclaim id _ now l e =>
      ro = Asks ∧ id ∈ ids ∧ read = Some now ∧ l = now + ss_lease s ∧ e = now + ss_ttl s
  | OpExtend id _ l e =>
      ro = Renews ∧ id ∈ ids ∧ ∃ now, read = Some now ∧ l = now + ss_lease s ∧ e = now + ss_ttl s
  | OpSucceeded id _ _ _ | OpFailed id _ _ _ => ro = Frees ∧ id ∈ ids
  | OpStart _ | OpFinish _ => False
  end.

Definition learns {B : Type} (o : op V B) (ids : list Z) : B → list Z :=
  match o in op _ B return B → list Z with
  | OpCreate _ => λ b, match b with inl (true, r) => i_ID r :: ids | _ => ids end
  | OpGet _ _ => λ b, match b with inl (Some r) => i_ID r :: ids | _ => ids end
  | _ => λ _, ids
  end.

(** The statements that give a caller the lock. *)
Definition wins {B : Type} (o : op V B) : B → option Z :=
  match o in op _ B return B → option Z with
  | OpCreate _ => λ b, match b with inl (true, r) => Some (i_ID r) | _ => None end
  | OpReclaim id _ _ _ _ => λ b, match b with inl true => Some id | _ => None end
  | _ => λ _, None
  end.

(** A program takes no further step once it won the lock; [post] is about its answer. *)
Fixpoint careful {A : Type} (ro : role) (ids : list Z) (read won : option Z)
    (post : list Z → option Z → A → Prop) (p : prog V A) : Prop :=
  match p with
  | Ret a => post ids won a
  | Do o k => won = None ∧ allowed ro ids read o ∧
      ∀ b, careful ro (learns o ids b) (reads o read b) (wins o b) post (k b)
  end.

Definition answer_ok (ids : list Z) (won : option Z) (a : acquired) : Prop :=
  match a with
  | (inl lock, started) => won = Some (sl_recordID lock) ∧ sl_recordID lock ∈ ids ∧
                           started = [GoRenewLoop lock]
  | (inr _, started) => started = []
  end.

Lemma locked_ok ids id operationID : answer_ok (id :: ids) (Some id) (locked id operationID).
Proof. unfold locked. case_if; [done|]. split_and!; [done|by left|done]. Qed.

Lemma acquire_careful operationID : careful Asks [] None None answer_ok (Acquire s operationID).
Proof.
  unfold Acquire. case_if; [done|]. cbn. split; [done|]. split; [done|]. intros now.
  split; [done|]. split; [split; [done|by exists operationID, now]|].
  intros [[[] r]|e]; cbn; [apply locked_ok| |done].
  split; [done|]. split; [done|]. intros [[r'|]|e]; cbn; [|done|done].
  case_if; [done|]. cbn. split; [done|]. split; [split_and!; try done; by left|].
  intros [[]|e]; cbn; [apply locked_ok| |done].
  split; [done|]. split; [done|]. by intros [[r''|]|e].
Qed.

Lemma renew_careful lock :
  careful Renews [sl_recordID lock] None None (λ _ _ _, True) (renew s lock).
Proof.
  cbn. split; [done|]. split; [done|]. intros now. split; [done|]. split; [|done].
  split; [done|]. split; [by left|by exists now].
Qed.

Lemma release_careful lock succeeded reason :
  careful Frees [sl_recordID lock] None None (λ _ _ _, True) (Release s lock succeeded reason).
Proof.
  unfold Release. cbn. split; [done|]. split; [done|]. intros now. destruct succeeded; cbn.
  - split; [done|]. split; [|done]. split; [done|by left].
  - split; [done|]. split; [done|]. intros t. split; [done|]. split; [|done]. split; [done|by left].
Qed.

(** ** The invariant *)

Hypothesis lease_within_ttl : ss_lease s <= ss_ttl s.

Definition not_after (read : option Z) (clock : Z) : Prop :=
  match read with Some now => now <= clock | None => True end.

Definition anything {A : Type} (_ : list Z) (_ : option Z) (_ : A) : Prop := True.

Definition thread_ok (t : table) (clock : Z) (th : thread (V := V)) : Prop :=
  match th with
  | Acquiring read p => not_after read clock ∧
      ∃ ids won, Forall (known t) ids ∧ careful Asks ids read won answer_ok p
  | Holding lock | Waiting lock => known t (sl_recordID lock)
  | Renewing lock read p => not_after read clock ∧ known t (sl_recordID lock) ∧
      ∃ ids won, Forall (known t) ids ∧ careful Renews ids read won anything p
  | Releasing p => ∃ ids read won, Forall (known t) ids ∧ careful Frees ids read won anything p
  | Ended => True
  end.

Record lock_inv (y : lock_system (V := V)) : Prop := {
  li_table : lock_table (ls_table y);
  li_threads : Forall (thread_ok (ls_table y) (ls_clock y)) (ls_threads y)
}.

Lemma thread_ok_grows t t' clock clock' th :
  grows t t' → clock <= clock' → thread_ok t clock th → thread_ok t' clock' th.
Proof.
  intros Hg Hc. assert (∀ read, not_after read clock → not_after read clock') as Hr
    by (intros [now|]; cbn; [lia|done]).
  assert (∀ ids, Forall (known t) ids → Forall (known t') ids) as Hk
    by (intros ids Hids; eapply Forall_impl; [exact Hids|]; intros id; by apply known_grows).
  destruct th as [read p|lock|lock|lock read p|p|]; cbn; try done.
  - intros (H1 & ids & won & H2 & H3). split; [by apply Hr|]. exists ids, won. split; [by apply Hk|done].
  - by apply known_grows.
  - by apply known_grows.
  - intros (H1 & Hl & ids & won & H2 & H3). split; [by apply Hr|]. split; [by eapply known_grows|].
    exists ids, won. split; [by apply Hk|done].
  - intros (ids & read & won & H2 & H3). exists ids, read, won. split; [by apply Hk|done].
Qed.

(** A statement takes effect or not. *)
Lemma statement_table {B} (f : St table B) t b t' :
  lock_table t → statement f t b t' → lock_table (f t).2 ∧ grows t (f t).2 →
  lock_table t' ∧ grows t t'.
Proof.
  intros Ht Hs Hf. apply (statement_cases _ _ _ _ (λ t2, lock_table t2 ∧ grows t t2) Hs); [|done].
  split; [done|apply grows_refl].
Qed.

Lemma update_statement {B} id cond f (g : Z → B) t b t' :
  lock_table t → statement (n ← update_row id cond f; mret (g n)) t b t' →
  (∀ r, i_ID (f r) = i_ID r ∧ is_lock (f r) = is_lock r) →
  (∀ r l, is_lock (f r) = true → i_Status (f r) = IdempotencyStatusProcessing →
     i_LockedUntil (f r) = Some l → l <= i_ExpiresAt (f r)) →
  lock_table t' ∧ grows t t'.
Proof.
  intros Ht Hst Hf He. eapply statement_table; [done|exact Hst|].
  pose proof (update_grows id cond f t Ht Hf He) as Hu. unfold mbind, St_bind.
  by destruct (update_row id cond f t) as [n t2].
Qed.

Lemma create_grows clock op now t :
  lock_table t →
  let '((owner, r), t') := CreateProcessing clock (lock_record op (now + ss_lease s) (now + ss_ttl s)) t in
  lock_table t' ∧ grows t t' ∧ (owner = true → known t' (i_ID r) ∧ find_lock t = None) ∧
  (∀ r, find_lock t = Some r → find_lock t' = Some r).
Proof.
  intros Ht. destruct Ht as [T1 T2 T3 T4]. unfold CreateProcessing.
  change (find_key _ _ t) with (find_lock t). destruct (find_lock t) as [r0|] eqn:Ef.
  - assert (Hg : grows t (MkTable (t_rows t) (t_nextID t + 1)))
      by (split; [cbn; lia|]; intros id r Hr; left; by exists r).
    split_and!; [|done|done|by intros r [= <-]; exact Ef]. constructor; cbn; try done; [|lia].
    intros id r Hr. destruct (T1 id r Hr). lia.
  - assert (Hnew : t_rows t !! t_nextID t = None).
    { apply eq_None_not_Some. intros [r Hr]. apply T1 in Hr. lia. }
    assert (Hno : ∀ id r, t_rows t !! id = Some r → is_lock r = true → False).
    { intros id r Hr [Hs Hk]%is_key_spec. by eapply find_key_none. }
    split_and!; [|split| |done].
    + constructor; cbn.
      * intros id r. rewrite lookup_insert_Some. intros [[<- <-]|[_ Hr]]; [split; [done|lia]|].
        destruct (T1 id r Hr). lia.
      * lia.
      * intros i j ri rj. rewrite !lookup_insert_Some.
        intros [[<- <-]|[_ Hi]] [[<- <-]|[_ Hj]] Hli Hlj; [done| | |by eapply T3]; exfalso;
          [by apply (Hno _ _ Hj)|by apply (Hno _ _ Hi)].
      * intros id r l. rewrite lookup_insert_Some. intros [[<- <-]|[_ Hr]]; [|by eapply T4].
        cbn. intros _ _ [= <-]. lia.
    + cbn. lia.
    + cbn. intros id r'. rewrite lookup_insert_Some. intros [[<- <-]|[_ Hr]]; [right; lia|].
      left. by exists r'.
    + intros _. split; [|done]. match goal with |- known _ ?i => change i with (t_nextID t) end.
      split; cbn; [lia|]. intros r'. rewrite lookup_insert_eq.
      intros [= <-]. apply is_key_spec. by split.
Qed.

(** One step of a program: the table stays in order, and what the program knows is so. *)
Lemma step_table {B} (o : op V B) ro ids read clock t b t' ev :
  lock_table t → Forall (known t) ids → allowed ro ids read o → answers o clock t b t' ev →
  lock_table t' ∧ grows t t' ∧ Forall (known t') (learns o ids b).
Proof.
  intros Ht Hids Ha Hans.
  assert (Hkeep : lock_table t' ∧ grows t t' → lock_table t' ∧ grows t t' ∧ Forall (known t') ids).
  { intros [Ht' Hg]. split_and!; [done|done|]. eapply Forall_impl; [exact Hids|].
    intros id. by apply known_grows. }
  destruct o as [|record|sc h|id from now l e|id f l e|id st body e|id reason l e|i|i];
    cbn [answers allowed learns] in *.
  - destruct Hans as (_ & -> & _). apply Hkeep. split; [done|apply grows_refl].
  - destruct Ha as (_ & op & now & _ & ->). destruct Hans as [Hst _].
    pose proof (create_grows clock op now t Ht) as Hc. 
    destruct (CreateProcessing clock _ t) as [[owner r] t2] eqn:Ec. destruct Hc as (H1 & H2 & H3 & _).
    assert (Hb : lock_table t' ∧ grows t t') by (by eapply statement_table; [| |rewrite Ec]).
    destruct (Hkeep Hb) as (_ & _ & Hk).
    split_and!; [apply Hb|apply Hb|].
    destruct Hst as [[-> ->]|(err & -> & _)]; [|done]. rewrite Ec in *. cbn [fst snd] in *.
    destruct owner; [|done]. constructor; [by apply H3|done].
  - destruct Hans as [Hst _]. destruct Ha as [-> ->].
    assert (t' = t) as -> by (by destruct Hst as [[_ ->]|(err & _ & [-> | ->])]).
    destruct (Hkeep (conj Ht (grows_refl t))) as (_ & _ & Hk). split_and!; [done|apply grows_refl|].
    destruct Hst as [[-> _]|(err & -> & _)]; [|done]. cbn.
    destruct (find_key _ _ t) as [r|] eqn:Ef; [|done]. constructor; [|done].
    change (find_lock t = Some r) in Ef. apply (find_lock_row t r Ht) in Ef as (id & Hr & Hl).
    destruct (lt_ids _ Ht id r Hr) as [-> Hid]. split; [lia|]. intros r' Hr'. congruence.
  - destruct Hans as [Hst _]. destruct Ha as (_ & _ & _ & -> & ->). apply Hkeep.
    eapply (update_statement id _ _ (λ n, 0 <? n)); [done|exact Hst|done|].
    intros r l _ _ [= <-]. change (now + ss_lease s <= now + ss_ttl s). lia.
  - destruct Hans as [Hst _]. destruct Ha as (_ & _ & now & _ & -> & ->). apply Hkeep.
    eapply (update_statement id _ _ (λ n, 0 <? n)); [done|exact Hst|done|].
    intros r l _ _ [= <-]. change (now + ss_lease s <= now + ss_ttl s). lia.
  - destruct Hans as [Hst _]. apply Hkeep.
    by eapply (update_statement id _ _ (λ _, tt)); [done|exact Hst|..].
  - destruct Hans as [Hst _]. apply Hkeep.
    by eapply (update_statement id _ _ (λ _, tt)); [done|exact Hst|..].
  - done.
  - done.
Qed.

(** *** The steps *)

Lemma delete_all (ids : list Z) (m : gmap Z IdempotencyRecord) id r :
  foldr (λ id m, delete id m) m ids !! id = Some r ↔ m !! id = Some r ∧ id ∉ ids.
Proof.
  induction ids as [|j ids IH]; cbn; [by split; [intros ?; split; [|apply not_elem_of_nil]|intros []]|].
  rewrite lookup_delete_Some, IH, not_elem_of_cons. intuition congruence.
Qed.

Lemma victims_expired c limit t id :
  id ∈ victims c limit t → ∃ r, t_rows t !! id = Some r ∧ i_ExpiresAt r <= c.
Proof.
  unfold victims. intros Hid.
  assert (Hin : id ∈ fst <$> merge_sort expiry_order
    (List.filter (λ p : Z * IdempotencyRecord, i_ExpiresAt p.2 <=? c) (map_to_list (t_rows t)))).
  { rewrite <- (take_drop (Z.to_nat limit) (fst <$> _)). apply elem_of_app. by left. }
  apply list_elem_of_fmap in Hin as ([id' r] & -> & Hp).
  rewrite merge_sort_Permutation in Hp. apply list_elem_of_In, List.filter_In in Hp as [Hp He].
  exists r. split; [by apply elem_of_map_to_list, list_elem_of_In|]. cbn in He. lia.
Qed.

(** The cleanup deletes expired records only. *)
Lemma cleanup_rows c limit t id r :
  let t' := (DeleteExpired c limit t).2 in
  t_nextID t' = t_nextID t ∧ (t_rows t' !! id = Some r → t_rows t !! id = Some r) ∧
  (t_rows t !! id = Some r → c < i_ExpiresAt r → t_rows t' !! id = Some r).
Proof.
  unfold DeleteExpired. cbn [snd t_rows t_nextID]. split; [done|]. rewrite delete_all.
  split; [by intros []|]. intros Hr He. split; [done|].
  intros (r' & Hr' & He')%victims_expired. assert (r' = r) as -> by congruence. lia.
Qed.

Lemma cleanup_grows c limit t :
  lock_table t → lock_table (DeleteExpired c limit t).2 ∧ grows t (DeleteExpired c limit t).2.
Proof.
  intros [T1 T2 T3 T4].
  assert (Hn : t_nextID (DeleteExpired c limit t).2 = t_nextID t) by done.
  assert (Hsub : ∀ id r, t_rows (DeleteExpired c limit t).2 !! id = Some r → t_rows t !! id = Some r)
    by (intros id r; apply (cleanup_rows c limit t id r)).
  split; [constructor|split]; rewrite ?Hn; try lia.
  - intros id r Hr. by apply T1, Hsub.
  - intros i j r r' Hr%Hsub Hr'%Hsub. by eapply T3.
  - intros id r l Hr%Hsub. by eapply T4.
  - intros id r Hr%Hsub. left. by exists r.
Qed.

Lemma others_rows t t' id r' :
  others t t' → t_rows t' !! id = Some r' →
  (∃ r, t_rows t !! id = Some r ∧ i_ID r' = i_ID r ∧ is_lock r' = is_lock r ∧
        (is_lock r = true → r' = r)) ∨
  (t_nextID t <= id < t_nextID t' ∧ i_ID r' = id ∧ is_lock r' = false).
Proof.
  intros [_ Ho] Hr'. specialize (Ho id). rewrite Hr' in Ho.
  destruct (t_rows t !! id) as [r|]; [left; by exists r|by right].
Qed.

Lemma others_grows t t' : lock_table t → others t t' → lock_table t' ∧ grows t t'.
Proof.
  intros [T1 T2 T3 T4] Ho. assert (Hn : t_nextID t <= t_nextID t') by apply Ho.
  assert (Hrow : ∀ id r', t_rows t' !! id = Some r' → is_lock r' = true → t_rows t !! id = Some r').
  { intros id r' Hr' Hl. destruct (others_rows t t' id r' Ho Hr') as [(r & Hr & _ & Hk & He)|(_ & _ & Hk)];
      [|congruence]. by rewrite He by congruence. }
  split; [constructor|split]; try lia.
  - intros id r' Hr'. destruct (others_rows t t' id r' Ho Hr') as [(r & Hr & -> & _)|(? & ? & _)].
    + destruct (T1 id r Hr). lia.
    + lia.
  - intros i j r r' Hr Hr' Hl Hl'. eapply T3; [| |exact Hl|exact Hl']; by apply Hrow.
  - intros id r l Hr Hl. apply (T4 id r l); [by apply Hrow|done].
  - intros id r' Hr'. destruct (others_rows t t' id r' Ho Hr') as [(r & Hr & _ & Hk & _)|(? & ? & _)];
      [left; by exists r|right; lia].
Qed.

Lemma inv_threads t t' c c' ths ths' :
  lock_inv (MkLockSystem t c ths) → lock_table t' → grows t t' → c <= c' →
  (∀ i th, ths' !! i = Some th → ths !! i = Some th ∨ thread_ok t' c' th) →
  lock_inv (MkLockSystem t' c' ths').
Proof.
  intros [Ht Hths] Ht' Hg Hc Hnew. split; [done|]. cbn in *. apply Forall_lookup. intros i th Hi.
  destruct (Hnew i th Hi) as [Hold|]; [|done].
  eapply thread_ok_grows; [exact Hg|exact Hc|]. by eapply Forall_lookup_1.
Qed.

(** One thread steps, and others may be started. *)
Lemma inv_stepped t t' c ths i th th' new :
  lock_inv (MkLockSystem t c ths) → ths !! i = Some th → lock_table t' → grows t t' →
  thread_ok t' c th' → Forall (thread_ok t' c) new →
  lock_inv (MkLockSystem t' c (<[i := th']> ths ++ new)).
Proof.
  intros HI Hi Ht' Hg Hth Hnew. eapply inv_threads; try done. intros j thj Hj.
  apply lookup_app_Some in Hj as [Hj|[_ Hj]].
  - apply list_lookup_insert_Some in Hj as [(_ & <- & _)|[_ Hj]]; [by right|by left].
  - right. by eapply Forall_lookup_1.
Qed.

Lemma inv_stepped_alone t t' c ths i th th' :
  lock_inv (MkLockSystem t c ths) → ths !! i = Some th → lock_table t' → grows t t' →
  thread_ok t' c th' → lock_inv (MkLockSystem t' c (<[i := th']> ths)).
Proof.
  intros. rewrite <- (app_nil_r (<[i := th']> ths)). by eapply inv_stepped.
Qed.

Lemma reads_not_after {B} (o : op V B) read c t b t' ev :
  not_after read c → answers o c t b t' ev → not_after (reads o read b) c.
Proof. destruct o; cbn; try done. intros _ (-> & _). lia. Qed.

Lemma lock_inv_step b y1 y2 : lock_inv y1 → lock_step s b y1 y2 → lock_inv y2.
Proof.
  intros HI Hstep. pose proof (li_table _ HI) as Ht.
  assert (Hok : ∀ i th, ls_threads y1 !! i = Some th → thread_ok (ls_table y1) (ls_clock y1) th)
    by (intros i th Hi; eapply Forall_lookup_1; [apply (li_threads _ HI)|exact Hi]).
  destruct Hstep; cbn [ls_table ls_clock ls_threads] in *;
    try (match goal with E : _ !! _ = Some _ |- _ => specialize (Hok _ _ E) as Hth end; cbn in Hth).
  - eapply inv_threads; [done|done|apply grows_refl|lia|]. intros i th Hi.
    apply lookup_app_Some in Hi as [Hi|[_ Hi]]; [by left|right].
    apply list_lookup_singleton_Some in Hi as [_ <-]. split; [done|]. exists [], None.
    split; [constructor|apply acquire_careful].
  - destruct Hth as (Hr & ids & won & Hk & _ & Ha & Hnext).
    destruct (step_table o Asks ids read c t b t' ev Ht Hk Ha ltac:(done)) as (Ht' & Hg & Hk').
    eapply inv_stepped_alone; try done. split; [by eapply reads_not_after|]. eauto.
  - destruct Hth as (_ & ids & won & Hk & Ha). destruct answer as [[lock|err] started]; cbn in *.
    + destruct Ha as (_ & Hin & ->). assert (known t (sl_recordID lock)) as Hlk
        by (by eapply Forall_forall in Hin).
      eapply inv_stepped; try done; [apply grows_refl|]. by constructor.
    + subst started. eapply inv_stepped; try done. apply grows_refl.
  - eapply inv_stepped_alone; try done; [apply grows_refl|]. split; [done|]. split; [done|].
    exists [sl_recordID lock], None. split; [by constructor|apply renew_careful].
  - destruct Hth as (Hr & Hl & ids & won & Hk & _ & Ha & Hnext).
    destruct (step_table o Renews ids read c t b t' ev Ht Hk Ha ltac:(done)) as (Ht' & Hg & Hk').
    eapply inv_stepped_alone; try done. split; [by eapply reads_not_after|].
    split; [by eapply known_grows|]. eauto.
  - destruct Hth as (_ & Hl & _). eapply inv_stepped_alone; try done; [apply grows_refl|].
    by destruct goes_on.
  - eapply inv_stepped_alone; try done; [apply grows_refl|].
    exists [sl_recordID lock], None, None. split; [by constructor|apply release_careful].
  - destruct Hth as (ids & read & won & Hk & _ & Ha & Hnext).
    destruct (step_table o Frees ids read c t b t' ev Ht Hk Ha ltac:(done)) as (Ht' & Hg & Hk').
    eapply inv_stepped_alone; try done. eexists _, _, _. split; [exact Hk'|]. apply Hnext.
  - eapply inv_threads; try done; [apply grows_refl|]. by left.
  - destruct (cleanup_grows c limit t Ht) as [Ht' Hg].
    eapply inv_threads; try done. by left.
  - destruct (others_grows t t' Ht ltac:(done)) as [Ht' Hg].
    eapply inv_threads; try done. by left.
Qed.

Lemma lock_inv_steps rel y y' : lock_inv y → lock_steps s rel y y' → lock_inv y'.
Proof. intros HI Hs. induction Hs; [done|]. by eapply lock_inv_step. Qed.

(** ** Exclusion *)

(** The lock's record is claimed, for at least as long as [m]. *)
Definition claimed_until (m : Z) (t : table) : Prop :=
  ∃ r l, find_lock t = Some r ∧ i_Status r = IdempotencyStatusProcessing ∧
    i_LockedUntil r = Some l ∧ m <= l.

(** The call was granted the lock: its caller has it, or is about to. *)
Definition has_lock (th : thread (V := V)) (lock : SystemOperationLock) : Prop :=
  match th with
  | Acquiring _ (Ret (inl l, _)) => l = lock
  | Holding l => l = lock
  | _ => False
  end.

Lemma claimed_rows m t :
  lock_table t →
  claimed_until m t ↔
    ∃ id r l, t_rows t !! id = Some r ∧ is_lock r = true ∧
      i_Status r = IdempotencyStatusProcessing ∧ i_LockedUntil r = Some l ∧ m <= l.
Proof.
  intros Ht. unfold claimed_until. split.
  - intros (r & l & Hf & Hr). apply (find_lock_row t r Ht) in Hf as (id & Hid & Hl). by exists id, r, l.
  - intros (id & r & l & Hid & Hl & Hr). exists r, l. split; [|done].
    apply (find_lock_row t r Ht). by exists id.
Qed.

(** An update of a record of the lock keeps the claim if it does not shorten the lease. *)
Lemma update_claimed m id cond f t :
  lock_table t → lock_table (update_row id cond f t).2 → claimed_until m t →
  (∀ r l, cond r = true → i_LockedUntil r = Some l → m <= l → is_lock (f r) = is_lock r ∧
     i_Status (f r) = i_Status r ∧ ∃ l', i_LockedUntil (f r) = Some l' ∧ m <= l') →
  claimed_until m (update_row id cond f t).2.
Proof.
  intros Ht Ht' Hc Hf. apply claimed_rows in Hc as (j & r & l & Hj & Hl & Hp & Hu & Hm); [|done].
  apply claimed_rows; [done|]. unfold update_row in *.
  destruct (t_rows t !! id) as [r1|] eqn:Er; [|by exists j, r, l].
  destruct (cond r1) eqn:Ec; [|by exists j, r, l].
  destruct (decide (j = id)) as [->|Hne].
  - assert (r1 = r) as -> by congruence. destruct (Hf r l Ec Hu Hm) as (Hk & Hst & l' & Hu' & Hm').
    exists id, (f r), l'. cbn. rewrite lookup_insert_eq, Hk, Hst. by split_and!.
  - exists j, r, l. cbn. by rewrite lookup_insert_ne.
Qed.

(** Who asks while the record is claimed changes nothing of it and wins nothing. *)
Lemma asked_in_vain {B} (o : op V B) ids read c t b t' ev m :
  lock_table t → Forall (known t) ids → not_after read c → allowed Asks ids read o →
  answers o c t b t' ev → claimed_until m t → c < m →
  claimed_until m t' ∧ wins o b = None.
Proof.
  intros Ht Hids Hread Ha Hans Hc Hm.
  destruct o as [|record|sc h|id from now l e|id f l e|id st body e|id reason l e|i|i];
    cbn [answers allowed wins] in *.
  - by destruct Hans as (_ & -> & _).
  - destruct Ha as (_ & op & now & _ & ->). destruct Hans as [Hst _].
    pose proof Hc as (r & l & Hf & _). 
    pose proof (create_grows c op now t Ht) as Hcr.
    assert (E : CreateProcessing c (lock_record op (now + ss_lease s) (now + ss_ttl s)) t =
      ((false, lock_record op (now + ss_lease s) (now + ss_ttl s)),
       MkTable (t_rows t) (t_nextID t + 1))).
    { unfold CreateProcessing. change (find_key _ _ t) with (find_lock t). by rewrite Hf. }
    assert (Hc' : claimed_until m (MkTable (t_rows t) (t_nextID t + 1))) by exact Hc.
    unfold statement in Hst. rewrite E in Hst. by destruct Hst as [[-> ->]|(err & -> & [-> | ->])].
  - destruct Hans as [Hst _].
    by assert (t' = t) as -> by (by destruct Hst as [[_ ->]|(err & _ & [-> | ->])]).
  - destruct Ha as (_ & Hin & -> & _ & _). destruct Hans as [Hst _]. cbn in Hread.
    assert (E : TryReclaim c id from now l e t = (false, t)).
    { unfold TryReclaim, update_row, mbind, St_bind.
      destruct (t_rows t !! id) as [r|] eqn:Er; [|done].
      pose proof (proj1 (claimed_rows m t Ht) Hc) as (j & r' & l' & Hj & Hl & Hp & Hu & Hml).
      assert (Hlk : is_lock r = true) by (eapply Forall_forall in Hids; [by apply Hids|done]).
      assert (id = j) as -> by (by eapply (lt_one _ Ht)). assert (r' = r) as -> by congruence.
      rewrite Hu. destruct (Z.leb_spec l' now); [lia|]. by rewrite andb_false_r. }
    unfold statement in Hst. rewrite E in Hst. by destruct Hst as [[-> ->]|(err & -> & [-> | ->])].
  - by destruct Ha as [? _].
  - by destruct Ha as [? _].
  - by destruct Ha as [? _].
  - done.
  - done.
Qed.

(** A renewal in time does not shorten the lease below [m]. *)
Lemma renewed_claim {B} (o : op V B) ids read c t b t' ev m :
  lock_table t → lock_table t' → allowed Renews ids read o → answers o c t b t' ev →
  timely read c t t' → claimed_until m t → m <= c + ss_lease s - renewTimeout →
  claimed_until m t'.
Proof.
  intros Ht Ht' Ha Hans Htime Hc Hm.
  destruct o as [|record|sc h|id from now l e|id f l e|id st body e|id reason l e|i|i];
    cbn [answers allowed] in *; try done; try (by destruct Ha as (? & ?)).
  - by destruct Hans as (_ & -> & _).
  - destruct Hans as [Hst _].
    by assert (t' = t) as -> by (by destruct Hst as [[_ ->]|(err & _ & [-> | ->])]).
  - destruct Ha as (_ & _ & now & -> & -> & ->). cbn in Htime.
    destruct (decide (now + renewTimeout < c)) as [Hlate|Hin]; [by rewrite Htime|].
    destruct Hans as [Hst _].
    assert (Hcase : t' = t ∨ t' = (update_row id
      (λ r, (i_Status r ≟ IdempotencyStatusProcessing) && (i_Fingerprint r ≟ f))
      (λ r, r{{ i_LockedUntil := Some (now + ss_lease s); i_ExpiresAt := now + ss_ttl s;
                i_UpdatedAt := c }}) t).2).
    { assert (E : (ExtendProcessingLock c id f (now + ss_lease s) (now + ss_ttl s) t).2 =
        (update_row id
          (λ r, (i_Status r ≟ IdempotencyStatusProcessing) && (i_Fingerprint r ≟ f))
          (λ r, r{{ i_LockedUntil := Some (now + ss_lease s); i_ExpiresAt := now + ss_ttl s;
                    i_UpdatedAt := c }}) t).2)
        by (unfold ExtendProcessingLock, mbind, St_bind; by destruct (update_row _ _ _ t)).
      rewrite <- E. destruct Hst as [[_ ->]|(err & _ & [-> | ->])]; auto. }
    destruct Hcase as [->|Et]; [done|]. rewrite Et in *. apply update_claimed; try done.
    intros r l _ _ _. split; [done|]. split; [done|]. eexists. split; [done|]. lia.
Qed.

Definition is_lock_held (y : lock_system (V := V)) (i : nat) (lock : SystemOperationLock) : Prop :=
  ∃ th, ls_threads y !! i = Some th ∧ has_lock th lock.

Lemma lock_held_insert t t' c ths i j th th' lock new :
  ths !! i = Some th → (has_lock th' lock → has_lock th lock) → Forall (λ th, ¬ has_lock th lock) new →
  is_lock_held (MkLockSystem t' c (<[i := th']> ths ++ new)) j lock →
  is_lock_held (MkLockSystem t c ths) j lock.
Proof.
  intros Hi Hth Hnew (thj & Hj & Hl). cbn in Hj. apply lookup_app_Some in Hj as [Hj|[_ Hj]].
  - apply list_lookup_insert_Some in Hj as [(<- & <- & _)|[_ Hj]].
    + exists th. split; [done|by apply Hth].
    + by exists thj.
  - exfalso. rewrite Forall_forall in Hnew. eapply Hnew; [|exact Hl]. by eapply list_elem_of_lookup_2.
Qed.

Lemma held_insert_alone t t' c ths i j th th' lock :
  ths !! i = Some th → (has_lock th' lock → has_lock th lock) →
  is_lock_held (MkLockSystem t' c (<[i := th']> ths)) j lock →
  is_lock_held (MkLockSystem t c ths) j lock.
Proof.
  intros Hi Hth Hj. eapply (lock_held_insert t t' c ths i j th th' lock []); try done. by rewrite app_nil_r.
Qed.

(** A step while the record is claimed. *)
Lemma step_excludes y1 y2 m :
  lock_inv y1 → lock_step s false y1 y2 → claimed_until m (ls_table y1) → ls_clock y2 < m →
  m <= ls_clock y1 + ss_lease s - renewTimeout →
  claimed_until m (ls_table y2) ∧ ∀ i lock, is_lock_held y2 i lock → is_lock_held y1 i lock.
Proof.
  intros HI Hstep Hc Hm Hlate. pose proof (li_table _ HI) as Ht.
  pose proof (lock_inv_step _ _ _ HI Hstep) as HI2. pose proof (li_table _ HI2) as Ht2.
  assert (Hok : ∀ i th, ls_threads y1 !! i = Some th → thread_ok (ls_table y1) (ls_clock y1) th)
    by (intros i th Hi; eapply Forall_lookup_1; [apply (li_threads _ HI)|exact Hi]).
  inversion Hstep; subst; cbn [ls_table ls_clock ls_threads] in *;
    try (match goal with E : _ !! _ = Some _ |- _ => specialize (Hok _ _ E) as Hth end; cbn in Hth).
  - split; [done|]. intros i lock (th & Hi & Hl). cbn in Hi.
    apply lookup_app_Some in Hi as [Hi|[_ Hi]]; [by exists th|].
    apply list_lookup_singleton_Some in Hi as [_ <-]. cbn in Hl. unfold Acquire in Hl.
    by destruct (operationID ≟ "").
  - destruct Hth as (Hr & ids & won & Hk & _ & Ha & Hnext).
    destruct (asked_in_vain o ids read c t b t' ev m) as [Hc' Hw]; try done. split; [done|].
    intros j lk. eapply held_insert_alone; [done|]. specialize (Hnext b). rewrite Hw in Hnext.
    cbn. destruct (k b) as [[[l|e] started]|]; [|done..]. by destruct Hnext as [? _].
  - split; [done|]. intros j lk. eapply lock_held_insert; [done| |].
    + by destruct answer as [[l|e] started].
    + apply Forall_fmap, Forall_true. intros [lock0]. by intros [].
  - split; [done|]. intros j lk. by eapply held_insert_alone.
  - destruct Hth as (Hr & Hl & ids & won & Hk & _ & Ha & Hnext).
    split; [by eapply (renewed_claim o ids read c t b t' ev m)|]. intros j lk. by eapply held_insert_alone.
  - split; [done|]. intros j lk. eapply held_insert_alone; [done|]. by destruct goes_on.
  - split; [done|]. intros j lk. by eapply held_insert_alone.
  - assert (t' = t) as -> by (destruct o; cbn in *; naive_solver).
    split; [done|]. intros j lk. by eapply held_insert_alone.
  - done.
  - split; [|done]. apply claimed_rows in Hc as (j & r & l & Hj & Hl & Hp & Hu & Hml); [|done].
    apply claimed_rows; [done|]. exists j, r, l. split_and!; try done.
    apply cleanup_rows; [done|]. pose proof (lt_expiry _ Ht j r l Hj Hl Hp Hu). lia.
  - split; [|done]. apply claimed_rows in Hc as (j & r & l & Hj & Hl & Hp & Hu & Hml); [|done].
    apply claimed_rows; [done|]. exists j, r, l. split_and!; try done.
    match goal with Ho : others _ _ |- _ => destruct Ho as [_ Ho]; specialize (Ho j) end.
    rewrite Hj in *. destruct (t_rows t' !! j) as [r'|]; [|congruence]. f_equal. naive_solver.
Qed.

Lemma step_clock b y1 y2 : lock_step s b y1 y2 → ls_clock y1 <= ls_clock y2.
Proof. by intros []; cbn; lia || done. Qed.

Lemma steps_clock rel y y' : lock_steps s rel y y' → ls_clock y <= ls_clock y'.
Proof.
  intros Hs. induction Hs as [|y1 y2 b Hs IH Hstep _]; [lia|]. pose proof (step_clock _ _ _ Hstep). lia.
Qed.

Lemma steps_exclude y y' m :
  lock_inv y → lock_steps s false y y' → claimed_until m (ls_table y) → ls_clock y' < m →
  m <= ls_clock y + ss_lease s - renewTimeout →
  claimed_until m (ls_table y') ∧ ∀ i lock, is_lock_held y' i lock → is_lock_held y i lock.
Proof.
  intros HI Hs Hc Hm Hlate. induction Hs as [|y1 y2 b Hs IH Hstep Hb]; [done|].
  assert (b = false) as -> by (destruct b; [by discriminate Hb|done]).
  pose proof (step_clock _ _ _ Hstep). pose proof (steps_clock _ _ _ Hs).
  destruct IH as [Hc1 Hheld]; [lia|].
  destruct (step_excludes y1 y2 m) as [Hc2 Hheld2]; try done; [by eapply lock_inv_steps|lia|].
  split; [done|]. auto.
Qed.

(** The record of the lock says that a lease runs. *)
Definition running (y : lock_system (V := V)) : bool :=
  match find_lock (ls_table y) with Some r => leased r (ls_clock y) | None => false end.

(** An operation that asks alone, when no lease runs, is granted the lock. *)
Lemma acquire_alone operationID y runs (outcome : result V) :
  lock_inv y → operationID ≠ "" → running y = false →
  ∃ id, (run outcome (Acquire s operationID) (MkWorld (ls_table y) (ls_clock y) runs)).1 =
    granted id operationID.
Proof.
  intros HI Hop Hrun. pose proof (li_table _ HI) as Ht. unfold running in Hrun.
  set (w := MkWorld (ls_table y) (ls_clock y) runs).
  destruct (find_lock (ls_table y)) as [r|] eqn:Ef.
  - apply (find_lock_row _ r Ht) in Ef as (id & Hr & Hl). pose proof (lt_ids _ Ht id r Hr) as [Hid Hpos].
    subst id. destruct (acquire_existing s operationID w outcome r Hop) as [n E].
    { split_and!; [|done|lia]. apply (find_lock_row _ r Ht). by exists (i_ID r). }
    rewrite E. cbv zeta. change (w_clock w) with (ls_clock y). rewrite Hrun. by eexists.
  - rewrite (acquire_new s operationID w outcome Hop Ef (lt_next _ Ht)). by eexists.
Qed.
End Pool.

(** ** The property *)

(** C25: when a lease is not configured longer than the record lives, then however calls of
    [Acquire], renewals, the cleanup and the other users of the table take turns, whatever process dies and whichever statement fails with or without taking effect:
    while the lock's record is claimed until [l], nobody is granted the lock who had not been
    before, and the claim stands, as long as no [Release] is carried out.  A renewal moves [l]
    on; one whose statement is as late as its context allows, two seconds, sets a lease that is
    that much shorter, hence the minimum.  When no lease runs, a call that runs alone and
    without faults is granted the lock and has its renewal started, so an operation that died blocks nobody for ever. *)
Theorem lock_excludes_for_lease {V N : Type} `{GoValues V N} s t0 c0 (y : lock_system (V := V)) :
  ss_lease s <= ss_ttl s → lock_table t0 → lock_steps s true (MkLockSystem t0 c0 []) y →
  (∀ r l y',
     find_lock (ls_table y) = Some r → i_Status r = IdempotencyStatusProcessing →
     i_LockedUntil r = Some l → lock_steps s false y y' →
     let m := Z.min l (ls_clock y + ss_lease s - renewTimeout) in
     ls_clock y' < m →
     claimed_until m (ls_table y') ∧ ∀ i lock, is_lock_held y' i lock → is_lock_held y i lock) ∧
  (∀ operationID runs (outcome : result V), operationID ≠ "" → running y = false →
     ∃ id, (run outcome (Acquire s operationID) (MkWorld (ls_table y) (ls_clock y) runs)).1 =
       granted id operationID).
Proof.
  intros Hle Ht0 Hreach.
  assert (HI : lock_inv s y)
    by (eapply (lock_inv_steps s Hle); [|exact Hreach]; split; [done|constructor]).
  split.
  - intros r l y' Hf Hst Hl Hs m Hm. apply (steps_exclude s Hle); try done; [|lia].
    exists r, l. split_and!; try done. lia.
  - intros op runs outcome Hop Hrun. by apply (acquire_alone s).
Qed.

(** ** A scheduler, and a sample *)

Inductive lock_move : Type := MoveArrive (operationID : string) | MoveStep (i : nat) | MoveClock (d : Z).

Section Play.
Context {V N : Type} `{GoValues V N} (s : SystemOperationLockService) (outcome : result V).

Definition move (y : lock_system (V := V)) (mv : lock_move) : lock_system :=
  let t := ls_table y in let c := ls_clock y in let ths := ls_threads y in
  match mv with
  | MoveArrive operationID => MkLockSystem t c (ths ++ [Acquiring None (Acquire s operationID)])
  | MoveClock d => MkLockSystem t (c + Z.abs d) ths
  | MoveStep i =>
      match ths !! i with
      | Some (Acquiring read (Do o k)) =>
          let '(b, t', _) := act outcome o c t in
          MkLockSystem t' c (<[i := Acquiring (reads o read b) (k b)]> ths)
      | Some (Acquiring read (Ret answer)) =>
          MkLockSystem t c (<[i := thread_of answer]> ths ++ (started_by <$> answer.2))
      | Some (Waiting lock) => MkLockSystem t c (<[i := Renewing lock None (renew s lock)]> ths)
      | Some (Renewing lock read (Do o k)) =>
          let '(b, t', _) := act outcome o c t in
          if match read with Some now => now + renewTimeout <? c | None => false end then y
          else MkLockSystem t' c (<[i := Renewing lock (reads o read b) (k b)]> ths)
      | Some (Renewing lock read (Ret goes_on)) =>
          MkLockSystem t c (<[i := if goes_on then Waiting lock else Ended]> ths)
      | _ => y
      end
  end.

Lemma move_steps rel y0 y mv : lock_steps s rel y0 y → lock_steps s rel y0 (move y mv).
Proof.
  intros Hs. destruct y as [t c ths].
  destruct mv as [operationID|i|d]; cbn [move ls_table ls_clock ls_threads].
  - eapply lock_steps_snoc; [exact Hs|apply lock_arrive|done].
  - destruct (ths !! i) as [[read [a|B o k]|lock|lock|lock read [a|B o k]|p|]|] eqn:Ei; try done.
    + eapply lock_steps_snoc; [exact Hs|by eapply lock_return|done].
    + pose proof (act_answers outcome o c t) as Ha. destruct (act outcome o c t) as [[b t'] ev].
      eapply lock_steps_snoc; [exact Hs|by eapply lock_acquire|done].
    + eapply lock_steps_snoc; [exact Hs|by eapply lock_tick|done].
    + eapply lock_steps_snoc; [exact Hs|by eapply lock_renewed|done].
    + pose proof (act_answers outcome o c t) as Ha. destruct (act outcome o c t) as [[b t'] ev].
      assert (Ht : match read with Some now => now + renewTimeout <? c | None => false end = false →
        timely read c t t') by (destruct read as [now|]; cbn; [intros ?%Z.ltb_ge ?; lia|done]).
      destruct (match read with Some now => now + renewTimeout <? c | None => false end); [done|].
      eapply lock_steps_snoc; [exact Hs|eapply lock_renew; [done|done|by apply Ht]|done].
  - eapply lock_steps_snoc; [exact Hs|apply lock_clock; lia|done].
Qed.

Lemma play_steps rel y0 y l : lock_steps s rel y0 y → lock_steps s rel y0 (foldl move y l).
Proof. revert y. induction l as [|mv l IH]; intros y Hs; [done|]. by apply IH, move_steps. Qed.
End Play.

Definition sample_start : lock_system (V := option bool) := MkLockSystem empty_table 1000 [].

(** An update takes the lock and renews it once. *)
Definition sample_held : lock_system (V := option bool) :=
  foldl (move sample_service (inl None)) sample_start
    [MoveArrive "update-2"; MoveStep 0; MoveStep 0; MoveStep 0; MoveClock (20 * Second);
     MoveStep 1; MoveStep 1; MoveStep 1; MoveStep 1].

(** A rollback asks for it in vain, and a further renewal is on its way. *)
Definition sample_contended : lock_system (V := option bool) :=
  foldl (move sample_service (inl None)) sample_held
    [MoveClock (25 * Second); MoveArrive "rollback-3"; MoveStep 2; MoveStep 1; MoveStep 2;
     MoveStep 2; MoveStep 1; MoveStep 2].

Lemma empty_lock_table : lock_table (V := option bool) empty_table.
Proof. by constructor. Qed.

Lemma lock_excludes_for_lease_witness :
  let m := Z.min (ls_clock sample_held + 30 * Second)
             (ls_clock sample_held + ss_lease sample_service - renewTimeout) in
  ls_threads sample_contended !! 0%nat = Some (Holding (MkSystemOperationLock 1 "update-2")) ∧
  ls_threads sample_contended !! 2%nat = Some Ended ∧
  claimed_until m (ls_table sample_contended) ∧
  ∀ i lock, is_lock_held sample_contended i lock → is_lock_held sample_held i lock.
Proof.
  cbn zeta. split; [vm_compute; reflexivity|]. split; [vm_compute; reflexivity|].
  destruct (lock_excludes_for_lease sample_service empty_table 1000 sample_held) as [Hexcl _].
  - vm_compute. discriminate.
  - apply empty_lock_table.
  - apply play_steps, lock_steps_refl.
  - destruct (find_lock (ls_table sample_held)) as [r|] eqn:Er; [|vm_compute in Er; discriminate Er].
    apply (Hexcl r (ls_clock sample_held + 30 * Second) sample_contended eq_refl).
    + vm_compute in Er. by injection Er as <-.
    + vm_compute in Er. by injection Er as <-.
    + apply play_steps, lock_steps_refl.
    + vm_compute. reflexivity.
Defined.
