(* ===== verification/Billing.v ===== *)
(** * Billing: charges, balance holds and the requests they are applied for

    Models [backend/internal/service/usage_billing.go] and
    [backend/internal/repository/usage_billing_repo.go] over the tables it writes: users, API keys,
    subscriptions, accounts, the requests already applied ([usage_billing_dedup]) and their archive,
    with [CleanupUsageBillingDedup] of [repository/dashboard_aggregation_repo.go].

    A method is one transaction, which PostgreSQL makes atomic: a conflicting one waits for the
    row it claims.  [now] is the transaction's NOW(), in microseconds.  Columns the statements
    neither read nor write are left out.  Float parameters become NUMERICs by [numeric]. *)

From stdpp Require Import base tactics numbers list strings gmap.
From Stdlib Require Import ZArith Lia QArith.
From coqutil Require Export Datatypes.RecordSetters.
From S2P Require Import Prelude GoLib GoFloat AppErrors.

Export DoubleBraceUpdate.

Local Open Scope go_scope.
Local Open Scope Z_scope.

(** ** Library code *)

Class BillingLib : Type := {
  sha256_hex : string → string;
  EqualFold : string → string → bool;
  (** [date_trunc('day', t)] in the time zone of the session *)
  trunc_day : Z → Z;
  (** [t AT TIME ZONE zone], for a point in time and for a local time *)
  to_local : string → Z → Z;
  from_local : string → Z → Z
}.

Definition ErrUsageBillingRequestIDRequired : error :=
  EPlain "usage billing request_id is required".
Definition ErrUsageBillingRequestConflict : error :=
  EPlain "usage billing request fingerprint conflict".
Definition ErrUserNotFound : ApplicationError := NotFound "USER_NOT_FOUND" "user not found".
Definition ErrAPIKeyNotFound : ApplicationError := NotFound "API_KEY_NOT_FOUND" "api key not found".
Definition ErrAccountNotFound : ApplicationError := NotFound "ACCOUNT_NOT_FOUND" "account not found".
Definition ErrSubscriptionNotFound : ApplicationError :=
  NotFound "SUBSCRIPTION_NOT_FOUND" "subscription not found".
Definition ErrBatchImageSettlementCostExceedsHold : ApplicationError :=
  New 409 "BATCH_IMAGE_SETTLEMENT_COST_EXCEEDS_HOLD"
    "batch image settlement cost exceeds held balance".
Definition ErrBatchImageInsufficientBalance : ApplicationError :=
  New 402 "BATCH_IMAGE_INSUFFICIENT_BALANCE" "insufficient balance for batch image hold".

Definition AccountTypeAPIKey : string := "apikey".
Definition AccountTypeBedrock : string := "bedrock".
Definition StatusAPIKeyActive : string := "active".
Definition StatusAPIKeyQuotaExhausted : string := "quota_exhausted".

Definition batchImageHoldRequestPrefix : string := "batch_image_hold:".
Definition batchImageCaptureRequestPrefix : string := "batch_image_capture:".
Definition batchImageReleaseRequestPrefix : string := "batch_image_release:".

Definition BatchImageHoldRequestID (batchID : string) : string :=
  batchImageHoldRequestPrefix +:+ TrimSpace batchID.
Definition BatchImageCaptureRequestID (batchID : string) : string :=
  batchImageCaptureRequestPrefix +:+ TrimSpace batchID.
Definition BatchImageReleaseRequestID (batchID : string) : string :=
  batchImageReleaseRequestPrefix +:+ TrimSpace batchID.

(** ** Commands *)

Record UsageBillingCommand : Type := MkUsageBillingCommand {
  c_RequestID : string;
  c_APIKeyID : Z;
  c_RequestFingerprint : string;
  c_RequestPayloadHash : string;
  c_UserID : Z;
  c_AccountID : Z;
  c_SubscriptionID : option Z;
  c_AccountType : string;
  c_Model : string;
  c_ServiceTier : string;
  c_ReasoningEffort : string;
  c_BillingType : Z;
  c_InputTokens : Z;
  c_OutputTokens : Z;
  c_CacheCreationTokens : Z;
  c_CacheReadTokens : Z;
  c_ImageCount : Z;
  c_MediaType : string;
  c_BalanceCost : float64;
  c_SubscriptionCost : float64;
  c_APIKeyQuotaCost : float64;
  c_APIKeyRateLimitCost : float64;
  c_AccountQuotaCost : float64
}.

Record BatchImageBalanceHoldCommand : Type := MkBatchImageBalanceHoldCommand {
  h_RequestID : string;
  h_APIKeyID : Z;
  h_RequestFingerprint : string;
  h_RequestPayloadHash : string;
  h_UserID : Z;
  h_BatchID : string;
  h_HoldAmount : float64;
  h_ActualAmount : float64
}.

Record AccountQuotaState : Type := MkAccountQuotaState {
  q_TotalUsed : float64;
  q_TotalLimit : float64;
  q_DailyUsed : float64;
  q_DailyLimit : float64;
  q_WeeklyUsed : float64;
  q_WeeklyLimit : float64
}.

Record UsageBillingApplyResult : Type := MkUsageBillingApplyResult {
  a_Applied : bool;
  a_APIKeyQuotaExhausted : bool;
  a_NewBalance : option float64;
  a_BalanceOverdrafted : bool;
  a_QuotaState : option AccountQuotaState
}.

Definition UsageBillingApplyResult0 : UsageBillingApplyResult :=
  MkUsageBillingApplyResult false false None false None.

Record BatchImageBalanceHoldResult : Type := MkBatchImageBalanceHoldResult {
  r_Applied : bool;
  r_NewBalance : option float64;
  r_FrozenBalance : option float64
}.

Definition BatchImageBalanceHoldResult0 : BatchImageBalanceHoldResult :=
  MkBatchImageBalanceHoldResult false None None.

Definition valueOrZero (v : option Z) : Z := default 0 v.

Section Commands.
Context `{BillingLib} `{AmountCodec}.

(** Zero, NaN and the infinities are left alone. *)
Definition QuantizeUsageBillingAmount (v : float64) : float64 :=
  match v with S754_finite _ _ _ => decimal_round8 v | _ => v end.

Definition with_payload_hash (raw payloadHash : string) : string :=
  let payloadHash := TrimSpace payloadHash in
  if payloadHash ≟ "" then raw else raw +:+ "|" +:+ payloadHash.

Definition buildUsageBillingFingerprint (c : UsageBillingCommand) : string :=
  let raw := String.concat "|"
    [FormatInt (c_UserID c); FormatInt (c_AccountID c); FormatInt (c_APIKeyID c);
     TrimSpace (c_AccountType c); TrimSpace (c_Model c); TrimSpace (c_ServiceTier c);
     TrimSpace (c_ReasoningEffort c); FormatInt (c_BillingType c);
     FormatInt (c_InputTokens c); FormatInt (c_OutputTokens c);
     FormatInt (c_CacheCreationTokens c); FormatInt (c_CacheReadTokens c);
     FormatInt (c_ImageCount c); TrimSpace (c_MediaType c);
     FormatInt (valueOrZero (c_SubscriptionID c));
     format_10f (c_BalanceCost c); format_10f (c_SubscriptionCost c);
     format_10f (c_APIKeyQuotaCost c); format_10f (c_APIKeyRateLimitCost c);
     format_10f (c_AccountQuotaCost c)] in
  sha256_hex (with_payload_hash raw (c_RequestPayloadHash c)).

Definition quantizeMonetaryFields (c : UsageBillingCommand) : UsageBillingCommand :=
  c{{ c_BalanceCost := QuantizeUsageBillingAmount (c_BalanceCost c);
      c_SubscriptionCost := QuantizeUsageBillingAmount (c_SubscriptionCost c);
      c_APIKeyQuotaCost := QuantizeUsageBillingAmount (c_APIKeyQuotaCost c);
      c_APIKeyRateLimitCost := QuantizeUsageBillingAmount (c_APIKeyRateLimitCost c);
      c_AccountQuotaCost := QuantizeUsageBillingAmount (c_AccountQuotaCost c) }}.

(** [Normalize] of a [UsageBillingCommand] *)
Definition NormalizeUsage (c : UsageBillingCommand) : UsageBillingCommand :=
  let c := c{{ c_RequestID := TrimSpace (c_RequestID c) }} in
  let c := if TrimSpace (c_RequestFingerprint c) ≟ ""
           then c{{ c_RequestFingerprint := buildUsageBillingFingerprint c }} else c in
  quantizeMonetaryFields c.

Definition buildBatchImageBalanceHoldFingerprint (c : BatchImageBalanceHoldCommand) : string :=
  let raw := String.concat "|"
    [FormatInt (h_UserID c); FormatInt (h_APIKeyID c); TrimSpace (h_BatchID c);
     format_10f (h_HoldAmount c); format_10f (h_ActualAmount c)] in
  sha256_hex (with_payload_hash raw (h_RequestPayloadHash c)).

(** [Normalize] of a [BatchImageBalanceHoldCommand] *)
Definition NormalizeHold (c : BatchImageBalanceHoldCommand) : BatchImageBalanceHoldCommand :=
  let c := c{{ h_RequestID := TrimSpace (h_RequestID c); h_BatchID := TrimSpace (h_BatchID c) }} in
  if TrimSpace (h_RequestFingerprint c) ≟ ""
  then c{{ h_RequestFingerprint := buildBatchImageBalanceHoldFingerprint c }} else c.

End Commands.

(** ** Tables *)

(** [balance] and [frozen_balance], both DECIMAL(20,8). *)
Record user : Type := MkUser {
  u_balance : Z;
  u_frozen : Z;
  u_deleted : bool
}.

(** Amounts are DECIMAL(20,8). *)
Record api_key : Type := MkAPIKey {
  k_quota : Z;
  k_quota_used : Z;
  k_status : string;
  k_usage_5h : Z;
  k_usage_1d : Z;
  k_usage_7d : Z;
  k_window_5h_start : option Z;
  k_window_1d_start : option Z;
  k_window_7d_start : option Z;
  k_deleted : bool
}.

(** Amounts are DECIMAL(20,10). *)
Record subscription : Type := MkSubscription {
  s_group : Z;
  s_daily_usage_usd : Z;
  s_weekly_usage_usd : Z;
  s_monthly_usage_usd : Z;
  s_deleted : bool
}.

(** One period of an account's quota, as its JSON members [quota_daily_*] or [quota_weekly_*];
    numbers in JSON keep every digit. *)
Record quota_period : Type := MkQuotaPeriod {
  p_limit : option Q;
  p_used : option Q;
  p_start : option Z;
  p_reset_mode : option string;
  p_reset_at : option Z;
  p_reset_hour : option Z;
  p_reset_day : option Z
}.

(** The column [extra] of an account, as far as quotas go. *)
Record account : Type := MkAccount {
  x_quota_used : option Q;
  x_quota_limit : option Q;
  x_daily : quota_period;
  x_weekly : quota_period;
  x_timezone : option string;
  x_deleted : bool
}.

(** The tables; [outbox] has the accounts with a pending event for the scheduler, [groups] the
    groups that are not deleted.  A request is a request identifier and an API key. *)
Record billing_db : Type := MkBillingDB {
  users : gmap Z user;
  api_keys : gmap Z api_key;
  subscriptions : gmap Z subscription;
  groups : gset Z;
  accounts : gmap Z account;
  outbox : gset Z;
  dedup : gmap (string * Z) (string * Z);
  archive : gmap (string * Z) string
}.

Definition Tx (A : Type) : Type := St billing_db (result A).

Definition pass {A : Type} (a : A) : Tx A := λ db, (inl a, db).
Definition fails {A : Type} (err : error) : Tx A := λ db, (inr err, db).

(** What PostgreSQL says of a value that does not fit its column. *)
Definition NumericOverflow : error := EPlain "numeric field overflow".

Definition put_user (id : Z) (u : user) (db : billing_db) : billing_db :=
  db{{ users := <[id := u]> (users db) }}.
Definition put_api_key (id : Z) (k : api_key) (db : billing_db) : billing_db :=
  db{{ api_keys := <[id := k]> (api_keys db) }}.
Definition put_subscription (id : Z) (s : subscription) (db : billing_db) : billing_db :=
  db{{ subscriptions := <[id := s]> (subscriptions db) }}.
Definition put_account (id : Z) (a : account) (db : billing_db) : billing_db :=
  db{{ accounts := <[id := a]> (accounts db) }}.
Definition put_claim (requestID : string) (apiKeyID : Z) (fingerprint : string) (now : Z)
    (db : billing_db) : billing_db :=
  db{{ dedup := <[(requestID, apiKeyID) := (fingerprint, now)]> (dedup db) }}.

(** The user of a statement's [WHERE id = $1 AND deleted_at IS NULL]. *)
Definition live_user (db : billing_db) (id : Z) : option user :=
  u ← users db !! id; if u_deleted u then None else Some u.
Definition live_api_key (db : billing_db) (id : Z) : option api_key :=
  k ← api_keys db !! id; if k_deleted k then None else Some k.
Definition live_account (db : billing_db) (id : Z) : option account :=
  a ← accounts db !! id; if x_deleted a then None else Some a.

(** [UPDATE users SET balance = ..., frozen_balance = ...] for a live user that satisfies the
    rest of the condition; the new values, if there is a row. *)
Definition update_user (id : Z) (cond : user → bool) (balance frozen : user → Q)
    : Tx (option (Z * Z)) := λ db,
  match live_user db id with
  | Some u =>
      if cond u then
        match store 8 (balance u), store 8 (frozen u) with
        | Some b, Some f => (inl (Some (b, f)), put_user id (MkUser b f (u_deleted u)) db)
        | _, _ => (inr NumericOverflow, db)
        end
      else (inl None, db)
  | None => (inl None, db)
  end.

(** A transaction: committed when the body asks for it, rolled back otherwise. *)
Definition transaction {A : Type} (body : Tx (A * bool)) : Tx A := λ db,
  match body db with
  | (inl (a, true), db') => (inl a, db')
  | (inl (a, false), _) => (inl a, db)
  | (inr err, _) => (inr err, db)
  end.

(** ** Requests already applied *)

Definition same_fingerprint (a b : string) : bool := TrimSpace a ≟ TrimSpace b.

Definition claimUsageBillingRequest (now : Z) (requestID : string) (apiKeyID : Z)
    (requestFingerprint : string) : Tx bool := λ db,
  match dedup db !! (requestID, apiKeyID) with
  | Some (existing, _) =>
      if same_fingerprint existing requestFingerprint then (inl false, db)
      else (inr ErrUsageBillingRequestConflict, db)
  | None =>
      let db := put_claim requestID apiKeyID requestFingerprint now db in
      match archive db !! (requestID, apiKeyID) with
      | Some archived =>
          if same_fingerprint archived requestFingerprint then (inl false, db)
          else (inr ErrUsageBillingRequestConflict, db)
      | None => (inl true, db)
      end
  end.

Definition batchImageHoldClaimExists (holdRequestID : string) (apiKeyID : Z) : Tx bool := λ db,
  (inl (bool_decide (is_Some (dedup db !! (holdRequestID, apiKeyID))) ||
        bool_decide (is_Some (archive db !! (holdRequestID, apiKeyID)))), db).

Definition usageBillingDedupCleanupBatchSize : Z := 10000.

(** One turn of the cleanup: the rows chosen move to the archive.  Which rows LIMIT keeps is
    left open by PostgreSQL; here the first of the map. *)
Definition cleanup_victims (cutoff : Z) (db : billing_db) : list (string * Z * (string * Z)) :=
  firstn (Z.to_nat usageBillingDedupCleanupBatchSize)
    (List.filter (λ row, row.2.2 <? cutoff) (map_to_list (dedup db))).

Definition move_to_archive (rows : list (string * Z * (string * Z))) (db : billing_db)
    : billing_db :=
  db{{ dedup := foldr (λ row m, delete row.1 m) (dedup db) rows;
       archive := foldr (λ row m, match m !! row.1 with
                                  | Some _ => m
                                  | None => <[row.1 := row.2.1]> m
                                  end) (archive db) rows }}.

(** The loop ends with a turn that moves fewer rows than a batch; [fuel] bounds the turns. *)
Fixpoint cleanup_turns (fuel : nat) (cutoff : Z) (db : billing_db) : billing_db :=
  match fuel with
  | O => db
  | S fuel =>
      let rows := cleanup_victims cutoff db in
      let db' := move_to_archive rows db in
      if Z.of_nat (length rows) <? usageBillingDedupCleanupBatchSize then db'
      else cleanup_turns fuel cutoff db'
  end.

Definition CleanupUsageBillingDedup (cutoff : Z) (db : billing_db) : billing_db :=
  cleanup_turns (S (size (dedup db))) cutoff db.

(** ** The effects of a charge *)

Definition Qlt_bool (a b : Q) : bool := negb (Qle_bool b a).

Section Effects.
Context `{BillingLib} `{AmountCodec}.

(** [to_float z]: a DECIMAL(20,8) read into a float64. *)
Definition to_float (z : Z) : float64 := scan_float (units 8 z).

Definition incrementUsageBillingSubscription (subscriptionID : Z) (costUSD : float64) : Tx unit :=
  λ db,
  match subscriptions db !! subscriptionID with
  | Some s =>
      if s_deleted s || negb (bool_decide (s_group s ∈ groups db))
      then (inr (as_error ErrSubscriptionNotFound), db)
      else
        let add u := store 10 (units 10 u + numeric costUSD) in
        match add (s_daily_usage_usd s), add (s_weekly_usage_usd s), add (s_monthly_usage_usd s) with
        | Some d, Some w, Some m =>
            (inl tt, put_subscription subscriptionID (MkSubscription (s_group s) d w m false) db)
        | _, _, _ => (inr NumericOverflow, db)
        end
  | None => (inr (as_error ErrSubscriptionNotFound), db)
  end.

Definition userExistsForBilling (userID : Z) : Tx bool := λ db,
  (inl (bool_decide (is_Some (live_user db userID))), db).

Definition deductUsageBillingBalance (userID : Z) (amount : float64) : Tx (float64 * bool) :=
  let less u := (units 8 (u_balance u) - numeric amount)%Q in
  let frozen u := units 8 (u_frozen u) in
  row ⇐ update_user userID (λ u, Qle_bool (numeric amount) (units 8 (u_balance u))) less frozen;
  match row with
  | Some (b, _) => pass (to_float b, true)
  | None =>
      row ⇐ update_user userID (λ _, true) less frozen;
      match row with
      | Some (b, _) => pass (to_float b, false)
      | None => fails (as_error ErrUserNotFound)
      end
  end.

Definition incrementUsageBillingAPIKeyQuota (apiKeyID : Z) (amount : float64) : Tx bool := λ db,
  match live_api_key db apiKeyID with
  | Some k =>
      let quota := units 8 (k_quota k) in
      let sum := (units 8 (k_quota_used k) + numeric amount)%Q in
      match store 8 sum with
      | Some used =>
          let status :=
            if (0 <? k_quota k) && (k_status k ≟ StatusAPIKeyActive) &&
               (k_quota_used k <? k_quota k) && Qle_bool quota sum
            then StatusAPIKeyQuotaExhausted else k_status k in
          (inl ((0 <? k_quota k) && (k_quota k <=? used) &&
                Qlt_bool (units 8 used - numeric amount) quota),
           put_api_key apiKeyID (k{{ k_quota_used := used; k_status := status }}) db)
      | None => (inr NumericOverflow, db)
      end
  | None => (inr (as_error ErrAPIKeyNotFound), db)
  end.

Definition hours (n : Z) : Z := n * 3600000000.

(** A window that is over starts anew with the cost. *)
Definition window_over (start : option Z) (length now : Z) : bool :=
  match start with Some s => s + length <=? now | None => false end.
Definition next_start (start : option Z) (length now fresh : Z) : option Z :=
  match start with
  | None => Some fresh
  | Some s => if s + length <=? now then Some fresh else Some s
  end.
Definition window_usage (start : option Z) (length now usage : Z) (cost : Q) : option Z :=
  store 8 (if window_over start length now then cost else units 8 usage + cost).

Definition incrementUsageBillingAPIKeyRateLimit (now apiKeyID : Z) (cost : float64) : Tx unit :=
  λ db,
  match live_api_key db apiKeyID with
  | Some k =>
      let c := numeric cost in
      match window_usage (k_window_5h_start k) (hours 5) now (k_usage_5h k) c,
            window_usage (k_window_1d_start k) (hours 24) now (k_usage_1d k) c,
            window_usage (k_window_7d_start k) (hours 168) now (k_usage_7d k) c with
      | Some u5, Some u1, Some u7 =>
          (inl tt,
           put_api_key apiKeyID
             (k{{ k_usage_5h := u5; k_usage_1d := u1; k_usage_7d := u7;
                  k_window_5h_start := next_start (k_window_5h_start k) (hours 5) now now;
                  k_window_1d_start :=
                    next_start (k_window_1d_start k) (hours 24) now (trunc_day now);
                  k_window_7d_start :=
                    next_start (k_window_7d_start k) (hours 168) now (trunc_day now) }}) db)
      | _, _, _ => (inr NumericOverflow, db)
      end
  | None => (inr (as_error ErrAPIKeyNotFound), db)
  end.

(** *** Account quotas *)

Definition coalesce {A : Type} (o : option A) (d : A) : A := default d o.

Definition fixed_mode (p : quota_period) : bool := coalesce (p_reset_mode p) "rolling" ≟ "fixed".

(** [dailyExpiredExpr] and [weeklyExpiredExpr], for a period of [length] microseconds. *)
Definition expiredExpr (length now : Z) (p : quota_period) : bool :=
  if fixed_mode p then coalesce (p_reset_at p) 0 <=? now
  else coalesce (p_start p) 0 + length <=? now.

Definition day : Z := hours 24.
Definition midnight (t : Z) : Z := t - t mod day.
(** [EXTRACT(DOW FROM t)]: 1970-01-01 was a Thursday. *)
Definition day_of_week (t : Z) : Z := (t / day + 4) mod 7.
Definition whole_seconds (t : Z) : Z := t - t mod 1000000.

Definition zone_of (x : account) : string := coalesce (x_timezone x) "UTC".

Definition nextDailyResetAtExpr (now : Z) (x : account) : option Z :=
  let p := x_daily x in
  if fixed_mode p then
    let zone := zone_of x in
    let today := midnight (to_local zone now) + hours (coalesce (p_reset_hour p) 0) in
    Some (whole_seconds
      (if from_local zone today <=? now then from_local zone (today + day)
       else from_local zone today))
  else None.

Definition nextWeeklyResetAtExpr (now : Z) (x : account) : option Z :=
  let p := x_weekly x in
  if fixed_mode p then
    let zone := zone_of x in
    let local := to_local zone now in
    let today := midnight local + hours (coalesce (p_reset_hour p) 0) in
    (* SQL's % truncates *)
    let days_forward := Z.rem (coalesce (p_reset_day p) 1 - day_of_week local + 7) 7 in
    Some (whole_seconds
      (if (days_forward =? 0) && (from_local zone today <=? now)
       then from_local zone (today + 7 * day)
       else from_local zone (today + days_forward * day)))
  else None.

(** The members of a period after a charge; a period without a limit is left alone. *)
Definition charge_period (length now : Z) (amount : Q) (next_reset : option Z) (p : quota_period)
    : quota_period :=
  if Qlt_bool 0 (coalesce (p_limit p) 0%Q) then
    let expired := expiredExpr length now p in
    p{{ p_used := Some (if expired then amount else (coalesce (p_used p) 0 + amount)%Q);
        p_start := Some (if expired then now else coalesce (p_start p) now);
        p_reset_at := if expired
                      then match next_reset with Some r => Some r | None => p_reset_at p end
                      else p_reset_at p }}
  else p.

Definition charge_account (now : Z) (amount : Q) (x : account) : account :=
  x{{ x_quota_used := Some (coalesce (x_quota_used x) 0 + amount)%Q;
      x_daily := charge_period (hours 24) now amount (nextDailyResetAtExpr now x) (x_daily x);
      x_weekly := charge_period (hours 168) now amount (nextWeeklyResetAtExpr now x) (x_weekly x) }}.

Definition quota_state (x : account) : AccountQuotaState :=
  let read (o : option Q) := scan_float (coalesce o 0%Q) in
  MkAccountQuotaState (read (x_quota_used x)) (read (x_quota_limit x))
    (read (p_used (x_daily x))) (read (p_limit (x_daily x)))
    (read (p_used (x_weekly x))) (read (p_limit (x_weekly x))).

(** A charge that takes the usage over its limit. *)
Definition crossed (limit used amount : float64) : bool :=
  f64_ltb f64_zero limit && f64_leb limit used && f64_ltb (f64_sub used amount) limit.

(** The event is dropped when one of the account is pending. *)
Definition enqueueSchedulerOutbox (accountID : Z) (db : billing_db) : billing_db :=
  db{{ outbox := {[accountID]} ∪ outbox db }}.

Definition incrementUsageBillingAccountQuota (now accountID : Z) (amount : float64)
    : Tx AccountQuotaState := λ db,
  match live_account db accountID with
  | Some x =>
      let x := charge_account now (numeric amount) x in
      let state := quota_state x in
      let db := put_account accountID x db in
      (inl state,
       if crossed (q_TotalLimit state) (q_TotalUsed state) amount ||
          crossed (q_DailyLimit state) (q_DailyUsed state) amount ||
          crossed (q_WeeklyLimit state) (q_WeeklyUsed state) amount
       then enqueueSchedulerOutbox accountID db else db)
  | None => (inr (as_error ErrAccountNotFound), db)
  end.

(** *** All of them *)

(** [if cost > 0 && cond { call }], with the result updated by what the call answers. *)
Definition when_positive {A : Type} (cost : float64) (cond : bool) (call : Tx A)
    (k : A → UsageBillingApplyResult → UsageBillingApplyResult)
    (result : UsageBillingApplyResult) : Tx UsageBillingApplyResult :=
  if f64_ltb f64_zero cost && cond then a ⇐ call; pass (k a result) else pass result.

Definition charge_subscription (cmd : UsageBillingCommand) (result : UsageBillingApplyResult)
    : Tx UsageBillingApplyResult :=
  match c_SubscriptionID cmd with
  | Some id =>
      when_positive (c_SubscriptionCost cmd) true
        (incrementUsageBillingSubscription id (c_SubscriptionCost cmd)) (λ _ r, r) result
  | None => pass result
  end.

Definition applyUsageBillingEffects (now : Z) (cmd : UsageBillingCommand)
    (result : UsageBillingApplyResult) : Tx UsageBillingApplyResult :=
  result ⇐ charge_subscription cmd result;
  result ⇐ when_positive (c_BalanceCost cmd) true
    (deductUsageBillingBalance (c_UserID cmd) (c_BalanceCost cmd))
    (λ '(newBalance, sufficient) r,
       r{{ a_NewBalance := Some newBalance; a_BalanceOverdrafted := negb sufficient }}) result;
  result ⇐ when_positive (c_APIKeyQuotaCost cmd) true
    (incrementUsageBillingAPIKeyQuota (c_APIKeyID cmd) (c_APIKeyQuotaCost cmd))
    (λ exhausted r, r{{ a_APIKeyQuotaExhausted := exhausted }}) result;
  result ⇐ when_positive (c_APIKeyRateLimitCost cmd) true
    (incrementUsageBillingAPIKeyRateLimit now (c_APIKeyID cmd) (c_APIKeyRateLimitCost cmd))
    (λ _ r, r) result;
  when_positive (c_AccountQuotaCost cmd)
    (EqualFold (c_AccountType cmd) AccountTypeAPIKey ||
     EqualFold (c_AccountType cmd) AccountTypeBedrock)
    (incrementUsageBillingAccountQuota now (c_AccountID cmd) (c_AccountQuotaCost cmd))
    (λ q r, r{{ a_QuotaState := Some q }}) result.

(** [Apply] *)
Definition ApplyUsage (now : Z) (cmd : option UsageBillingCommand) : Tx UsageBillingApplyResult :=
  match cmd with
  | None => pass UsageBillingApplyResult0
  | Some cmd =>
      let cmd := NormalizeUsage cmd in
      if c_RequestID cmd ≟ "" then fails ErrUsageBillingRequestIDRequired else
      transaction
        (applied ⇐ claimUsageBillingRequest now (c_RequestID cmd) (c_APIKeyID cmd)
           (c_RequestFingerprint cmd);
         if negb applied then pass (UsageBillingApplyResult0, false) else
         result ⇐ applyUsageBillingEffects now cmd (UsageBillingApplyResult0{{ a_Applied := true }});
         pass (result, true))
  end.

(** ** Balance holds *)

(** What follows an UPDATE of the user that found no row. *)
Definition no_row (userID : Z) (err : error) : Tx BatchImageBalanceHoldResult :=
  exists_ ⇐ userExistsForBilling userID;
  if negb exists_ then fails (as_error ErrUserNotFound) else fails err.

Definition moved (row : Z * Z) : BatchImageBalanceHoldResult :=
  MkBatchImageBalanceHoldResult false (Some (to_float row.1)) (Some (to_float row.2)).

Definition reserveUsageBillingBatchImageBalance (cmd : BatchImageBalanceHoldCommand)
    : Tx BatchImageBalanceHoldResult :=
  if f64_leb (h_HoldAmount cmd) f64_zero then pass BatchImageBalanceHoldResult0 else
  let hold := numeric (h_HoldAmount cmd) in
  row ⇐ update_user (h_UserID cmd)
    (λ u, Qle_bool hold (units 8 (u_balance u)))
    (λ u, units 8 (u_balance u) - hold)%Q
    (λ u, units 8 (u_frozen u) + hold)%Q;
  match row with
  | Some row => pass (moved row)
  | None => no_row (h_UserID cmd) (as_error ErrBatchImageInsufficientBalance)
  end.

Definition FrozenInsufficient : error := EPlain "batch image frozen balance is insufficient".

(** [0.00000001] *)
Definition cost_epsilon : float64 := f64_decimal 1 8.

Definition captureUsageBillingBatchImageBalance (cmd : BatchImageBalanceHoldCommand)
    : Tx BatchImageBalanceHoldResult :=
  if f64_leb (h_HoldAmount cmd) f64_zero && f64_leb (h_ActualAmount cmd) f64_zero
  then pass BatchImageBalanceHoldResult0 else
  if f64_ltb cost_epsilon (f64_sub (h_ActualAmount cmd) (h_HoldAmount cmd))
  then fails (as_error ErrBatchImageSettlementCostExceedsHold) else
  let hold := numeric (h_HoldAmount cmd) in
  let actual := numeric (h_ActualAmount cmd) in
  row ⇐ update_user (h_UserID cmd)
    (λ u, Qle_bool hold (units 8 (u_frozen u)))
    (λ u, units 8 (u_balance u) + (if Qlt_bool actual hold then hold - actual else 0)
                                - (if Qlt_bool hold actual then actual - hold else 0))%Q
    (λ u, units 8 (u_frozen u) - hold)%Q;
  match row with
  | Some row => pass (moved row)
  | None => no_row (h_UserID cmd) FrozenInsufficient
  end.

Definition releaseUsageBillingBatchImageBalance (cmd : BatchImageBalanceHoldCommand)
    : Tx BatchImageBalanceHoldResult :=
  if f64_leb (h_HoldAmount cmd) f64_zero then pass BatchImageBalanceHoldResult0 else
  held ⇐ batchImageHoldClaimExists (BatchImageHoldRequestID (h_BatchID cmd)) (h_APIKeyID cmd);
  if negb held then pass BatchImageBalanceHoldResult0 else
  let hold := numeric (h_HoldAmount cmd) in
  row ⇐ update_user (h_UserID cmd)
    (λ u, Qle_bool hold (units 8 (u_frozen u)))
    (λ u, units 8 (u_balance u) + hold)%Q
    (λ u, units 8 (u_frozen u) - hold)%Q;
  match row with
  | Some row => pass (moved row)
  | None => no_row (h_UserID cmd) FrozenInsufficient
  end.

Definition applyBatchImageBalanceHold (now : Z) (cmd : option BatchImageBalanceHoldCommand)
    (apply : BatchImageBalanceHoldCommand → Tx BatchImageBalanceHoldResult)
    : Tx BatchImageBalanceHoldResult :=
  match cmd with
  | None => pass BatchImageBalanceHoldResult0
  | Some cmd =>
      let cmd := NormalizeHold cmd in
      if h_RequestID cmd ≟ "" then fails ErrUsageBillingRequestIDRequired else
      transaction
        (applied ⇐ claimUsageBillingRequest now (h_RequestID cmd) (h_APIKeyID cmd)
           (h_RequestFingerprint cmd);
         if negb applied then pass (BatchImageBalanceHoldResult0, false) else
         result ⇐ apply cmd;
         pass (result{{ r_Applied := true }}, true))
  end.

Definition ReserveBatchImageBalance (now : Z) (cmd : option BatchImageBalanceHoldCommand)
    : Tx BatchImageBalanceHoldResult :=
  applyBatchImageBalanceHold now cmd reserveUsageBillingBatchImageBalance.

Definition CaptureBatchImageBalance (now : Z) (cmd : option BatchImageBalanceHoldCommand)
    : Tx BatchImageBalanceHoldResult :=
  applyBatchImageBalanceHold now cmd captureUsageBillingBatchImageBalance.

Definition ReleaseBatchImageBalance (now : Z) (cmd : option BatchImageBalanceHoldCommand)
    : Tx BatchImageBalanceHoldResult :=
  applyBatchImageBalanceHold now cmd releaseUsageBillingBatchImageBalance.

End Effects.
