(* ===== verification/BillingFacts.v ===== *)
(** * BillingFacts: a request is charged once, holds move money without making any

    Theorems about Billing: what a claimed request can still do, where the money of a user goes,
    what a charge does to balance and quota, and the escrow that reserve, capture and release
    implement.  [ExactCodec] is a lawful instance of the conversions, [DecimalCodec] one that is
    exact on amounts of up to ten decimals; witnesses and examples are evaluated on them. *)

From stdpp Require Import base tactics numbers list strings gmap.
From Stdlib Require Import ZArith Lia QArith Qround Lqa.
From S2P Require Import Prelude GoLib GoFloat AppErrors Billing.

Local Open Scope go_scope.
Local Open Scope Z_scope.

(** ** What a statement leaves alone *)

(** [keeps proj m]: the transaction part [m] does not change the part [proj] of the tables. *)
Definition keeps {X A : Type} (proj : billing_db → X) (m : Tx A) : Prop :=
  ∀ db, proj (m db).2 = proj db.

Section Keeps.
Context {X : Type} (proj : billing_db → X).

Lemma keeps_pass {A} (a : A) : keeps proj (pass a).
Proof. done. Qed.

Lemma keeps_fails {A} err : keeps proj (fails (A:=A) err).
Proof. done. Qed.

Lemma keeps_bind {A B} (m : Tx A) (f : A → Tx B) :
  keeps proj m → (∀ a, keeps proj (f a)) → keeps proj (try_bind m f).
Proof.
  intros Hm Hf db. unfold try_bind. specialize (Hm db).
  destruct (m db) as [[a|err] db']; cbn in *; [|done]. by rewrite Hf.
Qed.

Lemma keeps_if {A} (b : bool) (m m' : Tx A) :
  keeps proj m → keeps proj m' → keeps proj (if b then m else m').
Proof. by destruct b. Qed.

Lemma keeps_option {A B} (o : option B) (m : B → Tx A) m' :
  (∀ b, keeps proj (m b)) → keeps proj m' →
  keeps proj (match o with Some b => m b | None => m' end).
Proof. by destruct o. Qed.

Lemma keeps_transaction {A} (m : Tx (A * bool)) : keeps proj m → keeps proj (transaction m).
Proof.
  intros Hm db. specialize (Hm db). unfold transaction.
  by destruct (m db) as [[[a []]|err] db'].
Qed.

Lemma keeps_when_positive {A} cost cond (m : Tx A) k r :
  keeps proj m → keeps proj (when_positive cost cond m k r).
Proof.
  intros Hm. apply keeps_if; [|done]. by apply keeps_bind; [|intros; apply keeps_pass].
Qed.

End Keeps.

(** Take a transaction part apart down to its statements. *)
Ltac keeps_step :=
  match goal with
  | |- ∀ _, _ => intros ?
  | |- keeps _ (let _ := _ in _) => cbv zeta
  | |- keeps _ (try_bind _ _) => apply keeps_bind
  | |- keeps _ (when_positive _ _ _ _ _) => apply keeps_when_positive
  | |- keeps _ (transaction _) => apply keeps_transaction
  | |- keeps _ (pass _) => apply keeps_pass
  | |- keeps _ (fails _) => apply keeps_fails
  | |- keeps _ (if _ then _ else _) => apply keeps_if
  | |- keeps _ (match ?o with _ => _ end) => destruct o
  end.

Section Frames.
Context `{BillingLib} `{AmountCodec}.

Lemma update_user_keeps {X} (proj : billing_db → X) id cond b f :
  (∀ id u db, proj (put_user id u db) = proj db) → keeps proj (update_user id cond b f).
Proof.
  intros Hproj db. unfold update_user. repeat case_match; simplify_eq/=; auto.
Qed.

Lemma subscription_keeps {X} (proj : billing_db → X) id cost :
  (∀ id s db, proj (put_subscription id s db) = proj db) →
  keeps proj (incrementUsageBillingSubscription id cost).
Proof.
  intros Hproj db. unfold incrementUsageBillingSubscription.
  repeat case_match; simplify_eq/=; auto.
Qed.

Lemma api_key_quota_keeps {X} (proj : billing_db → X) id cost :
  (∀ id k db, proj (put_api_key id k db) = proj db) →
  keeps proj (incrementUsageBillingAPIKeyQuota id cost).
Proof.
  intros Hproj db. unfold incrementUsageBillingAPIKeyQuota.
  repeat case_match; simplify_eq/=; auto.
Qed.

Lemma api_key_rate_keeps {X} (proj : billing_db → X) now id cost :
  (∀ id k db, proj (put_api_key id k db) = proj db) →
  keeps proj (incrementUsageBillingAPIKeyRateLimit now id cost).
Proof.
  intros Hproj db. unfold incrementUsageBillingAPIKeyRateLimit.
  repeat case_match; simplify_eq/=; auto.
Qed.

Lemma account_quota_keeps {X} (proj : billing_db → X) now id cost :
  (∀ id x db, proj (put_account id x db) = proj db) →
  (∀ id db, proj (enqueueSchedulerOutbox id db) = proj db) →
  keeps proj (incrementUsageBillingAccountQuota now id cost).
Proof.
  intros Hproj Hout db. unfold incrementUsageBillingAccountQuota.
  repeat case_match; simplify_eq/=; rewrite ?Hout; auto.
Qed.

Lemma deduct_keeps {X} (proj : billing_db → X) id cost :
  (∀ id u db, proj (put_user id u db) = proj db) → keeps proj (deductUsageBillingBalance id cost).
Proof.
  intros Hproj. unfold deductUsageBillingBalance.
  pose proof (update_user_keeps proj) as Hu.
  repeat keeps_step; by apply Hu.
Qed.

(** A part of the tables that none of the effects of a charge writes. *)
Lemma effects_keep {X} (proj : billing_db → X) now cmd r :
  (∀ id u db, proj (put_user id u db) = proj db) →
  (∀ id s db, proj (put_subscription id s db) = proj db) →
  (∀ id k db, proj (put_api_key id k db) = proj db) →
  (∀ id x db, proj (put_account id x db) = proj db) →
  (∀ id db, proj (enqueueSchedulerOutbox id db) = proj db) →
  keeps proj (applyUsageBillingEffects now cmd r).
Proof.
  intros. unfold applyUsageBillingEffects, charge_subscription.
  repeat keeps_step;
    eauto using deduct_keeps, subscription_keeps, api_key_quota_keeps, api_key_rate_keeps,
      account_quota_keeps.
Qed.

End Frames.

(** ** Operations and their histories *)

Section Operations.
Context `{BillingLib} `{AmountCodec}.

(** The transactions of the repository, with the time they run at, and the cleanup. *)
Inductive billing_op : Type :=
| OpApply (now : Z) (cmd : UsageBillingCommand)
| OpReserve (now : Z) (cmd : BatchImageBalanceHoldCommand)
| OpCapture (now : Z) (cmd : BatchImageBalanceHoldCommand)
| OpRelease (now : Z) (cmd : BatchImageBalanceHoldCommand)
| OpCleanup (cutoff : Z).

(** What an operation answers, reduced to whether it was applied, and the tables it leaves. *)
Definition perform_op (op : billing_op) (db : billing_db) : result bool * billing_db :=
  let applied {A} (f : A → bool) (p : result A * billing_db) :=
    (match p.1 with inl a => inl (f a) | inr err => inr err end, p.2) in
  match op with
  | OpApply now cmd => applied a_Applied (ApplyUsage now (Some cmd) db)
  | OpReserve now cmd => applied r_Applied (ReserveBatchImageBalance now (Some cmd) db)
  | OpCapture now cmd => applied r_Applied (CaptureBatchImageBalance now (Some cmd) db)
  | OpRelease now cmd => applied r_Applied (ReleaseBatchImageBalance now (Some cmd) db)
  | OpCleanup cutoff => (inl false, CleanupUsageBillingDedup cutoff db)
  end.

Definition run_op (op : billing_op) (db : billing_db) : billing_db := (perform_op op db).2.
Definition run_ops (ops : list billing_op) (db : billing_db) : billing_db :=
  foldl (λ db op, run_op op db) db ops.

(** The request an operation claims. *)
Definition op_request (op : billing_op) : option (string * Z) :=
  match op with
  | OpApply _ cmd => Some (TrimSpace (c_RequestID cmd), c_APIKeyID cmd)
  | OpReserve _ cmd | OpCapture _ cmd | OpRelease _ cmd =>
      Some (TrimSpace (h_RequestID cmd), h_APIKeyID cmd)
  | OpCleanup _ => None
  end.

Definition claimed (r : string * Z) (db : billing_db) : Prop :=
  is_Some (dedup db !! r) ∨ is_Some (archive db !! r).

Lemma put_claim_claimed r db requestID apiKeyID fp now :
  claimed r db ∨ r = (requestID, apiKeyID) → claimed r (put_claim requestID apiKeyID fp now db).
Proof.
  unfold claimed.
  change (dedup (put_claim _ _ _ _ _)) with (<[(requestID, apiKeyID) := (fp, now)]> (dedup db)).
  intros [[Hc|Hc]| ->]; [left|by right|left].
  - destruct (decide (r = (requestID, apiKeyID))) as [->|?];
      [rewrite lookup_insert_eq|rewrite lookup_insert_ne by done]; eauto.
  - rewrite lookup_insert_eq. eauto.
Qed.

(** The common shape of the transactions: claim the request, then the body. *)
Definition claiming {A : Type} (now : Z) (requestID : string) (apiKeyID : Z) (fp : string)
    (none : A) (body : Tx A) : Tx A :=
  transaction
    (applied ⇐ claimUsageBillingRequest now requestID apiKeyID fp;
     if negb applied then pass (none, false) else a ⇐ body; pass (a, true)).

(** A claimed request is answered without an effect, or refused as another one. *)
Lemma claiming_claimed {A} now id key fp (none : A) body db :
  claimed (id, key) db →
  claiming now id key fp none body db = (inl none, db) ∨
  claiming now id key fp none body db = (inr ErrUsageBillingRequestConflict, db).
Proof.
  intros Hc. unfold claiming, transaction, try_bind, claimUsageBillingRequest.
  destruct (dedup db !! (id, key)) as [[existing t]|] eqn:Hd.
  { destruct (same_fingerprint existing fp); auto. }
  destruct Hc as [[? Hd']|[archived Ha]]; [congruence|].
  change (archive (put_claim id key fp now db)) with (archive db). rewrite Ha.
  destruct (same_fingerprint archived fp); auto.
Qed.

(** A request that is not claimed runs the body, whose effect is kept with the claim. *)
Lemma claiming_fresh {A} now id key fp (none : A) body db :
  ¬ claimed (id, key) db →
  claiming now id key fp none body db =
    match body (put_claim id key fp now db) with
    | (inl a, db') => (inl a, db')
    | (inr err, _) => (inr err, db)
    end.
Proof.
  intros Hc. unfold claiming, transaction, try_bind, claimUsageBillingRequest.
  destruct (dedup db !! (id, key)) eqn:Hd; [destruct Hc; left; eauto|].
  change (archive (put_claim id key fp now db)) with (archive db).
  destruct (archive db !! (id, key)) eqn:Ha; [destruct Hc; right; eauto|].
  cbn [negb]. by destruct (body _) as [[a|err] db'].
Qed.

Lemma claimed_dec r db : Decision (claimed r db).
Proof. unfold claimed. apply _. Defined.

Lemma claiming_keeps_claims {A} now id key fp (none : A) body db r :
  keeps dedup body → keeps archive body →
  claimed r db → claimed r (claiming now id key fp none body db).2.
Proof.
  intros Hd Ha Hr. destruct (claimed_dec (id, key) db) as [Hc|Hc].
  - by destruct (claiming_claimed now id key fp none body db Hc) as [-> | ->].
  - rewrite claiming_fresh by done. specialize (Hd (put_claim id key fp now db)).
    specialize (Ha (put_claim id key fp now db)).
    destruct (body _) as [[a|err] db']; cbn in *; [|done].
    unfold claimed. rewrite Hd, Ha. apply put_claim_claimed. auto.
Qed.

Lemma claiming_applied {A} (flag : A → bool) now id key fp (none : A) body db a db' :
  keeps dedup body → keeps archive body → flag none = false →
  claiming now id key fp none body db = (inl a, db') → flag a = true → claimed (id, key) db'.
Proof.
  intros Hd Ha Hnone Hrun Hflag. destruct (claimed_dec (id, key) db) as [Hc|Hc].
  - destruct (claiming_claimed now id key fp none body db Hc) as [Hrun'|Hrun'];
      rewrite Hrun' in Hrun; simplify_eq; congruence.
  - rewrite claiming_fresh in Hrun by done. specialize (Hd (put_claim id key fp now db)).
    specialize (Ha (put_claim id key fp now db)).
    destruct (body _) as [[a'|err] db'']; cbn in *; simplify_eq.
    unfold claimed. rewrite Hd, Ha. apply put_claim_claimed. auto.
Qed.

(** *** The operations as claims *)

Lemma try_bind_assoc {S A B C} (m : St S (result A)) (f : A → St S (result B))
    (g : B → St S (result C)) s :
  try_bind (try_bind m f) g s = try_bind m (λ a, try_bind (f a) g) s.
Proof. unfold try_bind. by destruct (m s) as [[a|err] s']. Qed.

Lemma try_bind_pass {A B} (a : A) (f : A → Tx B) db : try_bind (pass a) f db = f a db.
Proof. done. Qed.

Lemma transaction_ext {A} (m m' : Tx (A * bool)) db :
  m db = m' db → transaction m db = transaction m' db.
Proof. unfold transaction. by intros ->. Qed.

Lemma try_bind_ext {A B} (m : Tx A) (f g : A → Tx B) db :
  (∀ a db, f a db = g a db) → try_bind m f db = try_bind m g db.
Proof. intros Hfg. unfold try_bind. destruct (m db) as [[a|err] db']; [apply Hfg|done]. Qed.

(** The body of a hold operation: what [apply] answers, marked as applied. *)
Definition hold_body (apply : BatchImageBalanceHoldCommand → Tx BatchImageBalanceHoldResult)
    (cmd : BatchImageBalanceHoldCommand) : Tx BatchImageBalanceHoldResult :=
  result ⇐ apply cmd;
  pass (MkBatchImageBalanceHoldResult true (r_NewBalance result) (r_FrozenBalance result)).

Lemma applyBatchImageBalanceHold_claiming now cmd apply db :
  applyBatchImageBalanceHold now (Some cmd) apply db =
    if TrimSpace (h_RequestID cmd) ≟ "" then (inr ErrUsageBillingRequestIDRequired, db)
    else claiming now (TrimSpace (h_RequestID cmd)) (h_APIKeyID cmd)
           (h_RequestFingerprint (NormalizeHold cmd)) BatchImageBalanceHoldResult0
           (hold_body apply (NormalizeHold cmd)) db.
Proof.
  unfold applyBatchImageBalanceHold, claiming.
  assert (h_RequestID (NormalizeHold cmd) = TrimSpace (h_RequestID cmd)) as ->
    by (unfold NormalizeHold; by case_if).
  assert (h_APIKeyID (NormalizeHold cmd) = h_APIKeyID cmd) as ->
    by (unfold NormalizeHold; by case_if).
  case_if; [done|]. apply transaction_ext, try_bind_ext. intros [] db'; [|done].
  cbn [negb]. unfold hold_body. rewrite try_bind_assoc. by apply try_bind_ext.
Qed.

Lemma ApplyUsage_claiming now cmd db :
  ApplyUsage now (Some cmd) db =
    if TrimSpace (c_RequestID cmd) ≟ "" then (inr ErrUsageBillingRequestIDRequired, db)
    else claiming now (TrimSpace (c_RequestID cmd)) (c_APIKeyID cmd)
           (c_RequestFingerprint (NormalizeUsage cmd)) UsageBillingApplyResult0
           (applyUsageBillingEffects now (NormalizeUsage cmd)
              (MkUsageBillingApplyResult true false None false None)) db.
Proof.
  unfold ApplyUsage, claiming.
  assert (c_RequestID (NormalizeUsage cmd) = TrimSpace (c_RequestID cmd)) as ->
    by (unfold NormalizeUsage; by case_if).
  assert (c_APIKeyID (NormalizeUsage cmd) = c_APIKeyID cmd) as ->
    by (unfold NormalizeUsage; by case_if).
  by case_if.
Qed.

Lemma no_row_keeps {X} (proj : billing_db → X) id err : keeps proj (no_row id err).
Proof. unfold no_row. apply keeps_bind; [done|]. intros []; done. Qed.

Lemma hold_bodies_keep {X} (proj : billing_db → X) cmd :
  (∀ id u db, proj (put_user id u db) = proj db) →
  keeps proj (hold_body reserveUsageBillingBatchImageBalance cmd) ∧
  keeps proj (hold_body captureUsageBillingBatchImageBalance cmd) ∧
  keeps proj (hold_body releaseUsageBillingBatchImageBalance cmd).
Proof.
  intros Hproj. pose proof (λ id cond b f, update_user_keeps proj id cond b f Hproj) as Hu.
  unfold hold_body, reserveUsageBillingBatchImageBalance, captureUsageBillingBatchImageBalance,
    releaseUsageBillingBatchImageBalance.
  repeat split; repeat keeps_step; auto using no_row_keeps; done.
Qed.

(** Every operation but the cleanup claims its request. *)
Lemma perform_op_claims op r :
  op_request op = Some r →
  (∀ db, r.1 = "" ∧ perform_op op db = (inr ErrUsageBillingRequestIDRequired, db)) ∨
  ∃ A (flag : A → bool) none now fp body,
    r.1 ≠ "" ∧ flag none = false ∧ keeps dedup body ∧ keeps archive body ∧
    ∀ db, perform_op op db =
            let p := claiming now r.1 r.2 fp none body db in
            (match p.1 with inl a => inl (flag a) | inr err => inr err end, p.2).
Proof.
  pose proof (λ cmd, hold_bodies_keep dedup cmd (λ _ _ _, eq_refl)) as Hd.
  pose proof (λ cmd, hold_bodies_keep archive cmd (λ _ _ _, eq_refl)) as Ha.
  destruct op as [now cmd|now cmd|now cmd|now cmd|cutoff]; cbn; intros [= <-]; cbn;
    unfold ReserveBatchImageBalance, CaptureBatchImageBalance, ReleaseBatchImageBalance;
    setoid_rewrite ApplyUsage_claiming || setoid_rewrite applyBatchImageBalanceHold_claiming;
    (case_if; bool_props; [by left|right]);
    eexists _, _, _, now, _, _; (split; [|split; [|split; [|split; [|done]]]]);
    first [done | apply effects_keep; done | apply (Hd _) | apply (Ha _)].
Qed.

(** *** The cleanup *)

(** A row that moves is in the archive afterwards, the others stay. *)
Lemma move_to_archive_claimed rows db r :
  claimed r db → claimed r (move_to_archive rows db).
Proof.
  intros Hr. unfold claimed. destruct db as [us ks ss gs xs ob d a]. cbn in *.
  assert (is_Some (d !! r) ∨ is_Some (a !! r)) as Hr' by exact Hr. clear Hr.
  induction rows as [|row rows IH]; [done|]. cbn.
  destruct (decide (row.1 = r)) as [->|Hne].
  - right. case_match; [eauto|]. rewrite lookup_insert_eq. eauto.
  - rewrite lookup_delete_ne by done. destruct IH as [IH|IH]; [by left|right].
    case_match; [done|]. by rewrite lookup_insert_ne.
Qed.

Lemma lookup_delete_rows {V} (rows : list (string * Z * V)) (d : gmap (string * Z) V) r :
  foldr (λ row m, delete row.1 m) d rows !! r =
    if decide (r ∈ rows.*1) then None else d !! r.
Proof.
  induction rows as [|row rows IH]; [done|]. cbn.
  destruct (decide (row.1 = r)) as [->|Hne].
  - rewrite lookup_delete_eq, decide_True; set_solver.
  - rewrite lookup_delete_ne, IH by done. repeat case_decide; set_solver.
Qed.

Lemma victims_in cutoff db row :
  row ∈ cleanup_victims cutoff db → dedup db !! row.1 = Some row.2 ∧ row.2.2 < cutoff.
Proof.
  unfold cleanup_victims. intros Hin.
  assert (row ∈ List.filter (λ row, row.2.2 <? cutoff) (map_to_list (dedup db))) as Hf.
  { rewrite <-(take_drop (Z.to_nat usageBillingDedupCleanupBatchSize) (List.filter _ _)).
    apply elem_of_app. by left. }
  apply list_elem_of_In, filter_In in Hf as [Hf Hlt]. bool_props. split; [|done].
  apply list_elem_of_In in Hf. destruct row. by apply elem_of_map_to_list.
Qed.

Lemma last_turn_complete cutoff db r v :
  Z.of_nat (length (cleanup_victims cutoff db)) < usageBillingDedupCleanupBatchSize →
  dedup (move_to_archive (cleanup_victims cutoff db) db) !! r = Some v → cutoff <= v.2.
Proof.
  intros Hlen Hv. destruct (decide (cutoff <= v.2)) as [|Hlt]; [done|exfalso].
  change (dedup (move_to_archive ?rows db)) with (foldr (λ row m, delete row.1 m) (dedup db) rows) in Hv.
  rewrite lookup_delete_rows in Hv. case_decide as Hin; [done|]. apply Hin.
  change r with (r, v).1. apply list_elem_of_fmap_2.
  revert Hlen. unfold cleanup_victims. rewrite length_firstn. intros Hlen.
  rewrite firstn_all2 by lia. apply list_elem_of_In, filter_In. split; [|apply Z.ltb_lt; cbn; lia].
  apply list_elem_of_In. by apply elem_of_map_to_list.
Qed.

Lemma full_turn_shrinks cutoff db :
  cleanup_victims cutoff db ≠ [] →
  (size (dedup (move_to_archive (cleanup_victims cutoff db) db)) < size (dedup db))%nat.
Proof.
  intros Hne. apply map_subset_size.
  change (dedup (move_to_archive ?rows db)) with (foldr (λ row m, delete row.1 m) (dedup db) rows).
  destruct (cleanup_victims cutoff db) as [|row rows] eqn:Hrows; [done|].
  destruct (victims_in cutoff db row) as [Hin _]; [rewrite Hrows; left|].
  split; [|intros Hsub].
  - apply map_subseteq_spec. intros k v. rewrite lookup_delete_rows. by case_decide.
  - rewrite map_subseteq_spec in Hsub. specialize (Hsub _ _ Hin).
    rewrite lookup_delete_rows, decide_True in Hsub by (cbn; left). done.
Qed.

Lemma cleanup_claimed fuel cutoff db r : claimed r db → claimed r (cleanup_turns fuel cutoff db).
Proof.
  revert db. induction fuel as [|fuel IH]; intros db Hr; [done|]. cbn [cleanup_turns].
  case_if; auto using move_to_archive_claimed.
Qed.

(** The cleanup of applied requests ends, within as many turns as there are rows and one more,
    with no row older than the cutoff left; a request that was claimed still is. *)
Theorem cleanup_is_complete cutoff db r :
  (∀ v, dedup (CleanupUsageBillingDedup cutoff db) !! r = Some v → cutoff <= v.2) ∧
  (claimed r db → claimed r (CleanupUsageBillingDedup cutoff db)).
Proof.
  unfold CleanupUsageBillingDedup. split.
  - assert (size (dedup db) < S (size (dedup db)))%nat as Hfuel by lia. revert Hfuel.
    generalize (S (size (dedup db))) as fuel. intros fuel. revert db.
    induction fuel as [|fuel IH]; intros db Hfuel v; [lia|]. cbn [cleanup_turns].
    destruct (_ <? _) eqn:Hlen; bool_props; [by apply last_turn_complete|].
    apply IH. pose proof (full_turn_shrinks cutoff db) as Hs.
    destruct (cleanup_victims cutoff db) eqn:Hrows; [by vm_compute in Hlen|].
    specialize (Hs ltac:(done)). lia.
  - apply cleanup_claimed.
Qed.

Lemma run_op_claimed op db r : claimed r db → claimed r (run_op op db).
Proof.
  unfold run_op. destruct (op_request op) as [id|] eqn:Hop.
  - destruct (perform_op_claims op id Hop) as
      [He|(A & flag & none & now & fp & body & _ & _ & Hd & Ha & Hrun)].
    + by destruct (He db) as [_ ->].
    + rewrite Hrun. cbn. by apply claiming_keeps_claims.
  - destruct op; try done. apply cleanup_claimed.
Qed.

Lemma run_ops_claimed ops db r : claimed r db → claimed r (run_ops ops db).
Proof.
  unfold run_ops. revert db. induction ops as [|op ops IH]; intros db Hr; [done|].
  cbn. by apply IH, run_op_claimed.
Qed.

(** An applied operation has claimed its request. *)
Lemma applied_claimed op db r :
  op_request op = Some r → (perform_op op db).1 = inl true → claimed r (run_op op db).
Proof.
  intros Hop Happ. unfold run_op. destruct (perform_op_claims op r Hop) as
    [He|(A & flag & none & now & fp & body & Hne & Hflag & Hd & Ha & Hrun)].
  - destruct (He db) as [_ Hrun]. by rewrite Hrun in Happ.
  - rewrite Hrun in *. cbn in *.
    destruct (claiming now r.1 r.2 fp none body db) as [[a|err] db'] eqn:Hclaim; [|done].
    cbn in *. simplify_eq. destruct r. by eapply claiming_applied.
Qed.

(** C4: However charges, holds and the cleanup of old requests follow each other, a request (an
    identifier and an API key) that was applied is never applied again: a later operation for it
    changes nothing and is answered that it was not applied, or is refused as a conflict. *)
Theorem request_applied_once op ops op' r db :
  op_request op = Some r → op_request op' = Some r →
  (perform_op op db).1 = inl true →
  let db' := run_ops ops (run_op op db) in
  run_op op' db' = db' ∧
  ((perform_op op' db').1 = inl false ∨
   (perform_op op' db').1 = inr ErrUsageBillingRequestConflict).
Proof.
  intros Hop Hop' Happ db'. assert (claimed r db') as Hc
    by by apply run_ops_claimed, applied_claimed.
  destruct (perform_op_claims op r Hop) as [He|(_ & _ & _ & _ & _ & _ & Hid & _)].
  { destruct (He db) as [_ Hrun]. by rewrite Hrun in Happ. }
  unfold run_op. destruct (perform_op_claims op' r Hop') as
    [He|(A & flag & none & now & fp & body & Hne & Hflag & _ & _ & Hrun)].
  - by destruct (He db') as [? _].
  - rewrite Hrun. cbn. destruct r as [id key]. cbn.
    destruct (claiming_claimed now id key fp none body db' Hc) as [-> | ->]; cbn; rewrite ?Hflag;
      auto.
Qed.

(** ** Where the money is *)

(** What a user has, frozen or not, in units of 1e-8. *)
Definition funds (uid : Z) (db : billing_db) : Z :=
  match users db !! uid with Some u => u_balance u + u_frozen u | None => 0 end.

Lemma funds_put_user uid id u db :
  funds uid (put_user id u db) = if decide (uid = id) then u_balance u + u_frozen u else funds uid db.
Proof.
  unfold funds. change (users (put_user id u db)) with (<[id := u]> (users db)).
  case_decide as Hid; [subst; by rewrite lookup_insert_eq|by rewrite lookup_insert_ne].
Qed.

Lemma live_user_funds uid u db : live_user db uid = Some u → funds uid db = u_balance u + u_frozen u.
Proof.
  unfold live_user, funds. destruct (users db !! uid) as [u'|]; cbn; [|done].
  destruct (u_deleted u'); naive_solver.
Qed.

Lemma update_user_spec id cond b f db :
  match update_user id cond b f db with
  | (inl (Some (b', f')), db') =>
      ∃ u, live_user db id = Some u ∧ cond u = true ∧ store 8 (b u) = Some b' ∧
           store 8 (f u) = Some f' ∧ db' = put_user id (MkUser b' f' false) db
  | (inl None, db') => db' = db ∧ ∀ u, live_user db id = Some u → cond u = false
  | (inr err, db') => db' = db ∧ err = NumericOverflow
  end.
Proof.
  unfold update_user. destruct (live_user db id) as [u|] eqn:Hu; [|naive_solver].
  destruct (cond u) eqn:Hc; [|naive_solver].
  destruct (store 8 (b u)) as [b'|] eqn:Hb; [|done].
  destruct (store 8 (f u)) as [f'|] eqn:Hf; [|done].
  assert (u_deleted u = false) as ->; [|by exists u].
  revert Hu. unfold live_user. destruct (users db !! id) as [u'|]; cbn; [|done].
  destruct (u_deleted u') eqn:Hdel; [done|]. by intros [= <-].
Qed.

(** An amount in units of 1e-8. *)
Definition units_of (f : float64) : Z := round_half_away (numeric f * inject_Z (Z.pos (Pos.pow 10 8))).

Lemma numeric_units_of f : whole_units 8 (numeric f) → (numeric f == units 8 (units_of f))%Q.
Proof.
  intros [z Hz]. unfold units_of.
  rewrite (round_half_away_proper _ (inject_Z z)), round_half_away_int; [done|].
  by rewrite Hz, units_scaled.
Qed.

(** [m] changes the funds of [uid] by [delta] whenever it succeeds. *)
Definition moves {A : Type} (uid delta : Z) (m : Tx A) : Prop :=
  ∀ db a db', m db = (inl a, db') → funds uid db' = funds uid db + delta.

Lemma moves_pass {A} uid (a : A) : moves uid 0 (pass a).
Proof. intros db b db' [= _ <-]. lia. Qed.

Lemma moves_fails {A} uid delta err : moves uid delta (fails (A:=A) err).
Proof. done. Qed.

Lemma moves_bind {A B} uid d1 d2 (m : Tx A) (f : A → Tx B) :
  moves uid d1 m → (∀ a, moves uid d2 (f a)) → moves uid (d1 + d2) (try_bind m f).
Proof.
  intros Hm Hf db b db'. unfold try_bind. destruct (m db) as [[a|err] db1] eqn:Hmdb; [|done].
  intros Hfdb%Hf. apply Hm in Hmdb. lia.
Qed.

Lemma keeps_moves {A} uid (m : Tx A) : keeps users m → moves uid 0 m.
Proof.
  intros Hm db a db' Hrun. specialize (Hm db). rewrite Hrun in Hm. cbn in Hm.
  unfold funds. rewrite Hm. lia.
Qed.

(** An UPDATE that moves both columns by whole units. *)
Lemma update_user_moves uid id cond b f d_b d_f db row db' :
  (∀ u, (b u == units 8 (u_balance u + d_b))%Q) → (∀ u, (f u == units 8 (u_frozen u + d_f))%Q) →
  update_user id cond b f db = (inl row, db') →
  funds uid db' = funds uid db + match row with
                                 | Some _ => if decide (uid = id) then d_b + d_f else 0
                                 | None => 0
                                 end.
Proof.
  intros Hb Hf Hrun. pose proof (update_user_spec id cond b f db) as Hspec. rewrite Hrun in Hspec.
  destruct row as [[b' f']|]; [|destruct Hspec as [-> _]; lia].
  destruct Hspec as (u & Hu & _ & Hsb & Hsf & ->). rewrite funds_put_user. case_decide as Hid; [|lia].
  subst. rewrite (live_user_funds _ _ _ Hu). cbn.
  rewrite (store_exact 8 (b u) _ (Hb u) _ Hsb), (store_exact 8 (f u) _ (Hf u) _ Hsf). lia.
Qed.

Lemma hold_update_moves uid id cond b f d_b d_f err :
  (∀ u, (b u == units 8 (u_balance u + d_b))%Q) → (∀ u, (f u == units 8 (u_frozen u + d_f))%Q) →
  moves uid (if decide (uid = id) then d_b + d_f else 0)
    (row ⇐ update_user id cond b f;
     match row with Some row => pass (moved row) | None => no_row id err end).
Proof.
  intros Hb Hf db a db'. unfold try_bind.
  destruct (update_user id cond b f db) as [[row|?] db1] eqn:Hrun; [|done].
  apply (update_user_moves uid) with (1 := Hb) (2 := Hf) in Hrun.
  destruct row as [row|]; [by intros [= _ <-]|].
  unfold no_row, try_bind. cbn. by destruct (negb _).
Qed.

Lemma Qlt_bool_cases a b : if Qlt_bool a b then (a < b)%Q else (b <= a)%Q.
Proof. unfold Qlt_bool. pose proof (Qle_bool_cases b a). by destruct (Qle_bool b a). Qed.

Lemma reserve_moves uid cmd :
  whole_units 8 (numeric (h_HoldAmount cmd)) →
  moves uid 0 (reserveUsageBillingBatchImageBalance cmd).
Proof.
  intros Hh. unfold reserveUsageBillingBatchImageBalance. case_if; [apply moves_pass|].
  set (d := units_of (h_HoldAmount cmd)).
  replace 0 with (if decide (uid = h_UserID cmd) then - d + d else 0) by (case_decide; lia).
  apply hold_update_moves; intros u; rewrite (numeric_units_of _ Hh);
    [rewrite units_sub|rewrite units_add]; done.
Qed.

Lemma release_moves uid cmd :
  whole_units 8 (numeric (h_HoldAmount cmd)) →
  moves uid 0 (releaseUsageBillingBatchImageBalance cmd).
Proof.
  intros Hh. unfold releaseUsageBillingBatchImageBalance. case_if; [apply moves_pass|].
  change 0 with (0 + 0) at 1. apply moves_bind; [by apply keeps_moves|intros held].
  case_if; [apply moves_pass|]. set (d := units_of (h_HoldAmount cmd)).
  replace 0 with (if decide (uid = h_UserID cmd) then d + - d else 0) by (case_decide; lia).
  apply hold_update_moves; intros u; rewrite (numeric_units_of _ Hh);
    [rewrite units_add|rewrite units_sub]; done.
Qed.

(** What a capture takes from its user: the actual amount, unless both amounts are nil. *)
Definition captured_units (cmd : BatchImageBalanceHoldCommand) : Z :=
  if f64_leb (h_HoldAmount cmd) f64_zero && f64_leb (h_ActualAmount cmd) f64_zero
  then 0 else units_of (h_ActualAmount cmd).

Lemma capture_moves uid cmd :
  whole_units 8 (numeric (h_HoldAmount cmd)) → whole_units 8 (numeric (h_ActualAmount cmd)) →
  moves uid (if decide (uid = h_UserID cmd) then - captured_units cmd else 0)
    (captureUsageBillingBatchImageBalance cmd).
Proof.
  intros Hh Ha. unfold captureUsageBillingBatchImageBalance, captured_units.
  destruct (f64_leb _ _ && f64_leb _ _); [case_decide; apply moves_pass|].
  destruct (f64_ltb cost_epsilon _); [apply moves_fails|].
  set (d := units_of (h_HoldAmount cmd)). set (e := units_of (h_ActualAmount cmd)).
  replace (- e) with ((d - e) + - d) by lia.
  apply hold_update_moves; intros u.
  - rewrite <-units_add, <-units_sub. unfold d, e.
    rewrite <-(numeric_units_of _ Hh), <-(numeric_units_of _ Ha).
    pose proof (Qlt_bool_cases (numeric (h_ActualAmount cmd)) (numeric (h_HoldAmount cmd))).
    pose proof (Qlt_bool_cases (numeric (h_HoldAmount cmd)) (numeric (h_ActualAmount cmd))).
    destruct (Qlt_bool (numeric (h_ActualAmount cmd)) _), (Qlt_bool (numeric (h_HoldAmount cmd)) _);
      lra.
  - unfold d. by rewrite (numeric_units_of _ Hh), units_sub.
Qed.

Lemma deduct_moves uid id amount :
  whole_units 8 (numeric amount) →
  moves uid (if decide (uid = id) then - units_of amount else 0) (deductUsageBillingBalance id amount).
Proof.
  intros Hw db a db'. unfold deductUsageBillingBalance, try_bind.
  assert (∀ u, (units 8 (u_balance u) - numeric amount ==
                units 8 (u_balance u + - units_of amount))%Q) as Hb
    by (intros u; by rewrite (numeric_units_of _ Hw), units_sub).
  assert (∀ u, (units 8 (u_frozen u) == units 8 (u_frozen u + 0))%Q) as Hf
    by (intros u; by rewrite Z.add_0_r).
  destruct (update_user _ _ _ _ db) as [[row|?] db1] eqn:Hrun1; [|done].
  apply (update_user_moves uid) with (1 := Hb) (2 := Hf) in Hrun1.
  destruct row as [[b f]|]; [intros [= _ <-]; case_decide; lia|].
  destruct (update_user _ _ _ _ db1) as [[row|?] db2] eqn:Hrun2; [|done].
  apply (update_user_moves uid) with (1 := Hb) (2 := Hf) in Hrun2.
  destruct row as [[b f]|]; [intros [= _ <-]; case_decide; lia|done].
Qed.

Lemma when_positive_moves {A} uid d cost cond (m : Tx A) k r :
  moves uid d m → moves uid (if f64_ltb f64_zero cost && cond then d else 0) (when_positive cost cond m k r).
Proof.
  intros Hm. unfold when_positive. case_if; [|apply moves_pass].
  rewrite <-(Z.add_0_r d). apply moves_bind; [done|intros; apply moves_pass].
Qed.

Lemma users_kept_moves uid {A} cost cond (m : Tx A) k r :
  keeps users m → moves uid 0 (when_positive cost cond m k r).
Proof. intros Hm. apply keeps_moves, keeps_when_positive, Hm. Qed.

Lemma effects_move uid now cmd r :
  whole_units 8 (numeric (c_BalanceCost cmd)) →
  moves uid (if decide (uid = c_UserID cmd)
             then if f64_ltb f64_zero (c_BalanceCost cmd) then - units_of (c_BalanceCost cmd) else 0
             else 0)
    (applyUsageBillingEffects now cmd r).
Proof.
  intros Hw. unfold applyUsageBillingEffects.
  set (d := if decide _ then _ else _).
  replace d with (0 + (d + (0 + (0 + 0)))) by lia.
  apply moves_bind; [|intros ?; apply moves_bind; [|intros ?; apply moves_bind;
    [|intros ?; apply moves_bind; [|intros ?]]]].
  - unfold charge_subscription. case_match; [|apply moves_pass].
    by apply users_kept_moves, subscription_keeps.
  - pose proof (deduct_moves uid (c_UserID cmd) (c_BalanceCost cmd) Hw) as Hm.
    replace d with (if f64_ltb f64_zero (c_BalanceCost cmd) && true then
      if decide (uid = c_UserID cmd) then - units_of (c_BalanceCost cmd) else 0 else 0)
      by (unfold d; by destruct (f64_ltb _ _), (decide _)).
    by apply when_positive_moves.
  - by apply users_kept_moves, api_key_quota_keeps.
  - by apply users_kept_moves, api_key_rate_keeps.
  - by apply users_kept_moves, account_quota_keeps.
Qed.

(** *** Histories of operations *)

(** What an applied operation takes from a user. *)
Definition op_charge (uid : Z) (op : billing_op) : Z :=
  match op with
  | OpApply _ cmd =>
      let cost := QuantizeUsageBillingAmount (c_BalanceCost cmd) in
      if decide (uid = c_UserID cmd) then if f64_ltb f64_zero cost then units_of cost else 0 else 0
  | OpCapture _ cmd => if decide (uid = h_UserID cmd) then captured_units cmd else 0
  | _ => 0
  end.

(** Charges are quantised by the code; holds are as their callers made them. *)
Definition op_whole (op : billing_op) : Prop :=
  match op with
  | OpApply _ cmd => f64_finite (c_BalanceCost cmd) = true
  | OpReserve _ cmd | OpRelease _ cmd => whole_units 8 (numeric (h_HoldAmount cmd))
  | OpCapture _ cmd =>
      whole_units 8 (numeric (h_HoldAmount cmd)) ∧ whole_units 8 (numeric (h_ActualAmount cmd))
  | OpCleanup _ => True
  end.

Definition is_applied (r : result bool) : bool := match r with inl true => true | _ => false end.

(** What a history of operations takes from a user: the charges that were applied. *)
Fixpoint charges (uid : Z) (ops : list billing_op) (db : billing_db) : Z :=
  match ops with
  | [] => 0
  | op :: ops =>
      let '(res, db') := perform_op op db in
      (if is_applied res then op_charge uid op else 0) + charges uid ops db'
  end.

Lemma when_positive_applied {A} cost cond (m : Tx A) k r db a db' :
  (∀ x, a_Applied (k x r) = a_Applied r) →
  when_positive cost cond m k r db = (inl a, db') → a_Applied a = a_Applied r.
Proof.
  intros Hk. unfold when_positive, try_bind. case_if; [|by intros [= <- _]].
  destruct (m db) as [[x|err] db1]; [|done]. intros [= <- _]. apply Hk.
Qed.

Lemma effects_applied now cmd r db a db' :
  applyUsageBillingEffects now cmd r db = (inl a, db') → a_Applied a = a_Applied r.
Proof.
  unfold applyUsageBillingEffects, try_bind. intros Hrun.
  destruct (charge_subscription _ _ _) as [[r1|?] db1] eqn:H1; [|done].
  destruct (when_positive (c_BalanceCost cmd) _ _ _ _ _) as [[r2|?] db2] eqn:H2; [|done].
  destruct (when_positive (c_APIKeyQuotaCost cmd) _ _ _ _ _) as [[r3|?] db3] eqn:H3; [|done].
  destruct (when_positive (c_APIKeyRateLimitCost cmd) _ _ _ _ _) as [[r4|?] db4] eqn:H4; [|done].
  apply when_positive_applied in Hrun as ->, H4 as ->, H3 as ->; [|by intros; try done..].
  apply when_positive_applied in H2 as ->; [|by intros []].
  revert H1. unfold charge_subscription. case_match; [|by intros [= <- _]].
  by apply when_positive_applied.
Qed.

(** A claim and a body that moves [delta] and marks its answer. *)
Lemma claiming_funds {A} (flag : A → bool) uid delta now id key fp none body db :
  flag none = false → moves uid delta body →
  (∀ db a db', body db = (inl a, db') → flag a = true) →
  let p := claiming now id key fp none body db in
  funds uid p.2 = funds uid db +
    (if is_applied (match p.1 with inl a => inl (flag a) | inr err => inr err end) then delta else 0).
Proof.
  intros Hnone Hm Hflag. destruct (claimed_dec (id, key) db) as [Hc|Hc].
  - destruct (claiming_claimed now id key fp none body db Hc) as [-> | ->]; cbn; rewrite ?Hnone; lia.
  - rewrite claiming_fresh by done.
    destruct (body _) as [[a|err] db'] eqn:Hbody; cbn; [|lia].
    rewrite (Hflag _ _ _ Hbody). apply Hm in Hbody.
    change (funds uid (put_claim id key fp now db)) with (funds uid db) in Hbody. done.
Qed.

Lemma hold_body_moves uid delta apply cmd : moves uid delta (apply cmd) → moves uid delta (hold_body apply cmd).
Proof.
  intros Hm. unfold hold_body. rewrite <-(Z.add_0_r delta).
  apply moves_bind; [done|intros; apply moves_pass].
Qed.

Lemma hold_body_flag apply cmd db a db' :
  hold_body apply cmd db = (inl a, db') → r_Applied a = true.
Proof. unfold hold_body, try_bind. destruct (apply cmd db) as [[?|?] ?]; [by intros [= <- _]|done]. Qed.

Lemma cleanup_users fuel cutoff db : users (cleanup_turns fuel cutoff db) = users db.
Proof.
  revert db. induction fuel as [|fuel IH]; intros db; [done|]. cbn [cleanup_turns].
  case_if; [done|]. by rewrite IH.
Qed.

Lemma quantized_whole `{!AmountLaws _} v :
  f64_finite v = true → whole_units 8 (numeric (QuantizeUsageBillingAmount v)).
Proof.
  intros Hv. destruct v as [s|s| |s m e]; try done; cbn.
  - exists 0. by rewrite numeric_zero.
  - by apply decimal_round8_units.
Qed.

Lemma NormalizeHold_amounts cmd :
  h_HoldAmount (NormalizeHold cmd) = h_HoldAmount cmd ∧
  h_ActualAmount (NormalizeHold cmd) = h_ActualAmount cmd ∧
  h_UserID (NormalizeHold cmd) = h_UserID cmd.
Proof. unfold NormalizeHold. by case_if. Qed.

Lemma NormalizeUsage_fields cmd :
  c_BalanceCost (NormalizeUsage cmd) = QuantizeUsageBillingAmount (c_BalanceCost cmd) ∧
  c_APIKeyQuotaCost (NormalizeUsage cmd) = QuantizeUsageBillingAmount (c_APIKeyQuotaCost cmd) ∧
  c_UserID (NormalizeUsage cmd) = c_UserID cmd ∧
  c_APIKeyID (NormalizeUsage cmd) = c_APIKeyID cmd.
Proof. unfold NormalizeUsage. by case_if. Qed.

Lemma perform_op_funds `{!AmountLaws _} uid op db :
  op_whole op →
  funds uid (perform_op op db).2 =
    funds uid db - (if is_applied (perform_op op db).1 then op_charge uid op else 0).
Proof.
  intros Hw. destruct op as [now cmd|now cmd|now cmd|now cmd|cutoff]; cbn [perform_op op_charge fst snd].
  - rewrite ApplyUsage_claiming. case_if; cbn [fst snd is_applied]; [lia|].
    destruct (NormalizeUsage_fields cmd) as (Hb & _ & Hu & _).
    pose proof (effects_move uid now (NormalizeUsage cmd)
      (MkUsageBillingApplyResult true false None false None)) as Hm.
    rewrite Hb, Hu in Hm. specialize (Hm (quantized_whole _ Hw)).
    rewrite (claiming_funds a_Applied uid) with (2 := Hm) by (done || by intros ??? ?%effects_applied).
    destruct (is_applied _); [|lia]. repeat (case_decide || case_if); lia.
  - unfold ReserveBatchImageBalance. rewrite applyBatchImageBalanceHold_claiming.
    case_if; cbn [fst snd is_applied]; [lia|]. destruct (NormalizeHold_amounts cmd) as (Hh & Ha & Hu).
    rewrite (claiming_funds r_Applied uid 0); [by destruct (is_applied _); lia|done| |apply hold_body_flag].
    apply hold_body_moves, reserve_moves. by rewrite Hh.
  - unfold CaptureBatchImageBalance. rewrite applyBatchImageBalanceHold_claiming.
    case_if; cbn [fst snd is_applied]; [lia|]. destruct (NormalizeHold_amounts cmd) as (Hh & Ha & Hu).
    pose proof (capture_moves uid (NormalizeHold cmd)) as Hm.
    unfold captured_units in *. rewrite Hh, Ha, Hu in Hm. destruct Hw as [Hw1 Hw2].
    specialize (Hm Hw1 Hw2). apply hold_body_moves in Hm.
    rewrite (claiming_funds r_Applied uid) with (2 := Hm) by (done || apply hold_body_flag).
    destruct (is_applied _); [|lia]. repeat (case_decide || case_if); lia.
  - unfold ReleaseBatchImageBalance. rewrite applyBatchImageBalanceHold_claiming.
    case_if; cbn [fst snd is_applied]; [lia|]. destruct (NormalizeHold_amounts cmd) as (Hh & Ha & Hu).
    rewrite (claiming_funds r_Applied uid 0); [by destruct (is_applied _); lia|done| |apply hold_body_flag].
    apply hold_body_moves, release_moves. by rewrite Hh.
  - unfold CleanupUsageBillingDedup, funds. rewrite cleanup_users. cbn. lia.
Qed.

(** C20: Money moves only by charges.  After any history of charges, holds, captures, releases and
    cleanups whose amounts are whole units of the balance column (the code quantises charges), the
    balance and the frozen balance of a user together are what they were less the charges and
    captures that were applied, to the last unit; what was refused or repeated takes nothing. *)
Theorem funds_follow_charges `{!AmountLaws _} uid ops db :
  Forall op_whole ops →
  funds uid (run_ops ops db) = funds uid db - charges uid ops db.
Proof.
  unfold run_ops. revert db. induction ops as [|op ops IH]; intros db Hw; [cbn; lia|].
  apply Forall_cons_1 in Hw as [Hop Hw]. cbn. rewrite IH by done.
  pose proof (perform_op_funds uid op db Hop) as Hf. unfold run_op.
  destruct (perform_op op db) as [res db']. cbn in *. rewrite Hf. case_if; lia.
Qed.

(** *** What a charge does *)

Lemma live_put_user id u db : u_deleted u = false → live_user (put_user id u db) id = Some u.
Proof.
  intros Hu. unfold live_user. change (users (put_user id u db)) with (<[id := u]> (users db)).
  rewrite lookup_insert_eq. cbn. by rewrite Hu.
Qed.

Lemma live_put_api_key id k db : k_deleted k = false → live_api_key (put_api_key id k db) id = Some k.
Proof.
  intros Hk. unfold live_api_key.
  change (api_keys (put_api_key id k db)) with (<[id := k]> (api_keys db)).
  rewrite lookup_insert_eq. cbn. by rewrite Hk.
Qed.

Lemma live_api_key_alive id k db : live_api_key db id = Some k → k_deleted k = false.
Proof.
  unfold live_api_key. destruct (api_keys db !! id) as [k'|]; cbn; [|done].
  destruct (k_deleted k') eqn:Hk; [done|]. by intros [= <-].
Qed.

Lemma Qle_bool_units d p q a b :
  (p == units d a)%Q → (q == units d b)%Q → Qle_bool p q = (a <=? b).
Proof.
  intros Hp Hq. apply eq_true_iff_eq. rewrite Qle_bool_iff, Z.leb_le, Hp, Hq. apply units_le.
Qed.

Lemma update_user_live id cond b f u db :
  live_user db id = Some u →
  update_user id cond b f db =
    if cond u then
      match store 8 (b u), store 8 (f u) with
      | Some b', Some f' => (inl (Some (b', f')), put_user id (MkUser b' f' false) db)
      | _, _ => (inr NumericOverflow, db)
      end
    else (inl None, db).
Proof.
  intros Hu. unfold update_user. rewrite Hu.
  assert (u_deleted u = false) as ->; [|done].
  revert Hu. unfold live_user. destruct (users db !! id) as [u'|]; cbn; [|done].
  destruct (u_deleted u') eqn:Hd; [done|]. by intros [= <-].
Qed.

Lemma deduct_spec id amount u db res db' :
  whole_units 8 (numeric amount) → live_user db id = Some u →
  deductUsageBillingBalance id amount db = (inl res, db') →
  live_user db' id = Some (MkUser (u_balance u - units_of amount) (u_frozen u) false) ∧
  res = (to_float (u_balance u - units_of amount), units_of amount <=? u_balance u).
Proof.
  intros Hw Hu. unfold deductUsageBillingBalance, try_bind.
  assert ((units 8 (u_balance u) - numeric amount ==
           units 8 (u_balance u - units_of amount))%Q) as Hb.
  { rewrite (numeric_units_of _ Hw), units_sub. reflexivity. }
  pose proof (λ cond, update_user_live id cond (λ u, units 8 (u_balance u) - numeric amount)%Q
    (λ u, units 8 (u_frozen u)) u db Hu) as Hupd. cbv beta in Hupd.
  rewrite !Hupd, (Qle_bool_units 8 _ _ _ _ (numeric_units_of _ Hw) (Qeq_refl _)).
  destruct (store 8 (units 8 (u_balance u) - _)) as [b|] eqn:Hsb; [|by destruct (_ <=? _); rewrite ?Hupd].
  destruct (store 8 (units 8 (u_frozen u))) as [f|] eqn:Hsf; [|by destruct (_ <=? _); rewrite ?Hupd].
  apply (store_exact 8 _ _ Hb) in Hsb as ->. apply (store_exact 8 _ (u_frozen u) (Qeq_refl _)) in Hsf as ->.
  destruct (units_of amount <=? u_balance u); [|rewrite Hupd]; intros [= <- <-];
    (split; [by apply live_put_user|done]).
Qed.

Lemma quota_spec id amount k db res db' :
  whole_units 8 (numeric amount) → live_api_key db id = Some k →
  incrementUsageBillingAPIKeyQuota id amount db = (inl res, db') →
  let used := k_quota_used k + units_of amount in
  let exhausted := (0 <? k_quota k) && (k_quota_used k <? k_quota k) && (k_quota k <=? used) in
  res = exhausted ∧
  ∃ k', live_api_key db' id = Some k' ∧ k_quota_used k' = used ∧
    k_status k' = if exhausted && (k_status k ≟ StatusAPIKeyActive)
                  then StatusAPIKeyQuotaExhausted else k_status k.
Proof.
  intros Hw Hk. unfold incrementUsageBillingAPIKeyQuota. rewrite Hk. cbv zeta.
  assert ((units 8 (k_quota_used k) + numeric amount ==
           units 8 (k_quota_used k + units_of amount))%Q) as Hsum.
  { rewrite (numeric_units_of _ Hw), units_add. reflexivity. }
  destruct (store 8 _) as [used|] eqn:Hs; [|done]. apply (store_exact 8 _ _ Hsum) in Hs as ->.
  intros [= <- <-]. unfold Qlt_bool.
  rewrite (Qle_bool_units 8 _ _ _ _ (Qeq_refl _) Hsum).
  assert ((units 8 (k_quota_used k + units_of amount) - numeric amount ==
           units 8 (k_quota_used k))%Q) as Hdiff.
  { rewrite (numeric_units_of _ Hw), units_sub.
    replace (_ + _ - _) with (k_quota_used k) by lia. reflexivity. }
  rewrite (Qle_bool_units 8 _ _ _ _ (Qeq_refl _) Hdiff), <-Z.ltb_antisym.
  split; [destruct (_ <? _), (_ <? _), (_ <=? _); done|].
  eexists. split; [apply live_put_api_key; by apply live_api_key_alive in Hk|].
  split; [done|]. cbn. destruct (_ <? _), (_ =? _)%string, (_ <? _), (_ <=? _); done.
Qed.

(** The columns of a key that the charge of its quota writes. *)
Definition key_quota (id : Z) (db : billing_db) : option (Z * string) :=
  (λ k, (k_quota_used k, k_status k)) <$> live_api_key db id.

Lemma api_key_rate_quota now id' id cost :
  keeps (key_quota id) (incrementUsageBillingAPIKeyRateLimit now id' cost).
Proof.
  intros db. unfold incrementUsageBillingAPIKeyRateLimit.
  destruct (live_api_key db id') as [k|] eqn:Hk; [|done].
  repeat (case_match; simplify_eq/=; try done). unfold key_quota.
  destruct (decide (id = id')) as [->|Hne].
  - rewrite live_put_api_key, Hk by (by apply live_api_key_alive in Hk). done.
  - unfold live_api_key.
    change (api_keys (put_api_key id' ?k' db)) with (<[id' := k']> (api_keys db)).
    by rewrite lookup_insert_ne.
Qed.

Lemma claiming_body {A} (flag : A → bool) now id key fp (none : A) body db a db' :
  flag none = false → claiming now id key fp none body db = (inl a, db') → flag a = true →
  body (put_claim id key fp now db) = (inl a, db').
Proof.
  intros Hnone Hrun Ha. destruct (claimed_dec (id, key) db) as [Hc|Hc].
  - destruct (claiming_claimed now id key fp none body db Hc) as [Hrun'|Hrun'];
      rewrite Hrun' in Hrun; simplify_eq; congruence.
  - rewrite claiming_fresh in Hrun by done. by destruct (body _) as [[?|?] ?]; simplify_eq.
Qed.

(** What is charged of a cost: its quantised amount, when it is positive. *)
Definition paid_units (cost : float64) : Z :=
  let cost := QuantizeUsageBillingAmount cost in
  if f64_ltb f64_zero cost then units_of cost else 0.

Lemma try_bind_inl {A B} (m : Tx A) (f : A → Tx B) db b db' :
  try_bind m f db = (inl b, db') → ∃ a db1, m db = (inl a, db1) ∧ f a db1 = (inl b, db').
Proof. unfold try_bind. destruct (m db) as [[a|?] db1]; [|done]. eauto. Qed.

Lemma keeps_after {X A} (proj : billing_db → X) (m : Tx A) db a db' :
  keeps proj m → m db = (inl a, db') → proj db' = proj db.
Proof. intros Hm Hrun. specialize (Hm db). by rewrite Hrun in Hm. Qed.

(** The two steps of a charge that take its cost from the balance and add it to the quota. *)
Lemma charge_balance_spec cmd u r db r' db' :
  whole_units 8 (numeric (c_BalanceCost cmd)) → live_user db (c_UserID cmd) = Some u →
  u_deleted u = false →
  when_positive (c_BalanceCost cmd) true
    (deductUsageBillingBalance (c_UserID cmd) (c_BalanceCost cmd))
    (λ '(newBalance, sufficient) r,
       MkUsageBillingApplyResult (a_Applied r) (a_APIKeyQuotaExhausted r) (Some newBalance)
         (negb sufficient) (a_QuotaState r)) r db = (inl r', db') →
  let paid := if f64_ltb f64_zero (c_BalanceCost cmd) then units_of (c_BalanceCost cmd) else 0 in
  live_user db' (c_UserID cmd) = Some (MkUser (u_balance u - paid) (u_frozen u) false) ∧
  a_APIKeyQuotaExhausted r' = a_APIKeyQuotaExhausted r ∧
  a_BalanceOverdrafted r' = if f64_ltb f64_zero (c_BalanceCost cmd) then u_balance u <? paid
                            else a_BalanceOverdrafted r.
Proof.
  intros Hw Hu Hdel Hrun. unfold when_positive in Hrun. rewrite andb_true_r in Hrun.
  destruct (f64_ltb _ _); cbv zeta.
  - apply try_bind_inl in Hrun as ([nb suff] & db1 & Hd & [= <- <-]).
    destruct (deduct_spec _ _ _ _ _ _ Hw Hu Hd) as [Hu' [= -> ->]]. cbn.
    split; [done|]. split; [done|]. by rewrite Z.ltb_antisym.
  - injection Hrun as <- <-. rewrite Z.sub_0_r. destruct u; cbn in *; subst. done.
Qed.

Lemma charge_quota_spec cmd k r db r' db' :
  whole_units 8 (numeric (c_APIKeyQuotaCost cmd)) →
  live_api_key db (c_APIKeyID cmd) = Some k → a_APIKeyQuotaExhausted r = false →
  when_positive (c_APIKeyQuotaCost cmd) true
    (incrementUsageBillingAPIKeyQuota (c_APIKeyID cmd) (c_APIKeyQuotaCost cmd))
    (λ exhausted r,
       MkUsageBillingApplyResult (a_Applied r) exhausted (a_NewBalance r) (a_BalanceOverdrafted r)
         (a_QuotaState r)) r db = (inl r', db') →
  let paid := if f64_ltb f64_zero (c_APIKeyQuotaCost cmd)
              then units_of (c_APIKeyQuotaCost cmd) else 0 in
  let used := k_quota_used k + paid in
  let exhausted := (0 <? k_quota k) && (k_quota_used k <? k_quota k) && (k_quota k <=? used) in
  a_APIKeyQuotaExhausted r' = exhausted ∧ a_BalanceOverdrafted r' = a_BalanceOverdrafted r ∧
  key_quota (c_APIKeyID cmd) db' =
    Some (used, if exhausted && (k_status k ≟ StatusAPIKeyActive)
                then StatusAPIKeyQuotaExhausted else k_status k).
Proof.
  intros Hw Hk Hr Hrun. unfold when_positive in Hrun. rewrite andb_true_r in Hrun.
  destruct (f64_ltb _ _); cbv zeta.
  - apply try_bind_inl in Hrun as (exhausted & db1 & Hq & [= <- <-]).
    destruct (quota_spec _ _ _ _ _ _ Hw Hk Hq) as [-> (k' & Hk' & Hused & Hstatus)]. cbn.
    split; [done|]. split; [done|]. unfold key_quota. rewrite Hk'. cbn. by rewrite Hused, Hstatus.
  - injection Hrun as <- <-. rewrite Z.add_0_r.
    assert ((k_quota_used k <? k_quota k) && (k_quota k <=? k_quota_used k) = false) as Hno by lia.
    rewrite <-andb_assoc, Hno, andb_false_r. cbn. unfold key_quota. rewrite Hk. done.
Qed.

Lemma when_positive_answer {A} cost cond (m : Tx A) k r db r' db' :
  when_positive cost cond m k r db = (inl r', db') → (∃ x, r' = k x r) ∨ r' = r.
Proof.
  unfold when_positive. case_if; [|injection 1 as <- <-; auto].
  intros (x & db1 & _ & [= <- _])%try_bind_inl. eauto.
Qed.

Lemma keeps_subscription_step {X} (proj : billing_db → X) cmd r :
  (∀ id s db, proj (put_subscription id s db) = proj db) → keeps proj (charge_subscription cmd r).
Proof.
  intros. unfold charge_subscription. case_match; [|done].
  by apply keeps_when_positive, subscription_keeps.
Qed.

Lemma live_user_alive id u db : live_user db id = Some u → u_deleted u = false.
Proof.
  unfold live_user. destruct (users db !! id) as [u'|]; cbn; [|done].
  destruct (u_deleted u') eqn:Hd; [done|]. by intros [= <-].
Qed.

(** [H : m db = (inl a, db')] and [m] keeps [proj]: what [proj] sees did not change. *)
Ltac keep_step :=
  first [ apply keeps_subscription_step | apply keeps_when_positive;
    first [ apply api_key_rate_quota | apply deduct_keeps | apply api_key_quota_keeps
          | apply api_key_rate_keeps | apply account_quota_keeps ] ].

Tactic Notation "kept" hyp(H) constr(proj) "as" ident(H') :=
  match type of H with
  | ?m ?db = (inl ?a, ?db') =>
      pose proof (keeps_after proj m db a db' ltac:(keep_step; done) H) as H'; cbv beta in H'
  end.

(** The effects of a charge whose costs are whole units. *)
Lemma effects_spec now cmd u k db res db' :
  whole_units 8 (numeric (c_BalanceCost cmd)) → whole_units 8 (numeric (c_APIKeyQuotaCost cmd)) →
  live_user db (c_UserID cmd) = Some u → live_api_key db (c_APIKeyID cmd) = Some k →
  applyUsageBillingEffects now cmd (MkUsageBillingApplyResult true false None false None) db =
    (inl res, db') →
  let cost f := if f64_ltb f64_zero f then units_of f else 0 in
  let paid := cost (c_BalanceCost cmd) in
  let used := k_quota_used k + cost (c_APIKeyQuotaCost cmd) in
  let exhausted := (0 <? k_quota k) && (k_quota_used k <? k_quota k) && (k_quota k <=? used) in
  live_user db' (c_UserID cmd) = Some (MkUser (u_balance u - paid) (u_frozen u) false) ∧
  (0 < paid → a_BalanceOverdrafted res = (u_balance u <? paid)) ∧
  a_APIKeyQuotaExhausted res = exhausted ∧
  key_quota (c_APIKeyID cmd) db' =
    Some (used, if exhausted && (k_status k ≟ StatusAPIKeyActive)
                then StatusAPIKeyQuotaExhausted else k_status k).
Proof.
  intros Hwb Hwq Hu Hk Hrun. unfold applyUsageBillingEffects in Hrun.
  apply try_bind_inl in Hrun as (r1 & db1 & H1 & Hrun).
  apply try_bind_inl in Hrun as (r2 & db2 & H2 & Hrun).
  apply try_bind_inl in Hrun as (r3 & db3 & H3 & Hrun).
  apply try_bind_inl in Hrun as (r4 & db4 & H4 & H5).
  assert (r1 = MkUsageBillingApplyResult true false None false None) as ->.
  { revert H1. unfold charge_subscription. case_match; [|by intros [= <- _]].
    intros [[x ->]| ->]%when_positive_answer; done. }
  kept H1 (λ db, live_user db (c_UserID cmd)) as Hu1. rewrite Hu in Hu1.
  kept H1 (λ db, live_api_key db (c_APIKeyID cmd)) as Hk1. rewrite Hk in Hk1.
  kept H2 (λ db, live_api_key db (c_APIKeyID cmd)) as Hk2. rewrite Hk1 in Hk2.
  destruct (charge_balance_spec _ _ _ _ _ _ Hwb Hu1 (live_user_alive _ _ _ Hu) H2)
    as (Hu2 & He2 & Ho2).
  destruct (charge_quota_spec _ _ _ _ _ _ Hwq Hk2 He2 H3) as (He3 & Ho3 & Hk3).
  assert (r4 = r3) as -> by (apply when_positive_answer in H4 as [[x Hx]|Hx]; exact Hx).
  assert (a_APIKeyQuotaExhausted res = a_APIKeyQuotaExhausted r3 ∧
          a_BalanceOverdrafted res = a_BalanceOverdrafted r3) as [-> ->]
    by (apply when_positive_answer in H5 as [[x Hx]|Hx]; rewrite Hx; done).
  kept H3 (λ db, live_user db (c_UserID cmd)) as Hu3.
  kept H4 (λ db, live_user db (c_UserID cmd)) as Hu4. kept H4 (key_quota (c_APIKeyID cmd)) as Hk4.
  kept H5 (λ db, live_user db (c_UserID cmd)) as Hu5. kept H5 (key_quota (c_APIKeyID cmd)) as Hk5.
  rewrite Hu5, Hu4, Hu3, Hu2, Hk5, Hk4, Hk3, He3, Ho3, Ho2.
  repeat split; try done. intros Hpos. by destruct (f64_ltb _ _).
Qed.

(** C38: An applied charge moves the balance and the quota of the key by exactly the quantised costs
    (equal costs move them by equal amounts, the balance down even into debt, the usage up),
    says that the balance was overdrawn exactly when it was less than the cost, and that the quota
    is exhausted exactly when this charge takes the usage to the quota, which then shows in the
    status of an active key. *)
Theorem usage_charge_reconciles `{!AmountLaws _} now cmd db res db' u k :
  f64_finite (c_BalanceCost cmd) = true → f64_finite (c_APIKeyQuotaCost cmd) = true →
  live_user db (c_UserID cmd) = Some u → live_api_key db (c_APIKeyID cmd) = Some k →
  ApplyUsage now (Some cmd) db = (inl res, db') → a_Applied res = true →
  let paid := paid_units (c_BalanceCost cmd) in
  let used := k_quota_used k + paid_units (c_APIKeyQuotaCost cmd) in
  let exhausted := (0 <? k_quota k) && (k_quota_used k <? k_quota k) && (k_quota k <=? used) in
  live_user db' (c_UserID cmd) = Some (MkUser (u_balance u - paid) (u_frozen u) false) ∧
  (0 < paid → a_BalanceOverdrafted res = (u_balance u <? paid)) ∧
  a_APIKeyQuotaExhausted res = exhausted ∧
  key_quota (c_APIKeyID cmd) db' =
    Some (used, if exhausted && (k_status k ≟ StatusAPIKeyActive)
                then StatusAPIKeyQuotaExhausted else k_status k).
Proof.
  intros Hfb Hfq Hu Hk Hrun Happ. rewrite ApplyUsage_claiming in Hrun.
  destruct (_ =? _)%string; [done|]. apply (claiming_body a_Applied) in Hrun; [|done..].
  destruct (NormalizeUsage_fields cmd) as (HB & HQ & HU & HK).
  pose proof (quantized_whole _ Hfb) as Hwb. pose proof (quantized_whole _ Hfq) as Hwq.
  rewrite <-HB in Hwb. rewrite <-HQ in Hwq. rewrite <-HU in Hu. rewrite <-HK in Hk.
  unfold paid_units. rewrite <-HB, <-HQ, <-HU, <-HK.
  match type of Hrun with
  | _ ?db0 = _ => exact (effects_spec now _ u k db0 res db' Hwb Hwq Hu Hk Hrun)
  end.
Qed.

End Operations.

(** ** Instances and examples *)

(** Every float64 is sent exactly; rounding is to eight decimals where the result is a float64. *)
Definition whole8 (q : Q) : bool := ((Qnum q * 10 ^ 8) mod QDen q =? 0)%Z.

#[local] Instance ExactCodec : AmountCodec := {|
  numeric := f64_Q;
  scan_float q := f64_div (f64_of_int (Qnum q)) (f64_of_int (Z.pos (Qden q)));
  decimal_round8 f := if whole8 (f64_Q f) then f else f64_zero
|}.

Lemma whole8_units q : whole8 q = true → whole_units 8 q.
Proof.
  unfold whole8. intros Hq. apply Z.eqb_eq, Z.mod_divide in Hq as [z Hz]; [|done].
  exists z. unfold units, Qeq. cbn. lia.
Qed.

#[local] Instance ExactCodec_laws : AmountLaws ExactCodec.
Proof.
  split.
  - intros f Hf. destruct f as [s|s| |s m e]; [by destruct s|done..|]. cbn.
    destruct s, (0 <=? e) eqn:He; bool_props; cbn; unfold Qlt; cbn; split; try done; intros;
      pose proof (Z.pow_pos_nonneg 2 e); lia.
  - done.
  - intros f Hf. cbn. destruct (whole8 (f64_Q f)) eqn:Hw; [split; [done|by apply whole8_units]|].
    split; [done|]. by exists 0.
Qed.

(** Amounts of at most ten decimals, and not too large, are sent as what they are in decimal. *)
Definition DecimalCodec : AmountCodec := {|
  numeric f := units 10 (round_half_away (f64_Q f * inject_Z (10 ^ 10)));
  scan_float q := f64_div (f64_of_int (Qnum q)) (f64_of_int (Z.pos (Qden q)));
  decimal_round8 f := f64_decimal (round_half_away (f64_Q f * inject_Z (10 ^ 8))) 8
|}.

#[local] Instance PlainLib : BillingLib := {|
  sha256_hex s := s;
  EqualFold := String.eqb;
  trunc_day := midnight;
  to_local _ t := t;
  from_local _ t := t
|}.

(** One user with a balance, one key with a quota of five. *)
Definition sample_key : api_key :=
  MkAPIKey 500000000 0 StatusAPIKeyActive 0 0 0 None None None false.

Definition sample_db (balance : Z) : billing_db :=
  MkBillingDB {[1 := MkUser balance 0 false]} {[5 := sample_key]} ∅ ∅ ∅ ∅ ∅ ∅.

Definition sample_charge (id : string) (cost : float64) : UsageBillingCommand :=
  MkUsageBillingCommand id 5 "" "" 1 9 None AccountTypeAPIKey "m" "" "" 0 10 5 0 0 0 ""
    cost f64_zero cost f64_zero f64_zero.

Definition sample_hold (id : string) (hold actual : float64) : BatchImageBalanceHoldCommand :=
  MkBatchImageBalanceHoldCommand id 5 "" "" 1 "b1" hold actual.

Example format_10f_examples :
  format_10f (f64_decimal 1 1) = "0.1000000000" ∧
  format_10f (f64_of_int (-12)) = "-12.0000000000" ∧
  format_10f (f64_decimal 123456789 8) = "1.2345678900".
Proof. vm_compute. done. Qed.

Lemma request_applied_once_witness :
  let op := OpReserve 0 (sample_hold "r" (f64_of_int 2) f64_zero) in
  let db' := run_ops [OpCleanup 5] (run_op op (sample_db 1000000000)) in
  run_op op db' = db' ∧
  ((perform_op op db').1 = inl false ∨
   (perform_op op db').1 = inr ErrUsageBillingRequestConflict).
Proof.
  refine (request_applied_once (OpReserve 0 (sample_hold "r" (f64_of_int 2) f64_zero)) [OpCleanup 5]
    (OpReserve 0 (sample_hold "r" (f64_of_int 2) f64_zero)) ("r", 5) (sample_db 1000000000) _ _ _);
    vm_compute; reflexivity.
Defined.

Lemma funds_follow_charges_witness :
  let ops := [OpReserve 0 (sample_hold "r" (f64_of_int 2) f64_zero);
              OpApply 0 (sample_charge "c" (f64_of_int 3));
              OpApply 1 (sample_charge "c" (f64_of_int 3));
              OpCapture 2 (sample_hold "s" (f64_of_int 2) (f64_of_int 1))] in
  funds 1 (run_ops ops (sample_db 1000000000)) = 1000000000 - charges 1 ops (sample_db 1000000000) ∧
  charges 1 ops (sample_db 1000000000) = 400000000.
Proof.
  split; [|vm_compute; reflexivity].
  refine (funds_follow_charges 1 [OpReserve 0 (sample_hold "r" (f64_of_int 2) f64_zero);
              OpApply 0 (sample_charge "c" (f64_of_int 3));
              OpApply 1 (sample_charge "c" (f64_of_int 3));
              OpCapture 2 (sample_hold "s" (f64_of_int 2) (f64_of_int 1))] (sample_db 1000000000) _).
  repeat first [apply Forall_nil_2 | apply Forall_cons_2]; cbn [op_whole];
    try split; first [apply whole8_units; vm_compute; reflexivity | vm_compute; reflexivity].
Defined.

Lemma usage_charge_reconciles_witness :
  ∃ res db', ApplyUsage 0 (Some (sample_charge "c" (f64_of_int 6))) (sample_db 500000000) = (inl res, db') ∧
    a_BalanceOverdrafted res = true ∧ a_APIKeyQuotaExhausted res = true ∧
    key_quota 5 db' = Some (600000000, StatusAPIKeyQuotaExhausted).
Proof.
  assert (match (ApplyUsage 0 (Some (sample_charge "c" (f64_of_int 6))) (sample_db 500000000)).1 with
          | inl res => a_Applied res | inr _ => false end = true) as Happ
    by (vm_compute; reflexivity).
  destruct (ApplyUsage 0 (Some (sample_charge "c" (f64_of_int 6))) (sample_db 500000000))
    as [[res|err] db'] eqn:Hrun; [cbn in Happ|discriminate Happ].
  destruct (usage_charge_reconciles 0 (sample_charge "c" (f64_of_int 6)) (sample_db 500000000) res db'
    (MkUser 500000000 0 false) sample_key eq_refl eq_refl eq_refl eq_refl Hrun Happ)
    as (_ & Hover & Hex & Hkey).
  exists res, db'. split; [reflexivity|]. split; [|split].
  - etransitivity; [apply Hover|]; vm_compute; reflexivity.
  - etransitivity; [exact Hex|]. vm_compute. reflexivity.
  - etransitivity; [exact Hkey|]. vm_compute. reflexivity.
Defined.

(** Holds are not quantised: a reserve and its release of half a unit each round the balance and
    the frozen balance in the user's favour, who ends with two units that nobody paid. *)
Example unquantised_hold_makes_money :
  let hold := f64_decimal 5 9 in
  let db := sample_db 100000000 in
  let db1 := (@ReserveBatchImageBalance _ DecimalCodec 0 (Some (sample_hold (BatchImageHoldRequestID "b1") hold f64_zero)) db).2 in
  let db2 := (@ReleaseBatchImageBalance _ DecimalCodec 0 (Some (sample_hold (BatchImageReleaseRequestID "b1") hold f64_zero)) db1).2 in
  funds 1 db = 100000000 ∧ funds 1 db1 = 100000001 ∧ funds 1 db2 = 100000002.
Proof. vm_compute. done. Qed.
