(* ===== verification/HoldEscrow.v ===== *)
(** * HoldEscrow: reserve, capture and release are an escrow

    The three hold transactions of Billing against what they are meant to be: a batch's hold is
    free, then held, then captured or released.  A caller keeps the discipline when it captures or
    releases only what it reserved, repeats only what it did, and never does both.  Under that
    discipline the frozen balance of a user is, at all times, the sum of what is held of them; the
    examples at the end show what a caller that breaks it does to the money. *)

From stdpp Require Import base tactics numbers list strings gmap.
From Stdlib Require Import ZArith Lia QArith Qround Lqa.
From S2P Require Import Prelude GoLib GoFloat AppErrors Billing BillingFacts.

Local Open Scope go_scope.
Local Open Scope Z_scope.

(** ** The specification *)

Inductive phase : Type := Free | Held | Captured | Released.

Inductive hold_kind : Type := KReserve | KCapture | KRelease.

#[export] Instance phase_eq_dec : EqDecision phase.
Proof. solve_decision. Defined.

(** The phase after an operation, or [None] if the discipline forbids it. *)
Definition next_phase (kind : hold_kind) (ph : phase) (applied : bool) : option phase :=
  match kind, ph with
  | KReserve, Free => Some (if applied then Held else Free)
  | KReserve, _ => Some ph
  | KCapture, Held => Some (if applied then Captured else Held)
  | KRelease, Held => Some (if applied then Released else Held)
  | KCapture, Captured | KRelease, Released => Some ph
  | _, _ => None
  end.

(** What a batch has its hold for. *)
Record hold_job : Type := MkHoldJob {
  e_key : Z;
  e_user : Z;
  e_amount : float64
}.

Section Escrow.
Context `{BillingLib} `{AmountCodec} {Laws : AmountLaws _}.
Variable job : string → hold_job.

(** The request of a batch for a kind of operation. *)
Definition hold_request (kind : hold_kind) (b : string) : string * Z :=
  (match kind with
   | KReserve => BatchImageHoldRequestID b
   | KCapture => BatchImageCaptureRequestID b
   | KRelease => BatchImageReleaseRequestID b
   end, e_key (job b)).

(** Identifiers of batches carry no space at their ends. *)
Definition clean_id (b : string) : Prop :=
  TrimSpace b = b ∧ ∀ kind, TrimSpace (hold_request kind b).1 = (hold_request kind b).1.

(** Amounts are positive and whole units of the balance column. *)
Definition clean_amount (b : string) : Prop :=
  f64_finite (e_amount (job b)) = true ∧ f64_leb (e_amount (job b)) f64_zero = false ∧
  whole_units 8 (numeric (e_amount (job b))).

Definition cmd_of (kind : hold_kind) (b : string) (cmd : BatchImageBalanceHoldCommand) : Prop :=
  (h_RequestID cmd, h_APIKeyID cmd) = hold_request kind b ∧ h_BatchID cmd = b ∧
  h_UserID cmd = e_user (job b) ∧ h_HoldAmount cmd = e_amount (job b) ∧
  whole_units 8 (numeric (h_ActualAmount cmd)).

Definition is_hold_op (kind : hold_kind) (b : string) (op : billing_op) : Prop :=
  match kind, op with
  | KReserve, OpReserve _ cmd | KCapture, OpCapture _ cmd | KRelease, OpRelease _ cmd =>
      cmd_of kind b cmd
  | _, _ => False
  end.

(** Charges of other requests, and the cleanup. *)
Definition is_other_op (op : billing_op) : Prop :=
  match op with
  | OpApply _ cmd =>
      f64_finite (c_BalanceCost cmd) = true ∧
      HasPrefix (TrimSpace (c_RequestID cmd)) "batch_image_" = false
  | OpCleanup _ => True
  | _ => False
  end.

Definition phase_of (phases : gmap string phase) (b : string) : phase :=
  default Free (phases !! b).

(** A history that keeps the discipline, beside the phases of the batches. *)
Inductive escrow_step : gmap string phase * billing_db → gmap string phase * billing_db → Prop :=
| step_hold phases db kind b op ph :
    is_hold_op kind b op → clean_id b → clean_amount b →
    next_phase kind (phase_of phases b) (is_applied (perform_op op db).1) = Some ph →
    escrow_step (phases, db) (<[b := ph]> phases, run_op op db)
| step_other phases db op :
    is_other_op op → escrow_step (phases, db) (phases, run_op op db).

(** What is held of a user. *)
Definition held_units (uid : Z) (b : string) (ph : phase) : Z :=
  if decide (ph = Held ∧ e_user (job b) = uid) then units_of (e_amount (job b)) else 0.

Definition held (uid : Z) (phases : gmap string phase) : Z :=
  map_fold (λ b ph sum, held_units uid b ph + sum) 0 phases.

(** No batch has been claimed and nothing is frozen. *)
Definition fresh_db (db : billing_db) : Prop :=
  (∀ kind b, clean_id b → ¬ claimed (hold_request kind b) db) ∧
  (∀ uid u, users db !! uid = Some u → u_frozen u = 0).

(** ** Sums over the batches *)

Lemma held_insert uid phases b ph :
  held uid (<[b := ph]> phases) =
    held uid phases - held_units uid b (phase_of phases b) + held_units uid b ph.
Proof.
  unfold held, phase_of.
  assert (∀ m ph, m !! b = None →
    map_fold (λ b ph sum, held_units uid b ph + sum) 0 (<[b := ph]> m) =
    held_units uid b ph + map_fold (λ b ph sum, held_units uid b ph + sum) 0 m) as Hins.
  { intros m ph' Hm. rewrite (map_fold_insert_L (λ b ph sum, held_units uid b ph + sum));
      [done|intros; lia|done]. }
  destruct (phases !! b) as [old|] eqn:Hb; cbv [from_option id].
  - rewrite <-(insert_delete_eq phases b ph), Hins by apply lookup_delete_eq.
    pose proof (Hins (delete b phases) old (lookup_delete_eq _ _)) as Hold.
    rewrite insert_delete_id in Hold by done. lia.
  - rewrite Hins by done. assert (held_units uid b Free = 0) as ->; [|lia].
    unfold held_units. by rewrite decide_False by naive_solver.
Qed.

Lemma held_update uid phases b ph d :
  held_units uid b ph - held_units uid b (phase_of phases b) = d →
  held uid (<[b := ph]> phases) = held uid phases + d.
Proof. intros <-. rewrite held_insert. lia. Qed.

Lemma phase_of_insert phases b b' ph :
  phase_of (<[b := ph]> phases) b' = if decide (b' = b) then ph else phase_of phases b'.
Proof.
  unfold phase_of. case_decide as Hb; [subst; by rewrite lookup_insert_eq|].
  by rewrite lookup_insert_ne.
Qed.

(** ** Requests are told apart *)

Lemma prefix_inj (p b b' : string) : (p +:+ b = p +:+ b')%string → b = b'.
Proof. apply string_app_inj_l. Qed.

Lemma hold_request_inj kind kind' b b' :
  clean_id b → clean_id b' → hold_request kind b = hold_request kind' b' → kind = kind' ∧ b = b'.
Proof.
  intros [Hb _] [Hb' _]. unfold hold_request, BatchImageHoldRequestID, BatchImageCaptureRequestID,
    BatchImageReleaseRequestID. rewrite Hb, Hb'.
  destruct kind, kind'; intros [= Heq _]; try discriminate Heq; (split; [done|]);
    by apply prefix_inj in Heq || exact Heq.
Qed.

Lemma hold_request_prefix kind b :
  HasPrefix (hold_request kind b).1 "batch_image_" = true.
Proof. by destruct kind. Qed.

(** ** What the operations do to the frozen balance *)

Definition kind_delta (kind : hold_kind) (b : string) : Z :=
  match kind with
  | KReserve => units_of (e_amount (job b))
  | _ => - units_of (e_amount (job b))
  end.

Definition apply_of (kind : hold_kind) : BatchImageBalanceHoldCommand → Tx BatchImageBalanceHoldResult :=
  match kind with
  | KReserve => reserveUsageBillingBatchImageBalance
  | KCapture => captureUsageBillingBatchImageBalance
  | KRelease => releaseUsageBillingBatchImageBalance
  end.

(** The UPDATE of a hold operation found its user. *)
Lemma hold_update_frozen id cond b f d err db r db' :
  (∀ u, (f u == units 8 (u_frozen u + d))%Q) →
  (row ⇐ update_user id cond b f;
   match row with Some row => pass (moved row) | None => no_row id err end) db = (inl r, db') →
  ∃ u b', live_user db id = Some u ∧ cond u = true ∧ store 8 (b u) = Some b' ∧
          db' = put_user id (MkUser b' (u_frozen u + d) false) db.
Proof.
  intros Hf Hrun. apply try_bind_inl in Hrun as (row & db1 & Hupd & Hrun).
  pose proof (update_user_spec id cond b f db) as Hspec. rewrite Hupd in Hspec.
  destruct row as [[b' f']|].
  - destruct Hspec as (u & Hu & Hc & Hsb & Hsf & ->). apply (store_exact 8 _ _ (Hf u)) in Hsf as ->.
    injection Hrun as _ <-. eauto 10.
  - unfold no_row, try_bind in Hrun. cbn in Hrun. by destruct (negb _).
Qed.

Lemma hold_exists_run id key db :
  batchImageHoldClaimExists id key db = (inl (bool_decide (claimed (id, key) db)), db).
Proof.
  unfold batchImageHoldClaimExists. f_equal. f_equal. unfold claimed.
  repeat case_bool_decide; naive_solver.
Qed.

(** An operation of a hold that succeeds moves the amount between the two columns. *)
Lemma apply_effect kind b cmd db r db' :
  clean_id b → clean_amount b → h_BatchID cmd = b → h_APIKeyID cmd = e_key (job b) →
  h_UserID cmd = e_user (job b) → h_HoldAmount cmd = e_amount (job b) →
  (kind = KRelease → claimed (hold_request KReserve b) db) →
  apply_of kind cmd db = (inl r, db') →
  ∃ u b', live_user db (e_user (job b)) = Some u ∧
          db' = put_user (e_user (job b)) (MkUser b' (u_frozen u + kind_delta kind b) false) db.
Proof.
  intros Hid (_ & Hpos & Hw) Hb Hk Hu Ha Hheld Hrun. destruct kind; cbn in Hrun.
  - unfold reserveUsageBillingBatchImageBalance in Hrun. rewrite Ha, Hu, Hpos in Hrun.
    eapply (hold_update_frozen _ _ _ _ (kind_delta KReserve b)) in Hrun as (u & b' & ? & _ & _ & ->);
      [eauto|]. intros u. rewrite (numeric_units_of _ Hw), units_add. reflexivity.
  - unfold captureUsageBillingBatchImageBalance in Hrun. rewrite Ha, Hu, Hpos in Hrun.
    cbn [andb] in Hrun. destruct (f64_ltb cost_epsilon _); [done|].
    eapply (hold_update_frozen _ _ _ _ (kind_delta KCapture b)) in Hrun as (u & b' & ? & _ & _ & ->);
      [eauto|]. intros u. rewrite (numeric_units_of _ Hw), units_sub. reflexivity.
  - unfold releaseUsageBillingBatchImageBalance, try_bind at 1 in Hrun.
    rewrite Ha, Hu, Hpos, hold_exists_run, Hb, Hk in Hrun.
    rewrite bool_decide_true in Hrun by by apply Hheld. cbn [negb] in Hrun.
    eapply (hold_update_frozen _ _ _ _ (kind_delta KRelease b)) in Hrun as (u & b' & ? & _ & _ & ->);
      [eauto|]. intros u. rewrite (numeric_units_of _ Hw), units_sub. reflexivity.
Qed.

(** An operation on a hold is its request and its body. *)
Lemma perform_hold kind b op db :
  is_hold_op kind b op → clean_id b →
  ∃ now fp cmd,
    h_BatchID cmd = b ∧ h_APIKeyID cmd = e_key (job b) ∧ h_UserID cmd = e_user (job b) ∧
    h_HoldAmount cmd = e_amount (job b) ∧ whole_units 8 (numeric (h_ActualAmount cmd)) ∧
    perform_op op db =
      let p := claiming now (hold_request kind b).1 (e_key (job b)) fp BatchImageBalanceHoldResult0
                 (hold_body (apply_of kind) cmd) db in
      (match p.1 with inl a => inl (r_Applied a) | inr err => inr err end, p.2).
Proof.
  intros Hop [Hb Hids].
  assert (∀ now cmd, cmd_of kind b cmd →
    applyBatchImageBalanceHold now (Some cmd) (apply_of kind) db =
      claiming now (hold_request kind b).1 (e_key (job b)) (h_RequestFingerprint (NormalizeHold cmd))
        BatchImageBalanceHoldResult0 (hold_body (apply_of kind) (NormalizeHold cmd)) db ∧
    h_BatchID (NormalizeHold cmd) = b ∧ h_APIKeyID (NormalizeHold cmd) = e_key (job b) ∧
    h_UserID (NormalizeHold cmd) = e_user (job b) ∧
    h_HoldAmount (NormalizeHold cmd) = e_amount (job b) ∧
    whole_units 8 (numeric (h_ActualAmount (NormalizeHold cmd)))) as Hcmd.
  { intros now cmd (Hreq & HB & HU & HA & Hact). rewrite applyBatchImageBalanceHold_claiming.
    injection Hreq as Hreq HK. specialize (Hids kind).
    assert (h_RequestID cmd = (hold_request kind b).1) as -> by by rewrite Hreq; destruct kind.
    rewrite Hids, HK. destruct (NormalizeHold_amounts cmd) as (-> & -> & ->).
    assert (h_BatchID (NormalizeHold cmd) = TrimSpace (h_BatchID cmd)) as ->
      by (unfold NormalizeHold; by case_if).
    assert (h_APIKeyID (NormalizeHold cmd) = h_APIKeyID cmd) as ->
      by (unfold NormalizeHold; by case_if).
    rewrite HB, Hb, HK.
    destruct (_ =? _)%string eqn:He; [|done]. bool_props. destruct kind; discriminate He. }
  destruct kind, op; try done; cbn in Hop; destruct (Hcmd now cmd Hop) as (Hrun & Hfields);
    exists now, (h_RequestFingerprint (NormalizeHold cmd)), (NormalizeHold cmd);
    destruct Hfields as (? & ? & ? & ? & ?); repeat (split; [done|]);
    cbn [perform_op]; unfold ReserveBatchImageBalance, CaptureBatchImageBalance,
      ReleaseBatchImageBalance; cbn [apply_of] in *; by rewrite Hrun.
Qed.

(** ** The invariant *)

(** The phases in which the request of a kind is claimed. *)
Definition claimed_in (kind : hold_kind) (ph : phase) : Prop :=
  match kind with
  | KReserve => ph ≠ Free
  | KCapture => ph = Captured
  | KRelease => ph = Released
  end.

Record escrow_inv (phases : gmap string phase) (db : billing_db) : Prop := {
  inv_claims kind b : clean_id b →
    claimed (hold_request kind b) db ↔ claimed_in kind (phase_of phases b);
  inv_frozen uid u : users db !! uid = Some u → u_frozen u = held uid phases
}.

Lemma fresh_inv db : fresh_db db → escrow_inv ∅ db.
Proof.
  intros [Hc Hf]. split; [|apply Hf]. intros kind b Hb. unfold phase_of. rewrite lookup_empty. cbn.
  split; [by intros ?%Hc|]. destruct kind; cbn; naive_solver.
Qed.

(** Only the claims and the frozen balances matter. *)
Lemma inv_ext phases db db' :
  (∀ r, claimed r db' ↔ claimed r db) → users db' = users db →
  escrow_inv phases db → escrow_inv phases db'.
Proof.
  intros Hc Hu [Hclaims Hfrozen]. split.
  - intros kind b Hb. rewrite Hc. by apply Hclaims.
  - intros uid u. rewrite Hu. apply Hfrozen.
Qed.

Lemma inv_phases phases phases' db :
  (∀ b, phase_of phases' b = phase_of phases b) → (∀ uid, held uid phases' = held uid phases) →
  escrow_inv phases db → escrow_inv phases' db.
Proof.
  intros Hp Hh [Hclaims Hfrozen]. split.
  - intros kind b Hb. rewrite Hp. by apply Hclaims.
  - intros uid u Hu. rewrite Hh. by apply Hfrozen.
Qed.

(** Writing down a phase that did not change. *)
Lemma inv_same phases db b ph :
  ph = phase_of phases b → escrow_inv phases db → escrow_inv (<[b := ph]> phases) db.
Proof.
  intros ->. apply inv_phases.
  - intros b'. rewrite phase_of_insert. by case_decide; subst.
  - intros uid. rewrite held_insert. lia.
Qed.

Lemma claimed_put_claim r db id key fp now :
  claimed r (put_claim id key fp now db) ↔ claimed r db ∨ r = (id, key).
Proof.
  split; [|apply put_claim_claimed]. unfold claimed.
  change (dedup (put_claim id key fp now db)) with (<[(id, key) := (fp, now)]> (dedup db)).
  change (archive (put_claim id key fp now db)) with (archive db).
  destruct (decide (r = (id, key))) as [->|Hne]; [auto|]. rewrite lookup_insert_ne by done. auto.
Qed.

(** An operation that was applied takes its batch to the next phase. *)
Lemma inv_applied phases db kind b ph u b' fp now :
  clean_id b → phase_of phases b = match kind with KReserve => Free | _ => Held end →
  ph = match kind with KReserve => Held | KCapture => Captured | KRelease => Released end →
  live_user db (e_user (job b)) = Some u →
  escrow_inv phases db →
  escrow_inv (<[b := ph]> phases)
    (put_user (e_user (job b)) (MkUser b' (u_frozen u + kind_delta kind b) false)
       (put_claim (hold_request kind b).1 (e_key (job b)) fp now db)).
Proof.
  intros Hb Hph Hnew Hu [Hclaims Hfrozen]. split.
  - intros kind' b2 Hb2.
    set (db1 := put_claim _ _ _ _ db).
    change (claimed (hold_request kind' b2) (put_user _ _ db1))
      with (claimed (hold_request kind' b2) db1). unfold db1.
    rewrite claimed_put_claim, Hclaims, phase_of_insert by done.
    destruct (decide (b2 = b)) as [->|Hne].
    + rewrite Hph, Hnew. split.
      * intros [Hc|Heq]; [by destruct kind, kind'; cbn in *; subst|].
        assert (kind' = kind) as -> by (by destruct kind, kind'; cbn in Heq; try discriminate Heq).
        by destruct kind.
      * destruct kind, kind'; cbn; intros; try done; auto.
    + split; [|auto]. intros [Hc|Heq]; [done|].
      destruct (hold_request_inj kind' kind b2 b) as [_ ?]; [done|done|exact Heq|done].
  - intros uid u'. set (v := MkUser _ _ _).
    change (users (put_user ?i v (put_claim _ _ _ _ db))) with (<[i := v]> (users db)).
    assert (held_units uid b ph - held_units uid b (phase_of phases b) =
            if decide (e_user (job b) = uid) then kind_delta kind b else 0) as Hd.
    { rewrite Hph, Hnew. unfold held_units.
      destruct kind; cbn; repeat case_decide; naive_solver lia. }
    rewrite (held_update _ _ _ _ _ Hd).
    destruct (decide (e_user (job b) = uid)) as [<-|Hne].
    + rewrite lookup_insert_eq. intros [= <-]. cbn. f_equal. apply Hfrozen.
      revert Hu. unfold live_user. destruct (users db !! _) as [u''|]; cbn; [|done].
      destruct (u_deleted u''); naive_solver.
    + rewrite lookup_insert_ne by done. intros Hu'. rewrite (Hfrozen _ _ Hu'). lia.
Qed.

(** An operation on a hold under the discipline. *)
Lemma inv_hold_step phases db kind b op ph :
  is_hold_op kind b op → clean_id b → clean_amount b →
  next_phase kind (phase_of phases b) (is_applied (perform_op op db).1) = Some ph →
  escrow_inv phases db → escrow_inv (<[b := ph]> phases) (run_op op db).
Proof.
  intros Hop Hb Hamount Hnext Hinv.
  destruct (perform_hold kind b op db Hop Hb)
    as (now & fp & cmd & HB & HK & HU & HA & _ & Hrun).
  unfold run_op. rewrite Hrun in *. cbn [fst snd] in *.
  pose proof (inv_claims _ _ Hinv kind b Hb) as Hclaims.
  assert (hold_request kind b = ((hold_request kind b).1, e_key (job b))) as Hreq by done.
  destruct (claimed_dec (hold_request kind b) db) as [Hc|Hc].
  - (* repeated: nothing happens *)
    assert (ph = phase_of phases b) as ->.
    { rewrite Hreq in Hc. destruct (claiming_claimed now _ _ fp BatchImageBalanceHoldResult0
        (hold_body (apply_of kind) cmd) db Hc) as [Hr|Hr]; rewrite Hr in Hnext; cbn in Hnext;
        apply Hclaims in Hc; destruct kind, (phase_of phases b); cbn in *; naive_solver. }
    rewrite Hreq in Hc.
    destruct (claiming_claimed now _ _ fp BatchImageBalanceHoldResult0
        (hold_body (apply_of kind) cmd) db Hc) as [-> | ->]; by apply inv_same.
  - assert (phase_of phases b = match kind with KReserve => Free | _ => Held end) as Hph.
    { rewrite Hclaims in Hc. destruct kind, (phase_of phases b); cbn in *; try done; naive_solver. }
    rewrite Hreq in Hc. rewrite claiming_fresh in * by done.
    destruct (hold_body _ _ _) as [[r|err] db'] eqn:Hbody; cbn [fst snd] in *.
    + rewrite (hold_body_flag _ _ _ _ _ Hbody) in Hnext.
      unfold hold_body in Hbody. apply try_bind_inl in Hbody as (r' & db1 & Happly & [= _ <-]).
      assert (kind = KRelease → claimed (hold_request KReserve b)
        (put_claim (hold_request kind b).1 (e_key (job b)) fp now db)) as Hheld.
      { intros ->. apply put_claim_claimed. left. apply (inv_claims _ _ Hinv KReserve b Hb). cbn.
        by rewrite Hph. }
      destruct (apply_effect kind b cmd _ _ _ Hb Hamount HB HK HU HA Hheld Happly)
        as (u & b' & Hu & ->).
      apply inv_applied; try done. rewrite Hph in Hnext. by destruct kind; cbn in *; simplify_eq.
    + apply inv_same; [|done]. rewrite Hph in *. by destruct kind; cbn in *; simplify_eq.
Qed.

Lemma deduct_frozen uid id amount :
  keeps (λ db, u_frozen <$> users db !! uid) (deductUsageBillingBalance id amount).
Proof.
  assert (∀ cond b, keeps (λ db, u_frozen <$> users db !! uid)
            (update_user id cond b (λ u, units 8 (u_frozen u)))) as Hupd.
  { intros cond b db. pose proof (update_user_spec id cond b (λ u, units 8 (u_frozen u)) db) as Hs.
    destruct (update_user _ _ _ _ db) as [[[[b' f']|]|err] db']; cbn [snd];
      [|by destruct Hs as [-> _]..].
    destruct Hs as (u & Hu & _ & _ & Hsf & ->).
    apply (store_exact 8 _ (u_frozen u) (Qeq_refl _)) in Hsf as ->.
    change (users (put_user id ?v db)) with (<[id := v]> (users db)).
    destruct (decide (uid = id)) as [->|Hne]; [|by rewrite lookup_insert_ne].
    rewrite lookup_insert_eq. cbn. revert Hu. unfold live_user.
    destruct (users db !! id) as [u'|]; cbn; [|done]. destruct (u_deleted u'); naive_solver. }
  unfold deductUsageBillingBalance. repeat keeps_step; apply Hupd.
Qed.

Lemma effects_frozen uid now cmd r :
  keeps (λ db, u_frozen <$> users db !! uid) (applyUsageBillingEffects now cmd r).
Proof.
  unfold applyUsageBillingEffects. repeat keeps_step;
    first [ apply keeps_subscription_step; done | apply deduct_frozen | apply api_key_quota_keeps; done
          | apply api_key_rate_keeps; done | apply account_quota_keeps; done ].
Qed.

Lemma cleanup_claimed_iff fuel cutoff db r :
  claimed r (cleanup_turns fuel cutoff db) ↔ claimed r db.
Proof.
  split; [|apply cleanup_claimed]. revert db.
  assert (∀ db, claimed r (move_to_archive (cleanup_victims cutoff db) db) → claimed r db) as Hmove.
  { intros db. pose proof (victims_in cutoff db) as Hin. revert Hin.
    generalize (cleanup_victims cutoff db) as rows. unfold claimed, move_to_archive.
    destruct db as [us ks ss gs xs ob d a]. cbn. intros rows Hin [Hd|Ha].
    - left. change (is_Some (foldr (λ row m, delete row.1 m) d rows !! r)) in Hd.
      rewrite lookup_delete_rows in Hd. case_decide; [by destruct Hd|done].
    - induction rows as [|row rows IH]; [by right|]. cbn in Ha.
      assert (∀ row, row ∈ rows → d !! row.1 = Some row.2 ∧ row.2.2 < cutoff) as Hin' by
        (intros row' Hrow'; apply Hin; by right).
      case_match; [by apply IH|]. destruct (decide (row.1 = r)) as [<-|Hne].
      + left. destruct (Hin row) as [-> _]; [by left|eauto].
      + rewrite lookup_insert_ne in Ha by done. by apply IH. }
  induction fuel as [|fuel IH]; intros db; [done|]. cbn [cleanup_turns]. case_if; auto.
Qed.

(** Charges and the cleanup keep out of the holds' way. *)
Lemma inv_other_step phases db op :
  is_other_op op → escrow_inv phases db → escrow_inv phases (run_op op db).
Proof.
  intros Hop Hinv. unfold run_op. destruct op as [now cmd|?|?|?|cutoff]; cbn in Hop; try done.
  - cbn [perform_op snd]. rewrite ApplyUsage_claiming. case_if; [done|]. destruct Hop as [_ Hprefix].
    match goal with |- escrow_inv _ (snd (claiming ?now ?id ?key ?fp ?none ?body _)) =>
      destruct (claimed_dec (id, key) db) as [Hc|Hc];
      [destruct (claiming_claimed now id key fp none body db Hc) as [-> | ->]; done|];
      rewrite claiming_fresh by done;
      pose proof (effects_keep dedup now (NormalizeUsage cmd)
        (MkUsageBillingApplyResult true false None false None)
        ltac:(done) ltac:(done) ltac:(done) ltac:(done) ltac:(done) (put_claim id key fp now db)) as Hd;
      pose proof (effects_keep archive now (NormalizeUsage cmd)
        (MkUsageBillingApplyResult true false None false None)
        ltac:(done) ltac:(done) ltac:(done) ltac:(done) ltac:(done) (put_claim id key fp now db)) as Ha;
      pose proof (λ uid, effects_frozen uid now (NormalizeUsage cmd)
        (MkUsageBillingApplyResult true false None false None) (put_claim id key fp now db)) as Hf
    end.
    destruct (applyUsageBillingEffects _ _ _ _) as [[a|err] db']; cbn [snd] in *; [|done].
    destruct Hinv as [Hclaims Hfrozen]. split.
    + intros kind b Hb. rewrite <-Hclaims by done. unfold claimed. rewrite Hd, Ha.
      fold (claimed (hold_request kind b) (put_claim (TrimSpace (c_RequestID cmd)) (c_APIKeyID cmd)
        (c_RequestFingerprint (NormalizeUsage cmd)) now db)).
      rewrite claimed_put_claim. split; [|by left]. intros [?|Heq]; [done|].
      pose proof (hold_request_prefix kind b) as Hp. rewrite Heq in Hp.
      change (HasPrefix (TrimSpace (c_RequestID cmd)) "batch_image_" = true) in Hp. congruence.
    + intros uid u Hu. specialize (Hf uid). rewrite Hu in Hf.
      change (Some (u_frozen u) = u_frozen <$> users db !! uid) in Hf.
      destruct (users db !! uid) as [u'|] eqn:Hu'; [|done]. rewrite <-(Hfrozen uid u' Hu').
      cbn in Hf. congruence.
  - cbn [perform_op snd]. revert Hinv. apply inv_ext.
    + intros r. apply cleanup_claimed_iff.
    + apply cleanup_users.
Qed.

Lemma holds_are_escrow_inv db0 phases db :
  fresh_db db0 → rtc escrow_step (∅, db0) (phases, db) → escrow_inv phases db.
Proof.
  intros Hfresh%fresh_inv Hsteps. revert Hfresh.
  change (escrow_inv (∅ : gmap string phase, db0).1 (∅ : gmap string phase, db0).2 →
          escrow_inv (phases, db).1 (phases, db).2).
  induction Hsteps as [|s1 s2 s3 Hstep _ IH]; [done|]. intros Hinv. apply IH.
  destruct Hstep; cbn in *; [by eapply inv_hold_step|by apply inv_other_step].
Qed.

(** C10: The frozen balance is an escrow.  In every history in which captures and releases follow
    their reserve and exclude each other (reserves, captures and releases may fail and be
    repeated; charges and the cleanup come in between as they like), the frozen balance of each
    user is the sum of the holds of theirs that are held, and a batch's requests are the claimed
    ones that its phase says. *)
Theorem holds_are_escrow db0 phases db :
  fresh_db db0 → rtc escrow_step (∅, db0) (phases, db) →
  (∀ uid u, users db !! uid = Some u → u_frozen u = held uid phases) ∧
  (∀ kind b, clean_id b → claimed (hold_request kind b) db ↔ claimed_in kind (phase_of phases b)).
Proof.
  intros Hfresh Hsteps. by destruct (holds_are_escrow_inv _ _ _ Hfresh Hsteps).
Qed.

(** ** A hold can be given back *)

Lemma f64_positive f : f64_finite f = true → f64_leb f f64_zero = false → f64_ltb f64_zero f = true.
Proof. destruct f as [s|s| |s m e]; cbn; try done. by destruct s. Qed.

Lemma amount_positive b : clean_amount b → 0 < units_of (e_amount (job b)).
Proof.
  intros (Hfin & Hpos & Hw). apply (units_lt 8). rewrite <-(numeric_units_of _ Hw).
  assert (0 < numeric (e_amount (job b)))%Q as Hq
    by by apply numeric_pos, f64_positive.
  unfold units, Qlt in *. cbn in *. lia.
Qed.

Lemma held_split uid phases b ph :
  phases !! b = Some ph → held uid phases = held_units uid b ph + held uid (delete b phases).
Proof.
  intros Hb. rewrite <-(insert_delete_id phases b ph) at 1 by done. rewrite held_insert.
  unfold phase_of. rewrite lookup_delete_eq. unfold held_units at 1. cbn.
  rewrite decide_False by naive_solver. lia.
Qed.

Lemma held_nonneg uid phases : (∀ b ph, phases !! b = Some ph → clean_amount b) → 0 <= held uid phases.
Proof.
  induction phases as [|b ph m Hb IH] using map_ind; intros Hclean; [done|].
  rewrite (held_split uid _ b ph) by apply lookup_insert_eq. rewrite delete_insert_id by done.
  assert (0 <= held uid m) as Hm.
  { apply IH. intros b' ph' Hb'. apply (Hclean b' ph').
    rewrite lookup_insert_ne; [done|]. intros ->. congruence. }
  pose proof (amount_positive b (Hclean b ph (lookup_insert_eq _ _ _))).
  unfold held_units. case_decide; lia.
Qed.

Lemma steps_clean db0 phases db :
  rtc escrow_step (∅, db0) (phases, db) → ∀ b ph, phases !! b = Some ph → clean_amount b.
Proof.
  intros Hsteps.
  assert (∀ b ph, (∅ : gmap string phase, db0).1 !! b = Some ph → clean_amount b) as H0'
    by (intros b ph; cbn; by rewrite lookup_empty).
  revert H0'. change phases with (phases, db).1 at 1.
  induction Hsteps as [|s1 s2 s3 Hstep _ IH]; [done|]. intros Hclean. apply IH.
  destruct Hstep as [ps db1 kind b op ph Hop Hid Hamount Hnext|]; cbn in *; [|done].
  intros b' ph'. destruct (decide (b' = b)) as [->|Hne]; [done|].
  rewrite lookup_insert_ne by done. apply Hclean.
Qed.

(** Both columns have room for what a release writes. *)
Definition fits (db : billing_db) (b : string) : Prop :=
  ∀ u, live_user db (e_user (job b)) = Some u →
    Z.abs (u_balance u + units_of (e_amount (job b))) < 10 ^ 20 ∧ u_frozen u < 10 ^ 20.

Lemma live_user_row uid u db : live_user db uid = Some u → users db !! uid = Some u.
Proof.
  unfold live_user. destruct (users db !! uid) as [u'|]; cbn; [|done].
  destruct (u_deleted u'); naive_solver.
Qed.

Lemma release_succeeds b cmd db u :
  clean_amount b → h_BatchID cmd = b → h_APIKeyID cmd = e_key (job b) →
  h_UserID cmd = e_user (job b) → h_HoldAmount cmd = e_amount (job b) →
  claimed (hold_request KReserve b) db →
  live_user db (e_user (job b)) = Some u → fits db b →
  units_of (e_amount (job b)) <= u_frozen u →
  ∃ r db', releaseUsageBillingBatchImageBalance cmd db = (inl r, db') ∧
    live_user db' (e_user (job b)) =
      Some (MkUser (u_balance u + units_of (e_amount (job b)))
                   (u_frozen u - units_of (e_amount (job b))) false).
Proof.
  intros Hamount HB HK HU HA Hheld Hu Hfits Hle.
  pose proof (amount_positive b Hamount) as Hpos. destruct Hamount as (_ & Hleb & Hw).
  destruct (Hfits u Hu) as [Hroom Hroom']. set (d := units_of (e_amount (job b))) in *.
  unfold releaseUsageBillingBatchImageBalance, try_bind at 1.
  rewrite HA, HU, Hleb, hold_exists_run, HB, HK, bool_decide_true by exact Hheld. cbn [negb].
  unfold try_bind. rewrite (update_user_live _ _ _ _ u) by done. cbv beta.
  rewrite (Qle_bool_units 8 _ _ d (u_frozen u) (numeric_units_of _ Hw) (Qeq_refl _)).
  rewrite (store_proper 8 (_ + _)%Q (units 8 (u_balance u + d)))
    by (rewrite (numeric_units_of _ Hw), units_add; reflexivity).
  rewrite (store_proper 8 (_ - _)%Q (units 8 (u_frozen u - d)))
    by (rewrite (numeric_units_of _ Hw), units_sub; reflexivity).
  rewrite !store_units.
  replace (d <=? u_frozen u) with true by lia.
  replace (Z.abs (u_balance u + d) <? 10 ^ 20) with true by lia.
  replace (Z.abs (u_frozen u - d) <? 10 ^ 20) with true by lia.
  eexists _, _. split; [done|]. by apply live_put_user.
Qed.

(** C39: Whatever happened before under the discipline, a hold that is held can be given back: its
    release is applied and moves exactly its amount from the frozen balance to the balance, for a
    user who is not deleted and whose columns have room. *)
Theorem held_is_released db0 phases db b op u :
  fresh_db db0 → rtc escrow_step (∅, db0) (phases, db) →
  clean_id b → phase_of phases b = Held → is_hold_op KRelease b op →
  live_user db (e_user (job b)) = Some u → fits db b →
  (perform_op op db).1 = inl true ∧
  live_user (run_op op db) (e_user (job b)) =
    Some (MkUser (u_balance u + units_of (e_amount (job b)))
                 (u_frozen u - units_of (e_amount (job b))) false).
Proof.
  intros Hfresh Hsteps Hb Hph Hop Hu Hfits.
  destruct (holds_are_escrow_inv _ _ _ Hfresh Hsteps) as [Hclaims Hfrozen].
  assert (phases !! b = Some Held) as Hlook.
  { revert Hph. unfold phase_of. by destruct (phases !! b) as [[]|]. }
  pose proof (steps_clean _ _ _ Hsteps) as Hclean.
  pose proof (Hclean b Held Hlook) as Hamount. pose proof (amount_positive b Hamount) as Hpos.
  assert (units_of (e_amount (job b)) <= u_frozen u) as Hle.
  { rewrite (Hfrozen _ u (live_user_row _ _ _ Hu)), (held_split _ _ _ _ Hlook).
    assert (0 <= held (e_user (job b)) (delete b phases)) as Hrest.
    { apply held_nonneg. intros b' ph' Hb'. eapply Hclean, lookup_delete_Some, Hb'. }
    unfold held_units. rewrite decide_True by done. lia. }
  destruct (perform_hold KRelease b op db Hop Hb)
    as (now & fp & cmd & HB & HK & HU & HA & _ & Hrun).
  unfold run_op. rewrite Hrun. cbv zeta. rewrite claiming_fresh.
  2: { intros Hc. apply (Hclaims KRelease b Hb) in Hc. cbn in Hc. congruence. }
  destruct (release_succeeds b cmd (put_claim (hold_request KRelease b).1 (e_key (job b)) fp now db) u)
    as (r & db' & Hrel & Hu'); try done.
  { apply put_claim_claimed. left. apply (Hclaims KReserve b Hb). cbn. congruence. }
  unfold hold_body, try_bind. cbn [apply_of]. rewrite Hrel. cbn. done.
Qed.

End Escrow.

(** ** Witnesses, and what happens without the discipline *)

#[local] Existing Instances ExactCodec ExactCodec_laws PlainLib.

Definition sample_jobs (b : string) : hold_job := MkHoldJob 5 1 (f64_of_int 2).

Definition hold_of (kind : hold_kind) (b : string) (actual : float64) : billing_op :=
  let cmd := MkBatchImageBalanceHoldCommand (hold_request sample_jobs kind b).1 5 "" "" 1 b
               (f64_of_int 2) actual in
  match kind with
  | KReserve => OpReserve 0 cmd
  | KCapture => OpCapture 0 cmd
  | KRelease => OpRelease 0 cmd
  end.

Lemma sample_fresh : fresh_db sample_jobs (sample_db 1000000000).
Proof.
  split.
  - intros kind b _ [[? Hc]|[? Hc]]; discriminate Hc.
  - intros uid u. cbn. rewrite lookup_singleton_Some. by intros [_ <-].
Qed.

Lemma sample_step kind b ph phases db :
  clean_id sample_jobs b →
  next_phase kind (phase_of phases b) (is_applied (perform_op (hold_of kind b f64_zero) db).1) = Some ph →
  escrow_step sample_jobs (phases, db) (<[b := ph]> phases, run_op (hold_of kind b f64_zero) db).
Proof.
  intros Hb Hnext. eapply step_hold; [|done| |exact Hnext].
  - destruct kind; cbn; repeat split; by exists 0.
  - split; [done|]. split; [vm_compute; done|]. apply whole8_units. vm_compute. done.
Qed.

Lemma sample_clean : clean_id sample_jobs "b1" ∧ clean_id sample_jobs "b2".
Proof. repeat split; try intros []; vm_compute; done. Qed.

(** Two holds, one of them captured for nothing. *)
Definition sample_history : billing_db :=
  run_ops [hold_of KReserve "b1" f64_zero; hold_of KReserve "b2" f64_zero;
           hold_of KCapture "b1" f64_zero] (sample_db 1000000000).
Definition sample_phases : gmap string phase :=
  <["b1" := Captured]> (<["b2" := Held]> (<["b1" := Held]> ∅)).

Lemma sample_steps :
  rtc (escrow_step sample_jobs) (∅, sample_db 1000000000) (sample_phases, sample_history).
Proof.
  destruct sample_clean as [Hb1 Hb2]. unfold sample_phases, sample_history, run_ops. cbn [foldl].
  eapply rtc_l; [apply (sample_step KReserve "b1" Held); [exact Hb1|vm_compute; reflexivity]|].
  eapply rtc_l; [apply (sample_step KReserve "b2" Held); [exact Hb2|vm_compute; reflexivity]|].
  eapply rtc_l; [apply (sample_step KCapture "b1" Captured); [exact Hb1|vm_compute; reflexivity]|].
  apply rtc_refl.
Qed.

Lemma holds_are_escrow_witness :
  u_frozen <$> users sample_history !! 1 = Some (held sample_jobs 1 sample_phases) ∧
  held sample_jobs 1 sample_phases = 200000000.
Proof.
  split; [|vm_compute; reflexivity].
  destruct (holds_are_escrow sample_jobs (sample_db 1000000000) sample_phases sample_history
    sample_fresh sample_steps) as [Hfrozen _].
  destruct (users sample_history !! 1) as [u|] eqn:Hu; [|vm_compute in Hu; discriminate].
  cbn. f_equal. by apply Hfrozen.
Defined.

Lemma held_is_released_witness :
  (perform_op (hold_of KRelease "b2" f64_zero) sample_history).1 = inl true ∧
  live_user (run_op (hold_of KRelease "b2" f64_zero) sample_history) 1 =
    Some (MkUser 1000000000 0 false).
Proof.
  refine (held_is_released sample_jobs (sample_db 1000000000) sample_phases sample_history "b2"
    (hold_of KRelease "b2" f64_zero) (MkUser 800000000 200000000 false)
    sample_fresh sample_steps (proj2 sample_clean) _ _ _ _).
  - vm_compute. reflexivity.
  - cbn. repeat split. by exists 0.
  - vm_compute. reflexivity.
  - intros u Hu. vm_compute in Hu. injection Hu as <-. vm_compute. done.
Defined.

(** A release that comes before its reserve, as when a job is cancelled while it is being submitted,
    is applied without moving anything.  Its request is then claimed, so the release that follows
    the reserve is ignored, and so is every later one: the hold stays frozen. *)
Example release_before_reserve_locks_the_hold :
  let history := [hold_of KRelease "b1" f64_zero; hold_of KReserve "b1" f64_zero;
                  hold_of KRelease "b1" f64_zero] in
  live_user (run_ops history (sample_db 1000000000)) 1 = Some (MkUser 800000000 200000000 false) ∧
  ∀ ops, live_user (run_op (hold_of KRelease "b1" f64_zero)
                     (run_ops ops (run_ops history (sample_db 1000000000)))) 1 =
         live_user (run_ops ops (run_ops history (sample_db 1000000000))) 1.
Proof.
  split; [vm_compute; reflexivity|]. intros ops.
  set (db := run_ops [hold_of KRelease "b1" f64_zero; hold_of KReserve "b1" f64_zero;
                      hold_of KRelease "b1" f64_zero] (sample_db 1000000000)).
  assert (claimed (hold_request sample_jobs KRelease "b1") db) as Hc
    by (left; eexists; vm_compute; reflexivity).
  apply (run_ops_claimed ops) in Hc.
  destruct (perform_hold sample_jobs KRelease "b1" (hold_of KRelease "b1" f64_zero) (run_ops ops db))
    as (now & fp & cmd & _ & _ & _ & _ & _ & Hrun);
    [repeat split; by exists 0|apply sample_clean|].
  unfold run_op. rewrite Hrun. cbv zeta.
  destruct (claiming_claimed now (hold_request sample_jobs KRelease "b1").1
    (e_key (sample_jobs "b1")) fp BatchImageBalanceHoldResult0
    (hold_body (apply_of KRelease) cmd) (run_ops ops db) Hc) as [-> | ->]; done.
Qed.

(** A release that follows the capture of the same hold pays it out a second time, from what is
    frozen for other batches; nothing in the transactions prevents it. *)
Example release_after_capture_pays_twice :
  let history := [hold_of KReserve "b1" f64_zero; hold_of KReserve "b2" f64_zero;
                  hold_of KCapture "b1" (f64_of_int 2); hold_of KRelease "b1" f64_zero] in
  let db := run_ops history (sample_db 1000000000) in
  live_user db 1 = Some (MkUser 800000000 0 false) ∧
  (perform_op (hold_of KCapture "b2" (f64_of_int 2)) db).1 = inr FrozenInsufficient.
Proof. vm_compute. done. Qed.
