(* ===== verification/BatchImage.v ===== *)
(** * BatchImage: batch image jobs

    Models [backend/internal/service/batch_image.go]: the data of a job and of its items, its
    statuses and which may follow which, and the errors.  Times are nanoseconds, money is float64;
    payloads of events are left out. *)

From stdpp Require Import base tactics numbers list strings gmap.
From Stdlib Require Import ZArith Lia.
From coqutil Require Export Datatypes.RecordSetters.
From S2P Require Import Prelude GoLib GoFloat AppErrors Billing.

Export DoubleBraceUpdate.

Local Open Scope go_scope.
Local Open Scope Z_scope.

Definition BatchImageProviderGeminiAPI : string := "gemini_api".
Definition BatchImageProviderVertex : string := "vertex".

Definition BatchImageJobStatusCreated : string := "created".
Definition BatchImageJobStatusUploading : string := "uploading".
Definition BatchImageJobStatusSubmitted : string := "submitted".
Definition BatchImageJobStatusRunning : string := "running".
Definition BatchImageJobStatusIndexing : string := "indexing".
Definition BatchImageJobStatusSettling : string := "settling".
Definition BatchImageJobStatusCompleted : string := "completed".
Definition BatchImageJobStatusFailed : string := "failed".
Definition BatchImageJobStatusCancelled : string := "cancelled".
Definition BatchImageJobStatusOutputDeleted : string := "output_deleted".

Definition BatchImageItemStatusPending : string := "pending".
Definition BatchImageItemStatusSuccess : string := "success".
Definition BatchImageItemStatusFailed : string := "failed".
Definition BatchImageItemStatusCancelled : string := "cancelled".

(** ** Errors *)

Definition ErrBatchImageJobNotFound : ApplicationError :=
  New 404 "BATCH_IMAGE_JOB_NOT_FOUND"
    "batch image job not found".
Definition ErrBatchImageJobExists : ApplicationError :=
  New 409 "BATCH_IMAGE_JOB_EXISTS"
    "batch image job already exists".
Definition ErrBatchImageItemExists : ApplicationError :=
  New 409 "BATCH_IMAGE_ITEM_EXISTS"
    "batch image item already exists".
Definition ErrBatchImageInvalidTransition : ApplicationError :=
  New 400 "BATCH_IMAGE_INVALID_TRANSITION"
    "invalid batch image job status transition".
Definition ErrBatchImageInvalidProvider : ApplicationError :=
  New 400 "BATCH_IMAGE_INVALID_PROVIDER"
    "invalid batch image provider".
Definition ErrBatchImageMissingProviderJobName : ApplicationError :=
  New 400 "BATCH_IMAGE_MISSING_PROVIDER_JOB_NAME"
    "batch image provider job name is missing".
Definition ErrBatchImageMissingAccountID : ApplicationError :=
  New 400 "BATCH_IMAGE_MISSING_ACCOUNT_ID"
    "batch image account id is missing".
Definition ErrBatchImageUnsupportedProvider : ApplicationError :=
  New 400 "BATCH_IMAGE_UNSUPPORTED_PROVIDER"
    "unsupported batch image provider".
Definition ErrBatchImageIndexOutputMissing : ApplicationError :=
  New 502 "BATCH_IMAGE_INDEX_OUTPUT_MISSING"
    "batch image provider output is missing".
Definition ErrBatchImageIndexParseFailed : ApplicationError :=
  New 502 "BATCH_IMAGE_INDEX_PARSE_FAILED"
    "batch image provider output parse failed".
Definition ErrBatchImageIndexNoResultLines : ApplicationError :=
  New 502 "BATCH_IMAGE_INDEX_NO_RESULT_LINES"
    "batch image provider output has no result lines".
Definition ErrBatchImageDuplicateCustomID : ApplicationError :=
  New 502 "DUPLICATE_CUSTOM_ID_IN_OUTPUT"
    "batch image provider output contains duplicate custom id".
Definition ErrBatchImageIndexStateConflict : ApplicationError :=
  New 409 "BATCH_IMAGE_INDEX_STATE_CONFLICT"
    "batch image job is no longer in indexing state".
Definition ErrBatchImageSettlementInvalidStatus : ApplicationError :=
  New 400 "BATCH_IMAGE_SETTLEMENT_INVALID_STATUS"
    "batch image job is not ready for settlement".
Definition ErrBatchImageSettlementManifestConflict : ApplicationError :=
  New 409 "BATCH_IMAGE_SETTLEMENT_MANIFEST_CONFLICT"
    "batch image settlement manifest hash conflict".
Definition ErrBatchImageSettlementPricingMissing : ApplicationError :=
  New 400 "BATCH_IMAGE_SETTLEMENT_PRICING_MISSING"
    "batch image settlement pricing is missing".
Definition ErrBatchImageSettlementBillingFailed : ApplicationError :=
  New 502 "BATCH_IMAGE_SETTLEMENT_BILLING_FAILED"
    "batch image settlement billing failed".
Definition ErrBatchImageAlreadySettled : ApplicationError :=
  New 409 "BATCH_IMAGE_ALREADY_SETTLED"
    "batch image job is already settled".
Definition ErrBatchImageSettlementMissingAPIKeyID : ApplicationError :=
  New 400 "BATCH_IMAGE_SETTLEMENT_MISSING_API_KEY_ID"
    "batch image settlement api key id is missing".
Definition ErrBatchImageSettlementMissingAccountID : ApplicationError :=
  New 400 "BATCH_IMAGE_SETTLEMENT_MISSING_ACCOUNT_ID"
    "batch image settlement account id is missing".
Definition ErrBatchImageSettlementInvalidCounts : ApplicationError :=
  New 400 "BATCH_IMAGE_SETTLEMENT_INVALID_COUNTS"
    "batch image settlement counts are invalid".
Definition ErrBatchImageBillingHoldFailed : ApplicationError :=
  New 502 "BATCH_IMAGE_BILLING_HOLD_FAILED"
    "batch image balance hold failed".
Definition ErrBatchImageDisabled : ApplicationError :=
  New 404 "BATCH_IMAGE_DISABLED"
    "batch image API is disabled".
Definition ErrBatchImageGroupDisabled : ApplicationError :=
  New 403 "BATCH_IMAGE_GROUP_DISABLED"
    "batch image API is disabled for this group".
Definition ErrBatchImageInvalidModel : ApplicationError :=
  New 400 "BATCH_IMAGE_INVALID_MODEL"
    "batch image model is required".
Definition ErrBatchImageNoAccountAvailable : ApplicationError :=
  New 502 "BATCH_IMAGE_NO_ACCOUNT_AVAILABLE"
    "no compatible batch image account is available".
Definition ErrBatchImageInvalidItems : ApplicationError :=
  New 400 "BATCH_IMAGE_INVALID_ITEMS"
    "batch image items are invalid".
Definition ErrBatchImageDuplicateCustomIDInRequest : ApplicationError :=
  New 400 "BATCH_IMAGE_DUPLICATE_CUSTOM_ID"
    "batch image custom ids must be unique".
Definition ErrBatchImagePromptTooLong : ApplicationError :=
  New 400 "BATCH_IMAGE_PROMPT_TOO_LONG"
    "batch image prompt is too long".
Definition ErrBatchImageInvalidReferenceImage : ApplicationError :=
  New 400 "BATCH_IMAGE_INVALID_REFERENCE_IMAGE"
    "batch image reference image is invalid".
Definition ErrBatchImageTooManyReferenceImages : ApplicationError :=
  New 400 "BATCH_IMAGE_TOO_MANY_REFERENCE_IMAGES"
    "too many batch image reference images for this model".
Definition ErrBatchImageReferenceImagesTooLarge : ApplicationError :=
  New 400 "BATCH_IMAGE_REFERENCE_IMAGES_TOO_LARGE"
    "batch image reference images are too large".
Definition ErrBatchImageTooManyOutputImages : ApplicationError :=
  New 400 "BATCH_IMAGE_TOO_MANY_OUTPUT_IMAGES"
    "too many batch image output images".
Definition ErrBatchImageProviderSubmitFailed : ApplicationError :=
  New 502 "BATCH_IMAGE_PROVIDER_SUBMIT_FAILED"
    "batch image provider submit failed".
Definition ErrBatchImageQueueFailed : ApplicationError :=
  New 502 "BATCH_IMAGE_QUEUE_FAILED"
    "batch image queue failed".
Definition ErrBatchImageIdempotencyConflict : ApplicationError :=
  New 409 "BATCH_IMAGE_IDEMPOTENCY_CONFLICT"
    "idempotency key reused with different batch image request".
Definition ErrBatchImageCancelFailed : ApplicationError :=
  New 502 "BATCH_IMAGE_CANCEL_FAILED"
    "batch image cancel failed".
Definition ErrBatchImageVertexGCSBucketMissing : ApplicationError :=
  New 502 "BATCH_IMAGE_VERTEX_GCS_BUCKET_MISSING"
    "Vertex managed GCS bucket is not configured".
Definition ErrBatchImageNotReady : ApplicationError :=
  New 409 "BATCH_IMAGE_NOT_READY"
    "batch image job is not completed".
Definition ErrBatchImageOutputDeleted : ApplicationError :=
  New 410 "BATCH_IMAGE_OUTPUT_DELETED"
    "batch image output has been deleted".
Definition ErrBatchImageItemNotFound : ApplicationError :=
  New 404 "BATCH_IMAGE_ITEM_NOT_FOUND"
    "batch image item not found".
Definition ErrBatchImageItemFailed : ApplicationError :=
  New 409 "BATCH_IMAGE_ITEM_FAILED"
    "batch image item did not succeed".
Definition ErrBatchImageResultMissing : ApplicationError :=
  New 500 "BATCH_IMAGE_RESULT_MISSING"
    "batch image result is missing".
Definition ErrBatchImageDownloadLimited : ApplicationError :=
  New 429 "BATCH_IMAGE_DOWNLOAD_LIMITED"
    "too many batch image downloads".
Definition ErrBatchImageDownloadFailed : ApplicationError :=
  New 500 "BATCH_IMAGE_DOWNLOAD_FAILED"
    "batch image download failed".
Definition ErrBatchImageDownloadTooLarge : ApplicationError :=
  New 400 "BATCH_IMAGE_DOWNLOAD_TOO_LARGE"
    "batch image download is too large".
Definition ErrBatchImageItemImageIndexOutOfRange : ApplicationError :=
  New 400 "BATCH_IMAGE_ITEM_IMAGE_INDEX_OUT_OF_RANGE"
    "batch image item image index is out of range".
Definition ErrBatchImageZipTooManyItems : ApplicationError :=
  New 400 "BATCH_IMAGE_ZIP_TOO_MANY_ITEMS"
    "batch image ZIP contains too many items; use single item downloads".
Definition ErrBatchImageOutputDeleteNotReady : ApplicationError :=
  New 409 "BATCH_IMAGE_OUTPUT_DELETE_NOT_READY"
    "batch image output can only be deleted after completion".
Definition ErrBatchImageRecordDeleteNotReady : ApplicationError :=
  New 409 "BATCH_IMAGE_RECORD_DELETE_NOT_READY"
    "batch image record can only be deleted after the job finishes".
Definition ErrBatchImageCleanupFailed : ApplicationError :=
  New 502 "BATCH_IMAGE_CLEANUP_FAILED"
    "batch image cleanup failed".
Definition ErrBatchImageCleanupUnsafePath : ApplicationError :=
  New 400 "BATCH_IMAGE_CLEANUP_UNSAFE_PATH"
    "batch image cleanup path is unsafe".
Definition ErrBatchImageProviderCleanupFailed : ApplicationError :=
  New 502 "BATCH_IMAGE_PROVIDER_CLEANUP_FAILED"
    "batch image provider cleanup failed".

(** ** Data *)

Record BatchImageJob : Type := MkBatchImageJob {
  j_ID : Z;
  j_BatchID : string;
  j_UserID : Z;
  j_APIKeyID : option Z;
  j_AccountID : option Z;
  j_Provider : string;
  j_Model : string;
  j_TaskName : string;
  j_ParentBatchID : option string;
  j_Status : string;
  j_ProviderJobName : option string;
  j_ProviderInputRef : option string;
  j_ProviderOutputRef : option string;
  j_GCSInputURI : option string;
  j_GCSOutputURI : option string;
  j_ItemCount : Z;
  j_SuccessCount : Z;
  j_FailCount : Z;
  j_CancelledCount : Z;
  j_EstimatedCost : float64;
  j_HoldAmount : option float64;
  j_ActualCost : option float64;
  j_BaseUnitPrice : float64;
  j_GroupRateMultiplier : float64;
  j_AccountRateMultiplier : float64;
  j_BatchDiscountMultiplier : float64;
  j_HoldMultiplier : float64;
  j_BillableUnitPrice : float64;
  j_HoldUnitPrice : float64;
  j_PricingSnapshotVersion : Z;
  j_Currency : string;
  j_HoldID : option string;
  j_IdempotencyKey : option string;
  j_RequestHash : option string;
  j_ManifestHash : option string;
  j_SessionID : option string;
  j_RetryCount : Z;
  j_Version : Z;
  j_OutputExpiresAt : option Z;
  j_InputDeletedAt : option Z;
  j_OutputDeletedAt : option Z;
  j_DownloadedAt : option Z;
  j_UserDeletedAt : option Z;
  j_LastErrorCode : option string;
  j_LastErrorMessage : option string;
  j_CreatedAt : Z;
  j_UpdatedAt : Z;
  j_SubmittedAt : option Z;
  j_StartedAt : option Z;
  j_FinishedAt : option Z;
  j_SettledAt : option Z
}.

(** The zero value. *)
Definition BatchImageJob0 : BatchImageJob :=
  MkBatchImageJob 0 "" 0 None None "" "" "" None "" None None None None None 0 0 0 0
    f64_zero None None f64_zero f64_zero f64_zero f64_zero f64_zero f64_zero f64_zero 0 ""
    None None None None None 0 0 None None None None None None None 0 0 None None None None.

Record CreateBatchImageJobParams : Type := MkCreateBatchImageJobParams {
  cj_BatchID : string;
  cj_UserID : Z;
  cj_APIKeyID : option Z;
  cj_AccountID : option Z;
  cj_Provider : string;
  cj_Model : string;
  cj_TaskName : string;
  cj_ParentBatchID : option string;
  cj_Status : string;
  cj_ProviderJobName : option string;
  cj_ProviderInputRef : option string;
  cj_ProviderOutputRef : option string;
  cj_GCSInputURI : option string;
  cj_GCSOutputURI : option string;
  cj_ItemCount : Z;
  cj_SuccessCount : Z;
  cj_FailCount : Z;
  cj_CancelledCount : Z;
  cj_EstimatedCost : float64;
  cj_HoldAmount : option float64;
  cj_ActualCost : option float64;
  cj_BaseUnitPrice : float64;
  cj_GroupRateMultiplier : float64;
  cj_AccountRateMultiplier : float64;
  cj_BatchDiscountMultiplier : float64;
  cj_HoldMultiplier : float64;
  cj_BillableUnitPrice : float64;
  cj_HoldUnitPrice : float64;
  cj_PricingSnapshotVersion : Z;
  cj_Currency : string;
  cj_HoldID : option string;
  cj_IdempotencyKey : option string;
  cj_RequestHash : option string;
  cj_ManifestHash : option string;
  cj_SessionID : option string;
  cj_RetryCount : Z;
  cj_OutputExpiresAt : option Z
}.

Record BatchImageItem : Type := MkBatchImageItem {
  it_ID : Z;
  it_JobID : string;
  it_CustomID : string;
  it_Status : string;
  it_RequestHash : option string;
  it_PromptPreview : option string;
  it_ProviderSourceObject : option string;
  it_SourceLineNumber : option Z;
  it_SourceByteOffset : option Z;
  it_SourceByteLength : option Z;
  it_MimeType : option string;
  it_FileExtension : option string;
  it_ImageCount : Z;
  it_ErrorCode : option string;
  it_ErrorMessage : option string;
  it_BilledAmount : option float64;
  it_CreatedAt : Z;
  it_IndexedAt : option Z
}.

Record CreateBatchImageItemParams : Type := MkCreateBatchImageItemParams {
  ci_JobID : string;
  ci_CustomID : string;
  ci_Status : string;
  ci_RequestHash : option string;
  ci_PromptPreview : option string;
  ci_ProviderSourceObject : option string;
  ci_SourceLineNumber : option Z;
  ci_SourceByteOffset : option Z;
  ci_SourceByteLength : option Z;
  ci_MimeType : option string;
  ci_FileExtension : option string;
  ci_ImageCount : Z;
  ci_ErrorCode : option string;
  ci_ErrorMessage : option string;
  ci_BilledAmount : option float64;
  ci_IndexedAt : option Z
}.

Record BatchImageItemFilter : Type := MkBatchImageItemFilter {
  if_Status : string;
  if_Limit : Z;
  if_Offset : Z
}.

Record BatchImageJobFilter : Type := MkBatchImageJobFilter {
  jf_Status : string;
  jf_TaskNameLike : string;
  jf_Downloaded : option bool;
  jf_CreatedAfter : option Z;
  jf_CreatedBefore : option Z;
  jf_ExcludeDeleted : bool;
  jf_Limit : Z;
  jf_Offset : Z
}.

Record BatchImageCounts : Type := MkBatchImageCounts {
  bc_SuccessCount : Z;
  bc_FailCount : Z
}.

Record UpdateBatchImageJobProviderSubmitParams : Type := MkUpdateBatchImageJobProviderSubmitParams {
  ps_BatchID : string;
  ps_ProviderJobName : string;
  ps_ProviderInputRef : string;
  ps_ProviderOutputRef : string;
  ps_GCSInputURI : string;
  ps_GCSOutputURI : string
}.

Record BatchImageTransitionOptions : Type := MkBatchImageTransitionOptions {
  to_EventType : string;
  to_ErrorCode : option string;
  to_ErrorMessage : option string;
  to_Now : option Z
}.

Record MarkBatchImageJobSettledParams : Type := MkMarkBatchImageJobSettledParams {
  ms_BatchID : string;
  ms_ActualCost : float64;
  ms_ManifestHash : string;
  ms_Now : option Z;
  ms_OutputExpiresAt : option Z
}.

(** An audit event: its job and its type. *)
Record BatchImageEvent : Type := MkBatchImageEvent {
  ev_JobID : string;
  ev_EventType : string
}.

(** ** Statuses *)

Definition IsSupportedBatchImageProvider (provider : string) : bool :=
  switch provider
    [([BatchImageProviderGeminiAPI; BatchImageProviderVertex], true)]
    false.

Definition IsTerminalBatchImageJobStatus (status : string) : bool :=
  switch status
    [([BatchImageJobStatusCompleted; BatchImageJobStatusFailed; BatchImageJobStatusCancelled;
       BatchImageJobStatusOutputDeleted], true)]
    false.

(** The table of [CanTransitionBatchImageJob]: what may follow a status that is not terminal. *)
Definition allowed_transitions (from : string) : list string :=
  switch from
    [([BatchImageJobStatusCreated],
      [BatchImageJobStatusUploading; BatchImageJobStatusSubmitted; BatchImageJobStatusCancelled]);
     ([BatchImageJobStatusUploading],
      [BatchImageJobStatusSubmitted; BatchImageJobStatusCancelled]);
     ([BatchImageJobStatusSubmitted],
      [BatchImageJobStatusRunning; BatchImageJobStatusIndexing; BatchImageJobStatusFailed;
       BatchImageJobStatusCancelled]);
     ([BatchImageJobStatusRunning],
      [BatchImageJobStatusRunning; BatchImageJobStatusIndexing; BatchImageJobStatusFailed;
       BatchImageJobStatusCancelled]);
     ([BatchImageJobStatusIndexing],
      [BatchImageJobStatusSettling; BatchImageJobStatusFailed]);
     ([BatchImageJobStatusSettling], [BatchImageJobStatusCompleted])]
    [].

Definition CanTransitionBatchImageJob (from to : string) : bool :=
  if (from ≟ "") || (to ≟ "") then false else
  if IsTerminalBatchImageJobStatus from then
    (to ≟ BatchImageJobStatusOutputDeleted) &&
    negb (from ≟ BatchImageJobStatusOutputDeleted) &&
    ((from ≟ BatchImageJobStatusCompleted) || (from ≟ BatchImageJobStatusFailed) ||
     (from ≟ BatchImageJobStatusCancelled))
  else if to ≟ BatchImageJobStatusFailed then true
  else existsb (String.eqb to) (allowed_transitions from).

(** ** Helpers of [batch_image_processor.go] *)

Definition batchImageDerefString (v : option string) : string :=
  match v with None => "" | Some v => TrimSpace v end.

Definition batchImageStringPtr (v : string) : option string := Some v.

Definition batchImageOptionalStringPtr (v : string) : option string :=
  let v := TrimSpace v in if v ≟ "" then None else Some v.

Definition batchImageMaxErrorMessageLength : Z := 1000.

Definition truncateBatchImageMessage (message : string) (limit : Z) : string :=
  let message := TrimSpace message in
  if (limit <=? 0) || (Z.of_nat (String.length message) <=? limit) then message
  else String.substring 0 (Z.to_nat limit) message.

Definition isBatchImageProcessorDoneStatus (status : string) : bool :=
  if status ≟ BatchImageJobStatusSettling then true else IsTerminalBatchImageJobStatus status.
