(* ===== verification/Programs.v ===== *)
(** * Programs: methods as sequences of atomic steps that may fail

    A method that talks to a database, a queue or a provider is a program over a world: each step
    is atomic, answers a value or an error, and may fail before or after it took effect (the reply
    of a commit can be lost).  A program runs alone under a list of faults, or in a pool of
    programs under a schedule, so that every failure and interleaving is an input to evaluate. *)

From stdpp Require Import base tactics numbers list strings.
From Stdlib Require Import ZArith Lia.
From S2P Require Import Prelude AppErrors.

Local Open Scope Z_scope.

(** [Step] runs a statement and goes on with its answer; [Clock] reads the time. *)
Inductive proc (W A : Type) : Type :=
| Ret (a : A)
| Step {B : Type} (stmt : St W (result B)) (k : result B → proc W A)
| Clock (k : Z → proc W A).

#[global] Arguments Ret {W A} _.
#[global] Arguments Step {W A B} _ _.
#[global] Arguments Clock {W A} _.

#[export] Instance proc_ret W : MRet (proc W) := λ A, Ret.
#[export] Instance proc_bind W : MBind (proc W) :=
  λ A B f, fix go p :=
    match p with
    | Ret a => f a
    | Step stmt k => Step stmt (λ b, go (k b))
    | Clock k => Clock (λ t, go (k t))
    end.

Definition step {W B : Type} (stmt : St W (result B)) : proc W (result B) := Step stmt Ret.
Definition time_now {W : Type} : proc W Z := Clock Ret.

(** [if err != nil { return ..., err }]. *)
Definition try_proc {W A B : Type} (m : proc W (result A)) (f : A → proc W (result B))
    : proc W (result B) :=
  mbind (A:=result A) (λ r, match r with inl a => f a | inr err => mret (inr err) end) m.

Notation "x ⇐! m ; k" := (try_proc m (λ x, k))
  (at level 20, m at level 100, k at level 200, right associativity) : go_scope.

Definition ok {W A : Type} (a : A) : proc W (result A) := mret (inl a).
Definition error_out {W A : Type} (err : error) : proc W (result A) := mret (inr err).

(** A program over a part of the world. *)
Fixpoint lift {V W A : Type} (get_part : W → V) (put_part : V → W → W) (p : proc V A) : proc W A :=
  match p with
  | Ret a => Ret a
  | Step stmt k =>
      Step (λ w, let '(b, v) := stmt (get_part w) in (b, put_part v w))
        (λ b, lift get_part put_part (k b))
  | Clock k => Clock (λ t, lift get_part put_part (k t))
  end.

(** ** Running alone *)

(** What the environment does to a step: it lets it be, refuses it, or loses its reply. *)
Inductive fault : Type :=
| Fine
| Refused (err : error)
| Lost (err : error).

Definition apply_fault {W B : Type} (f : fault) (stmt : St W (result B)) : St W (result B) := λ w,
  match f with
  | Fine => stmt w
  | Refused err => (inr err, w)
  | Lost err => (inr err, (stmt w).2)
  end.

(** Steps beyond the list of faults are fine; the clock stands still. *)
Fixpoint exec {W A : Type} (now : Z) (p : proc W A) (faults : list fault) (w : W) : A * W :=
  match p with
  | Ret a => (a, w)
  | Clock k => exec now (k now) faults w
  | Step stmt k =>
      let '(f, faults) := match faults with [] => (Fine, []) | f :: fs => (f, fs) end in
      let '(b, w) := apply_fault f stmt w in
      exec now (k b) faults w
  end.

(** How many faults of the list a run uses. *)
Fixpoint left_over {W A : Type} (now : Z) (p : proc W A) (faults : list fault) (w : W)
    : list fault :=
  match p with
  | Ret a => faults
  | Clock k => left_over now (k now) faults w
  | Step stmt k =>
      let '(f, faults) := match faults with [] => (Fine, []) | f :: fs => (f, fs) end in
      let '(b, w) := apply_fault f stmt w in
      left_over now (k b) faults w
  end.

Lemma exec_bind {W A B} now (p : proc W A) (f : A → proc W B) faults w :
  exec now (p ≫= f) faults w =
    let '(a, w') := exec now p faults w in exec now (f a) (left_over now p faults w) w'.
Proof.
  revert faults w. induction p as [a|B' stmt k IH|k IH]; intros faults w; [done| |].
  - cbn [mbind proc_bind exec left_over]. destruct faults as [|fl faults].
    + destruct (apply_fault Fine stmt w) as [b w']. apply IH.
    + destruct (apply_fault fl stmt w) as [b w']. apply IH.
  - apply IH.
Qed.

(** A part of a world and how it is replaced. *)
Class Part {V W : Type} (get_part : W → V) (put_part : V → W → W) : Prop := {
  part_get v w : get_part (put_part v w) = v;
  part_same w : put_part (get_part w) w = w;
  part_put v v' w : put_part v (put_part v' w) = put_part v w
}.

Section Lift.
Context {V W : Type} (get_part : W → V) (put_part : V → W → W) `{Part V W get_part put_part}.

Lemma exec_lift {A} now (p : proc V A) faults w :
  exec now (lift get_part put_part p) faults w =
    let '(a, v) := exec now p faults (get_part w) in (a, put_part v w).
Proof.
  revert faults w. induction p as [a|B stmt k IH|k IH]; intros faults w; cbn.
  - by rewrite part_same.
  - destruct faults as [|[|err|err] faults]; cbn.
    + destruct (stmt (get_part w)) as [b v]. rewrite IH, part_get.
      destruct (exec now (k b) [] v) as [a v']. by rewrite part_put.
    + destruct (stmt (get_part w)) as [b v]. rewrite IH, part_get.
      destruct (exec now (k b) faults v) as [a v']. by rewrite part_put.
    + apply IH.
    + destruct (stmt (get_part w)) as [b v]. cbn. rewrite IH, part_get.
      destruct (exec now _ faults v) as [a v']. by rewrite part_put.
  - apply IH.
Qed.

Lemma left_over_lift {A} now (p : proc V A) faults w :
  left_over now (lift get_part put_part p) faults w = left_over now p faults (get_part w).
Proof.
  revert faults w. induction p as [a|B stmt k IH|k IH]; intros faults w; cbn; [done| |apply IH].
  destruct faults as [|[|err|err] faults]; cbn; [..|apply IH|].
  all: destruct (stmt (get_part w)) as [b v]; cbn; by rewrite IH, part_get.
Qed.
End Lift.

(** A run without faults leaves none over. *)
Lemma left_over_nil {W A} now (p : proc W A) w : left_over now p [] w = [].
Proof.
  revert w. induction p as [a|B stmt k IH|k IH]; intros w; cbn; [done| |apply IH].
  destruct (stmt w) as [b w']. apply IH.
Qed.

Lemma exec_bind_quiet {W A B} now (p : proc W A) (f : A → proc W B) w :
  exec now (p ≫= f) [] w = let '(a, w') := exec now p [] w in exec now (f a) [] w'.
Proof. rewrite exec_bind, left_over_nil. done. Qed.

Lemma exec_step {W B} now (stmt : St W (result B)) w : exec now (step stmt) [] w = stmt w.
Proof. cbn. by destruct (stmt w). Qed.

Lemma exec_try_quiet {W A B} now (p : proc W (result A)) (f : A → proc W (result B)) w :
  exec now (try_proc p f) [] w =
    match exec now p [] w with
    | (inl a, w') => exec now (f a) [] w'
    | (inr err, w') => (inr err, w')
    end.
Proof.
  unfold try_proc. rewrite exec_bind_quiet. by destruct (exec now p [] w) as [[a|err] w'].
Qed.

(** ** Running beside others *)

Inductive turn : Type :=
| TakeStep (i : nat) (f : fault)
| Wait (t : Z).

Record pool (W A : Type) : Type := MkPool {
  pl_world : W;
  pl_clock : Z;
  pl_procs : list (proc W A)
}.

#[global] Arguments MkPool {W A} _ _ _.
#[global] Arguments pl_world {W A} _.
#[global] Arguments pl_clock {W A} _.
#[global] Arguments pl_procs {W A} _.

(** One turn: program [i] takes its next step, or the clock advances.  A program that is not
    scheduled any more has died. *)
Definition run_turn {W A : Type} (t : turn) (s : pool W A) : pool W A :=
  match t with
  | Wait d => MkPool (pl_world s) (pl_clock s + Z.max 0 d) (pl_procs s)
  | TakeStep i f =>
      match pl_procs s !! i with
      | Some (Step stmt k) =>
          let '(b, w) := apply_fault f stmt (pl_world s) in
          MkPool w (pl_clock s) (<[i := k b]> (pl_procs s))
      | Some (Clock k) => MkPool (pl_world s) (pl_clock s) (<[i := k (pl_clock s)]> (pl_procs s))
      | _ => s
      end
  end.

Definition run_turns {W A : Type} (ts : list turn) (s : pool W A) : pool W A :=
  foldl (λ s t, run_turn t s) s ts.
