(* ===== verification/BatchImageStore.v ===== *)
(** * BatchImageStore: the tables of batch image jobs

    Models [backend/internal/repository/batch_image_repo.go] over the tables of migrations 159 to
    169: jobs, their items and their audit events (whose payloads are left out).  A statement that
    stands alone, or a transaction, is one atomic step; a method that runs two statements outside
    a transaction is a program of two steps, and can fail between them.  Columns are as wide as
    the values written to them, the money columns apart, whose rounding is [column10] and
    [column4]. *)

From stdpp Require Import base tactics numbers list strings gmap sorting.
From Stdlib Require Import ZArith Lia.
From S2P Require Import Prelude GoLib GoFloat AppErrors Billing BatchImage Programs.

Local Open Scope go_scope.
Local Open Scope Z_scope.

(** What the database says. *)
Definition ErrNoRows : error := EPlain "sql: no rows in result set".
Definition UniqueViolation : error := EPlain "pq: duplicate key value violates unique constraint".
Definition ForeignKeyViolation : error := EPlain "pq: violates foreign key constraint".

(** [translatePersistenceError], for the errors above. *)
Definition translatePersistenceError (err : error) (notFound conflict : option ApplicationError)
    : error :=
  let unique e := match conflict with
                  | Some c => if errors_Is e UniqueViolation then as_error (WithCause c e) else e
                  | None => e
                  end in
  match notFound with
  | Some nf => if errors_Is err ErrNoRows then as_error (WithCause nf err) else unique err
  | None => unique err
  end.

(** Jobs by batch identifier (unique), items and events in the order of their identifiers. *)
Record batch_db : Type := MkBatchDB {
  t_jobs : gmap string BatchImageJob;
  t_items : list BatchImageItem;
  t_events : list BatchImageEvent;
  t_nextJob : Z;
  t_nextItem : Z
}.

Definition BTx (A : Type) : Type := St batch_db (result A).

Definition put_job (j : BatchImageJob) (db : batch_db) : batch_db :=
  db{{ t_jobs := <[j_BatchID j := j]> (t_jobs db) }}.

(** [UPDATE batch_image_jobs SET ... WHERE batch_id = $1 AND cond]: the rows affected. *)
Definition update_job (batchID : string) (cond : BatchImageJob → bool)
    (f : BatchImageJob → BatchImageJob) : BTx Z := λ db,
  match t_jobs db !! batchID with
  | Some j =>
      if cond j then (inl 1, db{{ t_jobs := <[batchID := f j]> (t_jobs db) }}) else (inl 0, db)
  | None => (inl 0, db)
  end.

(** [SELECT ... WHERE batch_id = $1], in a transaction with FOR UPDATE. *)
Definition select_job (batchID : string) : BTx BatchImageJob := λ db,
  match t_jobs db !! batchID with
  | Some j => (inl j, db)
  | None => (inr ErrNoRows, db)
  end.

Definition appendBatchImageEventWithSQL (batchID eventType : string) : BTx unit := λ db,
  match t_jobs db !! batchID with
  | Some _ => (inl tt, db{{ t_events := t_events db ++ [MkBatchImageEvent batchID eventType] }})
  | None => (inr ForeignKeyViolation, db)
  end.

(** A transaction that commits unless its body fails. *)
Definition in_tx {A : Type} (body : BTx A) : BTx A := λ db,
  match body db with
  | (inl a, db') => (inl a, db')
  | (inr err, _) => (inr err, db)
  end.

Definition bpass {A : Type} (a : A) : BTx A := λ db, (inl a, db).
Definition bfail {A : Type} (err : error) : BTx A := λ db, (inr err, db).

(** A statement's error, translated. *)
Definition translated {A : Type} (notFound conflict : option ApplicationError) (m : BTx A)
    : BTx A := λ db,
  match m db with
  | (inr err, db') => (inr (translatePersistenceError err notFound conflict), db')
  | r => r
  end.

(** Queries answer in an order; [sort_by] is ORDER BY ... ASC on two columns. *)
Definition pair_order (p q : Z * Z) : Prop := p.1 < q.1 ∨ p.1 = q.1 ∧ p.2 <= q.2.

#[export] Instance pair_order_dec p q : Decision (pair_order p q).
Proof. unfold pair_order. apply _. Defined.

Definition sort_by {A : Type} (key : A → Z * Z) (l : list A) : list A :=
  merge_sort (λ a b, pair_order (key a) (key b)) l.

Definition page {A : Type} (limit offset : Z) (l : list A) : list A :=
  firstn (Z.to_nat limit) (skipn (Z.to_nat offset) l).

Definition all_jobs (db : batch_db) : list BatchImageJob := snd <$> map_to_list (t_jobs db).

Definition select_jobs (cond : BatchImageJob → bool) (key : BatchImageJob → Z * Z)
    (limit offset : Z) : BTx (list BatchImageJob) := λ db,
  (inl (page limit offset (sort_by key (List.filter cond (all_jobs db)))), db).

Definition or_else (o : option Z) (d : Z) : option Z := match o with None => Some d | _ => o end.
Definition is_null {A : Type} (o : option A) : bool := match o with None => true | _ => false end.

(** ** Jobs *)

Section Store.
Context `{AmountCodec}.

Definition column10_opt (f : option float64) : option (option float64) :=
  match f with None => Some None | Some f => Some <$> column10 f end.

(** The row an INSERT makes, with its money as the columns keep it. *)
Definition new_job (id now : Z) (p : CreateBatchImageJobParams) : option BatchImageJob :=
  estimated ← column10 (cj_EstimatedCost p); hold ← column10_opt (cj_HoldAmount p);
  actual ← column10_opt (cj_ActualCost p); base ← column10 (cj_BaseUnitPrice p);
  group ← column4 (cj_GroupRateMultiplier p); account ← column4 (cj_AccountRateMultiplier p);
  discount ← column4 (cj_BatchDiscountMultiplier p); holdm ← column4 (cj_HoldMultiplier p);
  billable ← column10 (cj_BillableUnitPrice p); holdu ← column10 (cj_HoldUnitPrice p);
  Some (MkBatchImageJob id (cj_BatchID p) (cj_UserID p) (cj_APIKeyID p) (cj_AccountID p)
    (cj_Provider p) (cj_Model p) (cj_TaskName p) (cj_ParentBatchID p) (cj_Status p)
    (cj_ProviderJobName p) (cj_ProviderInputRef p) (cj_ProviderOutputRef p)
    (cj_GCSInputURI p) (cj_GCSOutputURI p)
    (cj_ItemCount p) (cj_SuccessCount p) (cj_FailCount p) (cj_CancelledCount p)
    estimated hold actual base group account discount holdm billable holdu
    (cj_PricingSnapshotVersion p) (cj_Currency p) (cj_HoldID p)
    (cj_IdempotencyKey p) (cj_RequestHash p) (cj_ManifestHash p) (cj_SessionID p)
    (cj_RetryCount p) 0 (cj_OutputExpiresAt p) None None None None None None
    now now None None None None).

Definition manifest_taken (batchID manifest : string) (db : batch_db) : bool :=
  negb (manifest ≟ "") &&
  existsb (λ j, negb (j_BatchID j ≟ batchID) && (from_option id "" (j_ManifestHash j) ≟ manifest))
    (all_jobs db).

Definition createBatchImageJobWithSQL (now : Z) (p : CreateBatchImageJobParams)
    : BTx BatchImageJob := λ db,
  match new_job (t_nextJob db) now p with
  | None => (inr NumericOverflow, db)
  | Some j =>
      let db' := db{{ t_nextJob := t_nextJob db + 1 }} in
      if bool_decide (is_Some (t_jobs db !! cj_BatchID p)) ||
         manifest_taken (cj_BatchID p) (from_option id "" (cj_ManifestHash p)) db
      then (inr UniqueViolation, db') else (inl j, put_job j db')
  end.

(** [randomID] is what [NewBatchImageID] draws, when it is asked. *)
Definition CreateBatchImageJob (randomID : result string) (params : CreateBatchImageJobParams)
    : proc batch_db (result BatchImageJob) :=
  if negb (IsSupportedBatchImageProvider (cj_Provider params))
  then error_out (as_error ErrBatchImageInvalidProvider) else
  match (if cj_BatchID params ≟ "" then randomID else inl (cj_BatchID params)) with
  | inr err => error_out err
  | inl batchID =>
      let params := params{{ cj_BatchID := batchID }} in
      let params := if cj_Status params ≟ ""
                    then params{{ cj_Status := BatchImageJobStatusCreated }} else params in
      let params := if cj_Currency params ≟ "" then params{{ cj_Currency := "USD" }} else params in
      now ← time_now;
      step (translated None (Some ErrBatchImageJobExists) (createBatchImageJobWithSQL now params))
  end.

Definition GetBatchImageJobByBatchID (batchID : string) : proc batch_db (result BatchImageJob) :=
  step (translated (Some ErrBatchImageJobNotFound) None (select_job batchID)).

(** The first of a query, or no rows. *)
Definition first_row {A : Type} (m : BTx (list A)) : BTx A :=
  l ⇐ m; match l with a :: _ => bpass a | [] => bfail ErrNoRows end.

Definition owned (userID apiKeyID : Z) (j : BatchImageJob) : bool :=
  (j_UserID j =? userID) && match j_APIKeyID j with Some k => k =? apiKeyID | None => false end.

Definition GetBatchImageJobByIdempotencyKey (userID apiKeyID : Z) (key : string)
    : proc batch_db (result BatchImageJob) :=
  step (translated (Some ErrBatchImageJobNotFound) None
    (first_row (select_jobs
       (λ j, owned userID apiKeyID j &&
             match j_IdempotencyKey j with Some k => k ≟ key | None => false end)
       (λ j, (- j_ID j, 0)) 1 0))).

Definition GetBatchImageJobByBatchIDForOwner (userID apiKeyID : Z) (batchID : string)
    : proc batch_db (result BatchImageJob) :=
  step (translated (Some ErrBatchImageJobNotFound) None
    (j ⇐ select_job batchID;
     if owned userID apiKeyID j && is_null (j_UserDeletedAt j) then bpass j else bfail ErrNoRows)).

Definition GetBatchImageJobByID (id : Z) : proc batch_db (result BatchImageJob) :=
  step (translated (Some ErrBatchImageJobNotFound) None
    (first_row (select_jobs (λ j, j_ID j =? id) (λ j, (j_ID j, 0)) 1 0))).

(** [ilike pattern text] is PostgreSQL's [text ILIKE pattern]. *)
Definition ListBatchImageJobsForOwner (ilike : string → string → bool) (userID apiKeyID : Z)
    (filter : BatchImageJobFilter) : proc batch_db (result (list BatchImageJob)) :=
  let limit := if (jf_Limit filter <=? 0) || (100 <? jf_Limit filter) then 20 else jf_Limit filter in
  let offset := if jf_Offset filter <? 0 then 0 else jf_Offset filter in
  step (select_jobs
    (λ j, owned userID apiKeyID j &&
          (negb (jf_ExcludeDeleted filter) || is_null (j_UserDeletedAt j)) &&
          ((jf_Status filter ≟ "") || (j_Status j ≟ jf_Status filter)) &&
          ((jf_TaskNameLike filter ≟ "") ||
           ilike ("%" +:+ jf_TaskNameLike filter +:+ "%") (j_TaskName j)) &&
          match jf_Downloaded filter with
          | None => true
          | Some d => Bool.eqb d (negb (is_null (j_DownloadedAt j)))
          end &&
          match jf_CreatedAfter filter with None => true | Some t => t <=? j_CreatedAt j end &&
          match jf_CreatedBefore filter with None => true | Some t => j_CreatedAt j <? t end)
    (λ j, (- j_CreatedAt j, - j_ID j)) limit offset).

(** *** Status transitions *)

Definition transitioned (now : Z) (toStatus : string) (opts : BatchImageTransitionOptions)
    (j : BatchImageJob) : BatchImageJob :=
  let failed := toStatus ≟ BatchImageJobStatusFailed in
  let at_ (b : bool) (o : option Z) := if b then or_else o now else o in
  j{{ j_Status := toStatus;
      j_Version := j_Version j + 1;
      j_UpdatedAt := now;
      j_LastErrorCode := if failed then to_ErrorCode opts else j_LastErrorCode j;
      j_LastErrorMessage := if failed then to_ErrorMessage opts else j_LastErrorMessage j;
      j_SubmittedAt := at_ (toStatus ≟ BatchImageJobStatusSubmitted) (j_SubmittedAt j);
      j_StartedAt := at_ (toStatus ≟ BatchImageJobStatusRunning) (j_StartedAt j);
      j_FinishedAt := at_ (existsb (String.eqb toStatus)
                            [BatchImageJobStatusCompleted; BatchImageJobStatusFailed;
                             BatchImageJobStatusCancelled]) (j_FinishedAt j);
      j_SettledAt := at_ (toStatus ≟ BatchImageJobStatusCompleted) (j_SettledAt j);
      j_OutputDeletedAt := at_ (toStatus ≟ BatchImageJobStatusOutputDeleted) (j_OutputDeletedAt j) }}.

Definition transitionBatchImageJobStatusWithSQL (now : Z) (batchID toStatus : string)
    (opts : BatchImageTransitionOptions) : BTx unit :=
  j ⇐ translated (Some ErrBatchImageJobNotFound) None (select_job batchID);
  if negb (CanTransitionBatchImageJob (j_Status j) toStatus)
  then bfail (as_error ErrBatchImageInvalidTransition) else
  let now := match to_Now opts with Some t => t | None => now end in
  _ ⇐ update_job batchID (λ _, true) (transitioned now toStatus opts);
  if to_EventType opts ≟ "" then bpass tt
  else appendBatchImageEventWithSQL batchID (to_EventType opts).

Definition TransitionBatchImageJobStatus (batchID toStatus : string)
    (opts : BatchImageTransitionOptions) : proc batch_db (result unit) :=
  now ← time_now;
  step (in_tx (transitionBatchImageJobStatusWithSQL now batchID toStatus opts)).

Definition unsubmitted_status (j : BatchImageJob) : bool :=
  (j_Status j ≟ BatchImageJobStatusCreated) || (j_Status j ≟ BatchImageJobStatusUploading).

Definition TouchBatchImageJobSubmitting (batchID : string) : proc batch_db (result unit) :=
  now ← time_now;
  _ ⇐! step (update_job batchID unsubmitted_status (λ j, j{{ j_UpdatedAt := now }}));
  ok tt.

Definition failed_unsubmitted (now : Z) (code message : string) (j : BatchImageJob)
    : BatchImageJob :=
  j{{ j_Status := BatchImageJobStatusFailed;
      j_LastErrorCode := Some code;
      j_LastErrorMessage := Some message;
      j_FinishedAt := or_else (j_FinishedAt j) now;
      j_UpdatedAt := now;
      j_Version := j_Version j + 1 }}.

(** Answers whether the job was failed, with the error of the event besides. *)
Definition FailStaleUnsubmittedBatchImageJob (batchID : string) (cutoff : Z)
    (code message : string) : proc batch_db (bool * option error) :=
  now ← time_now;
  affected ← step (update_job batchID
    (λ j, unsubmitted_status j && is_null (j_ProviderJobName j) && (j_UpdatedAt j <=? cutoff))
    (failed_unsubmitted now code message));
  match affected with
  | inr err => mret (false, Some err)
  | inl affected =>
      if affected =? 0 then mret (false, None) else
      r ← step (appendBatchImageEventWithSQL batchID "billing_hold_recovery_failed_unsubmitted");
      mret (true, match r with inl _ => None | inr err => Some err end)
  end.

(** The end of a method that must have found its row. *)
Definition found_row (affected : result Z) (err : error) : proc batch_db (result unit) :=
  match affected with
  | inr e => error_out e
  | inl n => if n =? 0 then error_out err else ok tt
  end.

Definition UpdateBatchImageJobProviderOutputRef (batchID providerOutputRef : string)
    : proc batch_db (result unit) :=
  now ← time_now;
  affected ← step (update_job batchID (λ _, true)
    (λ j, j{{ j_ProviderOutputRef := Some providerOutputRef; j_UpdatedAt := now }}));
  found_row affected (as_error ErrBatchImageJobNotFound).

Definition nullif_empty (s : string) : option string := if s ≟ "" then None else Some s.

Definition provider_submitted (now : Z) (p : UpdateBatchImageJobProviderSubmitParams)
    (j : BatchImageJob) : BatchImageJob :=
  j{{ j_Status := BatchImageJobStatusSubmitted;
      j_ProviderJobName := Some (ps_ProviderJobName p);
      j_ProviderInputRef := nullif_empty (ps_ProviderInputRef p);
      j_ProviderOutputRef := nullif_empty (ps_ProviderOutputRef p);
      j_GCSInputURI := nullif_empty (ps_GCSInputURI p);
      j_GCSOutputURI := nullif_empty (ps_GCSOutputURI p);
      j_SubmittedAt := or_else (j_SubmittedAt j) now;
      j_UpdatedAt := now;
      j_Version := j_Version j + 1 }}.

Definition updateBatchImageJobProviderSubmitWithSQL (now : Z)
    (p : UpdateBatchImageJobProviderSubmitParams) : BTx unit :=
  j ⇐ translated (Some ErrBatchImageJobNotFound) None (select_job (ps_BatchID p));
  if negb (CanTransitionBatchImageJob (j_Status j) BatchImageJobStatusSubmitted)
  then bfail (as_error ErrBatchImageInvalidTransition) else
  _ ⇐ update_job (ps_BatchID p) (λ _, true) (provider_submitted now p);
  appendBatchImageEventWithSQL (ps_BatchID p) "provider_submitted".

Definition UpdateBatchImageJobProviderSubmit (p : UpdateBatchImageJobProviderSubmitParams)
    : proc batch_db (result unit) :=
  now ← time_now; step (in_tx (updateBatchImageJobProviderSubmitWithSQL now p)).

(** The status is overwritten, whatever it was. *)
Definition submit_failed (now : Z) (code message : string) (markFailed : bool)
    (j : BatchImageJob) : BatchImageJob :=
  let status := if markFailed then BatchImageJobStatusFailed else j_Status j in
  j{{ j_Status := status;
      j_LastErrorCode := Some code;
      j_LastErrorMessage := Some message;
      j_FinishedAt := if status ≟ BatchImageJobStatusFailed then or_else (j_FinishedAt j) now
                      else j_FinishedAt j;
      j_UpdatedAt := now;
      j_Version := j_Version j + 1 }}.

Definition RecordBatchImageJobSubmitFailure (batchID code message : string) (markFailed : bool)
    : proc batch_db (result unit) :=
  now ← time_now;
  _ ⇐! step (update_job batchID (λ _, true) (submit_failed now code message markFailed));
  step (appendBatchImageEventWithSQL batchID (if markFailed then "submit_failed" else "queue_failed")).

(** *** Settlement *)

Definition settled (now : Z) (actual : float64) (p : MarkBatchImageJobSettledParams)
    (j : BatchImageJob) : BatchImageJob :=
  j{{ j_Status := BatchImageJobStatusCompleted;
      j_ActualCost := Some actual;
      j_ManifestHash := Some (ms_ManifestHash p);
      j_SettledAt := or_else (j_SettledAt j) now;
      j_FinishedAt := or_else (j_FinishedAt j) now;
      j_OutputExpiresAt := match j_OutputExpiresAt j with
                           | None => ms_OutputExpiresAt p
                           | e => e
                           end;
      j_UpdatedAt := now;
      j_Version := j_Version j + 1 }}.

Definition settleable (manifest : string) (j : BatchImageJob) : bool :=
  (j_Status j ≟ BatchImageJobStatusSettling) &&
  match j_ManifestHash j with None => true | Some m => (m ≟ "") || (m ≟ manifest) end.

(** The UPDATE of a settled job, with what its columns refuse. *)
Definition settle_row (now : Z) (p : MarkBatchImageJobSettledParams) : BTx Z := λ db,
  match t_jobs db !! ms_BatchID p with
  | Some j =>
      if settleable (ms_ManifestHash p) j then
        match column10 (ms_ActualCost p) with
        | None => (inr NumericOverflow, db)
        | Some actual =>
            if manifest_taken (ms_BatchID p) (ms_ManifestHash p) db then (inr UniqueViolation, db)
            else (inl 1, db{{ t_jobs := <[ms_BatchID p := settled now actual p j]> (t_jobs db) }})
        end
      else (inl 0, db)
  | None => (inl 0, db)
  end.

Definition markBatchImageJobSettledWithSQL (now : Z) (p : MarkBatchImageJobSettledParams)
    : BTx unit :=
  let now := match ms_Now p with Some t => t | None => now end in
  affected ⇐ settle_row now p;
  if affected =? 0 then
    job ⇐ translated (Some ErrBatchImageJobNotFound) None (select_job (ms_BatchID p));
    bfail (if negb (j_Status job ≟ BatchImageJobStatusSettling) then
             if j_Status job ≟ BatchImageJobStatusCompleted
             then as_error ErrBatchImageAlreadySettled
             else as_error ErrBatchImageSettlementInvalidStatus
           else as_error ErrBatchImageSettlementManifestConflict)
  else appendBatchImageEventWithSQL (ms_BatchID p) "settlement_completed".

Definition MarkBatchImageJobSettled (p : MarkBatchImageJobSettledParams)
    : proc batch_db (result unit) :=
  now ← time_now; step (in_tx (markBatchImageJobSettledWithSQL now p)).

Definition settlement_failed (now : Z) (code message : string) (j : BatchImageJob)
    : BatchImageJob :=
  j{{ j_LastErrorCode := Some code;
      j_LastErrorMessage := Some message;
      j_RetryCount := j_RetryCount j + 1;
      j_UpdatedAt := now }}.

(** [UPDATE ... RETURNING retry_count]. *)
Definition settlement_failed_row (now : Z) (batchID code message : string) : BTx Z := λ db,
  match t_jobs db !! batchID with
  | Some j =>
      let j := settlement_failed now code message j in
      (inl (j_RetryCount j), db{{ t_jobs := <[batchID := j]> (t_jobs db) }})
  | None => (inr ErrNoRows, db)
  end.

(** The count, with the error of the event besides; Go returns both. *)
Definition SetBatchImageJobSettlementFailed (batchID code message : string)
    : proc batch_db (Z * option error) :=
  now ← time_now;
  r ← step (translated (Some ErrBatchImageJobNotFound) None
              (settlement_failed_row now batchID code message));
  match r with
  | inr err => mret (0, Some err)
  | inl retryCount =>
      e ← step (appendBatchImageEventWithSQL batchID "settlement_failed");
      mret (retryCount, match e with inl _ => None | inr err => Some err end)
  end.

(** ** Items *)

Definition new_item (id now : Z) (p : CreateBatchImageItemParams) : option BatchImageItem :=
  billed ← column10_opt (ci_BilledAmount p);
  Some (MkBatchImageItem id (ci_JobID p) (ci_CustomID p) (ci_Status p) (ci_RequestHash p)
    (ci_PromptPreview p) (ci_ProviderSourceObject p) (ci_SourceLineNumber p)
    (ci_SourceByteOffset p) (ci_SourceByteLength p) (ci_MimeType p) (ci_FileExtension p)
    (ci_ImageCount p) (ci_ErrorCode p) (ci_ErrorMessage p) billed now (ci_IndexedAt p)).

(** Custom identifiers are unique in a job, and the job must exist. *)
Definition createBatchImageItemWithSQL (now : Z) (p : CreateBatchImageItemParams)
    : BTx BatchImageItem := λ db,
  match new_item (t_nextItem db) now p with
  | None => (inr NumericOverflow, db)
  | Some item =>
      let db' := db{{ t_nextItem := t_nextItem db + 1 }} in
      if existsb (λ i, (it_JobID i ≟ ci_JobID p) && (it_CustomID i ≟ ci_CustomID p)) (t_items db)
      then (inr UniqueViolation, db') else
      match t_jobs db !! ci_JobID p with
      | None => (inr ForeignKeyViolation, db')
      | Some _ => (inl item, db'{{ t_items := t_items db ++ [item] }})
      end
  end.

Definition CreateBatchImageItem (params : CreateBatchImageItemParams)
    : proc batch_db (result BatchImageItem) :=
  now ← time_now;
  step (translated None (Some ErrBatchImageItemExists) (createBatchImageItemWithSQL now params)).

(** The loop over the items of a batch, in a transaction. *)
Fixpoint insert_items (now : Z) (l : list CreateBatchImageItemParams) : BTx unit :=
  match l with
  | [] => bpass tt
  | p :: l =>
      _ ⇐ translated None (Some ErrBatchImageItemExists) (createBatchImageItemWithSQL now p);
      insert_items now l
  end.

Definition BulkCreateBatchImageItems (params : list CreateBatchImageItemParams)
    : proc batch_db (result unit) :=
  match params with
  | [] => ok tt
  | _ => now ← time_now; step (in_tx (insert_items now params))
  end.

(** The prompts the items of a job keep, to survive the replacement. *)
Definition batchImageItemPromptPreviews (batchID : string) (db : batch_db) : gmap string string :=
  foldl (λ m i,
    if it_JobID i ≟ batchID then
      match it_PromptPreview i with
      | Some preview => if preview ≟ "" then m else <[it_CustomID i := preview]> m
      | None => m
      end
    else m) ∅ (t_items db).

Definition with_preview (batchID : string) (previews : gmap string string)
    (p : CreateBatchImageItemParams) : CreateBatchImageItemParams :=
  let p := p{{ ci_JobID := batchID }} in
  match ci_PromptPreview p, previews !! ci_CustomID p with
  | None, Some preview => if preview ≟ "" then p else p{{ ci_PromptPreview := Some preview }}
  | _, _ => p
  end.

Definition delete_items (batchID : string) : BTx unit := λ db,
  (inl tt, db{{ t_items := List.filter (λ i, negb (it_JobID i ≟ batchID)) (t_items db) }}).

Definition replaceBatchImageItemsForJobWithSQL (now : Z) (batchID : string)
    (items : list CreateBatchImageItemParams) (counts : BatchImageCounts) : BTx unit :=
  j ⇐ translated (Some ErrBatchImageJobNotFound) None (select_job batchID);
  if negb (j_Status j ≟ BatchImageJobStatusIndexing)
  then bfail (as_error ErrBatchImageIndexStateConflict) else
  previews ⇐ (λ db, (inl (batchImageItemPromptPreviews batchID db), db));
  _ ⇐ delete_items batchID;
  _ ⇐ insert_items now (with_preview batchID previews <$> items);
  _ ⇐ update_job batchID (λ _, true)
        (λ j, j{{ j_SuccessCount := bc_SuccessCount counts;
                  j_FailCount := bc_FailCount counts; j_UpdatedAt := now }});
  bpass tt.

Definition ReplaceBatchImageItemsForJob (batchID : string)
    (items : list CreateBatchImageItemParams) (counts : BatchImageCounts)
    : proc batch_db (result unit) :=
  now ← time_now; step (in_tx (replaceBatchImageItemsForJobWithSQL now batchID items counts)).

Definition ListBatchImageItems (batchID : string) (filter : BatchImageItemFilter)
    : proc batch_db (result (list BatchImageItem)) :=
  let limit := if (if_Limit filter <=? 0) || (500 <? if_Limit filter) then 100 else if_Limit filter in
  let offset := if if_Offset filter <? 0 then 0 else if_Offset filter in
  step (λ db,
    (inl (page limit offset
       (List.filter (λ i, (it_JobID i ≟ batchID) &&
                          ((if_Status filter ≟ "") || (it_Status i ≟ if_Status filter)))
          (t_items db))), db)).

Definition ListBatchImageItemsForOwner (userID apiKeyID : Z) (batchID : string)
    (filter : BatchImageItemFilter) : proc batch_db (result (list BatchImageItem)) :=
  _ ⇐! GetBatchImageJobByBatchIDForOwner userID apiKeyID batchID;
  ListBatchImageItems batchID filter.

Definition GetBatchImageJobForDownload (userID apiKeyID : Z) (batchID : string)
    : proc batch_db (result BatchImageJob) :=
  GetBatchImageJobByBatchIDForOwner userID apiKeyID batchID.

Definition GetBatchImageItemForDownload (batchID customID : string)
    : proc batch_db (result BatchImageItem) :=
  step (translated (Some ErrBatchImageItemNotFound) None
    (first_row (λ db,
       (inl (List.filter (λ i, (it_JobID i ≟ batchID) && (it_CustomID i ≟ customID))
               (t_items db)), db)))).

Definition ListBatchImageItemsForDownload (batchID status : string) (limit : Z)
    : proc batch_db (result (list BatchImageItem)) :=
  ListBatchImageItems batchID (MkBatchImageItemFilter status limit 0).

(** ** Housekeeping *)

Definition cleanup_limit (limit : Z) : Z :=
  if (limit <=? 0) || (1000 <? limit) then 100 else limit.

(** [status IN ('completed', 'failed', 'cancelled', 'output_deleted')]. *)
Definition over_status (j : BatchImageJob) : bool :=
  existsb (String.eqb (j_Status j))
    [BatchImageJobStatusCompleted; BatchImageJobStatusFailed; BatchImageJobStatusCancelled;
     BatchImageJobStatusOutputDeleted].

Definition coalesce (l : list (option Z)) (d : Z) : Z :=
  foldr (λ o rest, from_option id rest o) d l.

Definition ListBatchImageJobsDueForInputCleanup (cutoff limit : Z)
    : proc batch_db (result (list BatchImageJob)) :=
  step (select_jobs
    (λ j, is_null (j_InputDeletedAt j) && negb (is_null (j_ProviderInputRef j)) && over_status j &&
          (coalesce [j_FinishedAt j; j_SettledAt j; Some (j_UpdatedAt j)] (j_CreatedAt j) <=? cutoff))
    (λ j, (j_ID j, 0)) (cleanup_limit limit) 0).

Definition ListBatchImageJobsDueForOutputCleanup (now limit : Z)
    : proc batch_db (result (list BatchImageJob)) :=
  step (select_jobs
    (λ j, is_null (j_OutputDeletedAt j) && negb (is_null (j_ProviderOutputRef j)) &&
          (j_Status j ≟ BatchImageJobStatusCompleted) &&
          match j_OutputExpiresAt j with None => false | Some e => e <=? now end)
    (λ j, (from_option id 0 (j_OutputExpiresAt j), j_ID j)) (cleanup_limit limit) 0).

(** [COALESCE(hold_amount, estimated_cost, 0) > 0]. *)
Definition has_hold (j : BatchImageJob) : bool :=
  f64_ltb (f64_of_int 0) (from_option id (j_EstimatedCost j) (j_HoldAmount j)).

Definition ListStaleUnsubmittedBatchImageJobs (cutoff limit : Z)
    : proc batch_db (result (list BatchImageJob)) :=
  step (select_jobs
    (λ j, unsubmitted_status j && is_null (j_ProviderJobName j) && has_hold j &&
          (j_UpdatedAt j <=? cutoff))
    (λ j, (j_UpdatedAt j, j_ID j)) (cleanup_limit limit) 0).

(** An UPDATE that must find its row, then the event of it. *)
Definition update_then_event (update : BTx Z) (missing : error) (batchID eventType : string)
    : proc batch_db (result unit) :=
  affected ← step update;
  _ ⇐! found_row affected missing;
  step (appendBatchImageEventWithSQL batchID eventType).

Definition MarkBatchImageInputDeleted (batchID : string) (deletedAt : Z)
    : proc batch_db (result unit) :=
  update_then_event
    (update_job batchID (λ _, true)
       (λ j, j{{ j_InputDeletedAt := or_else (j_InputDeletedAt j) deletedAt;
                 j_UpdatedAt := deletedAt; j_Version := j_Version j + 1 }}))
    (as_error ErrBatchImageJobNotFound) batchID "input_cleanup_completed".

Definition output_deleted (deletedAt : Z) (j : BatchImageJob) : BatchImageJob :=
  let completed := j_Status j ≟ BatchImageJobStatusCompleted in
  j{{ j_Status := if completed then BatchImageJobStatusOutputDeleted else j_Status j;
      j_OutputDeletedAt := or_else (j_OutputDeletedAt j) deletedAt;
      j_FinishedAt := if completed then or_else (j_FinishedAt j) deletedAt else j_FinishedAt j;
      j_UpdatedAt := deletedAt;
      j_Version := j_Version j + 1 }}.

Definition MarkBatchImageOutputDeleted (batchID : string) (deletedAt : Z)
    : proc batch_db (result unit) :=
  update_then_event (update_job batchID (λ _, true) (output_deleted deletedAt))
    (as_error ErrBatchImageJobNotFound) batchID "output_cleanup_completed".

Definition MarkBatchImageDownloaded (batchID : string) (downloadedAt : Z)
    : proc batch_db (result unit) :=
  update_then_event
    (update_job batchID (λ _, true)
       (λ j, j{{ j_DownloadedAt := or_else (j_DownloadedAt j) downloadedAt;
                 j_UpdatedAt := downloadedAt }}))
    (as_error ErrBatchImageJobNotFound) batchID "download_completed".

Definition MarkBatchImageJobUserDeleted (userID apiKeyID : Z) (batchID : string) (deletedAt : Z)
    : proc batch_db (result unit) :=
  update_then_event
    (update_job batchID
       (λ j, owned userID apiKeyID j && is_null (j_UserDeletedAt j) && over_status j)
       (λ j, j{{ j_UserDeletedAt := or_else (j_UserDeletedAt j) deletedAt;
                 j_UpdatedAt := deletedAt }}))
    (as_error ErrBatchImageRecordDeleteNotReady) batchID "user_record_deleted".

Definition SetBatchImageOutputExpiresAt (batchID : string) (expiresAt : Z)
    : proc batch_db (result unit) :=
  now ← time_now;
  affected ← step (update_job batchID (λ _, true)
    (λ j, j{{ j_OutputExpiresAt := or_else (j_OutputExpiresAt j) expiresAt; j_UpdatedAt := now }}));
  found_row affected (as_error ErrBatchImageJobNotFound).

Definition RecordBatchImageCleanupFailure (batchID code message : string)
    : proc batch_db (result unit) :=
  now ← time_now;
  _ ⇐! step (update_job batchID (λ _, true) (settlement_failed now code message));
  step (appendBatchImageEventWithSQL batchID "output_cleanup_failed").

Definition AppendBatchImageEvent (batchID eventType : string) : proc batch_db (result unit) :=
  step (appendBatchImageEventWithSQL batchID eventType).

End Store.
