(* ===== verification/GoAny.v ===== *)
(** * GoAny: values of type any that [json.Unmarshal] makes

    A value is the text it was made from, which is decoded when the code asks for its type; [None]
    is the nil interface.  The only error the decoder has besides the scanner's is a number beyond
    float64. *)

From stdpp Require Import base tactics numbers list strings gmap.
From Stdlib Require Import ZArith Lia Ascii String SpecFloat.
From S2P Require Import Prelude GoLib GoJson GoFloat.

Local Open Scope Z_scope.

(** ** Numbers *)

(** The digits in front of a text, as a number behind [acc], with how many there are. *)
Fixpoint take_digits (s : string) (acc : Z) (n : Z) : Z * Z * string :=
  match s with
  | String c s' =>
      if is_digit c then take_digits s' (acc * 10 + digit_val c) (n + 1) else (acc, n, s)
  | EmptyString => (acc, n, s)
  end.

(** The exponent stops growing at 10000, as in [strconv]. *)
Fixpoint take_exponent (s : string) (acc : Z) : Z :=
  match s with
  | String c s' =>
      if is_digit c then take_exponent s' (if acc <? 10000 then acc * 10 + digit_val c else acc)
      else acc
  | EmptyString => acc
  end.

(** [(-1)^neg * m * 10^e] to the nearest float64. *)
Definition f64_of_decimal (neg : bool) (m e : Z) : float64 :=
  match m with
  | Z.pos p =>
      if 0 <=? e then binary_normalize f64_prec f64_emax ((if neg then -1 else 1) * m * 10 ^ e) 0 neg
      else f64_div (S754_finite neg p 0) (S754_finite false (Z.to_pos (10 ^ (- e))) 0)
  | _ => S754_zero neg
  end.

(** [strconv.ParseFloat(raw, 64)] of a JSON number. *)
Definition parse_number (raw : string) : float64 :=
  let '(neg, s) := match raw with String "-" s => (true, s) | _ => (false, raw) end in
  let '(m, _, s) := take_digits s 0 0 in
  let '(m, places, s) := match s with
                         | String "." s => take_digits s m 0
                         | _ => (m, 0, s)
                         end in
  let exponent := match s with
                  | String "e" s | String "E" s =>
                      match s with
                      | String "-" s => - take_exponent s 0
                      | String "+" s => take_exponent s 0
                      | _ => take_exponent s 0
                      end
                  | _ => 0
                  end in
  f64_of_decimal neg m (exponent - places).

(** [int64(f)], which truncates; beyond the range the processor answers the least integer. *)
Definition f64_to_int64 (f : float64) : Z :=
  match f with
  | S754_finite s m e =>
      let n := if 0 <=? e then Z.pos m * 2 ^ e else Z.pos m / 2 ^ (- e) in
      let z := if s then - n else n in
      if in_int64 z then z else - 2 ^ 63
  | S754_zero _ => 0
  | _ => - 2 ^ 63
  end.

Definition starts_number (c : ascii) : bool := is_digit c || Ascii.eqb c "-"%char.
Definition in_number (c : ascii) : bool :=
  starts_number c || existsb (Ascii.eqb c) ["+"; "."; "e"; "E"]%char.

Inductive text_mode : Type := Between | InString | InNumber.

(** Every number of a JSON text fits float64. *)
Fixpoint numbers_fit (mode : text_mode) (s : string) : bool :=
  match s with
  | EmptyString => true
  | String c s1 =>
      match mode with
      | InString =>
          if Ascii.eqb c backslash then
            match s1 with String _ s2 => numbers_fit InString s2 | EmptyString => true end
          else numbers_fit (if Ascii.eqb c quote then Between else InString) s1
      | InNumber =>
          numbers_fit (if in_number c then InNumber else if Ascii.eqb c quote then InString else Between) s1
      | Between =>
          if Ascii.eqb c quote then numbers_fit InString s1
          else if starts_number c then
            match scan_number s with
            | Some rest => f64_finite (parse_number (consumed s rest)) && numbers_fit InNumber s1
            | None => false
            end
          else numbers_fit Between s1
      end
  end.

(** ** Values *)

Definition any : Type := option string.

(** [json.Unmarshal] into a [map[string]any] that was nil; [None] stands for its error. *)
Definition UnmarshalAnyMap (s : string) : option (gmap string string) :=
  m ← UnmarshalRawMap s; if numbers_fit Between s then Some m else None.

(** [v.(map[string]any)], [v.([]any)], [v.(string)] and [v.(float64)]. *)
Definition as_map (v : any) : option (gmap string string) :=
  match v with Some (String "{" _ as raw) => UnmarshalRawMap raw | _ => None end.

Definition as_list (v : any) : option (list any) :=
  match v with
  | Some (String "[" _ as raw) => l ← UnmarshalRawList raw; Some (List.map Some l)
  | _ => None
  end.

Definition as_string (v : any) : option string :=
  match v with
  | Some (String c _ as raw) => if Ascii.eqb c quote then UnmarshalString raw else None
  | _ => None
  end.

Definition as_float64 (v : any) : option float64 :=
  match v with
  | Some (String c _ as raw) => if starts_number c then Some (parse_number raw) else None
  | _ => None
  end.

Example number_1 : f64_to_int64 (parse_number "429") = 429.
Proof. reflexivity. Qed.
Example number_2 : parse_number "0.1" = f64_decimal 1 1.
Proof. reflexivity. Qed.
Example number_3 : f64_to_int64 (parse_number "-1.5e3") = -1500.
Proof. reflexivity. Qed.
Example number_4 : numbers_fit Between "{1e308, 1e309}" = false.
Proof. vm_compute. reflexivity. Qed.
Example number_5 : f64_to_int64 (parse_number "1.99999999999999999999") = 2.
Proof. reflexivity. Qed.
