(* ===== verification/BatchImageIndex.v ===== *)
(** * BatchImageIndex: reading the results of a batch

    Models [ParseBatchImageResultLine] and [BatchImageResultIndexer] of
    [backend/internal/service/batch_image_processor.go].  The provider's output is text that ends,
    or breaks off with a read error; [bufio.Scanner] splits it into lines of less than 16 MiB.
    Logging is left out. *)

From stdpp Require Import base tactics numbers list strings gmap sorting.
From Stdlib Require Import ZArith Lia Ascii String.
From S2P Require Import Prelude GoLib GoJson GoAny GoFloat AppErrors BatchImage Programs BatchImageStore.

Local Open Scope go_scope.
Local Open Scope Z_scope.

(** What the code uses of Go's text libraries: the Unicode tables, [strconv.Quote], the texts of
    errors, the error of the JSON decoder for a text it refuses. *)
Class GoText : Type := {
  ToLower : string → string;
  Quote : string → string;
  error_text : AppErrors.error → string;
  json_error : string → AppErrors.error
}.

(** [strings.Contains(s, sub)] *)
Definition Contains (s sub : string) : bool :=
  match String.index 0 sub s with Some _ => true | None => false end.

Definition BatchImageParsedStatusSucceeded : string := "succeeded".
Definition BatchImageParsedStatusFailed : string := "failed".

(** ** A line *)

Record ParsedBatchImageResult : Type := MkParsedBatchImageResult {
  pr_CustomID : string;
  pr_Status : string;
  pr_MimeType : string;
  pr_FileExtension : string;
  pr_ImageCount : Z;
  pr_ErrorCode : string;
  pr_ErrorMessage : string;
  pr_SourceLineNumber : Z
}.

Definition jmap : Type := gmap string string.

Definition batchImageFirstNonEmptyString (values : list string) : string :=
  match List.find (λ v, negb (TrimSpace v ≟ "")) values with
  | Some v => TrimSpace v
  | None => ""
  end.

Definition batchImageMapString (m : jmap) (key : string) : string :=
  match as_string (m !! key), as_float64 (m !! key) with
  | Some v, _ => TrimSpace v
  | None, Some v => FormatInt (f64_to_int64 v)
  | None, None => ""
  end.

Fixpoint batchImageNestedAny (m : jmap) (key : string) (keys : list string) : any :=
  match keys with
  | [] => m !! key
  | key' :: keys => m' ← as_map (m !! key); batchImageNestedAny m' key' keys
  end.

Definition batchImageNestedString (m : jmap) (key : string) (keys : list string) : string :=
  match as_string (batchImageNestedAny m key keys) with Some s => TrimSpace s | None => "" end.

Definition firstMap (values : list any) : option jmap :=
  foldr (λ v rest, match as_map v with Some m => Some m | None => rest end) None values.

Section Parse.
Context `{GoText}.

Definition lower_trim (s : string) : string := ToLower (TrimSpace s).

(** The MIME type of an image part, as it counts; [None] for a part that does not. *)
Definition image_part (partRaw : any) : option string :=
  part ← as_map partRaw;
  inline ← firstMap [part !! "inlineData"; part !! "inline_data"];
  let data := TrimSpace (batchImageMapString inline "data") in
  let mime := batchImageFirstNonEmptyString
    [batchImageMapString inline "mimeType"; batchImageMapString inline "mime_type"] in
  if (data ≟ "") || negb (HasPrefix (lower_trim mime) "image/") then None
  else Some (TrimSpace mime).

Definition count_part (acc : Z * string) (partRaw : any) : Z * string :=
  match image_part partRaw with
  | None => acc
  | Some mime => (acc.1 + 1, if acc.2 ≟ "" then mime else acc.2)
  end.

Definition count_candidate (acc : Z * string) (candidateRaw : any) : Z * string :=
  match as_map candidateRaw with
  | None => acc
  | Some candidate =>
      match as_list (batchImageNestedAny candidate "content" ["parts"]) with
      | None => acc
      | Some parts => foldl count_part acc parts
      end
  end.

Definition batchImageFindImagePartsInCandidates (raw : any) : Z * string :=
  match as_list raw with
  | None => (0, "")
  | Some candidates => foldl count_candidate (0, "") candidates
  end.

Definition batchImageFindImageParts (obj : jmap) : Z * string :=
  let '(count, mimeType) :=
    batchImageFindImagePartsInCandidates (batchImageNestedAny obj "response" ["candidates"]) in
  if 0 <? count then (count, mimeType)
  else batchImageFindImagePartsInCandidates (obj !! "candidates").

Definition batchImageMapFailureCode (code message : string) : string :=
  let text := lower_trim (code +:+ " " +:+ message) in
  let says := existsb (Contains text) in
  if says ["safety"; "policy"; "blocked"; "prohibited"] then "SAFETY_BLOCKED"
  else if says ["invalid_argument"; "invalid argument"; "bad request"] then "INVALID_ARGUMENT"
  else if says ["quota"; "rate"; "resource_exhausted"; "too many requests"]
       then "PROVIDER_RATE_LIMITED"
  else "PROVIDER_ITEM_FAILED".

(** The code and message of a failure that the fields of a line tell. *)
Definition batchImageFailureFromProviderFields (obj : jmap) : option (string * string) :=
  let failure m :=
    let message := batchImageFirstNonEmptyString
      [batchImageMapString m "message"; batchImageMapString m "details"] in
    let code := batchImageFirstNonEmptyString
      [batchImageMapString m "code"; batchImageMapString m "status"] in
    (batchImageMapFailureCode code message, message) in
  match as_map (obj !! "status"), as_map (obj !! "error") with
  | Some status, _ => Some (failure status)
  | None, Some errObj => Some (failure errObj)
  | None, None => None
  end.

Definition batchImageFileExtension (mimeType : string) : string :=
  switch (lower_trim mimeType)
    [(["image/png"], "png"); (["image/jpeg"; "image/jpg"], "jpg"); (["image/webp"], "webp")]
    "".

Definition has_key (m : jmap) (key : string) : bool := bool_decide (is_Some (m !! key)).

Definition batchImageHasCandidates (obj : jmap) : bool :=
  has_key obj "candidates" ||
  bool_decide (is_Some (as_list (batchImageNestedAny obj "response" ["candidates"]))).

Definition line_error (lineNumber : Z) (what : string) : string :=
  "line " +:+ FormatInt lineNumber +:+ ": " +:+ what.

Definition failed_line (customID code message : string) (lineNumber : Z) : ParsedBatchImageResult :=
  MkParsedBatchImageResult customID BatchImageParsedStatusFailed "" "" 0 code message lineNumber.

Definition ParseBatchImageResultLine (line : string) (lineNumber : Z)
    : result ParsedBatchImageResult :=
  match UnmarshalAnyMap line with
  | None =>
      let err := json_error line in
      inr (as_error (WithCause ErrBatchImageIndexParseFailed
             (EWrapped (line_error lineNumber (error_text err)) err)))
  | Some obj =>
      let customID := batchImageFirstNonEmptyString
        [batchImageMapString obj "key"; batchImageMapString obj "custom_id";
         batchImageMapString obj "customId"; batchImageNestedString obj "request" ["key"]] in
      if customID ≟ ""
      then inr (as_error (WithCause ErrBatchImageIndexParseFailed
                  (EPlain (line_error lineNumber "missing custom id")))) else
      let '(imageCount, mimeType) := batchImageFindImageParts obj in
      inl (if 0 <? imageCount then
             MkParsedBatchImageResult customID BatchImageParsedStatusSucceeded mimeType
               (batchImageFileExtension mimeType) imageCount "" "" lineNumber
           else match batchImageFailureFromProviderFields obj with
           | Some (code, message) =>
               failed_line customID code
                 (truncateBatchImageMessage message batchImageMaxErrorMessageLength) lineNumber
           | None =>
               if has_key obj "response" || batchImageHasCandidates obj
               then failed_line customID "EMPTY_IMAGE_OUTPUT"
                      "provider response contained no image output" lineNumber
               else failed_line customID "PROVIDER_ITEM_FAILED"
                      "provider result line contained no image output" lineNumber
           end)
  end.

(** ** The output *)

(** What a provider's reader gives: text, and the error it breaks off with. *)
Record provider_output : Type := MkOutput {
  out_text : string;
  out_error : option AppErrors.error
}.

(** The lines of a text, without the empty one behind a final newline. *)
Fixpoint split_lines (s : string) : list string :=
  match s with
  | EmptyString => []
  | String c s' =>
      if Ascii.eqb c "010"%char then "" :: split_lines s'
      else match split_lines s' with
           | [] => [String c ""]
           | l :: ls => String c l :: ls
           end
  end.

(** A line as long as the scanner's buffer stops it. *)
Definition max_line : Z := 16 * 1024 * 1024.
Definition ErrTooLong : AppErrors.error := EPlain "bufio.Scanner: token too long".
Definition ErrUnexpectedEOF : AppErrors.error := EPlain "unexpected EOF".

Definition too_long (line : string) : bool := max_line <=? Z.of_nat (String.length line).

(** The lines [scanner.Scan] answers, and [scanner.Err] after them. *)
Fixpoint scan_lines (lines : list string) (err : option AppErrors.error)
    : list string * option AppErrors.error :=
  match lines with
  | [] => ([], err)
  | l :: lines =>
      if too_long l then ([], Some ErrTooLong)
      else let '(ls, e) := scan_lines lines err in (l :: ls, e)
  end.

(** ** The index *)

Record BatchImageIndexResult : Type := MkBatchImageIndexResult {
  ix_SuccessCount : Z;
  ix_FailCount : Z;
  ix_TotalCount : Z
}.

(** What the loop over the lines has come to; [ix_seen] has the line of an identifier. *)
Record index_state : Type := MkIndexState {
  ix_seen : gmap string Z;
  ix_unknown : Z;
  ix_items : list CreateBatchImageItemParams;
  ix_result : BatchImageIndexResult;
  ix_line : Z
}.

Definition index_start : index_state :=
  MkIndexState ∅ 0 [] (MkBatchImageIndexResult 0 0 0) 0.

Definition count_item (ok : bool) (r : BatchImageIndexResult) : BatchImageIndexResult :=
  MkBatchImageIndexResult (ix_SuccessCount r + if ok then 1 else 0)
    (ix_FailCount r + if ok then 0 else 1) (ix_TotalCount r + 1).

Section Index.
Variables (job : BatchImageJob) (now : Z) (expected : gset string).

Definition sourceObject : string :=
  let ref := batchImageDerefString (j_ProviderOutputRef job) in
  if ref ≟ "" then batchImageDerefString (j_ProviderJobName job) else ref.

Definition succeeded (parsed : ParsedBatchImageResult) : bool :=
  pr_Status parsed ≟ BatchImageParsedStatusSucceeded.

Definition parsed_item (parsed : ParsedBatchImageResult) : CreateBatchImageItemParams :=
  let ok := succeeded parsed in
  let only (b : bool) (s : string) := if b then batchImageOptionalStringPtr s else None in
  MkCreateBatchImageItemParams (j_BatchID job) (pr_CustomID parsed)
    (if ok then BatchImageItemStatusSuccess else BatchImageItemStatusFailed)
    None None (batchImageOptionalStringPtr sourceObject) (Some (pr_SourceLineNumber parsed))
    None None (only ok (pr_MimeType parsed)) (only ok (pr_FileExtension parsed))
    (pr_ImageCount parsed)
    (only (negb ok) (pr_ErrorCode parsed)) (only (negb ok) (pr_ErrorMessage parsed))
    None (Some now).

Definition duplicate_error (customID : string) (first line : Z) : AppErrors.error :=
  as_error (WithCause ErrBatchImageDuplicateCustomID
    (EPlain ("custom id " +:+ Quote customID +:+ " duplicated at lines " +:+ FormatInt first +:+
             " and " +:+ FormatInt line))).

(** One turn of the loop over the lines. *)
Definition index_line (text : string) (s : index_state) : result index_state :=
  let s := s{{ ix_line := ix_line s + 1 }} in
  let line := TrimSpace text in
  if line ≟ "" then inl s else
  match ParseBatchImageResultLine line (ix_line s) with
  | inr err => inr err
  | inl parsed =>
      if negb (bool_decide (expected = ∅)) && negb (bool_decide (pr_CustomID parsed ∈ expected))
      then inl (s{{ ix_unknown := ix_unknown s + 1 }}) else
      match ix_seen s !! pr_CustomID parsed with
      | Some firstLine => inr (duplicate_error (pr_CustomID parsed) firstLine (ix_line s))
      | None =>
          inl (s{{ ix_seen := <[pr_CustomID parsed := ix_line s]> (ix_seen s);
                   ix_items := ix_items s ++ [parsed_item parsed];
                   ix_result := count_item (succeeded parsed) (ix_result s) }})
      end
  end.

Fixpoint index_lines (lines : list string) (s : index_state) : result index_state :=
  match lines with
  | [] => inl s
  | l :: lines =>
      match index_line l s with inl s => index_lines lines s | inr err => inr err end
  end.

(** The expected identifiers without a line, sorted. *)
Definition missing_ids (s : index_state) : list string :=
  merge_sort String.le (elements (expected ∖ dom (ix_seen s))).

Definition missing_item (customID : string) : CreateBatchImageItemParams :=
  MkCreateBatchImageItemParams (j_BatchID job) customID BatchImageItemStatusFailed
    None None (batchImageOptionalStringPtr sourceObject) None None None None None 0
    (batchImageStringPtr "PROVIDER_RESULT_MISSING")
    (batchImageStringPtr "provider output did not include a result for this item")
    None (Some now).

Definition with_missing (s : index_state) (customID : string) : index_state :=
  MkIndexState (ix_seen s) (ix_unknown s) (ix_items s ++ [missing_item customID])
    (count_item false (ix_result s)) (ix_line s).

Definition add_missing (s : index_state) : index_state := foldl with_missing s (missing_ids s).

Definition broken_output (err : AppErrors.error) : AppErrors.error :=
  if errors_Is err ErrUnexpectedEOF
  then as_error (WithCause ErrBatchImageIndexParseFailed err) else err.

(** What the whole output comes to, and whether it was reconciled. *)
Definition index_output (out : provider_output) : result (index_state * bool) :=
  let '(lines, err) := scan_lines (split_lines (out_text out)) (out_error out) in
  match index_lines lines index_start with
  | inr err => inr err
  | inl s =>
      match err with
      | Some err => inr (broken_output err)
      | None =>
          let missing := missing_ids s in
          let s := add_missing s in
          if ix_TotalCount (ix_result s) =? 0
          then inr (as_error ErrBatchImageIndexNoResultLines)
          else inl (s, (0 <? ix_unknown s) || negb (bool_decide (missing = [])))
      end
  end.
End Index.
End Parse.

(** ** The indexer *)

Section Indexer.
Context `{GoText} `{AmountCodec}.

Definition expected_page : Z := 500.

(** The loop ends at the first page that is not full; [fuel] bounds the pages. *)
Fixpoint listExpectedCustomIDs (fuel : nat) (batchID : string) (offset : Z) (expected : gset string)
    : proc batch_db (result (gset string)) :=
  match fuel with
  | O => error_out (EPlain "too many pages")
  | S fuel =>
      page ⇐! ListBatchImageItems batchID (MkBatchImageItemFilter "" expected_page offset);
      let expected := expected ∪ list_to_set (it_CustomID <$> page) in
      if Z.of_nat (List.length page) <? expected_page then ok expected
      else listExpectedCustomIDs fuel batchID (offset + Z.of_nat (List.length page)) expected
  end.

(** [Index], with [open] for the provider's [OpenResult]; an event that cannot be written is
    only logged. *)
Definition Index {W : Type} (get_db : W → batch_db) (put_db : batch_db → W → W) (fuel : nat)
    (job : BatchImageJob) (open : proc W (result provider_output))
    : proc W (result BatchImageIndexResult) :=
  expected ⇐! lift get_db put_db (listExpectedCustomIDs fuel (j_BatchID job) 0 ∅);
  opened ← open;
  match opened with
  | inr err => error_out (as_error (WithCause ErrBatchImageIndexOutputMissing err))
  | inl out =>
      now ← time_now;
      match index_output job now expected out with
      | inr err => error_out err
      | inl (s, reconciled) =>
          _ ← (if reconciled
               then lift get_db put_db (AppendBatchImageEvent (j_BatchID job) "index_reconciled")
               else ok tt);
          _ ⇐! lift get_db put_db
                 (ReplaceBatchImageItemsForJob (j_BatchID job) (ix_items s)
                   (MkBatchImageCounts (ix_SuccessCount (ix_result s)) (ix_FailCount (ix_result s))));
          ok (ix_result s)
      end
  end.
End Indexer.
