(* ===== verification/BatchImageIndexFacts.v ===== *)
(** * BatchImageIndexFacts: the index accounts for every item

    However garbled the provider's output, an index that succeeds has exactly one item for every
    identifier that was submitted, and its counts add up to their number; the settlement relies on
    that. *)

From stdpp Require Import base tactics numbers list strings gmap sorting.
From Stdlib Require Import ZArith QArith Lia Ascii String.
From S2P Require Import Prelude GoLib GoJson GoAny GoFloat AppErrors BatchImage Programs BatchImageStore BatchImageIndex.

Local Open Scope go_scope.
Local Open Scope Z_scope.

Definition is_success (p : CreateBatchImageItemParams) : bool :=
  ci_Status p ≟ BatchImageItemStatusSuccess.

Definition successes (l : list CreateBatchImageItemParams) : Z :=
  Z.of_nat (List.length (List.filter is_success l)).

Definition ids (l : list CreateBatchImageItemParams) : list string := ci_CustomID <$> l.

Lemma successes_snoc l p : successes (l ++ [p]) = successes l + if is_success p then 1 else 0.
Proof.
  unfold successes. rewrite List.filter_app, List.length_app. simpl.
  destruct (is_success p); simpl; lia.
Qed.

Section Facts.
Context `{GoText}.
Variables (job : BatchImageJob) (now : Z) (expected : gset string).

(** What holds of the index after any number of lines. *)
Record indexed (s : index_state) : Prop := {
  ix_ids_nodup : NoDup (ids (ix_items s));
  ix_ids_seen : list_to_set (ids (ix_items s)) = dom (ix_seen s);
  ix_known : expected ≠ ∅ → dom (ix_seen s) ⊆ expected;
  ix_total : ix_TotalCount (ix_result s) = Z.of_nat (List.length (ix_items s));
  ix_success : ix_SuccessCount (ix_result s) = successes (ix_items s);
  ix_fail : ix_FailCount (ix_result s) = ix_TotalCount (ix_result s) - ix_SuccessCount (ix_result s);
  ix_rows : Forall (λ p, ci_JobID p = j_BatchID job ∧ ci_BilledAmount p = None) (ix_items s)
}.

Lemma indexed_start : indexed index_start.
Proof.
  split; cbn; first [done|constructor|set_solver].
Qed.

(** An item is added: its identifier is new. *)
Lemma indexed_add s p n (ok : bool) :
  indexed s → ci_CustomID p ∉ dom (ix_seen s) → (expected ≠ ∅ → ci_CustomID p ∈ expected) →
  is_success p = ok → ci_JobID p = j_BatchID job → ci_BilledAmount p = None →
  indexed (MkIndexState (<[ci_CustomID p := n]> (ix_seen s)) (ix_unknown s) (ix_items s ++ [p])
             (count_item ok (ix_result s)) (ix_line s)).
Proof.
  intros [Hnd Hseen Hknown Ht Hs Hf Hrows] Hnew Hexp <- Hj Hb. split; cbn.
  - unfold ids. rewrite fmap_app. cbn. apply NoDup_app. split_and!; [done| |apply NoDup_singleton].
    intros x Hx ->%list_elem_of_singleton. apply Hnew. rewrite <- Hseen.
    by apply elem_of_list_to_set.
  - unfold ids. rewrite fmap_app, list_to_set_app_L, dom_insert_L. cbn.
    fold (ids (ix_items s)). rewrite Hseen. set_solver.
  - intros He. specialize (Hknown He). specialize (Hexp He). rewrite dom_insert_L. set_solver.
  - rewrite Ht, List.length_app. cbn. lia.
  - rewrite Hs, successes_snoc. done.
  - rewrite Hf. destruct (is_success p); lia.
  - apply Forall_app. split; [done|]. by apply Forall_singleton.
Qed.

Lemma is_success_parsed parsed : is_success (parsed_item job now parsed) = succeeded parsed.
Proof. unfold is_success, parsed_item. cbn. by destruct (succeeded parsed). Qed.

Lemma indexed_line text s s' :
  indexed s → index_line job now expected text s = inl s' → indexed s'.
Proof.
  intros Hi. unfold index_line. cbn zeta.
  set (s1 := s{{ ix_line := ix_line s + 1 }}).
  assert (indexed s1) as Hi1 by (destruct Hi; by split).
  destruct (TrimSpace text ≟ ""); [by intros [= <-]|].
  destruct (ParseBatchImageResultLine _ _) as [parsed|err]; [|done].
  destruct (_ && _) eqn:Hunknown.
  { intros [= <-]. destruct Hi1; by split. }
  destruct (ix_seen s1 !! pr_CustomID parsed) eqn:Hseen; [done|].
  intros [= <-].
  apply (indexed_add s1 (parsed_item job now parsed) (ix_line s1) (succeeded parsed)); try done.
  - by apply not_elem_of_dom.
  - intros He. cbn. rewrite bool_decide_eq_false_2 in Hunknown by done.
    destruct (bool_decide (pr_CustomID parsed ∈ expected)) eqn:Hb; [|done].
    by apply bool_decide_eq_true in Hb.
  - apply is_success_parsed.
Qed.

Lemma indexed_lines lines s s' :
  indexed s → index_lines job now expected lines s = inl s' → indexed s'.
Proof.
  revert s. induction lines as [|l lines IH]; cbn; intros s Hi; [by intros [= <-]|].
  destruct (index_line job now expected l s) as [s1|] eqn:Hl; [|done].
  apply IH. by eapply indexed_line.
Qed.

(** The missing items are added: all new, all failed. *)
Lemma indexed_missing l s s' :
  indexed s → NoDup l → (∀ x, x ∈ l → x ∈ expected ∧ x ∉ dom (ix_seen s)) →
  s' = foldl (with_missing job now) s l →
  ids (ix_items s') = ids (ix_items s) ++ l ∧ NoDup (ids (ix_items s')) ∧
  ix_TotalCount (ix_result s') = Z.of_nat (List.length (ix_items s')) ∧
  ix_SuccessCount (ix_result s') = successes (ix_items s') ∧
  ix_FailCount (ix_result s') = ix_TotalCount (ix_result s') - ix_SuccessCount (ix_result s') ∧
  Forall (λ p, ci_JobID p = j_BatchID job ∧ ci_BilledAmount p = None) (ix_items s').
Proof.
  intros Hi Hnd Hin ->.
  assert (∀ l s,
    ix_TotalCount (ix_result s) = Z.of_nat (List.length (ix_items s)) →
    ix_SuccessCount (ix_result s) = successes (ix_items s) →
    ix_FailCount (ix_result s) = ix_TotalCount (ix_result s) - ix_SuccessCount (ix_result s) →
    Forall (λ p, ci_JobID p = j_BatchID job ∧ ci_BilledAmount p = None) (ix_items s) →
    let s' := foldl (with_missing job now) s l in
    ids (ix_items s') = ids (ix_items s) ++ l ∧
    ix_TotalCount (ix_result s') = Z.of_nat (List.length (ix_items s')) ∧
    ix_SuccessCount (ix_result s') = successes (ix_items s') ∧
    ix_FailCount (ix_result s') = ix_TotalCount (ix_result s') - ix_SuccessCount (ix_result s') ∧
    Forall (λ p, ci_JobID p = j_BatchID job ∧ ci_BilledAmount p = None) (ix_items s')) as Hfold.
  { clear. induction l as [|x l IH]; intros s Ht Hs Hf Hr; cbn; [by rewrite app_nil_r|].
    destruct (IH (with_missing job now s x)) as (Hids & Hrest).
    - cbn. rewrite Ht, List.length_app. cbn. lia.
    - cbn. rewrite Hs, successes_snoc. done.
    - cbn. rewrite Hf. lia.
    - cbn. apply Forall_app. split; [done|]. by apply Forall_singleton.
    - split; [|exact Hrest]. cbn in Hids. rewrite Hids. unfold ids.
      rewrite fmap_app, <- app_assoc. done. }
  destruct (Hfold l s) as (Hids & Ht & Hs & Hf & Hr); try apply Hi.
  split_and!; try done. rewrite Hids. apply NoDup_app. split_and!; [apply Hi| |done].
  intros x Hx Hl. apply (Hin x Hl). rewrite <- (ix_ids_seen s Hi). by apply elem_of_list_to_set.
Qed.

Lemma missing_ids_spec s :
  NoDup (missing_ids expected s) ∧
  ∀ x, x ∈ missing_ids expected s ↔ x ∈ expected ∧ x ∉ dom (ix_seen s).
Proof.
  unfold missing_ids. split.
  - rewrite merge_sort_Permutation. apply NoDup_elements.
  - intros x. rewrite merge_sort_Permutation, elem_of_elements. set_solver.
Qed.

(** A succeeding index has one item for every expected identifier. *)
Lemma index_output_items out s r :
  expected ≠ ∅ → index_output job now expected out = inl (s, r) →
  ids (ix_items s) ≡ₚ elements expected ∧ NoDup (ids (ix_items s)) ∧
  ix_TotalCount (ix_result s) = Z.of_nat (size expected) ∧
  ix_SuccessCount (ix_result s) = successes (ix_items s) ∧
  ix_SuccessCount (ix_result s) + ix_FailCount (ix_result s) = Z.of_nat (size expected) ∧
  Forall (λ p, ci_JobID p = j_BatchID job ∧ ci_BilledAmount p = None) (ix_items s).
Proof.
  intros He. unfold index_output. destruct (scan_lines _ _) as [lines err].
  destruct (index_lines _ _ _ _ _) as [s1|] eqn:Hlines; [|done].
  destruct err; [done|]. cbn zeta.
  destruct (_ =? 0); [done|]. intros [= <- _].
  pose proof (indexed_lines _ _ _ indexed_start Hlines) as Hi.
  destruct (missing_ids_spec s1) as [Hnd Hin].
  destruct (indexed_missing (missing_ids expected s1) s1 _ Hi Hnd (λ x, proj1 (Hin x)) eq_refl)
    as (Hids & Hnd' & Ht & Hs & Hf & Hr).
  change (foldl _ _ _) with (add_missing job now expected s1) in *.
  assert (ids (ix_items (add_missing job now expected s1)) ≡ₚ elements expected) as Hperm.
  { apply NoDup_Permutation; [done|apply NoDup_elements|]. intros x.
    rewrite elem_of_elements, Hids, elem_of_app, Hin.
    rewrite <- (elem_of_list_to_set (C:=gset string)), (ix_ids_seen s1 Hi).
    pose proof (ix_known s1 Hi He). destruct (decide (x ∈ dom (ix_seen s1))); set_solver. }
  assert (Z.of_nat (List.length (ix_items (add_missing job now expected s1))) =
          Z.of_nat (size expected)) as Hlen.
  { f_equal. unfold size, set_size. cbn. rewrite <- Hperm. unfold ids. by rewrite length_fmap. }
  split_and!; try done; [by rewrite Ht|]. rewrite Hf, Ht. lia.
Qed.
End Facts.

(** ** The tables *)

Definition job_items (batchID : string) (db : batch_db) : list BatchImageItem :=
  List.filter (λ i, it_JobID i ≟ batchID) (t_items db).

(** A row has what its parameters say. *)
Definition row_of (p : CreateBatchImageItemParams) (i : BatchImageItem) : Prop :=
  it_JobID i = ci_JobID p ∧ it_CustomID i = ci_CustomID p ∧ it_Status i = ci_Status p ∧
  it_ImageCount i = ci_ImageCount p.

Definition row_success (i : BatchImageItem) : bool := it_Status i ≟ BatchImageItemStatusSuccess.

Lemma rows_ids l rows : Forall2 row_of l rows → it_CustomID <$> rows = ids l.
Proof. induction 1 as [|p i l rows (?&Hc&?) _ IH]; cbn; [done|]. by rewrite Hc, IH. Qed.

Lemma rows_successes l rows :
  Forall2 row_of l rows → Z.of_nat (List.length (List.filter row_success rows)) = successes l.
Proof.
  unfold successes. induction 1 as [|p i l rows (?&_&Hs&_) _ IH]; cbn; [done|].
  unfold row_success, is_success in *. rewrite Hs.
  destruct (ci_Status p ≟ _); cbn [List.length]; lia.
Qed.

Lemma rows_of_job b l rows :
  Forall2 row_of l rows → Forall (λ p, ci_JobID p = b ∧ ci_BilledAmount p = None) l →
  List.filter (λ i, it_JobID i ≟ b) rows = rows.
Proof.
  induction 1 as [|p i l rows (Hj&_) _ IH]; cbn; intros Hl; [done|].
  apply Forall_cons in Hl as [[Hb _] Hl]. rewrite Hj, Hb, String.eqb_refl, IH; done.
Qed.

Section Tables.
Context `{AmountCodec}.

Lemma filter_deleted b l :
  List.filter (λ i, it_JobID i ≟ b) (List.filter (λ i, negb (it_JobID i ≟ b)) l) = [].
Proof.
  induction l as [|i l IH]; cbn; [done|]. destruct (it_JobID i ≟ b) eqn:Hi; cbn; [done|].
  by rewrite Hi.
Qed.

Lemma insert_item_fresh now b p j db :
  ci_JobID p = b → ci_BilledAmount p = None → t_jobs db !! b = Some j →
  (∀ i, In i (t_items db) → it_JobID i = b → it_CustomID i ≠ ci_CustomID p) →
  ∃ item, createBatchImageItemWithSQL now p db =
    (inl item, (db{{ t_nextItem := t_nextItem db + 1 }}){{ t_items := t_items db ++ [item] }}) ∧
    row_of p item.
Proof.
  intros Hj Hb Hjob Hnew. unfold createBatchImageItemWithSQL, new_item. rewrite Hb. cbn.
  rewrite Hj, Hjob.
  assert (existsb (λ i, (it_JobID i ≟ b) && (it_CustomID i ≟ ci_CustomID p)) (t_items db) = false)
    as ->.
  { apply not_true_iff_false. intros (i & Hin & Hi)%existsb_exists. bool_props.
    by apply (Hnew i). }
  eexists. split; [reflexivity|]. unfold row_of. cbn. by rewrite Hj.
Qed.

Lemma insert_items_fresh now b j l : ∀ db,
  Forall (λ p, ci_JobID p = b ∧ ci_BilledAmount p = None) l → NoDup (ids l) →
  t_jobs db !! b = Some j →
  (∀ i, In i (t_items db) → it_JobID i = b → it_CustomID i ∉ ids l) →
  ∃ rows db', insert_items now l db = (inl tt, db') ∧ t_items db' = t_items db ++ rows ∧
    Forall2 row_of l rows ∧ t_jobs db' = t_jobs db.
Proof.
  induction l as [|p l IH]; cbn [insert_items]; intros db Hl Hnd Hjob Hnew.
  { exists [], db. by rewrite app_nil_r. }
  apply Forall_cons in Hl as [[Hj Hb] Hl]. cbn in Hnd. apply NoDup_cons in Hnd as [Hp Hnd].
  destruct (insert_item_fresh now b p j db Hj Hb Hjob) as (item & Hins & Hrow).
  { intros i Hi Hib Heq. apply (Hnew i Hi Hib). rewrite Heq. left. }
  set (db1 := (db{{ t_nextItem := t_nextItem db + 1 }}){{ t_items := t_items db ++ [item] }}) in Hins.
  destruct (IH db1) as (rows & db' & Hrest & Hitems & Hrows & Hjobs); try done.
  { intros i Hi Hib. change (t_items db1) with (t_items db ++ [item]) in Hi.
    apply in_app_or in Hi as [Hi|[<-|[]]].
    - intros Hc. apply (Hnew i Hi Hib). by right.
    - destruct Hrow as (_ & -> & _). exact Hp. }
  exists (item :: rows), db'. unfold try_bind at 1, translated. rewrite Hins. split; [exact Hrest|].
  rewrite Hitems. change (t_items db1) with (t_items db ++ [item]). rewrite <- app_assoc.
  split; [done|]. split; [by constructor|]. by rewrite Hjobs.
Qed.

Lemma with_preview_keeps b m l :
  Forall (λ p, ci_JobID p = b ∧ ci_BilledAmount p = None) l →
  ids (with_preview b m <$> l) = ids l ∧ successes (with_preview b m <$> l) = successes l ∧
  Forall (λ p, ci_JobID p = b ∧ ci_BilledAmount p = None) (with_preview b m <$> l).
Proof.
  induction 1 as [|p l [Hj Hb] _ (IH1 & IH2 & IH3)]; [by split_and!; try constructor|].
  assert (let q := with_preview b m p in
    ci_CustomID q = ci_CustomID p ∧ ci_Status q = ci_Status p ∧ ci_JobID q = b ∧
    ci_BilledAmount q = None) as (Hc & Hs & Hq & Hn).
  { unfold with_preview. destruct p; cbn in *. repeat case_match; cbn; done. }
  cbn [fmap list_fmap]. split_and!.
  - change (ci_CustomID (with_preview b m p) :: ids (with_preview b m <$> l) = ids (p :: l)).
    by rewrite Hc, IH1.
  - revert IH2. unfold successes, is_success. cbn. rewrite Hs.
    destruct (ci_Status p ≟ _); cbn [List.length]; lia.
  - by constructor.
Qed.

(** The replacement of the items of a job that is being indexed. *)
Lemma replace_items now b j l counts db :
  t_jobs db !! b = Some j → j_Status j = BatchImageJobStatusIndexing →
  Forall (λ p, ci_JobID p = b ∧ ci_BilledAmount p = None) l → NoDup (ids l) →
  ∃ db', in_tx (replaceBatchImageItemsForJobWithSQL now b l counts) db = (inl tt, db') ∧
    it_CustomID <$> job_items b db' = ids l ∧
    Z.of_nat (List.length (List.filter row_success (job_items b db'))) = successes l ∧
    t_jobs db' = <[b := j{{ j_SuccessCount := bc_SuccessCount counts;
                            j_FailCount := bc_FailCount counts; j_UpdatedAt := now }}]> (t_jobs db).
Proof.
  intros Hjob Hst Hl Hnd.
  unfold in_tx, replaceBatchImageItemsForJobWithSQL, try_bind, translated, select_job.
  rewrite Hjob, Hst. cbn [negb String.eqb Ascii.eqb Bool.eqb].
  change (BatchImageJobStatusIndexing ≟ BatchImageJobStatusIndexing) with true. cbn [negb].
  set (m := batchImageItemPromptPreviews b db).
  destruct (with_preview_keeps b m l Hl) as (Hids & Hsucc & Hl').
  set (db1 := db{{ t_items := List.filter (λ i, negb (it_JobID i ≟ b)) (t_items db) }}).
  destruct (insert_items_fresh now b j (with_preview b m <$> l) db1)
    as (rows & db2 & Hins & Hitems & Hrows & Hjobs); try done; [by rewrite Hids| |].
  { intros i Hi%filter_In Hib. destruct Hi as [_ Hi]. by rewrite Hib, String.eqb_refl in Hi. }
  unfold delete_items. fold db1. rewrite Hins. unfold update_job. rewrite Hjobs.
  change (t_jobs db1) with (t_jobs db). rewrite Hjob.
  eexists. split; [reflexivity|].
  change (t_jobs (?d{{ t_jobs := ?x }})) with x.
  set (db3 := db2{{ t_jobs := _ }}).
  assert (job_items b db3 = rows) as ->.
  { unfold job_items. change (t_items db3) with (t_items db2). rewrite Hitems.
    rewrite List.filter_app. change (t_items db1) with
      (List.filter (λ i, negb (it_JobID i ≟ b)) (t_items db)).
    rewrite filter_deleted. cbn [app]. by eapply rows_of_job. }
  split_and!; [by rewrite (rows_ids _ _ Hrows)|by rewrite (rows_successes _ _ Hrows)|done].
Qed.
End Tables.

(** ** The indexer *)

Section Indexer.
Context `{GoText} `{AmountCodec}.

Lemma exec_list_page now b off db :
  0 <= off →
  exec now (ListBatchImageItems b (MkBatchImageItemFilter "" expected_page off)) [] db =
    (inl (firstn 500 (skipn (Z.to_nat off) (job_items b db))), db).
Proof.
  intros Hoff. unfold ListBatchImageItems. rewrite exec_step. cbn [if_Limit if_Offset if_Status].
  rewrite (proj2 (Z.ltb_ge off 0)) by lia. unfold page, job_items.
  rewrite (List.filter_ext _ (λ i, it_JobID i ≟ b)); [reflexivity|].
  intros i. cbn. by rewrite andb_true_r.
Qed.

(** The pages together are all the items of the job. *)
Lemma exec_list_expected now b db : ∀ fuel off acc,
  0 <= off <= Z.of_nat (List.length (job_items b db)) →
  Z.of_nat (List.length (job_items b db)) < off + 500 * Z.of_nat fuel →
  exec now (listExpectedCustomIDs fuel b off acc) [] db =
    (inl (acc ∪ list_to_set (it_CustomID <$> skipn (Z.to_nat off) (job_items b db))), db).
Proof.
  intros fuel. induction fuel as [|fuel IH]; intros off acc Hoff Hlen.
  - lia.
  - cbn [listExpectedCustomIDs]. rewrite exec_try_quiet, exec_list_page by lia.
    set (rest := skipn (Z.to_nat off) (job_items b db)).
    assert (Z.of_nat (List.length rest) = Z.of_nat (List.length (job_items b db)) - off)
      as Hrest by (unfold rest; rewrite length_skipn; lia).
    rewrite length_firstn.
    destruct (Z.of_nat _ <? expected_page) eqn:Hpage; unfold expected_page in Hpage; bool_props.
    + rewrite firstn_all2 by lia. done.
    + assert (Z.of_nat (Nat.min 500 (List.length rest)) = 500) as -> by lia.
      rewrite IH by lia.
      assert (skipn (Z.to_nat (off + 500)) (job_items b db) = skipn 500 rest) as ->.
      { unfold rest. rewrite List.skipn_skipn. f_equal. lia. }
      rewrite <- union_assoc_L, <- list_to_set_app_L, <- fmap_app, firstn_skipn. done.
Qed.

Context {W : Type} (get_db : W → batch_db) (put_db : batch_db → W → W) `{Part _ _ get_db put_db}.

(** The open program leaves the tables alone. *)
Definition opens (now : Z) (open : proc W (result provider_output)) (w : W) (out : provider_output)
    : Prop :=
  (exec now open [] w).1 = inl out ∧ get_db (exec now open [] w).2 = get_db w.

(** The event of a reconciliation changes neither jobs nor items. *)
Lemma append_event now b e j db :
  t_jobs db !! b = Some j →
  ∃ db', exec now (AppendBatchImageEvent b e) [] db = (inl tt, db') ∧
    t_jobs db' = t_jobs db ∧ t_items db' = t_items db.
Proof.
  intros Hj. unfold AppendBatchImageEvent. rewrite exec_step. unfold appendBatchImageEventWithSQL.
  rewrite Hj. eexists. split; [reflexivity|done].
Qed.

Lemma exec_replace now b l counts db :
  exec now (ReplaceBatchImageItemsForJob b l counts) [] db =
    in_tx (replaceBatchImageItemsForJobWithSQL now b l counts) db.
Proof. cbn. by destruct (in_tx _ db). Qed.

Lemma exec_index fuel now job open w out expected :
  opens now open w out → t_jobs (get_db w) !! j_BatchID job = Some job →
  j_Status job = BatchImageJobStatusIndexing →
  expected = list_to_set (it_CustomID <$> job_items (j_BatchID job) (get_db w)) →
  expected ≠ ∅ →
  Z.of_nat (List.length (job_items (j_BatchID job) (get_db w))) < 500 * Z.of_nat fuel →
  match index_output job now expected out with
  | inr err => (exec now (Index get_db put_db fuel job open) [] w).1 = inr err
  | inl (s, _) =>
      ∃ w', exec now (Index get_db put_db fuel job open) [] w = (inl (ix_result s), w') ∧
        it_CustomID <$> job_items (j_BatchID job) (get_db w') = ids (ix_items s) ∧
        Z.of_nat (List.length (List.filter row_success (job_items (j_BatchID job) (get_db w')))) =
          successes (ix_items s) ∧
        t_jobs (get_db w') !! j_BatchID job =
          Some (job{{ j_SuccessCount := ix_SuccessCount (ix_result s);
                      j_FailCount := ix_FailCount (ix_result s); j_UpdatedAt := now }})
  end.
Proof.
  intros [Ho Hdb] Hjob Hst Hexp Hne Hfuel. unfold Index.
  rewrite exec_try_quiet, (exec_lift get_db put_db). rewrite exec_list_expected by lia.
  rewrite part_same, union_empty_l_L. change (Z.to_nat 0) with 0%nat. rewrite drop_0, <- Hexp.
  rewrite (exec_bind_quiet (A:=result provider_output)).
  destruct (exec now open [] w) as [r w1]. cbn [fst snd] in *. subst r.
  unfold time_now. cbn [mbind proc_bind exec].
  destruct (index_output job now expected out) as [[s rec]|err] eqn:Hix; [|done].
  destruct (index_output_items job now expected out s rec Hne Hix) as (_ & Hnd & _ & _ & _ & Hrows).
  rewrite exec_bind_quiet.
  assert (∃ w2 r2, exec now (if rec then lift get_db put_db
             (AppendBatchImageEvent (j_BatchID job) "index_reconciled") else ok tt) [] w1 = (r2, w2) ∧
           t_jobs (get_db w2) = t_jobs (get_db w) ∧ t_items (get_db w2) = t_items (get_db w))
    as (w2 & r2 & -> & Hj2 & Hi2).
  { destruct rec; [|by exists w1, (inl tt); rewrite Hdb].
    rewrite (exec_lift get_db put_db).
    destruct (append_event now (j_BatchID job) "index_reconciled" job (get_db w1))
      as (db' & -> & Hj' & Hi'); [by rewrite Hdb|].
    eexists _, _. split; [reflexivity|]. by rewrite (part_get (get_part:=get_db)), Hj', Hi', Hdb. }
  rewrite exec_try_quiet, (exec_lift get_db put_db). rewrite exec_replace.
  destruct (replace_items now (j_BatchID job) job (ix_items s)
      (MkBatchImageCounts (ix_SuccessCount (ix_result s)) (ix_FailCount (ix_result s))) (get_db w2))
    as (db' & Hrep & Hids & Hsucc & Hjobs); [by rewrite Hj2|done..|].
  rewrite Hrep. cbn [exec]. eexists. split; [reflexivity|].
  rewrite (part_get (get_part:=get_db)), Hjobs, lookup_insert_eq. by split_and!.
Qed.
End Indexer.

(** C19: whatever lines a provider's output has (unknown, missing, failed or repeated items), an
    index that succeeds leaves exactly one item for every identifier that was submitted; the
    counts it records are those of the items, and success and failure together are the item count
    of the job, so that the settlement finds them valid.  It fails only for what the output is. *)
Theorem index_accounts_for_every_item `{GoText} `{AmountCodec} {W : Type}
    (get_db : W → batch_db) (put_db : batch_db → W → W) (P : Part get_db put_db)
    fuel now job open w out :
  let b := j_BatchID job in
  let items w := job_items b (get_db w) in
  opens get_db now open w out →
  t_jobs (get_db w) !! b = Some job → j_Status job = BatchImageJobStatusIndexing →
  NoDup (it_CustomID <$> items w) → items w ≠ [] →
  j_ItemCount job = Z.of_nat (List.length (items w)) →
  j_ItemCount job < 500 * Z.of_nat fuel →
  match exec now (Index get_db put_db fuel job open) [] w with
  | (inr err, _) => index_output job now (list_to_set (it_CustomID <$> items w)) out = inr err
  | (inl r, w') =>
      it_CustomID <$> items w' ≡ₚ it_CustomID <$> items w ∧
      ∃ job', t_jobs (get_db w') !! b = Some job' ∧ j_Status job' = BatchImageJobStatusIndexing ∧
        j_SuccessCount job' = Z.of_nat (List.length (List.filter row_success (items w'))) ∧
        j_SuccessCount job' + j_FailCount job' = j_ItemCount job' ∧
        ix_SuccessCount r = j_SuccessCount job' ∧ ix_FailCount r = j_FailCount job'
  end.
Proof.
  intros b items Ho Hjob Hst Hnd Hne Hcount Hfuel.
  set (expected := list_to_set (C:=gset string) (it_CustomID <$> items w)).
  assert (expected ≠ ∅) as Hexp.
  { unfold expected. destruct (items w) as [|i l]; [done|]. cbn. set_solver. }
  pose proof (exec_index get_db put_db fuel now job open w out expected Ho Hjob Hst eq_refl Hexp
    ltac:(unfold items, b in *; lia)) as Hix.
  destruct (index_output job now expected out) as [[s rec]|err] eqn:Hout.
  2:{ destruct (exec _ _ _ _) as [r w']. cbn in Hix. by rewrite Hix. }
  destruct Hix as (w' & -> & Hids & Hsucc & Hjob').
  destruct (index_output_items job now expected out s rec Hexp Hout)
    as (Hperm & _ & _ & Hs & Hsum & _).
  assert (elements expected ≡ₚ it_CustomID <$> items w) as Hel
    by (apply elements_list_to_set; done).
  assert (Z.of_nat (size expected) = j_ItemCount job) as Hsize.
  { rewrite Hcount. unfold size, set_size. cbn. rewrite Hel, length_fmap. done. }
  split; [unfold items, b; rewrite Hids, Hperm; exact Hel|].
  eexists. split; [exact Hjob'|]. unfold items, b. rewrite Hsucc.
  split_and!; try done. etransitivity; [exact Hsum|exact Hsize].
Qed.

(** ** Concrete outputs *)

(** Apostrophes for quotation marks. *)
Fixpoint quotes (s : string) : string :=
  match s with
  | EmptyString => EmptyString
  | String c s => String (if Ascii.eqb c "039"%char then quote else c) (quotes s)
  end.

Definition text_lines (l : list string) : string :=
  foldr (λ s rest, quotes s +:+ newline +:+ rest) "" l.

Definition AsciiText : GoText := {|
  ToLower := fold_name;
  Quote s := String quote s +:+ String quote "";
  error_text e := match e with EPlain t => t | _ => "error" end;
  json_error _ := EPlain "invalid character"
|}.

(** Amounts are read as zero: no item has one. *)
Definition NoAmounts : AmountCodec := {|
  numeric _ := 0%Q; scan_float _ := f64_zero; decimal_round8 f := f
|}.

Definition pending (b customID : string) (id : Z) : BatchImageItem :=
  MkBatchImageItem id b customID BatchImageItemStatusPending None None None None None None None None
    0 None None None 0 None.

Definition indexing_job (b : string) (n : Z) : BatchImageJob :=
  BatchImageJob0{{ j_BatchID := b; j_Status := BatchImageJobStatusIndexing; j_ItemCount := n;
                   j_ProviderOutputRef := Some "files/out" }}.

Definition indexing_db (b : string) (customIDs : list string) : batch_db :=
  MkBatchDB {[b := indexing_job b (Z.of_nat (List.length customIDs))]}
    (imap (λ n c, pending b c (Z.of_nat n)) customIDs) [] 2 10.

(** One image, one refusal, one identifier nobody submitted; one item has no line. *)
Definition mixed_output : provider_output := MkOutput (text_lines
  ["{'key':'a','response':{'candidates':[{'content':{'parts':[{'inlineData':{'mimeType':'image/png','data':'AAAA'}}]}}]}}";
   "";
   "{'custom_id':'b','error':{'code':429,'message':'Quota exceeded'}}";
   "{'key':'z','response':{}}"]) None.

#[local] Existing Instances AsciiText NoAmounts.

Example index_mixed :
  let '(r, db) := exec 7 (Index id (λ v _, v) 1 (indexing_job "imgbatch_1" 3) (Ret (inl mixed_output)))
                    [] (indexing_db "imgbatch_1" ["a"; "b"; "c"]) in
  r = inl (MkBatchImageIndexResult 1 2 3) ∧
  (λ i, (it_CustomID i, it_Status i, it_ErrorCode i)) <$> t_items db =
    [("a", "success", None); ("b", "failed", Some "PROVIDER_RATE_LIMITED");
     ("c", "failed", Some "PROVIDER_RESULT_MISSING")] ∧
  ev_EventType <$> t_events db = ["index_reconciled"].
Proof. vm_compute. by split_and!. Qed.

#[local] Instance whole_part : Part (V:=batch_db) id (λ v _, v).
Proof. by split. Qed.

Lemma index_accounts_for_every_item_witness :
  let b := "imgbatch_1" in
  let db := indexing_db b ["a"; "b"; "c"] in
  ∃ r db', exec 7 (Index id (λ v _, v) 1 (indexing_job b 3) (Ret (inl mixed_output))) [] db =
             (inl r, db') ∧
    it_CustomID <$> job_items b db' ≡ₚ ["a"; "b"; "c"].
Proof.
  pose proof (index_accounts_for_every_item (W:=batch_db) id (λ v _, v) whole_part
    1 7 (indexing_job "imgbatch_1" 3) (Ret (inl mixed_output))
    (indexing_db "imgbatch_1" ["a"; "b"; "c"]) mixed_output
    (conj eq_refl eq_refl) ltac:(vm_compute; reflexivity) ltac:(vm_compute; reflexivity)
    ltac:(vm_compute; repeat constructor; set_solver) ltac:(vm_compute; discriminate)
    ltac:(vm_compute; reflexivity) ltac:(vm_compute; reflexivity)) as Hix.
  cbv zeta. destruct (exec 7 _ _ _) as [[r|err] db'] eqn:Hrun.
  - exists r, db'. split; [reflexivity|]. exact (proj1 Hix).
  - exfalso. clear Hix. vm_compute in Hrun. discriminate.
Defined.
