(* ===== verification/BatchImageServices.v ===== *)
(** * BatchImageServices: what the batch image services work with

    The interfaces of [backend/internal/service/batch_image_provider.go] and
    [batch_image_queue.go] as type classes, the world of the services (tables of jobs, balances,
    queue, providers, usage log, invalidated caches), and the balance holds of
    [batch_image_billing_hold.go].  Accounts, groups and prices are read through the provider
    side, as the services read them through repositories.  Logging is left out. *)

From stdpp Require Import base tactics numbers list strings gmap.
From Stdlib Require Import ZArith Lia.
From S2P Require Import Prelude GoLib GoFloat AppErrors Billing BatchImage Programs BatchImageStore BatchImageIndex.

Local Open Scope go_scope.
Local Open Scope Z_scope.

(** ** Providers *)

Record BatchProviderJob : Type := MkBatchProviderJob {
  pj_ProviderJobName : string;
  pj_ProviderInputRef : string;
  pj_ProviderOutputRef : string;
  pj_RawState : string
}.

Definition BatchProviderStateQueued : string := "queued".
Definition BatchProviderStateRunning : string := "running".
Definition BatchProviderStateSucceeded : string := "succeeded".
Definition BatchProviderStateFailed : string := "failed".
Definition BatchProviderStateCancelled : string := "cancelled".
Definition BatchProviderStateExpired : string := "expired".

Record BatchProviderStatus : Type := MkBatchProviderStatus {
  pv_RawState : string;
  pv_InternalState : string;
  pv_Done : bool;
  pv_ProviderOutputRef : string;
  pv_ErrorCode : string;
  pv_ErrorMessage : string;
  pv_SuggestedRequeueAfter : Z
}.

Definition CleanupTargetInput : string := "input".
Definition CleanupTargetOutput : string := "output".

Record BatchImageReference : Type := MkBatchImageReference {
  rf_ID : string;
  rf_Type : string;
  rf_MimeType : string;
  rf_Data : string;
  rf_FileURI : string
}.

Record BatchImageInputItem : Type := MkBatchImageInputItem {
  ii_CustomID : string;
  ii_Prompt : string;
  ii_ReferenceImages : list BatchImageReference
}.

Record BatchImageInput : Type := MkBatchImageInput {
  in_BatchID : string;
  in_Model : string;
  in_DisplayName : string;
  in_Items : list BatchImageInputItem;
  in_ResponseMimeType : string;
  in_AspectRatio : string;
  in_ImageSize : string;
  in_Metadata : gmap string string
}.

Definition ErrBatchImageProviderUnsupportedAccount : ApplicationError :=
  New 400 "BATCH_IMAGE_PROVIDER_UNSUPPORTED_ACCOUNT"
    "batch image provider does not support this account".
Definition ErrBatchImageProviderMissingAPIKey : ApplicationError :=
  New 400 "BATCH_IMAGE_PROVIDER_MISSING_API_KEY"
    "batch image provider account is missing api key".
Definition ErrBatchImageProviderMissingServiceAccount : ApplicationError :=
  New 400 "BATCH_IMAGE_PROVIDER_MISSING_SERVICE_ACCOUNT"
    "batch image provider account is missing service account credentials".
Definition ErrBatchImageProviderUnsafeCleanupPath : ApplicationError :=
  New 400 "VERTEX_UNSAFE_CLEANUP_PATH" "unsafe batch image cleanup path".
Definition ErrUnsupportedCleanupTarget : ApplicationError :=
  New 400 "BATCH_IMAGE_PROVIDER_UNSUPPORTED_CLEANUP_TARGET"
    "unsupported batch image cleanup target".

(** The fields of a group and of a resolved price that the services read. *)
Record Group : Type := MkGroup {
  g_ID : Z;
  g_Platform : string;
  g_AllowBatchImageGeneration : bool;
  g_RateMultiplier : float64;
  g_ImageRateIndependent : bool;
  g_ImageRateMultiplier : float64;
  g_BatchImageDiscountMultiplier : float64;
  g_BatchImageHoldMultiplier : float64
}.

Definition BillingModeToken : string := "token".
Definition BillingModePerRequest : string := "per_request".
Definition BillingModeImage : string := "image".

Record ResolvedPricing : Type := MkResolvedPricing {
  rp_Mode : string;
  rp_DefaultPerRequestPrice : float64;
  rp_RequestTiers : list (option float64);      (* PerRequestPrice *)
  rp_BasePricing : option (bool * float64)      (* ImageOutputPriceExplicit, ...PerToken *)
}.

(** The registry of providers with their methods, and the repositories of accounts, groups and
    prices; [remote] is all their state. *)
Class BatchImageProviders : Type := {
  remote : Type;
  Account : Type;
  account_ID : Account → Z;
  Priority : Account → Z;
  IsSchedulable : Account → bool;
  IsModelSupported : Account → string → bool;
  BillingRateMultiplier : Account → float64;
  registered : string → bool;
  SupportsAccount : string → Account → bool;
  provider_Submit : string → BatchImageJob → Account → BatchImageInput →
    St remote (result (option BatchProviderJob));
  provider_Get : string → BatchImageJob → Account → St remote (result (option BatchProviderStatus));
  provider_Cancel : string → BatchImageJob → Account → St remote (result unit);
  provider_OpenResult : string → BatchImageJob → Account → St remote (result provider_output);
  provider_Cleanup : string → BatchImageJob → Account → string → St remote (result unit);
  GetAccountByID : Z → St remote (result Account);
  ListSchedulableByPlatform : string → St remote (result (list Account));
  ListSchedulableByGroupIDAndPlatform : Z → string → St remote (result (list Account));
  GetByIDLite : Z → St remote (result (option Group));
  GetImagePrice : Group → string → option float64;
  GetByUserAndGroup : Z → Z → St remote (result (option float64));
  ResolvePricing : string → St remote (result (option ResolvedPricing))
}.

(** ** The queue *)

Definition ErrBatchImageQueueEmpty : ApplicationError :=
  New 404 "BATCH_IMAGE_QUEUE_EMPTY" "batch image queue is empty".
Definition ErrBatchImageAlreadyQueued : ApplicationError :=
  New 409 "BATCH_IMAGE_ALREADY_QUEUED" "batch image job is already queued".
Definition ErrBatchImageLockNotAcquired : ApplicationError :=
  New 409 "BATCH_IMAGE_LOCK_NOT_ACQUIRED" "batch image job lock was not acquired".
Definition ErrInvalidBatchImageQueuePayload : ApplicationError :=
  New 400 "BATCH_IMAGE_QUEUE_INVALID_PAYLOAD" "invalid batch image queue payload".

Definition IsValidBatchImageID (batchID : string) : bool :=
  HasPrefix batchID "imgbatch_" && Nat.ltb (String.length "imgbatch_") (String.length batchID).

(** The interface [BatchImageQueue]; a lock is the token that releases it. *)
Class BatchImageQueue : Type := {
  queue : Type;
  Enqueue : string → proc queue (result unit);
  Reserve : Z → proc queue (result string);
  RequeueAfter : string → Z → proc queue (result unit);
  Ack : string → proc queue (result unit);
  Heartbeat : string → proc queue (result unit);
  MoveDueDelayedToReady : Z → proc queue (result Z);
  RecoverStaleActive : Z → Z → proc queue (result Z);
  TryAcquireJobLock : string → Z → proc queue (result (option (string * string)));
  ReleaseJobLock : string * string → proc queue (result unit);
  RefreshJobLock : string * string → Z → proc queue (result unit)
}.

(** ** The world *)

(** A row of the usage log, without the fields that are the same for every batch. *)
Record UsageLog : Type := MkUsageLog {
  ul_UserID : Z;
  ul_APIKeyID : Z;
  ul_AccountID : Z;
  ul_RequestID : string;
  ul_Model : string;
  ul_ImageCount : Z;
  ul_ActualCost : float64;
  ul_RateMultiplier : float64;
  ul_AccountRateMultiplier : float64;
  ul_SessionID : option string;
  ul_CreatedAt : Z
}.

Record batch_world `{BatchImageProviders} `{BatchImageQueue} : Type := MkWorld {
  w_jobs : batch_db;
  w_money : billing_db;
  w_queue : queue;
  w_remote : remote;
  w_usage : list UsageLog;
  w_invalidated : list Z
}.

(** The configuration that is read. *)
Record BatchImageConfig : Type := MkBatchImageConfig {
  cf_Enabled : bool;
  cf_OutputRetentionAfterTerminalHours : Z;
  cf_InputRetentionAfterTerminalHours : Z;
  cf_CleanupBatchSize : Z;
  cf_MaxItemsPerJobDefault : Z;
  cf_MaxOutputImagesPerJob : Z;
  cf_MaxOutputImagesPerItem : Z;
  cf_MaxPromptCharsPerItem : Z;
  cf_MaxReferenceImagesPerJob : Z;
  cf_MaxReferenceInlineBytesPerJob : Z;
  cf_DefaultResponseMimeType : string;
  cf_DefaultImageSize : string
}.

(** A positive setting, or the default. *)
Definition setting (v d : Z) : Z := if 0 <? v then v else d.

Section World.
Context `{BatchImageProviders} `{BatchImageQueue}.

Definition put_jobs (v : batch_db) (w : batch_world) : batch_world :=
  MkWorld _ _ v (w_money w) (w_queue w) (w_remote w) (w_usage w) (w_invalidated w).
Definition put_money (v : billing_db) (w : batch_world) : batch_world :=
  MkWorld _ _ (w_jobs w) v (w_queue w) (w_remote w) (w_usage w) (w_invalidated w).
Definition put_queue (v : queue) (w : batch_world) : batch_world :=
  MkWorld _ _ (w_jobs w) (w_money w) v (w_remote w) (w_usage w) (w_invalidated w).
Definition put_remote (v : remote) (w : batch_world) : batch_world :=
  MkWorld _ _ (w_jobs w) (w_money w) (w_queue w) v (w_usage w) (w_invalidated w).

#[export] Instance jobs_part : Part w_jobs put_jobs.
Proof. split; by destruct w. Qed.
#[export] Instance money_part : Part w_money put_money.
Proof. split; by destruct w. Qed.
#[export] Instance queue_part : Part w_queue put_queue.
Proof. split; by destruct w. Qed.
#[export] Instance remote_part : Part w_remote put_remote.
Proof. split; by destruct w. Qed.

(** A call of the repository, of the queue, of a provider. *)
Definition repo {A} (p : proc batch_db A) : proc batch_world A := lift w_jobs put_jobs p.
Definition queued {A} (p : proc queue A) : proc batch_world A := lift w_queue put_queue p.
Definition call {A} (m : St remote (result A)) : proc batch_world (result A) :=
  lift w_remote put_remote (step m).

(** A transaction of the billing repository; its clock counts microseconds. *)
Definition billing {A} (tx : Z → Tx A) : proc batch_world (result A) :=
  now ← time_now; lift w_money put_money (step (tx (now / 1000))).

(** The usage log is written as well as it can be: its errors are only logged. *)
Definition writeUsageLogBestEffort (entry : UsageLog) : proc batch_world unit :=
  _ ← step (λ w : batch_world,
        (inl tt, MkWorld _ _ (w_jobs w) (w_money w) (w_queue w) (w_remote w)
                   (w_usage w ++ [entry]) (w_invalidated w)));
  mret tt.

Definition invalidateAuthCache (userID : Z) : proc batch_world unit :=
  if 0 <? userID then
    _ ← step (λ w : batch_world,
          (inl tt, MkWorld _ _ (w_jobs w) (w_money w) (w_queue w) (w_remote w)
                     (w_usage w) (w_invalidated w ++ [userID])));
    mret tt
  else mret tt.

(** ** Balance holds *)

Context `{BillingLib} `{AmountCodec}.

(** [*job.APIKeyID], when it is set and positive. *)
Definition positive_id (v : option Z) : option Z :=
  match v with Some n => if n <=? 0 then None else Some n | None => None end.

Definition hold_amount (job : BatchImageJob) : float64 :=
  match j_HoldAmount job with Some h => h | None => j_EstimatedCost job end.

(** A negative amount counts as none. *)
Definition at_least_zero (f : float64) : float64 := if f64_ltb f f64_zero then f64_zero else f.

Definition buildBatchImageHoldCommand (job : BatchImageJob) (requestID : string)
    (actualAmount : float64) (payloadHash : string) : result BatchImageBalanceHoldCommand :=
  match positive_id (j_APIKeyID job) with
  | None => inr (as_error ErrBatchImageSettlementMissingAPIKeyID)
  | Some apiKeyID =>
      inl (MkBatchImageBalanceHoldCommand requestID apiKeyID "" (TrimSpace payloadHash)
             (j_UserID job) (j_BatchID job) (at_least_zero (hold_amount job))
             (at_least_zero actualAmount))
  end.

Definition no_hold (cmd : BatchImageBalanceHoldCommand) : bool :=
  f64_leb (h_HoldAmount cmd) f64_zero.

Definition reserveBatchImageBalanceHold (job : BatchImageJob) (payloadHash : string)
    : proc batch_world (result unit) :=
  match buildBatchImageHoldCommand job (BatchImageHoldRequestID (j_BatchID job)) f64_zero
          payloadHash with
  | inr err => error_out err
  | inl cmd =>
      if no_hold cmd then ok tt else
      r ← billing (λ now, ReserveBatchImageBalance now (Some cmd));
      match r with
      | inl _ => ok tt
      | inr err =>
          if errors_Is err (as_error ErrBatchImageInsufficientBalance)
          then error_out (as_error ErrBatchImageInsufficientBalance)
          else error_out (as_error (WithCause ErrBatchImageBillingHoldFailed err))
      end
  end.

Definition captureBatchImageBalanceHold (job : BatchImageJob) (actualAmount : float64)
    (payloadHash : string) : proc batch_world (result unit) :=
  match buildBatchImageHoldCommand job (BatchImageCaptureRequestID (j_BatchID job)) actualAmount
          payloadHash with
  | inr err => error_out err
  | inl cmd =>
      r ← billing (λ now, CaptureBatchImageBalance now (Some cmd));
      match r with
      | inl _ => ok tt
      | inr err => error_out (as_error (WithCause ErrBatchImageSettlementBillingFailed err))
      end
  end.

(** A release refused for its fingerprint was made before under another one: it counts as done. *)
Definition releaseBatchImageBalanceHold (job : BatchImageJob) (payloadHash : string)
    : proc batch_world (result unit) :=
  match buildBatchImageHoldCommand job (BatchImageReleaseRequestID (j_BatchID job)) f64_zero
          payloadHash with
  | inr err => error_out err
  | inl cmd =>
      if no_hold cmd then ok tt else
      r ← billing (λ now, ReleaseBatchImageBalance now (Some cmd));
      match r with
      | inl _ => ok tt
      | inr err =>
          if errors_Is err ErrUsageBillingRequestConflict then ok tt
          else error_out (as_error (WithCause ErrBatchImageBillingHoldFailed err))
      end
  end.

Definition job_request_hash (job : BatchImageJob) : string :=
  batchImageDerefString (j_RequestHash job).

(** The release of a job's hold as all places but the submission make it. *)
Definition release_hold (job : BatchImageJob) : proc batch_world (result unit) :=
  releaseBatchImageBalanceHold job (job_request_hash job).

(** A queue error counts only when the job is not queued already. *)
Definition enqueue_failed (r : result unit) : option error :=
  match r with
  | inl _ => None
  | inr err =>
      if errors_Is err (as_error ErrBatchImageAlreadyQueued) then None else Some err
  end.
End World.
