(* ===== verification/BatchImageSettlement.v ===== *)
(** * BatchImageSettlement: charging a finished batch

    Models [backend/internal/service/batch_image_settlement.go] and
    [batch_image_billing_recovery.go]: the settlement of a job whose results are indexed, its
    bounded retries, and the recovery of the balance of jobs that never reached their provider.
    Receivers are configured; payloads of events and logging are left out. *)

From stdpp Require Import base tactics numbers list strings gmap.
From Stdlib Require Import ZArith Lia.
From S2P Require Import Prelude GoLib GoFloat AppErrors Billing BatchImage Programs BatchImageStore BatchImageIndex BatchImageServices.

Local Open Scope go_scope.
Local Open Scope Z_scope.

Definition batchImageSettlementRequestPrefix : string := "batch_image_settlement:".
Definition batchImageSettlementRetryDelay : Z := Minute.
Definition batchImageSettlementMaxRetries : Z := 5.
Definition batchImageCostEpsilon : float64 := f64_decimal 1 8.

Record BatchImageSettlementResult : Type := MkBatchImageSettlementResult {
  sr_BatchID : string;
  sr_SuccessCount : Z;
  sr_FailCount : Z;
  sr_ActualCost : float64;
  sr_ManifestHash : string;
  sr_RequestID : string;
  sr_AlreadySettled : bool
}.

Definition BatchImageSettlementRequestID (batchID : string) : string :=
  batchImageSettlementRequestPrefix +:+ TrimSpace batchID.

(** [strings.Join(parts, sep)] *)
Fixpoint join (sep : string) (parts : list string) : string :=
  match parts with
  | [] => ""
  | [p] => p
  | p :: parts => p +:+ sep +:+ join sep parts
  end.

Definition nul : string := String (Ascii.ascii_of_nat 0) "".

Definition BuildBatchImageSettlementManifestHash `{BillingLib} (job : BatchImageJob) : string :=
  sha256_hex (join nul
    [TrimSpace (j_BatchID job); TrimSpace (j_Provider job); TrimSpace (j_Model job);
     batchImageDerefString (j_ProviderJobName job);
     batchImageDerefString (j_ProviderOutputRef job);
     FormatInt (j_SuccessCount job); FormatInt (j_FailCount job); FormatInt (j_ItemCount job)]).

Definition isBatchImageSettlementRetryExhausted (job : BatchImageJob) : bool :=
  (j_Status job ≟ BatchImageJobStatusSettling) &&
  (batchImageSettlementMaxRetries <=? j_RetryCount job) &&
  HasPrefix (batchImageDerefString (j_LastErrorCode job)) "SETTLEMENT_".

Definition hour : Z := 60 * Minute.

(** A positive number of hours of the configuration as a duration, or the default. *)
Definition retention (hours default_hours : Z) : Z :=
  if 0 <? hours then hours *! hour else default_hours * hour.

Definition outputRetentionAfterTerminal (cfg : BatchImageConfig) : Z :=
  retention (cf_OutputRetentionAfterTerminalHours cfg) 72.

Section Settlement.
Context `{BatchImageProviders} `{BatchImageQueue} `{BillingLib} `{AmountCodec} `{GoText}.

(** ** Prices *)

(** [BatchImageModelPricingResolver]. *)
Definition BatchImageUnitPrice (model : string) : proc batch_world (result float64) :=
  let missing := inr (as_error ErrBatchImageSettlementPricingMissing) in
  if TrimSpace model ≟ "" then mret missing else
  resolved ← call (ResolvePricing model);
  mret match resolved with
  | inl (Some r) =>
      switch (rp_Mode r)
        [([BillingModeImage; BillingModePerRequest],
          if f64_ltb f64_zero (rp_DefaultPerRequestPrice r) then inl (rp_DefaultPerRequestPrice r)
          else match rp_RequestTiers r with
               | [Some price] => if f64_leb f64_zero price then inl price else missing
               | _ => missing
               end);
         ([BillingModeToken],
          match rp_BasePricing r with
          | Some (explicit, price) =>
              if explicit || f64_ltb f64_zero price then inl price else missing
          | None => missing
          end)]
        missing
  | _ => missing
  end.

Definition settlementUnitPrice (job : BatchImageJob) : proc batch_world (result float64) :=
  if 1 <=? j_PricingSnapshotVersion job then
    mret (if f64_ltb (j_BillableUnitPrice job) f64_zero
          then inr (as_error ErrBatchImageSettlementPricingMissing)
          else inl (j_BillableUnitPrice job))
  else BatchImageUnitPrice (j_Model job).

(** ** Failures *)

Definition transition (batchID toStatus : string) (code message : option string) (event : string)
    : proc batch_world (result unit) :=
  repo (TransitionBatchImageJobStatus batchID toStatus
          (MkBatchImageTransitionOptions event code message None)).

(** The way out when the retries are used up: release the hold, then fail the job.  It always
    answers an error. *)
Definition failExhaustedSettlement (job : BatchImageJob) (message : string)
    : proc batch_world error :=
  released ← release_hold job;
  match released with
  | inr err =>
      let msg := truncateBatchImageMessage (error_text err) batchImageMaxErrorMessageLength in
      _ ← repo (SetBatchImageJobSettlementFailed (j_BatchID job) "SETTLEMENT_RELEASE_FAILED" msg);
      mret (as_error (WithCause ErrBatchImageSettlementBillingFailed err))
  | inl _ =>
      _ ← invalidateAuthCache (j_UserID job);
      let msg := TrimSpace message in
      let msg := if msg ≟ "" then "settlement billing retry limit reached" else msg in
      failed ← transition (j_BatchID job) BatchImageJobStatusFailed
        (batchImageStringPtr "SETTLEMENT_BILLING_RETRY_EXHAUSTED") (batchImageStringPtr msg)
        "settlement_retry_exhausted";
      mret match failed with
      | inr err => err
      | inl _ => as_error ErrBatchImageSettlementBillingFailed
      end
  end.

(** Counts a failure; at the limit the settlement ends with the error of the way out. *)
Definition recordSettlementFailure (job : BatchImageJob) (code message : string)
    : proc batch_world (option error) :=
  '(retryCount, recordErr) ← repo (SetBatchImageJobSettlementFailed (j_BatchID job) code
      (truncateBatchImageMessage message batchImageMaxErrorMessageLength));
  match recordErr with
  | Some _ => mret None
  | None =>
      let job := job{{ j_RetryCount := retryCount; j_LastErrorCode := Some code }} in
      if batchImageSettlementMaxRetries <=? retryCount
      then err ← failExhaustedSettlement job message; mret (Some err)
      else mret None
  end.

(** The failing branches of [Settle]. *)
Definition settlement_fails {A} (job : BatchImageJob) (code message : string) (err : error)
    : proc batch_world (result A) :=
  failErr ← recordSettlementFailure job code message;
  error_out (default err failErr).

(** ** Settle *)

Definition settlement_result (job : BatchImageJob) : BatchImageSettlementResult :=
  MkBatchImageSettlementResult (j_BatchID job) (j_SuccessCount job) (j_FailCount job)
    (default f64_zero (j_ActualCost job)) (BuildBatchImageSettlementManifestHash job)
    (BatchImageCaptureRequestID (j_BatchID job)) false.

Definition counts_invalid (job : BatchImageJob) : bool :=
  (j_SuccessCount job <? 0) || (j_FailCount job <? 0) || (j_ItemCount job <? 0) ||
  (j_ItemCount job <? j_SuccessCount job +! j_FailCount job).

Definition counts_text (job : BatchImageJob) : string :=
  "success=" +:+ FormatInt (j_SuccessCount job) +:+ " fail=" +:+ FormatInt (j_FailCount job) +:+
  " item_count=" +:+ FormatInt (j_ItemCount job).

Definition manifest_conflict (job : BatchImageJob) (manifestHash : string) : bool :=
  let recorded := batchImageDerefString (j_ManifestHash job) in
  negb (TrimSpace recorded ≟ "") && negb (recorded ≟ manifestHash).

Definition recordUsageLog (job : BatchImageJob) (actualCost : float64) (requestID : string)
    (createdAt : Z) : proc batch_world unit :=
  match j_APIKeyID job, j_AccountID job with
  | Some apiKeyID, Some accountID =>
      writeUsageLogBestEffort
        (MkUsageLog (j_UserID job) apiKeyID accountID (TrimSpace requestID) (j_Model job)
           (j_SuccessCount job) actualCost
           (f64_mul (j_GroupRateMultiplier job) (j_BatchDiscountMultiplier job))
           (j_AccountRateMultiplier job) (j_SessionID job) createdAt)
  | _, _ => mret tt
  end.

(** The settlement of a job at a unit price. *)
Definition settle_at (cfg : BatchImageConfig) (job : BatchImageJob) (unitPrice : float64)
    : proc batch_world (result BatchImageSettlementResult) :=
  let result := settlement_result job in
  let manifestHash := sr_ManifestHash result in
  let actualCost := f64_mul (f64_of_int (j_SuccessCount job)) unitPrice in
  let holdAmount := hold_amount job in
  if f64_ltb batchImageCostEpsilon (f64_sub actualCost holdAmount) then
    settlement_fails job "SETTLEMENT_COST_EXCEEDS_HOLD"
      ("actual cost " +:+ format_10f actualCost +:+ " exceeds held amount " +:+
       format_10f holdAmount)
      (as_error ErrBatchImageSettlementCostExceedsHold)
  else
  captured ← captureBatchImageBalanceHold job actualCost manifestHash;
  match captured with
  | inr err =>
      settlement_fails job "SETTLEMENT_BILLING_FAILED"
        (truncateBatchImageMessage (error_text err) batchImageMaxErrorMessageLength) err
  | inl _ =>
      _ ← invalidateAuthCache (j_UserID job);
      now ← time_now;
      _ ⇐! repo (MarkBatchImageJobSettled
              (MkMarkBatchImageJobSettledParams (j_BatchID job) actualCost manifestHash (Some now)
                 (Some (now + outputRetentionAfterTerminal cfg))));
      _ ← recordUsageLog job actualCost (sr_RequestID result) now;
      ok (result{{ sr_ActualCost := actualCost }})
  end.

Definition settle_job (cfg : BatchImageConfig) (job : BatchImageJob)
    : proc batch_world (result BatchImageSettlementResult) :=
  let result := settlement_result job in
  let manifestHash := sr_ManifestHash result in
  if j_Status job ≟ BatchImageJobStatusCompleted
  then ok (result{{ sr_AlreadySettled := true }}) else
  if negb (j_Status job ≟ BatchImageJobStatusSettling)
  then error_out (as_error ErrBatchImageSettlementInvalidStatus) else
  match positive_id (j_APIKeyID job), positive_id (j_AccountID job) with
  | None, _ => error_out (as_error ErrBatchImageSettlementMissingAPIKeyID)
  | Some _, None => error_out (as_error ErrBatchImageSettlementMissingAccountID)
  | Some _, Some _ =>
      if isBatchImageSettlementRetryExhausted job then
        err ← failExhaustedSettlement job
                ("settlement retry limit reached: " +:+ batchImageDerefString (j_LastErrorCode job));
        error_out err
      else if counts_invalid job then
        settlement_fails job "SETTLEMENT_INVALID_COUNTS" (counts_text job)
          (as_error ErrBatchImageSettlementInvalidCounts)
      else if manifest_conflict job manifestHash then
        settlement_fails job "SETTLEMENT_MANIFEST_CONFLICT" "manifest hash conflict"
          (as_error ErrBatchImageSettlementManifestConflict)
      else
        price ← settlementUnitPrice job;
        let price := match price with
                     | inl p => if f64_ltb p f64_zero
                                then inr (as_error ErrBatchImageSettlementPricingMissing)
                                else inl p
                     | inr err => inr err
                     end in
        match price with
        | inr err => settlement_fails job "SETTLEMENT_PRICING_MISSING" (error_text err) err
        | inl unitPrice => settle_at cfg job unitPrice
        end
  end.

Definition Settle (cfg : BatchImageConfig) (batchID : string)
    : proc batch_world (result BatchImageSettlementResult) :=
  job ⇐! repo (GetBatchImageJobByBatchID batchID); settle_job cfg job.

(** ** Recovery *)

Definition defaultBatchImageBillingRecoveryStaleAfter : Z := 10 * Minute.
Definition defaultBatchImageBillingRecoveryLimit : Z := 100.

Definition enqueueReleaseRetry (batchID : string) : proc batch_world unit :=
  _ ← queued (Enqueue batchID); mret tt.

(** One job of a scan: how many were released, and the error it ends with. *)
Definition recover_job (cutoff : Z) (job : BatchImageJob) : proc batch_world (Z * option error) :=
  '(applied, err) ← repo (FailStaleUnsubmittedBatchImageJob (j_BatchID job) cutoff
    "SUBMIT_STALE_BEFORE_PROVIDER"
    "batch image submission did not reach provider before recovery cutoff");
  if negb applied then mret (0, err) else
  let job := job{{ j_Status := BatchImageJobStatusFailed }} in
  released ← release_hold job;
  match released with
  | inr err => _ ← enqueueReleaseRetry (j_BatchID job); mret (0, Some err)
  | inl _ => _ ← invalidateAuthCache (j_UserID job); mret (1, None)
  end.

(** The last error wins. *)
Fixpoint recover_jobs (cutoff : Z) (jobs : list BatchImageJob) (released : Z)
    (lastErr : option error) : proc batch_world (Z * option error) :=
  match jobs with
  | [] => mret (released, lastErr)
  | job :: jobs =>
      '(n, err) ← recover_job cutoff job;
      recover_jobs cutoff jobs (released + n) (match err with None => lastErr | e => e end)
  end.

Definition ReleaseStaleUnsubmittedOnce (StaleAfter Limit : Z) : proc batch_world (Z * option error) :=
  let staleAfter := if StaleAfter <=? 0 then defaultBatchImageBillingRecoveryStaleAfter
                    else StaleAfter in
  let limit := if Limit <=? 0 then defaultBatchImageBillingRecoveryLimit else Limit in
  now ← time_now;
  let cutoff := now - staleAfter in
  jobs ← repo (ListStaleUnsubmittedBatchImageJobs cutoff limit);
  match jobs with
  | inr err => mret (0, Some err)
  | inl jobs => recover_jobs cutoff jobs 0 None
  end.
End Settlement.
