(* ===== verification/BatchImageProcessor.v ===== *)
(** * BatchImageProcessor: taking a batch from its provider to the settlement

    Models [BatchImageProviderProcessor] of
    [backend/internal/service/batch_image_processor.go] and [BatchImagePipelineProcessor] of
    [batch_image_settlement.go], which a worker runs on a job until it says the job is over. *)

From stdpp Require Import base tactics numbers list strings gmap.
From Stdlib Require Import ZArith Lia.
From S2P Require Import Prelude GoLib GoFloat AppErrors Billing BatchImage Programs BatchImageStore BatchImageIndex BatchImageServices BatchImageSettlement.

Local Open Scope go_scope.
Local Open Scope Z_scope.

Definition defaultBatchImageProcessorRequeue : Z := 30 * Second.
Definition batchImageProviderErrorRequeue : Z := Minute.

Record BatchImageProcessResult : Type := MkBatchImageProcessResult {
  pc_RequeueAfter : Z;
  pc_Terminal : bool
}.

Definition requeue_after (d : Z) : BatchImageProcessResult := MkBatchImageProcessResult d false.
Definition terminal : BatchImageProcessResult := MkBatchImageProcessResult 0 true.

Section Processor.
Context `{BatchImageProviders} `{BatchImageQueue} `{BillingLib} `{AmountCodec} `{GoText}.

(** [DefaultRequeue], and the bound on the pages of items the indexer reads. *)
Variables (DefaultRequeue : Z) (pages : nat).

Definition requeueDelay (suggested : Z) : Z :=
  if 0 <? suggested then suggested
  else if 0 <? DefaultRequeue then DefaultRequeue
  else defaultBatchImageProcessorRequeue.

Definition releaseTerminalHold (job : BatchImageJob) : proc batch_world (result unit) :=
  if negb (j_Status job ≟ BatchImageJobStatusFailed) &&
     negb (j_Status job ≟ BatchImageJobStatusCancelled)
  then ok tt else
  _ ⇐! release_hold job;
  _ ← invalidateAuthCache (j_UserID job);
  ok tt.

(** Answers the job with the reference it now has. *)
Definition persistProviderOutputRef (job : BatchImageJob) (ref : string)
    : proc batch_world (result BatchImageJob) :=
  let ref := TrimSpace ref in
  if (ref ≟ "") || (batchImageDerefString (j_ProviderOutputRef job) ≟ ref) then ok job else
  _ ⇐! repo (UpdateBatchImageJobProviderOutputRef (j_BatchID job) ref);
  ok (job{{ j_ProviderOutputRef := Some ref }}).

(** The end of a job: its status is recorded and its hold released. *)
Definition end_job (job : BatchImageJob) (status : string) (code message : option string)
    (event : string) : proc batch_world (result BatchImageProcessResult) :=
  _ ⇐! transition (j_BatchID job) status code message event;
  _ ⇐! releaseTerminalHold (job{{ j_Status := status }});
  ok terminal.

Definition index_error_code (err : error) : string :=
  if errors_Is err (as_error ErrBatchImageDuplicateCustomID)
  then "DUPLICATE_CUSTOM_ID_IN_OUTPUT" else "INDEX_PARSE_FAILED".

Definition indexAndSettle (job : BatchImageJob) (account : Account)
    : proc batch_world (result BatchImageProcessResult) :=
  indexed ← Index w_jobs put_jobs pages job
              (call (provider_OpenResult (j_Provider job) job account));
  match indexed with
  | inr err =>
      if errors_Is err (as_error ErrBatchImageIndexOutputMissing) then error_out err
      else if errors_Is err (as_error ErrBatchImageIndexStateConflict)
      then ok (requeue_after Millisecond)
      else
        let msg := truncateBatchImageMessage (error_text err) batchImageMaxErrorMessageLength in
        end_job job BatchImageJobStatusFailed (batchImageStringPtr (index_error_code err))
          (batchImageOptionalStringPtr msg) "indexing_failed"
  | inl _ =>
      _ ⇐! transition (j_BatchID job) BatchImageJobStatusSettling None None "indexing_completed";
      ok (requeue_after Millisecond)
  end.

Definition failure_code (status : BatchProviderStatus) : string :=
  let code := TrimSpace (pv_ErrorCode status) in
  if negb (code ≟ "") then code
  else if pv_InternalState status ≟ BatchProviderStateExpired then "PROVIDER_BATCH_EXPIRED"
  else "PROVIDER_BATCH_FAILED".

(** Moves the job to a status, unless it is there. *)
Definition advance (job : BatchImageJob) (status event : string)
    : proc batch_world (result BatchImageJob) :=
  if j_Status job ≟ status then ok job else
  _ ⇐! transition (j_BatchID job) status None None event;
  ok (job{{ j_Status := status }}).

(** What the provider says of a job that is not indexed yet. *)
Definition follow_provider (job : BatchImageJob) (account : Account) (status : BatchProviderStatus)
    : proc batch_world (result BatchImageProcessResult) :=
  let again := ok (requeue_after (requeueDelay (pv_SuggestedRequeueAfter status))) in
  switch (pv_InternalState status)
    [([BatchProviderStateQueued], again);
     ([BatchProviderStateRunning],
       _ ⇐! advance job BatchImageJobStatusRunning "provider_status_checked"; again);
     ([BatchProviderStateSucceeded],
       job ⇐! advance job BatchImageJobStatusIndexing "indexing_started";
       indexAndSettle job account);
     ([BatchProviderStateFailed; BatchProviderStateExpired],
       end_job job BatchImageJobStatusFailed (batchImageStringPtr (failure_code status))
         (batchImageOptionalStringPtr
            (truncateBatchImageMessage (pv_ErrorMessage status) batchImageMaxErrorMessageLength))
         "job_failed");
     ([BatchProviderStateCancelled],
       end_job job BatchImageJobStatusCancelled None None "job_failed")]
    again.

(** [Process] of [BatchImageProviderProcessor], behind the reading of the job. *)
Definition process_job (job : BatchImageJob) : proc batch_world (result BatchImageProcessResult) :=
  if isBatchImageProcessorDoneStatus (j_Status job)
  then _ ⇐! releaseTerminalHold job; ok terminal else
  if negb (registered (j_Provider job))
  then error_out (as_error ErrBatchImageUnsupportedProvider) else
  match positive_id (j_AccountID job) with
  | None => error_out (as_error ErrBatchImageMissingAccountID)
  | Some accountID =>
      account ⇐! call (GetAccountByID accountID);
      if negb (SupportsAccount (j_Provider job) account)
      then error_out (as_error ErrBatchImageProviderUnsupportedAccount) else
      if TrimSpace (batchImageDerefString (j_ProviderJobName job)) ≟ ""
      then error_out (as_error ErrBatchImageMissingProviderJobName) else
      if j_Status job ≟ BatchImageJobStatusIndexing then indexAndSettle job account else
      answer ← call (provider_Get (j_Provider job) job account);
      match answer with
      | inr _ => ok (requeue_after batchImageProviderErrorRequeue)
      | inl None => ok (requeue_after (requeueDelay 0))
      | inl (Some status) =>
          job ⇐! persistProviderOutputRef job (pv_ProviderOutputRef status);
          follow_provider job account status
      end
  end.

Definition ProviderProcess (batchID : string) : proc batch_world (result BatchImageProcessResult) :=
  job ⇐! repo (GetBatchImageJobByBatchID batchID); process_job job.

(** ** The pipeline *)

(** [Process] of [BatchImagePipelineProcessor]. *)
Definition PipelineProcess (cfg : BatchImageConfig) (RetryDelay : Z) (batchID : string)
    : proc batch_world (result BatchImageProcessResult) :=
  job ⇐! repo (GetBatchImageJobByBatchID batchID);
  if negb (j_Status job ≟ BatchImageJobStatusSettling) then ProviderProcess batchID else
  settled ← Settle cfg batchID;
  match settled with
  | inl _ => ok terminal
  | inr err =>
      if errors_Is err (as_error ErrBatchImageSettlementBillingFailed) then
        updated ← repo (GetBatchImageJobByBatchID batchID);
        let delay := if RetryDelay <=? 0 then batchImageSettlementRetryDelay else RetryDelay in
        ok match updated with
           | inl j => if IsTerminalBatchImageJobStatus (j_Status j) then terminal
                      else requeue_after delay
           | inr _ => requeue_after delay
           end
      else error_out err
  end.
End Processor.
