(* ===== verification/BatchImageRequest.v ===== *)
(** * BatchImageRequest: what a client asks for, and what it costs

    Models the request side of [backend/internal/service/batch_image_public.go]: the validation
    and the hash of a submission, the selection of provider and account, the pricing snapshot, and
    what clients see of jobs and items. *)

From stdpp Require Import base tactics numbers list strings gmap sorting.
From Stdlib Require Import ZArith Lia.
From S2P Require Import Prelude GoLib GoJson GoFloat AppErrors Billing BatchImage Programs BatchImageStore BatchImageIndex BatchImageServices BatchImageSettlement.

Local Open Scope go_scope.
Local Open Scope Z_scope.

Definition defaultBatchImageMaxItems : Z := 200.
Definition defaultBatchImageMaxOutputImages : Z := 200.
Definition defaultBatchImageMaxOutputCount : Z := 4.
Definition defaultBatchImageMaxPromptChars : Z := 8000.
Definition defaultBatchImageResponseMime : string := "image/png".
Definition defaultBatchImageImageSize : string := "1K".
Definition defaultBatchImageDiscountMultiplier : float64 := f64_decimal 5 1.
Definition defaultBatchImageHoldMultiplier : float64 := f64_decimal 6 1.
Definition maxBatchImagePublicErrorChars : Z := 500.
Definition maxBatchImageReferenceImageBytes : Z := 10 * 1024 * 1024.
Definition defaultBatchImageMaxReferenceImages : Z := 1000.
Definition defaultBatchImageMaxReferenceBytes : Z := 128 * 1024 * 1024.

Definition PlatformGemini : string := "gemini".

Record BatchImageSubmitItem : Type := MkBatchImageSubmitItem {
  si_CustomID : string;
  si_Prompt : string;
  si_OutputCount : Z;
  si_ReferenceImages : list BatchImageReference
}.

Record BatchImageSubmitRequest : Type := MkBatchImageSubmitRequest {
  rq_Model : string;
  rq_TaskName : string;
  rq_ParentBatchID : string;
  rq_Provider : string;
  rq_Items : list BatchImageSubmitItem;
  rq_ResponseMimeType : string;
  rq_AspectRatio : string;
  rq_ImageSize : string;
  rq_Metadata : gmap string string;
  rq_SessionID : option string
}.

Record BatchImageOwner : Type := MkBatchImageOwner {
  ow_UserID : Z;
  ow_APIKeyID : Z;
  ow_GroupID : option Z
}.

Record BatchImagePricingSnapshot : Type := MkBatchImagePricingSnapshot {
  sn_BaseUnitPrice : float64;
  sn_GroupRateMultiplier : float64;
  sn_AccountRateMultiplier : float64;
  sn_BatchDiscountMultiplier : float64;
  sn_HoldMultiplier : float64;
  sn_BillableUnitPrice : float64;
  sn_HoldUnitPrice : float64;
  sn_EstimatedCost : float64;
  sn_HoldAmount : float64
}.

Definition len (s : string) : Z := Z.of_nat (String.length s).
Definition count {A : Type} (l : list A) : Z := Z.of_nat (List.length l).

(** [fmt.Sprintf("%0*d", width, n)], for [n] not negative. *)
Definition padded (width : nat) (n : Z) : string :=
  let d := FormatInt n in zeros (width - String.length d) +:+ d.

(** ** Settings *)

Definition maxItems (cfg : BatchImageConfig) : Z :=
  setting (cf_MaxItemsPerJobDefault cfg) defaultBatchImageMaxItems.
Definition maxOutputImagesPerJob (cfg : BatchImageConfig) : Z :=
  setting (cf_MaxOutputImagesPerJob cfg) defaultBatchImageMaxOutputImages.
Definition maxOutputImagesPerItem (cfg : BatchImageConfig) : Z :=
  setting (cf_MaxOutputImagesPerItem cfg) defaultBatchImageMaxOutputCount.
Definition maxPromptChars (cfg : BatchImageConfig) : Z :=
  setting (cf_MaxPromptCharsPerItem cfg) defaultBatchImageMaxPromptChars.
Definition maxReferenceImagesPerJob (cfg : BatchImageConfig) : Z :=
  setting (cf_MaxReferenceImagesPerJob cfg) defaultBatchImageMaxReferenceImages.
Definition maxReferenceInlineBytesPerJob (cfg : BatchImageConfig) : Z :=
  setting (cf_MaxReferenceInlineBytesPerJob cfg) defaultBatchImageMaxReferenceBytes.

Definition text_setting (v d : string) : string := if TrimSpace v ≟ "" then d else TrimSpace v.

Definition defaultResponseMimeType (cfg : BatchImageConfig) : string :=
  text_setting (cf_DefaultResponseMimeType cfg) defaultBatchImageResponseMime.
Definition defaultImageSize (cfg : BatchImageConfig) : string :=
  text_setting (cf_DefaultImageSize cfg) defaultBatchImageImageSize.

(** ** Texts *)

Definition sanitizeBatchImagePublicMessage (message : string) : string :=
  let message := TrimSpace message in
  let message := if existsb (Contains message) ["gs://"; "files/"; "projects/"]
                 then "upstream provider operation failed" else message in
  if maxBatchImagePublicErrorChars <? len message
  then String.substring 0 (Z.to_nat maxBatchImagePublicErrorChars) message else message.

(** The loop over the sorted keys, which stops at twenty entries. *)
Fixpoint sanitize_entries (entries : list (string * string)) (out : gmap string string)
    : gmap string string :=
  match entries with
  | [] => out
  | (k, v) :: entries =>
      let key := TrimSpace k in
      if (key ≟ "") || (64 <? len key) then sanitize_entries entries out else
      let value := TrimSpace v in
      let value := if 256 <? len value then String.substring 0 256 value else value in
      let out := <[key := value]> out in
      if 20 <=? Z.of_nat (size out) then out else sanitize_entries entries out
  end.

Definition sanitizeBatchImageMetadata (m : gmap string string) : gmap string string :=
  sanitize_entries (merge_sort key_order (map_to_list m)) ∅.

Definition batchImageRepeatSuffixWidth (count : Z) : nat :=
  if count <? 10 then 2%nat else String.length (FormatInt count).

Section Request.
Context `{GoText} `{BillingLib}.

(** [now.Format("2006-01-02 15:04:05")] in the local time zone. *)
Variable format_time : Z → string.
Variable cfg : BatchImageConfig.

(** ** Validation *)

Definition defaultBatchImageTaskName (now : Z) : string := format_time now.

Definition normalizeBatchImageReferenceMimeType (v : string) : string :=
  switch (lower_trim v)
    [(["image/jpeg"; "image/jpg"], "image/jpeg"); (["image/png"], "image/png");
     (["image/webp"], "image/webp")] "".

Definition maxBatchImageReferenceImagesForModel (model : string) : Z :=
  let model := lower_trim model in
  if Contains model "pro-image" then 14
  else if Contains model "flash-image" then 3
  else 0.

Definition normalize_reference (ref : BatchImageReference) : option BatchImageReference :=
  let ref := MkBatchImageReference
    (truncateBatchImageMessage (TrimSpace (rf_ID ref)) 80)
    (truncateBatchImageMessage (TrimSpace (rf_Type ref)) 40)
    (normalizeBatchImageReferenceMimeType (rf_MimeType ref))
    (rf_Data ref) (TrimSpace (rf_FileURI ref)) in
  if (rf_MimeType ref ≟ "") ||
     ((rf_Data ref ≟ "") && (rf_FileURI ref ≟ "")) ||
     (negb (rf_Data ref ≟ "") && negb (rf_FileURI ref ≟ "")) ||
     (maxBatchImageReferenceImageBytes <? len (rf_Data ref)) ||
     (negb (rf_FileURI ref ≟ "") && negb (HasPrefix (rf_FileURI ref) "gs://"))
  then None else Some ref.

(** The normalised images and their inline bytes. *)
Definition normalizeBatchImageReferenceInputs (model : string) (refs : list BatchImageReference)
    : result (list BatchImageReference * Z) :=
  match refs with
  | [] => inl ([], 0)
  | _ =>
      let maxRefs := maxBatchImageReferenceImagesForModel model in
      if (maxRefs <=? 0) || (maxRefs <? count refs)
      then inr (as_error ErrBatchImageTooManyReferenceImages) else
      match mapM normalize_reference refs with
      | None => inr (as_error ErrBatchImageInvalidReferenceImage)
      | Some out => inl (out, foldr Z.add 0 ((λ r, len (rf_Data r)) <$> out))
      end
  end.

(** The sums of the loop over the items, and the items it has expanded. *)
Record validation : Type := MkValidation {
  va_references : Z;
  va_bytes : Z;
  va_images : Z;
  va_items : list BatchImageSubmitItem
}.

Definition repeated (item : BatchImageSubmitItem) (outputCount : Z) (n : nat)
    : BatchImageSubmitItem :=
  MkBatchImageSubmitItem
    (if 1 <? outputCount
     then si_CustomID item +:+ "_" +:+
          padded (batchImageRepeatSuffixWidth outputCount) (Z.of_nat n + 1)
     else si_CustomID item)
    (si_Prompt item) 0 (si_ReferenceImages item).

Fixpoint add_items (new : list BatchImageSubmitItem) (items : list BatchImageSubmitItem)
    : option (list BatchImageSubmitItem) :=
  match new with
  | [] => Some items
  | i :: new =>
      if existsb (λ j, si_CustomID j ≟ si_CustomID i) items then None
      else add_items new (items ++ [i])
  end.

(** One turn of the loop, for the item at index [i]. *)
Definition validate_item (model : string) (i : nat) (item : BatchImageSubmitItem) (v : validation)
    : result validation :=
  let customID := TrimSpace (si_CustomID item) in
  let customID := if customID ≟ "" then "item_" +:+ padded 6 (Z.of_nat i + 1) else customID in
  let outputCount := if si_OutputCount item =? 0 then 1 else si_OutputCount item in
  if (outputCount <? 1) || (maxOutputImagesPerItem cfg <? outputCount)
  then inr (as_error ErrBatchImageInvalidItems) else
  let images := va_images v +! outputCount in
  if maxOutputImagesPerJob cfg <? images
  then inr (as_error ErrBatchImageTooManyOutputImages) else
  let prompt := TrimSpace (si_Prompt item) in
  if prompt ≟ "" then inr (as_error ErrBatchImageInvalidItems) else
  if maxPromptChars cfg <? len prompt then inr (as_error ErrBatchImagePromptTooLong) else
  match normalizeBatchImageReferenceInputs model (si_ReferenceImages item) with
  | inr err => inr err
  | inl (refs, bytes) =>
      let references := va_references v +! count refs *! outputCount in
      if maxReferenceImagesPerJob cfg <? references
      then inr (as_error ErrBatchImageTooManyReferenceImages) else
      let bytes := va_bytes v +! bytes *! outputCount in
      if maxReferenceInlineBytesPerJob cfg <? bytes
      then inr (as_error ErrBatchImageReferenceImagesTooLarge) else
      let item := MkBatchImageSubmitItem customID prompt outputCount refs in
      match add_items (repeated item outputCount <$> seq 0 (Z.to_nat outputCount)) (va_items v) with
      | None => inr (as_error ErrBatchImageDuplicateCustomIDInRequest)
      | Some items => inl (MkValidation references bytes images items)
      end
  end.

Fixpoint validate_items (model : string) (i : nat) (items : list BatchImageSubmitItem)
    (v : validation) : result validation :=
  match items with
  | [] => inl v
  | item :: items =>
      match validate_item model i item v with
      | inr err => inr err
      | inl v => validate_items model (S i) items v
      end
  end.

Definition validateSubmitRequest (now : Z) (req : BatchImageSubmitRequest)
    : result BatchImageSubmitRequest :=
  let model := TrimSpace (rq_Model req) in
  if model ≟ "" then inr (as_error ErrBatchImageInvalidModel) else
  let taskName := TrimSpace (rq_TaskName req) in
  let taskName := if taskName ≟ "" then defaultBatchImageTaskName now else taskName in
  let taskName := if 255 <? len taskName then truncateBatchImageMessage taskName 255 else taskName in
  let provider := TrimSpace (rq_Provider req) in
  if negb (provider ≟ "") && negb (IsSupportedBatchImageProvider provider)
  then inr (as_error ErrBatchImageUnsupportedProvider) else
  if (count (rq_Items req) =? 0) || (maxItems cfg <? count (rq_Items req))
  then inr (as_error ErrBatchImageInvalidItems) else
  let mime := TrimSpace (rq_ResponseMimeType req) in
  let size := TrimSpace (rq_ImageSize req) in
  if negb (EqualFold (if size ≟ "" then defaultImageSize cfg else size) defaultBatchImageImageSize)
  then inr (as_error ErrBatchImageInvalidItems) else
  match validate_items model 0 (rq_Items req) (MkValidation 0 0 0 []) with
  | inr err => inr err
  | inl v =>
      inl (MkBatchImageSubmitRequest model taskName (TrimSpace (rq_ParentBatchID req)) provider
        (va_items v) (if mime ≟ "" then defaultResponseMimeType cfg else mime)
        (TrimSpace (rq_AspectRatio req)) defaultBatchImageImageSize
        (sanitizeBatchImageMetadata (rq_Metadata req)) (rq_SessionID req))
  end.

(** ** The hash *)

Variable base64 : string → string.

Definition member (name value : string) : string := MarshalString name +:+ ":" +:+ value.

(** A member that [omitempty] leaves out. *)
Definition omitempty (name : string) (empty : bool) (value : string) : list string :=
  if empty then [] else [member name value].

Definition marshal_members (l : list string) : string := "{" +:+ comma_join l +:+ "}".
Definition marshal_list {A : Type} (f : A → string) (l : list A) : string :=
  "[" +:+ comma_join (f <$> l) +:+ "]".

Definition marshal_reference (r : BatchImageReference) : string :=
  marshal_members
    (omitempty "id" (rf_ID r ≟ "") (MarshalString (rf_ID r)) ++
     omitempty "type" (rf_Type r ≟ "") (MarshalString (rf_Type r)) ++
     [member "mime_type" (MarshalString (rf_MimeType r))] ++
     omitempty "data" (rf_Data r ≟ "") (MarshalString (base64 (rf_Data r))) ++
     omitempty "file_uri" (rf_FileURI r ≟ "") (MarshalString (rf_FileURI r))).

Definition marshal_item (i : BatchImageSubmitItem) : string :=
  marshal_members
    ([member "custom_id" (MarshalString (si_CustomID i));
      member "prompt" (MarshalString (si_Prompt i))] ++
     omitempty "output_count" (si_OutputCount i =? 0) (FormatInt (si_OutputCount i)) ++
     omitempty "reference_images" (Nat.eqb (List.length (si_ReferenceImages i)) 0)
       (marshal_list marshal_reference (si_ReferenceImages i))).

(** [json.Marshal(req)], given the text of the metadata; the session is left out. *)
Definition marshal_request (metadata : string) (r : BatchImageSubmitRequest) : string :=
  marshal_members
    [member "model" (MarshalString (rq_Model r));
     member "task_name" (MarshalString (rq_TaskName r));
     member "parent_batch_id" (MarshalString (rq_ParentBatchID r));
     member "provider" (MarshalString (rq_Provider r));
     member "items" (marshal_list marshal_item (rq_Items r));
     member "response_mime_type" (MarshalString (rq_ResponseMimeType r));
     member "aspect_ratio" (MarshalString (rq_AspectRatio r));
     member "image_size" (MarshalString (rq_ImageSize r));
     member "metadata" metadata].

Definition HashBatchImageSubmitRequest (req : BatchImageSubmitRequest) : string :=
  let metadata := if bool_decide (rq_Metadata req = ∅) then "null"
                  else MarshalStringMap (sanitizeBatchImageMetadata (rq_Metadata req)) in
  sha256_hex (marshal_request metadata req).

(** ** Accounts *)

Definition batchImageProviderPlatform (provider : string) : string := PlatformGemini.

Definition batchImageProviderSelectionOrder (requestedProvider : string) : list string :=
  if negb (TrimSpace requestedProvider ≟ "") then [TrimSpace requestedProvider]
  else [BatchImageProviderGeminiAPI; BatchImageProviderVertex].

Context `{BatchImageProviders} `{BatchImageQueue} `{AmountCodec}.

Definition listCandidateAccounts (groupID : option Z) (platform : string)
    : proc batch_world (result (list Account)) :=
  match positive_id groupID with
  | Some g => call (ListSchedulableByGroupIDAndPlatform g platform)
  | None => call (ListSchedulableByPlatform platform)
  end.

Definition account_order (a b : Account) : Prop :=
  Priority b < Priority a ∨ Priority a = Priority b ∧ account_ID a <= account_ID b.

#[export] Instance account_order_dec a b : Decision (account_order a b).
Proof. unfold account_order. apply _. Defined.

Fixpoint select_among (providers : list string) (groupID : option Z) (model : string)
    : proc batch_world (result (string * Account)) :=
  match providers with
  | [] => error_out (as_error ErrBatchImageNoAccountAvailable)
  | name :: providers =>
      if negb (registered name) then select_among providers groupID model else
      accounts ⇐! listCandidateAccounts groupID (batchImageProviderPlatform name);
      match List.find (λ a, IsSchedulable a && IsModelSupported a model && SupportsAccount name a)
              (merge_sort account_order accounts) with
      | Some account => ok (name, account)
      | None => select_among providers groupID model
      end
  end.

Definition selectProviderAndAccount (owner : BatchImageOwner) (requestedProvider model : string)
    : proc batch_world (result (string * Account)) :=
  select_among (batchImageProviderSelectionOrder requestedProvider) (ow_GroupID owner) model.

Definition ensureGroupAllowsBatchImage (groupID : option Z) : proc batch_world (result unit) :=
  match positive_id groupID with
  | None => ok tt
  | Some id =>
      group ← call (GetByIDLite id);
      mret match group with
      | inl (Some g) =>
          if negb (g_AllowBatchImageGeneration g) || negb (g_Platform g ≟ PlatformGemini)
          then inr (as_error ErrBatchImageGroupDisabled) else inl tt
      | _ => inr (as_error ErrBatchImageSettlementPricingMissing)
      end
  end.

(** ** Prices *)

(** What a group says of the price: multipliers of the rate, the discount and the hold, and the
    unit price it configures. *)
Record group_pricing : Type := MkGroupPricing {
  gp_multiplier : float64;
  gp_discount : float64;
  gp_hold : float64;
  gp_unit : option float64
}.

Definition default_pricing : group_pricing :=
  MkGroupPricing (f64_of_int 1) defaultBatchImageDiscountMultiplier
    defaultBatchImageHoldMultiplier None.

Definition pricing_of_group (g : Group) (userRate : option float64) (imageSize : string)
    : group_pricing :=
  let effective := match userRate with
                   | Some r => r
                   | None => at_least_zero (g_RateMultiplier g)
                   end in
  let multiplier := if g_ImageRateIndependent g then g_ImageRateMultiplier g else effective in
  MkGroupPricing (at_least_zero multiplier)
    (at_least_zero (g_BatchImageDiscountMultiplier g))
    (if f64_leb f64_zero (g_BatchImageHoldMultiplier g) then g_BatchImageHoldMultiplier g
     else defaultBatchImageHoldMultiplier)
    (match GetImagePrice g imageSize with
     | Some u => if f64_leb f64_zero u then Some u else None
     | None => None
     end).

Definition group_pricing_of (owner : BatchImageOwner) (imageSize : string)
    : proc batch_world (result group_pricing) :=
  match positive_id (ow_GroupID owner) with
  | None => ok default_pricing
  | Some id =>
      group ← call (GetByIDLite id);
      match group with
      | inl (Some g) =>
          if negb (g_AllowBatchImageGeneration g)
          then error_out (as_error ErrBatchImageGroupDisabled) else
          rate ← call (GetByUserAndGroup (ow_UserID owner) (g_ID g));
          mret match rate with
          | inl userRate => inl (pricing_of_group g userRate imageSize)
          | inr _ => inr (as_error ErrBatchImageSettlementPricingMissing)
          end
      | _ => error_out (as_error ErrBatchImageSettlementPricingMissing)
      end
  end.

(** The hold is never below the discount. *)
Definition price_snapshot (unit : float64) (p : group_pricing) (accountRate : float64) (items : Z)
    : BatchImagePricingSnapshot :=
  let hold := if f64_ltb (gp_hold p) (gp_discount p) then gp_discount p else gp_hold p in
  let accountMultiplier := at_least_zero accountRate in
  let standard := f64_mul (f64_mul unit (gp_multiplier p)) accountMultiplier in
  let billable := f64_mul standard (gp_discount p) in
  let holdUnit := f64_mul standard hold in
  MkBatchImagePricingSnapshot unit (gp_multiplier p) accountMultiplier (gp_discount p) hold
    billable holdUnit (f64_mul billable (f64_of_int items)) (f64_mul holdUnit (f64_of_int items)).

Definition resolvePricingSnapshot (owner : BatchImageOwner) (req : BatchImageSubmitRequest)
    (account : Account) : proc batch_world (result BatchImagePricingSnapshot) :=
  p ⇐! group_pricing_of owner (rq_ImageSize req);
  unit ⇐! match gp_unit p with
          | Some u => ok u
          | None =>
              price ← BatchImageUnitPrice (rq_Model req);
              mret match price with
              | inl u => if f64_ltb u f64_zero
                         then inr (as_error ErrBatchImageSettlementPricingMissing) else inl u
              | inr _ => inr (as_error ErrBatchImageSettlementPricingMissing)
              end
          end;
  ok (price_snapshot unit p (BillingRateMultiplier account) (count (rq_Items req))).
End Request.
