(* ===== verification/BatchImagePublic.v ===== *)
(** * BatchImagePublic: the operations clients call

    Models [BatchImagePublicService] of [backend/internal/service/batch_image_public.go]:
    submission, cancellation, listing and deletion of records.  The heartbeat that runs beside a
    submission is [submit_heartbeat], a program of its own; the listing of models is left out. *)

From stdpp Require Import base tactics numbers list strings gmap.
From Stdlib Require Import ZArith Lia.
From S2P Require Import Prelude GoLib GoFloat AppErrors Billing BatchImage Programs BatchImageStore BatchImageIndex BatchImageServices BatchImageSettlement BatchImageRequest.

Local Open Scope go_scope.
Local Open Scope Z_scope.

(** ** What clients see *)

Record BatchImagePublicBatch : Type := MkBatchImagePublicBatch {
  pb_ID : string;
  pb_TaskName : string;
  pb_ParentBatchID : option string;
  pb_Status : string;
  pb_Model : string;
  pb_Provider : string;
  pb_ItemCount : Z;
  pb_SuccessCount : Z;
  pb_FailCount : Z;
  pb_EstimatedCost : float64;
  pb_HoldAmount : float64;
  pb_ActualCost : option float64;
  pb_CreatedAt : Z;
  pb_SubmittedAt : option Z;
  pb_SettledAt : option Z;
  pb_DownloadedAt : option Z;
  pb_OutputDeletedAt : option Z
}.

Record BatchImagePublicError : Type := MkBatchImagePublicError {
  pe_Code : string;
  pe_Message : string;
  pe_Source : string
}.

Record BatchImagePublicItem : Type := MkBatchImagePublicItem {
  pi_CustomID : string;
  pi_Status : string;
  pi_PromptPreview : option string;
  pi_MimeType : option string;
  pi_FileExtension : option string;
  pi_ImageCount : Z;
  pi_Error : option BatchImagePublicError
}.

Definition PublicBatchImageStatus (status : string) : string :=
  switch status
    [([BatchImageJobStatusCreated; BatchImageJobStatusUploading; BatchImageJobStatusSubmitted],
      "queued");
     ([BatchImageJobStatusRunning], "running");
     ([BatchImageJobStatusIndexing], "processing_results");
     ([BatchImageJobStatusSettling], "settling");
     ([BatchImageJobStatusCompleted], "completed");
     ([BatchImageJobStatusFailed], "failed");
     ([BatchImageJobStatusCancelled], "cancelled");
     ([BatchImageJobStatusOutputDeleted], "output_deleted")]
    status.

(** [t.Unix()]: seconds, rounded down. *)
Definition Unix (t : Z) : Z := t / Second.

Definition batchImageItemErrorSource (item : BatchImageItem) : string :=
  match it_ErrorCode item with
  | None => ""
  | Some code =>
      if negb (batchImageDerefString (it_ProviderSourceObject item) ≟ "") then "provider" else
      switch (TrimSpace code)
        [(["EMPTY_IMAGE_OUTPUT"; "PROVIDER_ITEM_FAILED"], "provider");
         (["INDEX_OUTPUT_MISSING"; "INDEX_PARSE_FAILED"; "DUPLICATE_CUSTOM_ID_IN_OUTPUT"], "system")]
        ""
  end.

Definition BatchImageItemToPublic (item : BatchImageItem) : BatchImagePublicItem :=
  let out status err := MkBatchImagePublicItem (it_CustomID item) status (it_PromptPreview item)
    (it_MimeType item) (it_FileExtension item) (it_ImageCount item) err in
  if it_Status item ≟ BatchImageItemStatusPending then out "pending" None
  else if it_Status item ≟ BatchImageItemStatusSuccess then out "succeeded" None
  else out "failed" (Some (MkBatchImagePublicError
         (batchImageDerefString (it_ErrorCode item))
         (sanitizeBatchImagePublicMessage (batchImageDerefString (it_ErrorMessage item)))
         (batchImageItemErrorSource item))).

Definition parseBatchImageCursor (cursor : string) : Z :=
  match ParseInt (TrimSpace cursor) with
  | Some offset => if offset <? 0 then 0 else offset
  | None => 0
  end.

Definition batchImageGCSRef (provider ref : string) : string :=
  if (provider ≟ BatchImageProviderVertex) && HasPrefix (TrimSpace ref) "gs://"
  then TrimSpace ref else "".

Definition batchImageProviderSubmitPublicError (err : error) : ApplicationError :=
  switch (TrimSpace (Reason (Some err)))
    [(["VERTEX_MANAGED_GCS_BUCKET_MISSING"], ErrBatchImageVertexGCSBucketMissing);
     (["BATCH_IMAGE_PROVIDER_MISSING_API_KEY"], ErrBatchImageProviderMissingAPIKey);
     (["BATCH_IMAGE_PROVIDER_MISSING_SERVICE_ACCOUNT"], ErrBatchImageProviderMissingServiceAccount);
     (["BATCH_IMAGE_PROVIDER_UNSUPPORTED_ACCOUNT"], ErrBatchImageProviderUnsupportedAccount)]
    ErrBatchImageProviderSubmitFailed.

Definition batchImageProviderSubmitRecordCode (err : error) : string :=
  let reason := TrimSpace (Reason (Some err)) in
  if (reason ≟ "") || (reason ≟ "BATCH_IMAGE_PROVIDER_SUBMIT_FAILED")
  then "PROVIDER_SUBMIT_FAILED" else reason.

Section Public.
Context `{BatchImageProviders} `{BatchImageQueue} `{BillingLib} `{AmountCodec} `{GoText}.
Variables (format_time : Z → string) (base64 : string → string) (cfg : BatchImageConfig).

Definition batchImagePublicTaskName (job : BatchImageJob) : string :=
  if negb (TrimSpace (j_TaskName job) ≟ "") then TrimSpace (j_TaskName job)
  else defaultBatchImageTaskName format_time (j_CreatedAt job).

Definition BatchImageJobToPublic (job : BatchImageJob) : BatchImagePublicBatch :=
  MkBatchImagePublicBatch (j_BatchID job) (batchImagePublicTaskName job) (j_ParentBatchID job)
    (PublicBatchImageStatus (j_Status job)) (j_Model job) (j_Provider job)
    (j_ItemCount job) (j_SuccessCount job) (j_FailCount job) (j_EstimatedCost job)
    (hold_amount job) (j_ActualCost job) (Unix (j_CreatedAt job))
    (Unix <$> j_SubmittedAt job) (Unix <$> j_SettledAt job) (Unix <$> j_DownloadedAt job)
    (Unix <$> j_OutputDeletedAt job).

Definition public_job (job : BatchImageJob) : proc batch_world (result BatchImagePublicBatch) :=
  ok (BatchImageJobToPublic job).

(** ** Submission *)

(** An attempt whose error is dropped. *)
Definition try_ {A} (p : proc batch_world (result A)) : proc batch_world unit := _ ← p; mret tt.

Definition record_failure (batchID code message : string) (markFailed : bool)
    : proc batch_world unit :=
  try_ (repo (RecordBatchImageJobSubmitFailure batchID code message markFailed)).

Definition public_text (err : error) : string := sanitizeBatchImagePublicMessage (error_text err).

Definition enqueueBillingRetry (batchID : string) : proc batch_world unit :=
  r ← queued (Enqueue batchID);
  match enqueue_failed r with
  | None => mret tt
  | Some err => try_ (repo (AppendBatchImageEvent batchID "billing_retry_enqueue_failed"))
  end.

Definition hidePreUpstreamSubmitFailure (owner : BatchImageOwner) (job : BatchImageJob)
    : proc batch_world unit :=
  match j_ProviderJobName job with
  | Some _ => mret tt
  | None =>
      now ← time_now;
      try_ (repo (MarkBatchImageJobUserDeleted (ow_UserID owner) (ow_APIKeyID owner)
                    (j_BatchID job) now))
  end.

(** The release of the hold of a submission that failed. *)
Definition releaseFailedSubmitHold (job : BatchImageJob) (requestHash : string)
    : proc batch_world (result unit) :=
  released ← releaseBatchImageBalanceHold job requestHash;
  match released with
  | inr err =>
      _ ← record_failure (j_BatchID job) "BILLING_RELEASE_FAILED" (public_text err) true;
      _ ← enqueueBillingRetry (j_BatchID job);
      error_out (as_error ErrBatchImageBillingHoldFailed)
  | inl _ => _ ← invalidateAuthCache (j_UserID job); ok tt
  end.

(** The way out of a submission behind its hold: the hold is released, and the failure recorded. *)
Definition abandon {A} (owner : BatchImageOwner) (job : BatchImageJob) (requestHash code message : string)
    (err : error) : proc batch_world (result A) :=
  _ ⇐! releaseFailedSubmitHold job requestHash;
  _ ← record_failure (j_BatchID job) code message true;
  _ ← hidePreUpstreamSubmitFailure owner job;
  error_out err.

Definition pending_item (batchID requestHash : string) (item : BatchImageSubmitItem)
    : CreateBatchImageItemParams :=
  MkCreateBatchImageItemParams batchID (si_CustomID item) BatchImageItemStatusPending
    (batchImageStringPtr requestHash)
    (batchImageStringPtr (truncateBatchImageMessage (si_Prompt item) (maxPromptChars cfg)))
    None None None None None None 0 None None None None.

Definition createPendingItems (batchID requestHash : string) (items : list BatchImageSubmitItem)
    : proc batch_world (result unit) :=
  repo (BulkCreateBatchImageItems (pending_item batchID requestHash <$> items)).

Definition provider_input (job : BatchImageJob) (req : BatchImageSubmitRequest) : BatchImageInput :=
  MkBatchImageInput (j_BatchID job) (rq_Model req) (j_BatchID job)
    ((λ i, MkBatchImageInputItem (si_CustomID i) (si_Prompt i) (si_ReferenceImages i))
       <$> rq_Items req)
    (rq_ResponseMimeType req) (rq_AspectRatio req) (rq_ImageSize req) (rq_Metadata req).

(** The provider has the batch but the job could not be advanced: undo it as well as possible. *)
Definition abortOrphanProviderJob (provider : string) (job : BatchImageJob) (account : Account)
    (providerJob : BatchProviderJob) : proc batch_world unit :=
  let orphan := job{{
    j_ProviderJobName := batchImageOptionalStringPtr (pj_ProviderJobName providerJob);
    j_ProviderInputRef := batchImageOptionalStringPtr (pj_ProviderInputRef providerJob);
    j_GCSInputURI := batchImageOptionalStringPtr
                       (batchImageGCSRef provider (pj_ProviderInputRef providerJob)) }} in
  _ ← try_ (call (provider_Cancel provider orphan account));
  _ ← try_ (call (provider_Cleanup provider orphan account CleanupTargetInput));
  try_ (repo (AppendBatchImageEvent (j_BatchID job) "provider_job_aborted_after_submit")).

Definition submit_params (owner : BatchImageOwner) (req : BatchImageSubmitRequest)
    (provider : string) (account : Account) (snapshot : BatchImagePricingSnapshot)
    (parentBatchID : option string) (batchID idempotencyKey requestHash : string)
    : CreateBatchImageJobParams :=
  MkCreateBatchImageJobParams batchID (ow_UserID owner) (Some (ow_APIKeyID owner))
    (Some (account_ID account)) provider (rq_Model req) (rq_TaskName req) parentBatchID
    BatchImageJobStatusCreated None None None None None (count (rq_Items req)) 0 0 0
    (sn_EstimatedCost snapshot) (Some (sn_HoldAmount snapshot)) None
    (sn_BaseUnitPrice snapshot) (sn_GroupRateMultiplier snapshot)
    (sn_AccountRateMultiplier snapshot) (sn_BatchDiscountMultiplier snapshot)
    (sn_HoldMultiplier snapshot) (sn_BillableUnitPrice snapshot) (sn_HoldUnitPrice snapshot)
    1 "USD" (Some (BatchImageHoldRequestID batchID))
    (batchImageOptionalStringPtr idempotencyKey) (batchImageStringPtr requestHash) None
    (rq_SessionID req) 0 None.

(** Behind the upload: the job is handed to the provider, then to the queue. *)
Definition submit_upstream (owner : BatchImageOwner) (req : BatchImageSubmitRequest)
    (provider : string) (account : Account) (job : BatchImageJob) (requestHash : string)
    : proc batch_world (result BatchImagePublicBatch) :=
  let job := job{{ j_Status := BatchImageJobStatusUploading }} in
  submitted ← call (provider_Submit provider job account (provider_input job req));
  match submitted with
  | inr err =>
      let publicErr := as_error (batchImageProviderSubmitPublicError err) in
      abandon owner job requestHash (batchImageProviderSubmitRecordCode publicErr)
        (public_text err) publicErr
  | inl None =>
      abandon owner job requestHash "PROVIDER_SUBMIT_FAILED" "provider job name missing"
        (as_error ErrBatchImageProviderSubmitFailed)
  | inl (Some pj) =>
      if TrimSpace (pj_ProviderJobName pj) ≟ "" then
        abandon owner job requestHash "PROVIDER_SUBMIT_FAILED" "provider job name missing"
          (as_error ErrBatchImageProviderSubmitFailed)
      else
      updated ← repo (UpdateBatchImageJobProviderSubmit
        (MkUpdateBatchImageJobProviderSubmitParams (j_BatchID job) (pj_ProviderJobName pj)
           (pj_ProviderInputRef pj) (pj_ProviderOutputRef pj)
           (batchImageGCSRef provider (pj_ProviderInputRef pj))
           (batchImageGCSRef provider (pj_ProviderOutputRef pj))));
      match updated with
      | inr err => _ ← abortOrphanProviderJob provider job account pj; error_out err
      | inl _ =>
          enqueued ← queued (Enqueue (j_BatchID job));
          match enqueue_failed enqueued with
          | Some err =>
              _ ← record_failure (j_BatchID job) "QUEUE_FAILED" (public_text err) false;
              error_out (as_error ErrBatchImageQueueFailed)
          | None =>
              created ⇐! repo (GetBatchImageJobByBatchID (j_BatchID job)); public_job created
          end
      end
  end.

(** From the created job on. *)
Definition submit_job (owner : BatchImageOwner) (req : BatchImageSubmitRequest)
    (provider : string) (account : Account) (job : BatchImageJob) (requestHash : string)
    : proc batch_world (result BatchImagePublicBatch) :=
  reserved ← reserveBatchImageBalanceHold job requestHash;
  match reserved with
  | inr err =>
      let code := if errors_Is err (as_error ErrBatchImageInsufficientBalance)
                  then "INSUFFICIENT_BALANCE" else "BILLING_HOLD_FAILED" in
      _ ← record_failure (j_BatchID job) code (public_text err) true;
      _ ← hidePreUpstreamSubmitFailure owner job;
      error_out err
  | inl _ =>
      _ ← invalidateAuthCache (ow_UserID owner);
      items ← createPendingItems (j_BatchID job) requestHash (rq_Items req);
      match items with
      | inr err =>
          abandon owner job requestHash "ITEM_CREATE_FAILED" (public_text err)
            (as_error ErrBatchImageQueueFailed)
      | inl _ =>
          uploading ← transition (j_BatchID job) BatchImageJobStatusUploading None None
                        "upload_started";
          match uploading with
          | inl _ => submit_upstream owner req provider account job requestHash
          | inr err =>
              if errors_Is err (as_error ErrBatchImageInvalidTransition)
              then _ ⇐! releaseFailedSubmitHold job requestHash; error_out err
              else abandon owner job requestHash "UPLOAD_TRANSITION_FAILED" (public_text err) err
          end
      end
  end.

(** A job that the key already made answers for it. *)
Definition replay_submission (existing : BatchImageJob) (requestHash : string)
    : proc batch_world (result BatchImagePublicBatch) :=
  if negb (batchImageDerefString (j_RequestHash existing) ≟ requestHash)
  then error_out (as_error ErrBatchImageIdempotencyConflict) else
  if negb (j_Status existing ≟ BatchImageJobStatusSubmitted) then public_job existing else
  enqueued ← queued (Enqueue (j_BatchID existing));
  match enqueue_failed enqueued with
  | Some err =>
      _ ← record_failure (j_BatchID existing) "QUEUE_FAILED" (public_text err) false;
      error_out (as_error ErrBatchImageQueueFailed)
  | None => public_job existing
  end.

Definition parent_of (owner : BatchImageOwner) (parentBatchID : string)
    : proc batch_world (result (option string)) :=
  match batchImageOptionalStringPtr parentBatchID with
  | None => ok None
  | Some id =>
      parent ⇐! repo (GetBatchImageJobByBatchIDForOwner (ow_UserID owner) (ow_APIKeyID owner) id);
      ok match j_ParentBatchID parent with
         | Some p => if TrimSpace p ≟ "" then Some id else batchImageOptionalStringPtr p
         | None => Some id
         end
  end.

(** A submission that no job answers for yet. *)
Definition submit_new (newID : result string) (owner : BatchImageOwner)
    (req : BatchImageSubmitRequest) (idempotencyKey requestHash : string)
    : proc batch_world (result BatchImagePublicBatch) :=
  selected ⇐! selectProviderAndAccount owner (rq_Provider req) (rq_Model req);
  let '(provider, account) := selected in
  snapshot ⇐! resolvePricingSnapshot owner req account;
  parent ⇐! parent_of owner (rq_ParentBatchID req);
  batchID ⇐! mret newID;
  job ⇐! repo (CreateBatchImageJob newID
          (submit_params owner req provider account snapshot parent batchID idempotencyKey
             requestHash));
  submit_job owner req provider account job requestHash.

(** [newID] is what [NewBatchImageID] draws. *)
Definition Submit (newID : result string) (owner : BatchImageOwner) (req : BatchImageSubmitRequest)
    (idempotencyKey : string) : proc batch_world (result BatchImagePublicBatch) :=
  if negb (cf_Enabled cfg) then error_out (as_error ErrBatchImageDisabled) else
  now ← time_now;
  match validateSubmitRequest format_time cfg now req with
  | inr err => error_out err
  | inl req =>
      _ ⇐! ensureGroupAllowsBatchImage (ow_GroupID owner);
      let requestHash := HashBatchImageSubmitRequest base64 req in
      let key := TrimSpace idempotencyKey in
      if key ≟ "" then submit_new newID owner req key requestHash else
      existing ← repo (GetBatchImageJobByIdempotencyKey (ow_UserID owner) (ow_APIKeyID owner) key);
      match existing with
      | inl job => replay_submission job requestHash
      | inr err =>
          if errors_Is err (as_error ErrBatchImageJobNotFound)
          then submit_new newID owner req key requestHash
          else error_out err
      end
  end.

(** [runSubmitHeartbeat], one beat; it runs beside [provider_Submit]. *)
Definition submit_heartbeat (batchID : string) : proc batch_world unit :=
  try_ (repo (TouchBatchImageJobSubmitting batchID)).

(** ** Cancellation *)

Definition find_owned (owner : BatchImageOwner) (batchID : string)
    : proc batch_world (result BatchImageJob) :=
  repo (GetBatchImageJobByBatchIDForOwner (ow_UserID owner) (ow_APIKeyID owner) batchID).

(** Release, or leave the release to the worker. *)
Definition release_or_retry (owner : BatchImageOwner) (job : BatchImageJob)
    : proc batch_world (result unit) :=
  released ← release_hold job;
  match released with
  | inr _ => _ ← enqueueBillingRetry (j_BatchID job); error_out (as_error ErrBatchImageCancelFailed)
  | inl _ => _ ← invalidateAuthCache (ow_UserID owner); ok tt
  end.

(** The job is at the provider: ask it, and let the worker see the answer. *)
Definition cancel_upstream (owner : BatchImageOwner) (job : BatchImageJob)
    : proc batch_world (result BatchImagePublicBatch) :=
  let failed {A} : proc batch_world (result A) := error_out (as_error ErrBatchImageCancelFailed) in
  if negb (registered (j_Provider job))
  then error_out (as_error ErrBatchImageUnsupportedProvider) else
  match j_AccountID job with
  | None => failed
  | Some accountID =>
      account ← call (GetAccountByID accountID);
      match account with
      | inr _ => failed
      | inl account =>
          cancelled ← call (provider_Cancel (j_Provider job) job account);
          match cancelled with
          | inr _ => failed
          | inl _ =>
              _ ← try_ (repo (AppendBatchImageEvent (j_BatchID job) "job_cancel_requested"));
              enqueued ← queued (Enqueue (j_BatchID job));
              match enqueue_failed enqueued with
              | Some _ => failed
              | None => updated ⇐! find_owned owner (j_BatchID job); public_job updated
              end
          end
      end
  end.

Definition Cancel (owner : BatchImageOwner) (batchID : string)
    : proc batch_world (result BatchImagePublicBatch) :=
  job ⇐! find_owned owner batchID;
  if isBatchImageProcessorDoneStatus (j_Status job) then
    if (j_Status job ≟ BatchImageJobStatusFailed) || (j_Status job ≟ BatchImageJobStatusCancelled)
    then _ ⇐! release_or_retry owner job; public_job job
    else public_job job
  else if negb (batchImageDerefString (j_ProviderJobName job) ≟ "") then cancel_upstream owner job
  else
    _ ⇐! transition (j_BatchID job) BatchImageJobStatusCancelled None None "job_cancelled";
    _ ⇐! release_or_retry owner job;
    updated ⇐! find_owned owner batchID;
    public_job updated.

(** ** Reading and deleting *)

Definition Get (owner : BatchImageOwner) (batchID : string)
    : proc batch_world (result BatchImagePublicBatch) :=
  job ⇐! find_owned owner batchID; public_job job.

Definition MarkDownloaded (owner : BatchImageOwner) (batchID : string)
    : proc batch_world (result unit) :=
  job ⇐! find_owned owner batchID;
  now ← time_now;
  repo (MarkBatchImageDownloaded (j_BatchID job) now).

Definition DeleteRecord (owner : BatchImageOwner) (batchID : string)
    : proc batch_world (result unit) :=
  job ⇐! find_owned owner batchID;
  if negb (isBatchImageProcessorDoneStatus (j_Status job))
  then error_out (as_error ErrBatchImageRecordDeleteNotReady) else
  now ← time_now;
  repo (MarkBatchImageJobUserDeleted (ow_UserID owner) (ow_APIKeyID owner) (j_BatchID job) now).

Record BatchImageJobsQuery : Type := MkBatchImageJobsQuery {
  jq_Status : string;
  jq_TaskName : string;
  jq_Downloaded : string;
  jq_From : option Z;
  jq_To : option Z;
  jq_Limit : Z;
  jq_Cursor : string
}.

Definition list_status (status : string) : string :=
  switch (TrimSpace status)
    [([""; "all"], "");
     (["queued"], BatchImageJobStatusSubmitted);
     (["processing_results"], BatchImageJobStatusIndexing);
     (["completed"], BatchImageJobStatusCompleted);
     (["failed"], BatchImageJobStatusFailed);
     (["cancelled"], BatchImageJobStatusCancelled);
     (["output_deleted"], BatchImageJobStatusOutputDeleted)]
    (TrimSpace status).

(** [None] for a value that is refused. *)
Definition list_downloaded (downloaded : string) : option (option bool) :=
  switch (TrimSpace (ToLower downloaded))
    [([""; "all"], Some None);
     (["true"; "1"; "yes"; "downloaded"], Some (Some true));
     (["false"; "0"; "no"; "not_downloaded"], Some (Some false))]
    None.

(** The answer's data and whether there may be more; the times of the query are parsed. *)
Definition List_ (ilike : string → string → bool) (owner : BatchImageOwner)
    (query : BatchImageJobsQuery) : proc batch_world (result (list BatchImagePublicBatch * bool)) :=
  match list_downloaded (jq_Downloaded query) with
  | None => error_out (as_error ErrBatchImageInvalidItems)
  | Some downloaded =>
      let limit := if (jq_Limit query <=? 0) || (100 <? jq_Limit query) then 20
                   else jq_Limit query in
      jobs ⇐! repo (ListBatchImageJobsForOwner ilike (ow_UserID owner) (ow_APIKeyID owner)
        (MkBatchImageJobFilter (list_status (jq_Status query)) (TrimSpace (jq_TaskName query))
           downloaded (jq_From query) (jq_To query) true limit
           (parseBatchImageCursor (jq_Cursor query))));
      ok (BatchImageJobToPublic <$> jobs, count jobs =? limit)
  end.

(** [None] for a value that is refused. *)
Definition items_status (status : string) : option string :=
  switch (TrimSpace status)
    [([""; "all"], Some "");
     (["succeeded"; "success"], Some BatchImageItemStatusSuccess);
     (["pending"], Some BatchImageItemStatusPending);
     (["failed"], Some BatchImageItemStatusFailed)]
    None.

Definition ListItems (owner : BatchImageOwner) (batchID status : string) (limit : Z)
    (cursor : string) : proc batch_world (result (list BatchImagePublicItem * bool)) :=
  match items_status status with
  | None => error_out (as_error ErrBatchImageInvalidItems)
  | Some status =>
      let limit := if (limit <=? 0) || (500 <? limit) then 100 else limit in
      items ⇐! repo (ListBatchImageItemsForOwner (ow_UserID owner) (ow_APIKeyID owner) batchID
        (MkBatchImageItemFilter status limit (parseBatchImageCursor cursor)));
      ok (BatchImageItemToPublic <$> items, count items =? limit)
  end.
End Public.
