(* ===== verification/BatchImageCleanup.v ===== *)
(** * BatchImageCleanup: deleting what batches leave at their providers

    Models [BatchImageCleanupService] of [backend/internal/service/batch_image_cleanup.go].  The
    timer around [RunOnce] is left out. *)

From stdpp Require Import base tactics numbers list strings gmap.
From Stdlib Require Import ZArith Lia.
From S2P Require Import Prelude GoLib GoFloat AppErrors Billing BatchImage Programs BatchImageStore BatchImageIndex BatchImageServices BatchImageSettlement BatchImageRequest BatchImagePublic.

Local Open Scope go_scope.
Local Open Scope Z_scope.

Definition defaultBatchImageCleanupBatchSize : Z := 100.

Record BatchImageCleanupRunResult : Type := MkBatchImageCleanupRunResult {
  cr_InputCleaned : Z;
  cr_OutputCleaned : Z;
  cr_Failures : Z
}.

Section Cleanup.
Context `{BatchImageProviders} `{BatchImageQueue} `{BillingLib} `{AmountCodec} `{GoText}.
Variables (ToUpper : string → string) (format_time : Z → string) (cfg : BatchImageConfig).

Definition inputRetentionAfterTerminal : Z :=
  retention (cf_InputRetentionAfterTerminalHours cfg) 24.
Definition cleanupBatchSize : Z :=
  setting (cf_CleanupBatchSize cfg) defaultBatchImageCleanupBatchSize.

(** An event that cannot be written is only logged. *)
Definition appendCleanupEvent (batchID eventType : string) : proc batch_world unit :=
  try_ (repo (AppendBatchImageEvent batchID eventType)).

Definition cleanupErrorIsNotFound (err : error) : bool :=
  let reason := ToUpper (Reason (Some err)) in
  let msg := ToUpper (error_text err) in
  Contains reason "NOT_FOUND" || Contains msg "NOT FOUND" || Contains msg "404".

Definition cleanupFailureCode (err : error) : string :=
  if errors_Is err (as_error ErrBatchImageProviderUnsafeCleanupPath)
  then "BATCH_IMAGE_CLEANUP_UNSAFE_PATH"
  else let reason := TrimSpace (Reason (Some err)) in
       if negb (reason ≟ "") then reason else "BATCH_IMAGE_PROVIDER_CLEANUP_FAILED".

Definition callProviderCleanup (job : BatchImageJob) (target : string)
    : proc batch_world (result unit) :=
  if negb (registered (j_Provider job))
  then error_out (as_error ErrBatchImageUnsupportedProvider) else
  match positive_id (j_AccountID job) with
  | None => error_out (as_error ErrBatchImageMissingAccountID)
  | Some accountID =>
      account ⇐! call (GetAccountByID accountID);
      cleaned ← call (provider_Cleanup (j_Provider job) job account target);
      mret match cleaned with
      | inr err => if cleanupErrorIsNotFound err then inl tt else inr err
      | inl _ => inl tt
      end
  end.

(** Whether a job may be cleaned: nothing to do, a refusal, or the event of the start. *)
Definition cleanup_ready (job : BatchImageJob) (target : string) : result (option string) :=
  switch target
    [([CleanupTargetInput],
      if negb (is_null (j_InputDeletedAt job)) then inl None
      else if negb (IsTerminalBatchImageJobStatus (j_Status job))
      then inr (as_error ErrBatchImageCleanupFailed)
      else inl (Some "input_cleanup_started"));
     ([CleanupTargetOutput],
      if negb (is_null (j_OutputDeletedAt job)) || (j_Status job ≟ BatchImageJobStatusOutputDeleted)
      then inl None
      else if negb (j_Status job ≟ BatchImageJobStatusCompleted) &&
              negb (j_Status job ≟ BatchImageJobStatusFailed) &&
              negb (j_Status job ≟ BatchImageJobStatusCancelled)
      then inr (as_error ErrBatchImageOutputDeleteNotReady)
      else inl (Some "output_cleanup_started"))]
    (inr (as_error ErrUnsupportedCleanupTarget)).

Definition cleanupJob (job : BatchImageJob) (target : string) : proc batch_world (result unit) :=
  match cleanup_ready job target with
  | inr err => error_out err
  | inl None => ok tt
  | inl (Some event) =>
      _ ← appendCleanupEvent (j_BatchID job) event;
      cleaned ← callProviderCleanup job target;
      match cleaned with
      | inr err =>
          _ ← try_ (repo (RecordBatchImageCleanupFailure (j_BatchID job) (cleanupFailureCode err)
                            (public_text err)));
          _ ← appendCleanupEvent (j_BatchID job) (target +:+ "_cleanup_failed");
          error_out (as_error
            (if errors_Is err (as_error ErrBatchImageProviderUnsafeCleanupPath)
             then ErrBatchImageCleanupUnsafePath else ErrBatchImageProviderCleanupFailed))
      | inl _ =>
          deletedAt ← time_now;
          if target ≟ CleanupTargetInput
          then repo (MarkBatchImageInputDeleted (j_BatchID job) deletedAt)
          else repo (MarkBatchImageOutputDeleted (j_BatchID job) deletedAt)
      end
  end.

Definition DeleteOutputsForOwner (owner : BatchImageOwner) (batchID : string)
    : proc batch_world (result BatchImagePublicBatch) :=
  job ⇐! find_owned owner batchID;
  if (j_Status job ≟ BatchImageJobStatusOutputDeleted) || negb (is_null (j_OutputDeletedAt job))
  then public_job format_time job else
  if negb (j_Status job ≟ BatchImageJobStatusCompleted)
  then error_out (as_error ErrBatchImageOutputDeleteNotReady) else
  _ ← appendCleanupEvent (j_BatchID job) "manual_output_delete_requested";
  _ ⇐! cleanupJob job CleanupTargetOutput;
  updated ⇐! find_owned owner batchID;
  public_job format_time updated.

Definition CleanupInput (batchID : string) : proc batch_world (result unit) :=
  job ⇐! repo (GetBatchImageJobByBatchID batchID); cleanupJob job CleanupTargetInput.

Definition CleanupOutput (batchID : string) : proc batch_world (result unit) :=
  job ⇐! repo (GetBatchImageJobByBatchID batchID); cleanupJob job CleanupTargetOutput.

(** How many of the jobs were cleaned, and how many failed. *)
Fixpoint cleanup_jobs (target : string) (jobs : list BatchImageJob) (cleaned failures : Z)
    : proc batch_world (Z * Z) :=
  match jobs with
  | [] => mret (cleaned, failures)
  | job :: jobs =>
      r ← cleanupJob job target;
      match r with
      | inr _ => cleanup_jobs target jobs cleaned (failures + 1)
      | inl _ => cleanup_jobs target jobs (cleaned + 1) failures
      end
  end.

Definition CleanupRunOnce (now : Z) : proc batch_world (BatchImageCleanupRunResult * option error) :=
  now ← (if now =? zeroTime then time_now else mret now);
  let limit := cleanupBatchSize in
  inputJobs ← repo (ListBatchImageJobsDueForInputCleanup (now - inputRetentionAfterTerminal) limit);
  match inputJobs with
  | inr err => mret (MkBatchImageCleanupRunResult 0 0 0, Some err)
  | inl inputJobs =>
      '(inputs, failures) ← cleanup_jobs CleanupTargetInput inputJobs 0 0;
      outputJobs ← repo (ListBatchImageJobsDueForOutputCleanup now limit);
      match outputJobs with
      | inr err => mret (MkBatchImageCleanupRunResult inputs 0 failures, Some err)
      | inl outputJobs =>
          '(outputs, failures) ← cleanup_jobs CleanupTargetOutput outputJobs 0 failures;
          mret (MkBatchImageCleanupRunResult inputs outputs failures, None)
      end
  end.
End Cleanup.
