(* ===== verification/BatchImageWorker.v ===== *)
(** * BatchImageWorker: the loop that runs queued batches

    Models [backend/internal/service/batch_image_worker.go] and [EnqueueBatchImageJob] of
    [batch_image_queue.go].  The heartbeat that runs beside the processing is [job_heartbeat], a
    program of its own; the endless loops and the runtime that starts them are left out. *)

From stdpp Require Import base tactics numbers list strings gmap.
From Stdlib Require Import ZArith Lia.
From S2P Require Import Prelude GoLib GoFloat AppErrors Billing BatchImage Programs BatchImageStore BatchImageIndex BatchImageServices BatchImageSettlement BatchImageProcessor.

Local Open Scope go_scope.
Local Open Scope Z_scope.

Definition defaultBatchImageWorkerLockTTL : Z := 5 * Minute.
Definition defaultBatchImageWorkerLockConflictDelay : Z := 5 * Second.
Definition defaultBatchImageWorkerErrorRetryDelay : Z := Minute.
Definition defaultBatchImageWorkerRequeueDelay : Z := 30 * Second.
Definition defaultBatchImageWorkerDelayedPollInterval : Z := 5 * Second.
Definition defaultBatchImageWorkerRecoveryInterval : Z := 5 * Minute.
Definition defaultBatchImageWorkerStaleActiveAfter : Z := 10 * Minute.
Definition defaultBatchImageWorkerDelayedMoveLimit : Z := 100.
Definition defaultBatchImageWorkerRecoverLimit : Z := 100.
Definition defaultBatchImageWorkerErrorBackoff : Z := Second.
Definition defaultBatchImageWorkerReserveBlockTimeout : Z := 5 * Second.

Record BatchImageWorkerOptions : Type := MkBatchImageWorkerOptions {
  wo_ReserveBlockTimeout : Z;
  wo_JobLockTTL : Z;
  wo_LockConflictDelay : Z;
  wo_DefaultRequeueDelay : Z;
  wo_ErrorRetryDelay : Z;
  wo_ErrorBackoff : Z;
  wo_DelayedPollInterval : Z;
  wo_RecoveryInterval : Z;
  wo_StaleActiveAfter : Z;
  wo_DelayedMoveLimit : Z;
  wo_RecoverLimit : Z
}.

Definition normalizeBatchImageWorkerOptions (o : BatchImageWorkerOptions)
    : BatchImageWorkerOptions :=
  MkBatchImageWorkerOptions
    (setting (wo_ReserveBlockTimeout o) defaultBatchImageWorkerReserveBlockTimeout)
    (setting (wo_JobLockTTL o) defaultBatchImageWorkerLockTTL)
    (setting (wo_LockConflictDelay o) defaultBatchImageWorkerLockConflictDelay)
    (setting (wo_DefaultRequeueDelay o) defaultBatchImageWorkerRequeueDelay)
    (setting (wo_ErrorRetryDelay o) defaultBatchImageWorkerErrorRetryDelay)
    (setting (wo_ErrorBackoff o) defaultBatchImageWorkerErrorBackoff)
    (setting (wo_DelayedPollInterval o) defaultBatchImageWorkerDelayedPollInterval)
    (setting (wo_RecoveryInterval o) defaultBatchImageWorkerRecoveryInterval)
    (setting (wo_StaleActiveAfter o) defaultBatchImageWorkerStaleActiveAfter)
    (setting (wo_DelayedMoveLimit o) defaultBatchImageWorkerDelayedMoveLimit)
    (setting (wo_RecoverLimit o) defaultBatchImageWorkerRecoverLimit).

Section Worker.
Context `{BatchImageProviders} `{BatchImageQueue}.

(** The processor, and the normalised options. *)
Variables (process : string → proc batch_world (result BatchImageProcessResult))
  (opts : BatchImageWorkerOptions).

(** What becomes of a job after it was processed. *)
Definition after_processing (batchID : string) (r : result BatchImageProcessResult)
    : proc batch_world (result unit) :=
  match r with
  | inr _ => queued (RequeueAfter batchID (wo_ErrorRetryDelay opts))
  | inl p =>
      if pc_Terminal p then queued (Ack batchID)
      else queued (RequeueAfter batchID
             (if pc_RequeueAfter p <=? 0 then wo_DefaultRequeueDelay opts else pc_RequeueAfter p))
  end.

(** The job is reserved: it is processed under its lock, or put back. *)
Definition run_reserved (batchID : string) : proc batch_world (result unit) :=
  lock ← queued (TryAcquireJobLock batchID (wo_JobLockTTL opts));
  match lock with
  | inr err =>
      _ ⇐! queued (RequeueAfter batchID (wo_LockConflictDelay opts)); error_out err
  | inl None => queued (RequeueAfter batchID (wo_LockConflictDelay opts))
  | inl (Some lock) =>
      r ← process batchID;
      answer ← after_processing batchID r;
      _ ← queued (ReleaseJobLock lock);
      mret answer
  end.

Definition RunOnce : proc batch_world (result unit) :=
  reserved ← queued (Reserve (wo_ReserveBlockTimeout opts));
  match reserved with
  | inr err =>
      if errors_Is err (as_error ErrBatchImageQueueEmpty) then ok tt else error_out err
  | inl batchID => run_reserved batchID
  end.

(** [heartbeatInterval]: a third of what is shorter, at least a second. *)
Definition heartbeatInterval : Z :=
  Z.max Second (Z.quot (Z.min (wo_JobLockTTL opts) (wo_StaleActiveAfter opts)) 3).

(** [runJobHeartbeat], one beat. *)
Definition job_heartbeat (batchID : string) (lock : string * string) : proc batch_world unit :=
  _ ← queued (Heartbeat batchID);
  _ ← queued (RefreshJobLock lock (wo_JobLockTTL opts));
  mret tt.

Definition MoveDueDelayedOnce : proc batch_world (result Z) :=
  queued (MoveDueDelayedToReady (wo_DelayedMoveLimit opts)).

Definition RecoverStaleActiveOnce : proc batch_world (result Z) :=
  queued (RecoverStaleActive (wo_StaleActiveAfter opts) (wo_RecoverLimit opts)).

Definition EnqueueBatchImageJob (batchID : string) : proc batch_world (result unit) :=
  if negb (IsValidBatchImageID batchID)
  then error_out (as_error ErrInvalidBatchImageQueuePayload) else
  _ ⇐! repo (GetBatchImageJobByBatchID batchID);
  queued (Enqueue batchID).
End Worker.
