(* ===== verification/ProgramLogic.v ===== *)
(** * ProgramLogic: rely and guarantee for programs that run beside others

    Between two steps of a program the others of its pool take theirs, steps fail before or after
    they took effect, and programs die.  A triple says that every step a program can take keeps an
    invariant [I] and moves the world along a preorder [G], and what holds of its answer when it
    ends; the others are relied upon to do the same.  A pool of programs with triples then keeps
    the invariant under every schedule. *)

From stdpp Require Import base tactics numbers list strings relations.
From Stdlib Require Import ZArith Lia.
From S2P Require Import Prelude AppErrors Programs.

Local Open Scope Z_scope.

Section Logic.
Context {W : Type} (I : W → Prop) (G : relation W) `{!PreOrder G}.

Fixpoint triple {A} (p : proc W A) (Q : A → W → Prop) (w : W) : Prop :=
  match p with
  | Ret a => Q a w
  | Clock k => ∀ t, triple (k t) Q w
  | Step stmt k =>
      ∀ w1, G w w1 → I w1 →
        let '(b, w2) := stmt w1 in
        I w2 ∧ G w1 w2 ∧ triple (k b) Q w2 ∧
        ∀ err, triple (k (inr err)) Q w1 ∧ triple (k (inr err)) Q w2
  end.

(** What the others cannot undo. *)
Definition stable {A} (Q : A → W → Prop) : Prop := ∀ a w w', G w w' → Q a w → Q a w'.

Lemma triple_stable {A} (p : proc W A) Q w w' :
  stable Q → G w w' → triple p Q w → triple p Q w'.
Proof.
  intros HQ. revert w w'. induction p as [a|B stmt k IH|k IH]; cbn; intros w w' Hw Hp.
  - by eapply HQ.
  - intros w1 Hw1 HI. apply Hp; [by etrans|done].
  - intros t. by eapply IH.
Qed.

Lemma triple_consequence {A} (p : proc W A) Q Q' w :
  (∀ a w', G w w' → Q a w' → Q' a w') → triple p Q w → triple p Q' w.
Proof.
  revert w. induction p as [a|B stmt k IH|k IH]; cbn; intros w HQ Hp.
  - by apply HQ.
  - intros w1 Hw1 HI. specialize (Hp w1 Hw1 HI). destruct (stmt w1) as [b w2].
    destruct Hp as (HI2 & HG2 & Hk & Herr).
    assert (∀ w3, G w1 w3 → ∀ a w', G w3 w' → Q a w' → Q' a w') as HQ'.
    { intros w3 H3 a w' H' Ha. apply HQ; [|done]. etrans; [exact Hw1|]. by etrans. }
    split_and!; [done|done| |].
    + eapply IH; [|exact Hk]. by apply HQ'.
    + intros err. destruct (Herr err) as [H1 H2].
      split; (eapply IH; [|eassumption]); by apply HQ'.
  - intros t. eapply IH; [|apply Hp]. done.
Qed.

Lemma triple_bind {A B} (p : proc W A) (f : A → proc W B) Q' Q w :
  triple p Q' w → (∀ a w', G w w' → Q' a w' → triple (f a) Q w') → triple (p ≫= f) Q w.
Proof.
  revert w. induction p as [a|C stmt k IH|k IH]; cbn; intros w Hp Hf.
  - by apply Hf.
  - intros w1 Hw1 HI. specialize (Hp w1 Hw1 HI). destruct (stmt w1) as [b w2].
    destruct Hp as (HI2 & HG2 & Hk & Herr).
    assert (∀ w3, G w1 w3 → ∀ a w', G w3 w' → Q' a w' → triple (f a) Q w') as Hf'.
    { intros w3 H3 a w' H' Ha. apply Hf; [|done]. etrans; [exact Hw1|]. by etrans. }
    split_and!; [done|done| |].
    + apply IH; [done|]. by apply Hf'.
    + intros err. destruct (Herr err) as [H1 H2]. split; (apply IH; [done|]); by apply Hf'.
  - intros t. apply IH; [apply Hp|done].
Qed.

(** [if err != nil { return ..., err }]: what an error leaves need not be known. *)
Lemma triple_try {A B} (p : proc W (result A)) (f : A → proc W (result B)) Q' Q w :
  triple p (λ r w', match r with inl a => Q' a w' | inr err => Q (inr err) w' end) w →
  (∀ a w', G w w' → Q' a w' → triple (f a) Q w') → triple (try_proc p f) Q w.
Proof.
  intros Hp Hf. unfold try_proc. eapply triple_bind; [exact Hp|].
  intros [a|err] w' Hw'; cbn; [by apply Hf|done].
Qed.

Lemma triple_step {B} (stmt : St W (result B)) Q w :
  (∀ w1, G w w1 → I w1 →
    I (stmt w1).2 ∧ G w1 (stmt w1).2 ∧ Q (stmt w1).1 (stmt w1).2 ∧
    ∀ err, Q (inr err) w1 ∧ Q (inr err) (stmt w1).2) →
  triple (step stmt) Q w.
Proof.
  intros H w1 Hw1 HI. specialize (H w1 Hw1 HI). cbn. by destruct (stmt w1) as [b w2].
Qed.

(** ** Programs that need no knowledge *)

Definition quiet {A} (p : proc W A) : Prop := ∀ w, triple p (λ _ _, True) w.

Lemma quiet_ret {A} (a : A) : quiet (mret a).
Proof. done. Qed.

Lemma quiet_clock {A} (k : Z → proc W A) : (∀ t, quiet (k t)) → quiet (time_now ≫= k).
Proof. intros H w t. apply H. Qed.

Lemma quiet_bind {A B} (p : proc W A) (f : A → proc W B) :
  quiet p → (∀ a, quiet (f a)) → quiet (p ≫= f).
Proof. intros Hp Hf w. eapply triple_bind; [apply Hp|]. intros a w' _ _. apply Hf. Qed.

Lemma quiet_try {A B} (p : proc W (result A)) (f : A → proc W (result B)) :
  quiet p → (∀ a, quiet (f a)) → quiet (try_proc p f).
Proof. intros Hp Hf. apply quiet_bind; [done|]. by intros [a|err]. Qed.

Lemma quiet_step {B} (stmt : St W (result B)) :
  (∀ w, I w → I (stmt w).2 ∧ G w (stmt w).2) → quiet (step stmt).
Proof. intros H w. apply triple_step. intros w1 _ HI. by destruct (H w1 HI). Qed.

Lemma quiet_triple {A} (p : proc W A) Q w :
  quiet p → (∀ a w', G w w' → Q a w') → triple p Q w.
Proof. intros Hp HQ. eapply triple_consequence; [|apply Hp]. intros a w' Hw _. by apply HQ. Qed.

(** ** Pools *)

Definition pool_ok {A} (s : pool W A) : Prop :=
  I (pl_world s) ∧ Forall (λ p, triple p (λ _ _, True) (pl_world s)) (pl_procs s).

Lemma stable_true {A} : stable (λ (_ : A) _, True).
Proof. by intros ????. Qed.

Lemma turn_ok {A} t (s : pool W A) :
  pool_ok s → pool_ok (run_turn t s) ∧ G (pl_world s) (pl_world (run_turn t s)).
Proof.
  intros [HI Hps]. destruct t as [i f|d]; cbn; [|done].
  destruct (pl_procs s !! i) as [[a|B stmt k|k]|] eqn:Hi; cbn; [done| | |done].
  2:{ split; [|done]. split; [done|]. cbn. apply Forall_insert; [done|].
      rewrite Forall_lookup in Hps. by apply (Hps i _ Hi). }
  pose proof (proj1 (Forall_lookup _ _) Hps i _ Hi (pl_world s) ltac:(done) HI) as Hstep.
  destruct (apply_fault f stmt (pl_world s)) as [b w] eqn:Hf. unfold apply_fault in Hf.
  destruct (stmt (pl_world s)) as [b0 w2] eqn:Hs.
  destruct Hstep as (HI2 & HG2 & Hk & Herr).
  assert (I w ∧ G (pl_world s) w ∧ triple (k b) (λ _ _, True) w) as (HIw & HGw & Htr).
  { destruct f as [|err|err]; cbn in Hf; simplify_eq.
    - done.
    - split_and!; [done|done|]. apply Herr.
    - split_and!; [done|done|]. apply Herr. }
  cbn. split; [|done]. split; [done|]. cbn. apply Forall_insert; [|done].
  eapply Forall_impl; [exact Hps|]. intros p Hp. by eapply triple_stable; [apply stable_true| |].
Qed.

Lemma turns_ok {A} ts (s : pool W A) :
  pool_ok s → pool_ok (run_turns ts s) ∧ G (pl_world s) (pl_world (run_turns ts s)).
Proof.
  revert s. induction ts as [|t ts IH]; intros s Hs; [done|].
  destruct (turn_ok t s Hs) as [Hs1 HG1]. destruct (IH _ Hs1) as [Hs2 HG2].
  split; [done|]. by etrans.
Qed.
End Logic.

(** ** Programs over a part of the world *)

(** Every step of a program moves its state along a relation. *)
Fixpoint steps_in {V A} (R : relation V) (p : proc V A) : Prop :=
  match p with
  | Ret a => True
  | Clock k => ∀ t, steps_in R (k t)
  | Step stmt k => (∀ v, R v (stmt v).2) ∧ ∀ b, steps_in R (k b)
  end.

Lemma steps_in_bind {V A B} (R : relation V) (p : proc V A) (f : A → proc V B) :
  steps_in R p → (∀ a, steps_in R (f a)) → steps_in R (p ≫= f).
Proof.
  intros Hp Hf. induction p as [a|C stmt k IH|k IH]; cbn in *.
  - apply Hf.
  - destruct Hp as [Hs Hk]. split; [done|]. intros b. by apply IH.
  - intros t. by apply IH.
Qed.

Lemma steps_in_try {V A B} (R : relation V) (p : proc V (result A)) (f : A → proc V (result B)) :
  steps_in R p → (∀ a, steps_in R (f a)) → steps_in R (try_proc p f).
Proof. intros Hp Hf. apply steps_in_bind; [done|]. by intros [a|err]. Qed.

Section LiftQuiet.
Context {V W : Type} (get_part : W → V) (put_part : V → W → W) `{Part V W get_part put_part}.
Context (I : W → Prop) (G : relation W) (R : relation V).

(** A program over a part is quiet if the steps of its relation are. *)
Lemma quiet_lift {A} (p : proc V A) :
  (∀ w v, I w → R (get_part w) v → I (put_part v w) ∧ G w (put_part v w)) →
  steps_in R p → quiet I G (lift get_part put_part p).
Proof.
  intros HR. induction p as [a|B stmt k IH|k IH]; cbn; intros Hp w; [done| |].
  - destruct Hp as [Hs Hk]. intros w1 Hw1 HI.
    destruct (stmt (get_part w1)) as [b v] eqn:Hb.
    pose proof (Hs (get_part w1)) as Hv. rewrite Hb in Hv. cbn in Hv.
    destruct (HR w1 v HI Hv) as [HI2 HG2].
    split_and!; [done|done| |].
    + by apply IH.
    + intros err. split; by apply IH.
  - intros t. by apply IH.
Qed.
End LiftQuiet.
