(* ===== verification/BatchImageStoreFacts.v ===== *)
(** * BatchImageStoreFacts: what the operations of the job table do to jobs

    Statuses move along the table of transitions, or overwrite it; no job disappears, changes its
    owner, or becomes completed but through its settlement. *)

From stdpp Require Import base tactics numbers list strings gmap sorting relations.
From Stdlib Require Import ZArith Lia.
From S2P Require Import Prelude GoLib GoFloat AppErrors Billing BatchImage Programs ProgramLogic BatchImageStore.

Local Open Scope go_scope.
Local Open Scope Z_scope.

(** The statuses of a job that was charged for. *)
Definition charged (status : string) : bool :=
  (status ≟ BatchImageJobStatusCompleted) || (status ≟ BatchImageJobStatusOutputDeleted).

(** What an operation that does not settle may make of a job. *)
Definition same_job (j j' : BatchImageJob) : Prop :=
  j_BatchID j' = j_BatchID j ∧ j_APIKeyID j' = j_APIKeyID j ∧
  (charged (j_Status j') = true → charged (j_Status j) = true).

Definition jobs_step (db db' : batch_db) : Prop :=
  (∀ b j, t_jobs db !! b = Some j → ∃ j', t_jobs db' !! b = Some j' ∧ same_job j j') ∧
  (∀ b j', t_jobs db !! b = None → t_jobs db' !! b = Some j' →
    j_BatchID j' = b ∧ charged (j_Status j') = false).

#[export] Instance same_job_preorder : PreOrder same_job.
Proof.
  unfold same_job. split; [by intros j|]. intros j1 j2 j3 (?&?&?) (?&?&?).
  split_and!; [congruence|congruence|auto].
Qed.

#[export] Instance jobs_step_preorder : PreOrder jobs_step.
Proof.
  split.
  - intros db. split; [|intros; congruence]. intros b j Hj. exists j. by split.
  - intros db1 db2 db3 [Hk1 Hn1] [Hk2 Hn2]. split.
    + intros b j Hj. destruct (Hk1 b j Hj) as (j2 & Hj2 & Hs2).
      destruct (Hk2 b j2 Hj2) as (j3 & Hj3 & Hs3). exists j3. split; [done|]. by etrans.
    + intros b j3 Hnone Hj3. destruct (t_jobs db2 !! b) as [j2|] eqn:Hj2; [|by apply Hn2].
      destruct (Hn1 b j2 Hnone Hj2) as [Hb Hs]. destruct (Hk2 b j2 Hj2) as (j3' & Hj3' & Hb' & _ & Hc).
      simplify_eq. split; [congruence|].
      destruct (charged (j_Status j3)); [|done]. by rewrite Hc in Hs.
Qed.

(** Statements, and the transactions they make. *)
Definition keeps_jobs {A} (m : BTx A) : Prop := ∀ db, jobs_step db (m db).2.

Lemma jobs_step_same db db' : t_jobs db' = t_jobs db → jobs_step db db'.
Proof.
  intros H. split; rewrite H.
  - intros b j Hj. exists j. by split.
  - intros; congruence.
Qed.

Lemma keeps_same {A} (m : BTx A) : (∀ db, t_jobs (m db).2 = t_jobs db) → keeps_jobs m.
Proof. intros H db. by apply jobs_step_same. Qed.

Lemma keeps_jobs_bind {A B} (m : BTx A) (f : A → BTx B) :
  keeps_jobs m → (∀ a, keeps_jobs (f a)) → keeps_jobs (try_bind m f).
Proof.
  intros Hm Hf db. unfold try_bind. specialize (Hm db).
  destruct (m db) as [[a|err] db']; cbn in *; [|done]. etrans; [exact Hm|apply Hf].
Qed.

Lemma keeps_jobs_translated {A} nf c (m : BTx A) : keeps_jobs m → keeps_jobs (translated nf c m).
Proof.
  intros Hm db. unfold translated. specialize (Hm db). by destruct (m db) as [[a|err] db'].
Qed.

Lemma keeps_jobs_tx {A} (m : BTx A) : keeps_jobs m → keeps_jobs (in_tx m).
Proof.
  intros Hm db. unfold in_tx. specialize (Hm db).
  destruct (m db) as [[a|err] db']; cbn in *; done.
Qed.

Lemma keeps_jobs_if {A} (b : bool) (m m' : BTx A) :
  keeps_jobs m → keeps_jobs m' → keeps_jobs (if b then m else m').
Proof. by destruct b. Qed.

Lemma keeps_jobs_update b cond f :
  (∀ j, cond j = true → same_job j (f j)) → keeps_jobs (update_job b cond f).
Proof.
  intros Hf db. unfold update_job. destruct (t_jobs db !! b) as [j|] eqn:Hj; [|reflexivity].
  destruct (cond j) eqn:Hc; [|reflexivity].
  change (jobs_step db (db{{ t_jobs := <[b := f j]> (t_jobs db) }})).
  set (db' := db{{ t_jobs := _ }}). assert (t_jobs db' = <[b := f j]> (t_jobs db)) as Hdb by done.
  split; rewrite Hdb.
  - intros b' j' Hj'. destruct (decide (b = b')) as [->|Hne].
    + assert (j' = j) as -> by congruence. exists (f j). rewrite lookup_insert_eq. by auto.
    + exists j'. rewrite lookup_insert_ne by done. by split.
  - intros b' j' Hnone Hj'. destruct (decide (b = b')) as [->|Hne]; [congruence|].
    rewrite lookup_insert_ne in Hj' by done. congruence.
Qed.

Lemma keeps_jobs_select b : keeps_jobs (select_job b).
Proof. apply keeps_same. intros db. unfold select_job. by case_match. Qed.

Lemma keeps_jobs_event b e : keeps_jobs (appendBatchImageEventWithSQL b e).
Proof. apply keeps_same. intros db. unfold appendBatchImageEventWithSQL. by case_match. Qed.

Section Ops.
Context `{AmountCodec}.

Lemma keeps_jobs_query cond key limit offset : keeps_jobs (select_jobs cond key limit offset).
Proof. by apply keeps_same. Qed.

Lemma keeps_jobs_first {A} (m : BTx (list A)) : keeps_jobs m → keeps_jobs (first_row m).
Proof.
  intros Hm. apply keeps_jobs_bind; [done|]. intros [|a l]; by apply keeps_same.
Qed.

Lemma keeps_jobs_pass {A} (a : A) : keeps_jobs (bpass a).
Proof. by apply keeps_same. Qed.

Lemma keeps_jobs_fail {A} err : keeps_jobs (bfail (A:=A) err).
Proof. by apply keeps_same. Qed.

Lemma keeps_jobs_create now p :
  charged (cj_Status p) = false → keeps_jobs (createBatchImageJobWithSQL now p).
Proof.
  intros Hst db. unfold createBatchImageJobWithSQL.
  destruct (new_job _ _ _) as [j|] eqn:Hnew; [|reflexivity].
  destruct (bool_decide _ || _) eqn:Htaken.
  { by apply (keeps_same (A:=BatchImageJob) (λ db, (inr UniqueViolation, db{{ t_nextJob := t_nextJob db + 1 }}))). }
  bool_props.
  assert (t_jobs db !! cj_BatchID p = None) as Hnone.
  { destruct (t_jobs db !! cj_BatchID p) eqn:E; [|done].
    exfalso. match goal with H : ¬ is_Some _ |- _ => apply H end. eauto. }
  assert (j_BatchID j = cj_BatchID p ∧ j_Status j = cj_Status p) as [Hb Hs].
  { unfold new_job in Hnew. by repeat (apply bind_Some in Hnew as (? & _ & Hnew)); simplify_eq. }
  change (jobs_step db (put_job j (db{{ t_nextJob := t_nextJob db + 1 }}))).
  set (db' := put_job _ _).
  assert (t_jobs db' = <[cj_BatchID p := j]> (t_jobs db)) as Hdb by (rewrite <- Hb; done).
  split; rewrite Hdb.
  - intros b' j' Hj'. exists j'. rewrite lookup_insert_ne by congruence. by split.
  - intros b' j' Hn Hj'. destruct (decide (cj_BatchID p = b')) as [<-|Hne].
    + rewrite lookup_insert_eq in Hj'. simplify_eq. split; congruence.
    + rewrite lookup_insert_ne in Hj' by done. congruence.
Qed.

Lemma keeps_jobs_item now p : keeps_jobs (createBatchImageItemWithSQL now p).
Proof.
  apply keeps_same. intros db. unfold createBatchImageItemWithSQL. by repeat case_match.
Qed.

Lemma keeps_jobs_items now l : keeps_jobs (insert_items now l).
Proof.
  induction l as [|p l IH]; cbn [insert_items]; [apply keeps_jobs_pass|].
  apply keeps_jobs_bind; [apply keeps_jobs_translated, keeps_jobs_item|]. by intros _.
Qed.

Lemma keeps_jobs_settlement_failed now b code msg :
  keeps_jobs (settlement_failed_row now b code msg).
Proof.
  intros db. unfold settlement_failed_row.
  pose proof (keeps_jobs_update b (λ _, true) (settlement_failed now code msg)) as Hu.
  specialize (Hu ltac:(by intros [])). specialize (Hu db). unfold update_job in Hu.
  destruct (t_jobs db !! b); [exact Hu|reflexivity].
Qed.

Lemma keeps_jobs_transition now b to opts :
  charged to = false →
  keeps_jobs (transitionBatchImageJobStatusWithSQL now b to opts).
Proof.
  intros Hto. apply keeps_jobs_bind; [apply keeps_jobs_translated, keeps_jobs_select|].
  intros j. apply keeps_jobs_if; [apply keeps_jobs_fail|].
  apply keeps_jobs_bind.
  - apply keeps_jobs_update. intros j' _. split_and!; [by destruct j'..|].
    change (j_Status (transitioned _ _ _ _)) with to. congruence.
  - intros _. apply keeps_jobs_if; [apply keeps_jobs_pass|apply keeps_jobs_event].
Qed.
End Ops.

(** ** The methods *)

Lemma store_step {A} (m : BTx A) : keeps_jobs m → steps_in jobs_step (step m).
Proof. intros Hm. by split. Qed.

(** One layer of a method or of a statement. *)
Ltac store_layer :=
  lazymatch goal with
  | |- steps_in _ (try_proc _ _) => apply steps_in_try; [|intros ?]
  | |- steps_in _ (mbind _ _) => apply steps_in_bind; [|intros ?]
  | |- steps_in _ (step _) => apply store_step
  | |- steps_in _ time_now => intros ?; exact I
  | |- steps_in _ (mret _) => exact I
  | |- steps_in _ (ok _) => exact I
  | |- steps_in _ (error_out _) => exact I
  | |- steps_in _ (found_row _ _) => unfold found_row
  | |- steps_in _ (update_then_event _ _ _ _) => unfold update_then_event
  | |- steps_in _ (match ?x with _ => _ end) => destruct x
  | |- keeps_jobs (translated _ _ _) => apply keeps_jobs_translated
  | |- keeps_jobs (in_tx _) => apply keeps_jobs_tx
  | |- keeps_jobs (try_bind _ _) => apply keeps_jobs_bind; [|intros ?]
  | |- keeps_jobs (first_row _) => apply keeps_jobs_first
  | |- keeps_jobs (select_jobs _ _ _ _) => apply keeps_jobs_query
  | |- keeps_jobs (select_job _) => apply keeps_jobs_select
  | |- keeps_jobs (appendBatchImageEventWithSQL _ _) => apply keeps_jobs_event
  | |- keeps_jobs (bpass _) => apply keeps_jobs_pass
  | |- keeps_jobs (bfail _) => apply keeps_jobs_fail
  | |- keeps_jobs (insert_items _ _) => apply keeps_jobs_items
  | |- keeps_jobs (createBatchImageItemWithSQL _ _) => apply keeps_jobs_item
  | |- keeps_jobs (settlement_failed_row _ _ _ _) => apply keeps_jobs_settlement_failed
  | |- keeps_jobs (delete_items _) => by apply keeps_same
  | |- keeps_jobs (if _ then _ else _) => apply keeps_jobs_if
  | |- keeps_jobs (update_job _ _ _) => apply keeps_jobs_update; intros [] ?
  | |- keeps_jobs (λ _, _) => by apply keeps_same
  end.

Ltac store_tac := repeat store_layer; try (by split_and!).

Section Methods.
Context `{AmountCodec}.
Implicit Types b : string.

Lemma store_create id p :
  charged (cj_Status p) = false → steps_in jobs_step (CreateBatchImageJob id p).
Proof.
  intros Hst. unfold CreateBatchImageJob. repeat store_layer.
  all: apply keeps_jobs_create; destruct p; cbn in *; repeat case_match; done.
Qed.

Lemma store_get b : steps_in jobs_step (GetBatchImageJobByBatchID b).
Proof. unfold GetBatchImageJobByBatchID. store_tac. Qed.

Lemma store_get_key uid kid key : steps_in jobs_step (GetBatchImageJobByIdempotencyKey uid kid key).
Proof. unfold GetBatchImageJobByIdempotencyKey. store_tac. Qed.

Lemma store_get_owner uid kid b : steps_in jobs_step (GetBatchImageJobByBatchIDForOwner uid kid b).
Proof. unfold GetBatchImageJobByBatchIDForOwner. store_tac. Qed.

Lemma store_list_jobs ilike uid kid f :
  steps_in jobs_step (ListBatchImageJobsForOwner ilike uid kid f).
Proof. unfold ListBatchImageJobsForOwner. store_tac. Qed.

Lemma store_transition b to opts :
  charged to = false → steps_in jobs_step (TransitionBatchImageJobStatus b to opts).
Proof.
  intros Hto. unfold TransitionBatchImageJobStatus. repeat store_layer.
  by apply keeps_jobs_transition.
Qed.

Lemma store_touch b : steps_in jobs_step (TouchBatchImageJobSubmitting b).
Proof. unfold TouchBatchImageJobSubmitting. store_tac. Qed.

Lemma store_fail_stale b cutoff code msg :
  steps_in jobs_step (FailStaleUnsubmittedBatchImageJob b cutoff code msg).
Proof. unfold FailStaleUnsubmittedBatchImageJob. store_tac. Qed.

Lemma store_output_ref b ref : steps_in jobs_step (UpdateBatchImageJobProviderOutputRef b ref).
Proof. unfold UpdateBatchImageJobProviderOutputRef. store_tac. Qed.

Lemma store_submitted p : steps_in jobs_step (UpdateBatchImageJobProviderSubmit p).
Proof.
  unfold UpdateBatchImageJobProviderSubmit, updateBatchImageJobProviderSubmitWithSQL. store_tac.
Qed.

Lemma store_submit_failure b code msg failed :
  steps_in jobs_step (RecordBatchImageJobSubmitFailure b code msg failed).
Proof.
  unfold RecordBatchImageJobSubmitFailure. repeat store_layer. cbn. destruct failed; by split_and!.
Qed.

Lemma store_settlement_failed b code msg :
  steps_in jobs_step (SetBatchImageJobSettlementFailed b code msg).
Proof. unfold SetBatchImageJobSettlementFailed. store_tac. Qed.

Lemma store_bulk l : steps_in jobs_step (BulkCreateBatchImageItems l).
Proof. unfold BulkCreateBatchImageItems. store_tac. Qed.

Lemma store_replace b l c : steps_in jobs_step (ReplaceBatchImageItemsForJob b l c).
Proof. unfold ReplaceBatchImageItemsForJob, replaceBatchImageItemsForJobWithSQL. store_tac. Qed.

Lemma store_list_items b f : steps_in jobs_step (ListBatchImageItems b f).
Proof. unfold ListBatchImageItems. store_tac. Qed.

Lemma store_list_items_owner uid kid b f :
  steps_in jobs_step (ListBatchImageItemsForOwner uid kid b f).
Proof.
  unfold ListBatchImageItemsForOwner. apply steps_in_try; [apply store_get_owner|].
  intros _. apply store_list_items.
Qed.

Lemma store_due_input cutoff limit :
  steps_in jobs_step (ListBatchImageJobsDueForInputCleanup cutoff limit).
Proof. unfold ListBatchImageJobsDueForInputCleanup. store_tac. Qed.

Lemma store_due_output now limit :
  steps_in jobs_step (ListBatchImageJobsDueForOutputCleanup now limit).
Proof. unfold ListBatchImageJobsDueForOutputCleanup. store_tac. Qed.

Lemma store_stale cutoff limit :
  steps_in jobs_step (ListStaleUnsubmittedBatchImageJobs cutoff limit).
Proof. unfold ListStaleUnsubmittedBatchImageJobs. store_tac. Qed.

Lemma store_input_deleted b t : steps_in jobs_step (MarkBatchImageInputDeleted b t).
Proof. unfold MarkBatchImageInputDeleted. store_tac. Qed.

Lemma store_output_deleted b t : steps_in jobs_step (MarkBatchImageOutputDeleted b t).
Proof.
  unfold MarkBatchImageOutputDeleted. repeat store_layer. unfold output_deleted. cbn.
  match goal with |- context [?s ≟ BatchImageJobStatusCompleted] =>
    destruct (s ≟ BatchImageJobStatusCompleted) eqn:Hs end; bool_props; subst; by split_and!.
Qed.

Lemma store_downloaded b t : steps_in jobs_step (MarkBatchImageDownloaded b t).
Proof. unfold MarkBatchImageDownloaded. store_tac. Qed.

Lemma store_user_deleted uid kid b t : steps_in jobs_step (MarkBatchImageJobUserDeleted uid kid b t).
Proof. unfold MarkBatchImageJobUserDeleted. store_tac. Qed.

Lemma store_expires b t : steps_in jobs_step (SetBatchImageOutputExpiresAt b t).
Proof. unfold SetBatchImageOutputExpiresAt. store_tac. Qed.

Lemma store_cleanup_failure b code msg :
  steps_in jobs_step (RecordBatchImageCleanupFailure b code msg).
Proof. unfold RecordBatchImageCleanupFailure. store_tac. Qed.

Lemma store_event b e : steps_in jobs_step (AppendBatchImageEvent b e).
Proof. unfold AppendBatchImageEvent. store_tac. Qed.
End Methods.

Create HintDb store discriminated.
#[export] Hint Resolve store_get store_get_key store_get_owner store_list_jobs store_touch
  store_fail_stale store_output_ref store_submitted store_submit_failure store_settlement_failed
  store_bulk store_replace store_list_items store_list_items_owner store_due_input store_due_output
  store_stale store_input_deleted store_output_deleted store_downloaded store_user_deleted
  store_expires store_cleanup_failure store_event : store.
#[export] Hint Resolve store_transition store_create : store.
