(* ===== verification/BatchImageRedisQueue.v ===== *)
(** * BatchImageRedisQueue: the queue of batches in Redis

    Models [backend/internal/repository/batch_image_queue.go]: a list of ready batches, sorted
    sets of delayed and of active ones, a key per queued batch that keeps it from being queued
    twice, and locks.  The server is a parameter with the commands the queue sends
    ([QueueCommands]) and their documented effect ([QueueLaws]) on the data model [queue_data],
    which is itself a server.  A Lua script and a MULTI/EXEC transaction are atomic. *)

From stdpp Require Import base tactics numbers list strings gmap sorting relations.
From Stdlib Require Import ZArith Lia.
From S2P Require Import Prelude GoLib GoJson AppErrors BatchImage Programs ProgramLogic BatchImageStore BatchImageIndex BatchImageServices.
From S2P Require Redis.

Local Open Scope go_scope.
Local Open Scope Z_scope.

(** ** The server *)

Class QueueCommands (S : Type) : Type := {
  LPUSH : string → string → St S unit;
  RPOP : string → St S (option string);
  ZADD : string → Z → string → St S unit;
  ZADDXX : string → Z → string → St S unit;          (* only a member that is there *)
  ZREM : string → string → St S unit;
  ZRANGEBYSCORE : string → Z → Z → St S (list string); (* [-inf, max], LIMIT 0 count *)
  SETNXPX : string → string → Z → St S bool;          (* SET key value NX PX milliseconds *)
  GET : string → St S (option string);
  DEL : string → St S unit;
  PEXPIRE : string → Z → St S unit;
  TICK : Z → St S unit                                (* not a command: time passes *)
}.

(** The documented data model: lists, sorted sets, strings with the time they expire at. *)
Record queue_data : Type := MkQueueData {
  qd_lists : gmap string (list string);
  qd_zsets : gmap string (gmap string Z);
  qd_strings : gmap string (string * option Z);
  qd_clock : Z
}.

Definition empty_queue (now : Z) : queue_data := MkQueueData ∅ ∅ ∅ now.

Definition qlist (d : queue_data) (k : string) : list string := default [] (qd_lists d !! k).
Definition qzset (d : queue_data) (k : string) : gmap string Z := default ∅ (qd_zsets d !! k).
Definition put_list (k : string) (l : list string) (d : queue_data) : queue_data :=
  MkQueueData (<[k := l]> (qd_lists d)) (qd_zsets d) (qd_strings d) (qd_clock d).
Definition put_zset (k : string) (z : gmap string Z) (d : queue_data) : queue_data :=
  MkQueueData (qd_lists d) (<[k := z]> (qd_zsets d)) (qd_strings d) (qd_clock d).
Definition put_strings (m : gmap string (string * option Z)) (d : queue_data) : queue_data :=
  MkQueueData (qd_lists d) (qd_zsets d) m (qd_clock d).

(** LPUSH puts at the head, RPOP takes from the tail. *)
Fixpoint pop_last (l : list string) : option (string * list string) :=
  match l with
  | [] => None
  | x :: l' => match pop_last l' with
               | Some (y, r) => Some (y, x :: r)
               | None => Some (x, [])
               end
  end.

(** A string whose time has come is gone. *)
Definition alive (now : Z) (v : string * option Z) : bool :=
  match v.2 with Some t => now <? t | None => true end.

#[export] Instance MemQueue : QueueCommands queue_data := {
  LPUSH := λ k x d, (tt, put_list k (x :: qlist d k) d);
  RPOP := λ k d, match pop_last (qlist d k) with
                 | Some (x, l) => (Some x, put_list k l d)
                 | None => (None, d)
                 end;
  ZADD := λ k s x d, (tt, put_zset k (<[x := s]> (qzset d k)) d);
  ZADDXX := λ k s x d,
    (tt, match qzset d k !! x with Some _ => put_zset k (<[x := s]> (qzset d k)) d | None => d end);
  ZREM := λ k x d, (tt, put_zset k (delete x (qzset d k)) d);
  ZRANGEBYSCORE := λ k hi n d,
    (take (Z.to_nat n) (fst <$> filter (λ kv, kv.2 ≤ hi) (Redis.zlist (qzset d k))), d);
  SETNXPX := λ k v px d,
    match qd_strings d !! k with
    | Some _ => (false, d)
    | None => (true, put_strings (<[k := (v, Some (qd_clock d + px))]> (qd_strings d)) d)
    end;
  GET := λ k d, (fst <$> qd_strings d !! k, d);
  DEL := λ k d, (tt, put_strings (delete k (qd_strings d)) d);
  PEXPIRE := λ k px d,
    (tt, match qd_strings d !! k with
         | Some (v, _) => put_strings (if 0 <? px then <[k := (v, Some (qd_clock d + px))]> (qd_strings d)
                                       else delete k (qd_strings d)) d
         | None => d
         end);
  TICK := λ t d,
    (tt, MkQueueData (qd_lists d) (qd_zsets d)
           (filter (λ kv, alive (qd_clock d + Z.max 0 t) kv.2 = true) (qd_strings d))
           (qd_clock d + Z.max 0 t))
}.

Class QueueLaws {S : Type} (C : QueueCommands S) (abs : S → queue_data) : Prop := {
  law_LPUSH k x : refines abs (LPUSH k x) (LPUSH k x);
  law_RPOP k : refines abs (RPOP k) (RPOP k);
  law_ZADD k s x : refines abs (ZADD k s x) (ZADD k s x);
  law_ZADDXX k s x : refines abs (ZADDXX k s x) (ZADDXX k s x);
  law_ZREM k x : refines abs (ZREM k x) (ZREM k x);
  law_ZRANGEBYSCORE k hi n : refines abs (ZRANGEBYSCORE k hi n) (ZRANGEBYSCORE k hi n);
  law_SETNXPX k v px : refines abs (SETNXPX k v px) (SETNXPX k v px);
  law_GET k : refines abs (GET k) (GET k);
  law_DEL k : refines abs (DEL k) (DEL k);
  law_PEXPIRE k px : refines abs (PEXPIRE k px) (PEXPIRE k px);
  law_TICK t : refines abs (TICK t) (TICK t)
}.

#[export] Instance MemQueue_laws : QueueLaws MemQueue id.
Proof. split; intros; intros m; unfold id; apply surjective_pairing. Qed.

(** ** Options *)

Definition defaultBatchImageReadyKey : string := "batch_image:queue:ready".
Definition defaultBatchImageDelayedKey : string := "batch_image:queue:delayed".
Definition defaultBatchImageActiveKey : string := "batch_image:queue:active".
Definition defaultBatchImageInflightPrefix : string := "batch_image:queue:inflight:".
Definition defaultBatchImageLockPrefix : string := "batch_image:queue:lock:".
Definition defaultBatchImageInflightTTL : Z := 7 * 24 * 60 * Minute.
Definition defaultBatchImageJobLockTTL : Z := 5 * Minute.
Definition batchImageReservePollInterval : Z := Second.

Record batchImageQueueOptions : Type := MkQueueOptions {
  qo_ReadyKey : string;
  qo_DelayedKey : string;
  qo_ActiveKey : string;
  qo_InflightPrefix : string;
  qo_LockPrefix : string;
  qo_InflightTTL : Z;
  qo_LockTTL : Z
}.

Definition normalizeBatchImageQueueOptions (o : batchImageQueueOptions) : batchImageQueueOptions :=
  let text v d := if v ≟ "" then d else v in
  MkQueueOptions
    (text (qo_ReadyKey o) defaultBatchImageReadyKey)
    (text (qo_DelayedKey o) defaultBatchImageDelayedKey)
    (text (qo_ActiveKey o) defaultBatchImageActiveKey)
    (text (qo_InflightPrefix o) defaultBatchImageInflightPrefix)
    (text (qo_LockPrefix o) defaultBatchImageLockPrefix)
    (setting (qo_InflightTTL o) defaultBatchImageInflightTTL)
    (setting (qo_LockTTL o) defaultBatchImageJobLockTTL).

(** ** The queue *)

(** [d.Milliseconds()] and [t.UnixMilli()]. *)
Definition milliseconds (d : Z) : Z := Z.quot d Millisecond.
Definition unix_milli (t : Z) : Z := t / Millisecond.

Section Queue.
Context {S : Type} `{C : QueueCommands S}.
Variable opts : batchImageQueueOptions.

Definition inflightKey (batchID : string) : string := qo_InflightPrefix opts +:+ batchID.
Definition lockKey (batchID : string) : string := qo_LockPrefix opts +:+ batchID.

(** *** Scripts and transactions *)

Definition batchImageEnqueueScript (key batchID : string) (ttl : Z) : St S Z :=
  fresh ← SETNXPX key batchID ttl;
  if fresh : bool then _ ← LPUSH (qo_ReadyKey opts) batchID; mret 1 else mret 0.

Definition batchImageReserveScript (now : Z) : St S (option string) :=
  job ← RPOP (qo_ReadyKey opts);
  match job with
  | None => mret None
  | Some job => _ ← ZADD (qo_ActiveKey opts) now job; mret (Some job)
  end.

(** [batchImageMoveDueDelayedScript] and [batchImageRecoverStaleActiveScript]. *)
Definition move_script (from : string) (hi limit : Z) : St S Z :=
  jobs ← ZRANGEBYSCORE from hi limit;
  _ ← mapM_ (λ job, _ ← ZREM from job; LPUSH (qo_ReadyKey opts) job) jobs;
  mret (Z.of_nat (List.length jobs)).

Definition batchImageReleaseLockScript (key token : string) : St S unit :=
  v ← GET key;
  if bool_decide (v = Some token) then DEL key else mret tt.

Definition batchImageRefreshLockScript (key token : string) (ttl : Z) : St S unit :=
  v ← GET key;
  if bool_decide (v = Some token) then PEXPIRE key ttl else mret tt.

Definition requeue_tx (now : Z) (batchID : string) (delay : Z) : St S unit :=
  _ ← ZREM (qo_ActiveKey opts) batchID;
  _ ← ZREM (qo_DelayedKey opts) batchID;
  if delay <=? 0 then LPUSH (qo_ReadyKey opts) batchID
  else ZADD (qo_DelayedKey opts) (unix_milli (now + delay)) batchID.

Definition ack_tx (batchID : string) : St S unit :=
  _ ← ZREM (qo_ActiveKey opts) batchID;
  _ ← ZREM (qo_DelayedKey opts) batchID;
  DEL (inflightKey batchID).

(** *** Methods *)

(** The server, and the source of the tokens. *)
Record queue_state : Type := MkQueueState {
  qs_server : S;
  qs_rng : rng
}.

Definition redis {A} (c : St S A) : proc queue_state (result A) :=
  step (λ q, let '(a, s) := c (qs_server q) in (inl a, MkQueueState s (qs_rng q))).

Definition valid_id {A} (batchID : string) (p : proc queue_state (result A))
    : proc queue_state (result A) :=
  if negb (IsValidBatchImageID batchID)
  then error_out (as_error ErrInvalidBatchImageQueuePayload) else p.

Definition RedisEnqueue (batchID : string) : proc queue_state (result unit) :=
  valid_id batchID
    (applied ⇐! redis (batchImageEnqueueScript (inflightKey batchID) batchID
                         (milliseconds (qo_InflightTTL opts)));
     if applied =? 0 then error_out (as_error ErrBatchImageAlreadyQueued) else ok tt).

Definition reserveOnce : proc queue_state (result string) :=
  now ← time_now;
  raw ⇐! redis (batchImageReserveScript (unix_milli now));
  match raw with
  | None => error_out (as_error ErrBatchImageQueueEmpty)
  | Some batchID =>
      if IsValidBatchImageID batchID then ok batchID else
      _ ← (if negb (batchID ≟ "") then redis (ZREM (qo_ActiveKey opts) batchID) else ok tt);
      error_out (as_error ErrInvalidBatchImageQueuePayload)
  end.

(** The loop sleeps at most an interval between two polls, so [polls] of them reach the
    deadline. *)
Fixpoint reserve_until (polls : nat) (deadline : Z) : proc queue_state (result string) :=
  r ← reserveOnce;
  match r with
  | inl batchID => ok batchID
  | inr err =>
      if negb (errors_Is err (as_error ErrBatchImageQueueEmpty)) then error_out err else
      match polls with
      | O => error_out (as_error ErrBatchImageQueueEmpty)
      | Datatypes.S polls =>
          now ← time_now;
          if deadline - now <=? 0 then error_out (as_error ErrBatchImageQueueEmpty)
          else reserve_until polls deadline
      end
  end.

Definition RedisReserve (blockTimeout : Z) : proc queue_state (result string) :=
  now ← time_now;
  reserve_until (Z.to_nat (blockTimeout / batchImageReservePollInterval + 2)) (now + blockTimeout).

Definition RedisRequeueAfter (batchID : string) (delay : Z) : proc queue_state (result unit) :=
  valid_id batchID (now ← time_now; redis (requeue_tx now batchID delay)).

Definition RedisAck (batchID : string) : proc queue_state (result unit) :=
  valid_id batchID (redis (ack_tx batchID)).

Definition RedisHeartbeat (batchID : string) : proc queue_state (result unit) :=
  valid_id batchID (now ← time_now; redis (ZADDXX (qo_ActiveKey opts) (unix_milli now) batchID)).

Definition RedisMoveDueDelayedToReady (limit : Z) : proc queue_state (result Z) :=
  let limit := if limit <=? 0 then 100 else limit in
  now ← time_now;
  redis (move_script (qo_DelayedKey opts) (unix_milli now) limit).

Definition RedisRecoverStaleActive (staleAfter limit : Z) : proc queue_state (result Z) :=
  if staleAfter <=? 0 then error_out (as_error ErrInvalidBatchImageQueuePayload) else
  let limit := if limit <=? 0 then 100 else limit in
  now ← time_now;
  redis (move_script (qo_ActiveKey opts) (unix_milli (now - staleAfter)) limit).

(** [newBatchImageLockToken] *)
Definition newBatchImageLockToken : proc queue_state (result string) :=
  step (λ q, let '(t, r) := rand_hex (qs_rng q) in (inl t, MkQueueState (qs_server q) r)).

(** A lock is its key and its token. *)
Definition RedisTryAcquireJobLock (batchID : string) (ttl : Z)
    : proc queue_state (result (option (string * string))) :=
  valid_id batchID
    (let ttl := if ttl <=? 0 then qo_LockTTL opts else ttl in
     token ⇐! newBatchImageLockToken;
     acquired ⇐! redis (SETNXPX (lockKey batchID) token (milliseconds ttl));
     ok (if acquired : bool then Some (lockKey batchID, token) else None)).

Definition RedisReleaseLock (lock : string * string) : proc queue_state (result unit) :=
  if (lock.1 ≟ "") || (lock.2 ≟ "") then ok tt
  else redis (batchImageReleaseLockScript lock.1 lock.2).

Definition RedisRefreshLock (lock : string * string) (ttl : Z) : proc queue_state (result unit) :=
  if (lock.1 ≟ "") || (lock.2 ≟ "") then ok tt
  else redis (batchImageRefreshLockScript lock.1 lock.2
                (milliseconds (if ttl <=? 0 then defaultBatchImageJobLockTTL else ttl))).

#[export] Instance RedisBatchImageQueue : BatchImageQueue := {
  queue := queue_state;
  Enqueue := RedisEnqueue;
  Reserve := RedisReserve;
  RequeueAfter := RedisRequeueAfter;
  Ack := RedisAck;
  Heartbeat := RedisHeartbeat;
  MoveDueDelayedToReady := RedisMoveDueDelayedToReady;
  RecoverStaleActive := RedisRecoverStaleActive;
  TryAcquireJobLock := RedisTryAcquireJobLock;
  ReleaseJobLock := RedisReleaseLock;
  RefreshJobLock := RedisRefreshLock
}.
End Queue.
