(* ===== verification/BatchImageQueueFacts.v ===== *)
(** * BatchImageQueueFacts: no queued batch is lost

    As long as the key that keeps a batch from being queued again is alive, the batch is ready,
    delayed or active, however workers, heartbeats and movers interleave and die: it will be
    handed out again. *)

From stdpp Require Import base tactics numbers list strings gmap sorting relations.
From Stdlib Require Import ZArith Lia.
From S2P Require Import Prelude GoLib GoJson AppErrors BatchImage Programs ProgramLogic BatchImageStore BatchImageIndex BatchImageServices BatchImageRedisQueue.
From S2P Require Redis.

Local Open Scope go_scope.
Local Open Scope Z_scope.

Lemma St_bind_run {S A B} (m : St S A) (f : A → St S B) s :
  (m ≫= f) s = let '(a, s') := m s in f a s'.
Proof. done. Qed.

(** ** The data model *)

Section Data.
Variable opts : batchImageQueueOptions.

Notation ready := (qo_ReadyKey opts).
Notation delayed := (qo_DelayedKey opts).
Notation active := (qo_ActiveKey opts).

(** The keys of the queue do not collide. *)
Record keys_apart : Prop := {
  ka_sets : delayed ≠ active;
  ka_locks : ∀ b b', lockKey opts b ≠ inflightKey opts b'
}.

Definition queued_somewhere (d : queue_data) (b : string) : Prop :=
  b ∈ qlist d ready ∨ is_Some (qzset d delayed !! b) ∨ is_Some (qzset d active !! b).

(** A batch whose key is alive has a valid identifier and is in the queue. *)
Definition none_lost (d : queue_data) : Prop :=
  ∀ b, is_Some (qd_strings d !! inflightKey opts b) →
    IsValidBatchImageID b = true ∧ queued_somewhere d b.

Lemma qlist_put_list k l d : qlist (put_list k l d) k = l.
Proof. unfold qlist, put_list. cbn. by rewrite lookup_insert_eq. Qed.
Lemma qzset_put_list k k' l d : qzset (put_list k l d) k' = qzset d k'.
Proof. done. Qed.
Lemma qlist_put_zset k k' z d : qlist (put_zset k z d) k' = qlist d k'.
Proof. done. Qed.
Lemma qzset_put_zset k z d : qzset (put_zset k z d) k = z.
Proof. unfold qzset, put_zset. cbn. by rewrite lookup_insert_eq. Qed.
Lemma qzset_put_zset_ne k k' z d : k ≠ k' → qzset (put_zset k z d) k' = qzset d k'.
Proof. intros. unfold qzset, put_zset. cbn. by rewrite lookup_insert_ne. Qed.

Lemma inflight_inj b b' : inflightKey opts b = inflightKey opts b' → b = b'.
Proof.
  unfold inflightKey. induction (qo_InflightPrefix opts) as [|c p IH]; [done|].
  intros [= Hb]. auto.
Qed.

(** Changes that lose nobody but [b]. *)
Definition loses_only (b : string) (d d' : queue_data) : Prop :=
  ∀ b', b' ≠ b → queued_somewhere d b' → queued_somewhere d' b'.

Lemma loses_only_trans b d1 d2 d3 : loses_only b d1 d2 → loses_only b d2 d3 → loses_only b d1 d3.
Proof. intros H1 H2 b' Hne Hb'. by apply H2, H1. Qed.

(** A batch that has its place afterwards, or its key no longer, may be moved. *)
Lemma none_lost_moved b d d' :
  none_lost d → loses_only b d d' →
  (∀ b', b' ≠ b → qd_strings d' !! inflightKey opts b' = qd_strings d !! inflightKey opts b') →
  (is_Some (qd_strings d' !! inflightKey opts b) →
   IsValidBatchImageID b = true ∧ queued_somewhere d' b) →
  none_lost d'.
Proof.
  intros Hd Hl Hk Hb b' Hb'. destruct (decide (b' = b)) as [->|Hne]; [auto|].
  rewrite Hk in Hb' by done. destruct (Hd b' Hb') as [Hv Hq]. split; [done|]. by apply Hl.
Qed.

Lemma zrem_loses k b d : loses_only b d (ZREM (QueueCommands:=MemQueue) k b d).2.
Proof.
  intros b' Hne Hb'. unfold queued_somewhere in *. cbn. rewrite qlist_put_zset.
  destruct Hb' as [Hr|[Hz|Hz]]; [by left|right; left|right; right].
  - destruct (decide (k = delayed)) as [->|Hd];
      [rewrite qzset_put_zset, lookup_delete_ne by done|rewrite qzset_put_zset_ne by done]; done.
  - destruct (decide (k = active)) as [->|Hd];
      [rewrite qzset_put_zset, lookup_delete_ne by done|rewrite qzset_put_zset_ne by done]; done.
Qed.

Lemma zadd_loses k s b d : loses_only b d (ZADD (QueueCommands:=MemQueue) k s b d).2.
Proof.
  intros b' Hne Hb'. unfold queued_somewhere in *. cbn. rewrite qlist_put_zset.
  destruct Hb' as [Hr|[Hz|Hz]]; [by left|right; left|right; right].
  - destruct (decide (k = delayed)) as [->|Hd];
      [rewrite qzset_put_zset, lookup_insert_ne by done|rewrite qzset_put_zset_ne by done]; done.
  - destruct (decide (k = active)) as [->|Hd];
      [rewrite qzset_put_zset, lookup_insert_ne by done|rewrite qzset_put_zset_ne by done]; done.
Qed.

Lemma lpush_loses b d : loses_only b d (LPUSH (QueueCommands:=MemQueue) ready b d).2.
Proof.
  intros b' Hne Hb'. unfold queued_somewhere in *. cbn. rewrite !qzset_put_list, qlist_put_list.
  destruct Hb' as [Hr|Hz]; [left; by right|by right].
Qed.

Lemma pop_last_spec l x r : pop_last l = Some (x, r) → l = r ++ [x].
Proof.
  revert x r. induction l as [|y l IH]; cbn; intros x r; [done|].
  destruct (pop_last l) as [[z r']|] eqn:Hl.
  - intros [= <- <-]. cbn. f_equal. by apply IH.
  - intros [= <- <-]. destruct l as [|z l]; [done|]. cbn in Hl.
    destruct (pop_last l) as [[]|]; done.
Qed.

(** *** The scripts *)

Ltac runs := unfold mbind, St_bind, mret, St_ret; cbn.


Hypothesis apart : keys_apart.

Lemma enqueue_keeps b ttl d :
  IsValidBatchImageID b = true → none_lost d →
  none_lost (batchImageEnqueueScript (C:=MemQueue) opts (inflightKey opts b) b ttl d).2.
Proof.
  intros Hv Hd. unfold batchImageEnqueueScript. rewrite St_bind_run. cbn [SETNXPX MemQueue].
  destruct (qd_strings d !! inflightKey opts b) as [v|] eqn:Hk; runs; [done|].
  apply (none_lost_moved b d); [done| | |].
  - intros b' Hne Hb'. by apply (lpush_loses b (put_strings _ d)).
  - intros b' Hne. runs. rewrite lookup_insert_ne; [done|]. intros He. by apply inflight_inj in He.
  - intros _. split; [done|]. left. rewrite qlist_put_list. apply list_elem_of_here.
Qed.

Lemma reserve_keeps now d :
  none_lost d → none_lost (batchImageReserveScript (C:=MemQueue) opts now d).2.
Proof.
  intros Hd. unfold batchImageReserveScript. rewrite St_bind_run. cbn [RPOP MemQueue].
  destruct (pop_last (qlist d ready)) as [[b l]|] eqn:Hp; runs; [|done].
  apply pop_last_spec in Hp.
  apply (none_lost_moved b d); [done| |done|].
  - intros b' Hne Hb'. apply (zadd_loses active now b (put_list ready l d)); [done|].
    unfold queued_somewhere in *. rewrite !qzset_put_list, qlist_put_list.
    destruct Hb' as [Hr|Hz]; [|by right]. left. rewrite Hp in Hr.
    apply elem_of_app in Hr as [Hr|Hr]; [done|]. by apply list_elem_of_singleton in Hr.
  - intros Hk. split; [by apply Hd|]. right; right.
    rewrite qzset_put_zset, lookup_insert_eq. done.
Qed.

Lemma move_one_keeps from b d :
  none_lost d →
  none_lost (((_ ← ZREM from b; LPUSH ready b) : St queue_data unit) d).2.
Proof.
  intros Hd. apply (none_lost_moved b d); [done| |done|].
  - eapply loses_only_trans; [apply (zrem_loses from b d)|]. apply lpush_loses.
  - intros Hk. split; [by apply Hd|]. left. runs. rewrite qlist_put_list. apply list_elem_of_here.
Qed.

Lemma move_keeps from hi limit d :
  none_lost d → none_lost (move_script (C:=MemQueue) opts from hi limit d).2.
Proof.
  intros Hd. unfold move_script. rewrite (St_bind_run _ _ d). cbn [ZRANGEBYSCORE MemQueue].
  generalize (take (Z.to_nat limit) (filter (λ kv : string * Z, kv.2 ≤ hi)
     (Redis.zlist (qzset d from))).*1) as jobs.
  intros jobs. rewrite St_bind_run.
  destruct (mapM_ _ jobs d) as [u d'] eqn:Hm. cbn. revert d d' Hd Hm.
  induction jobs as [|b jobs IH]; intros d d' Hd; [intros Hm; change ((tt, d) = (u, d')) in Hm; by simplify_eq|].
  cbn [mapM_]. rewrite St_bind_run. intros Hm. eapply IH; [|exact Hm].
  by apply (move_one_keeps from b d).
Qed.

Lemma requeue_keeps now b delay d :
  IsValidBatchImageID b = true → none_lost d →
  none_lost (requeue_tx (C:=MemQueue) opts now b delay d).2.
Proof.
  intros Hv Hd. unfold requeue_tx. rewrite St_bind_run.
  pose proof (zrem_loses active b d) as H1.
  destruct (ZREM active b d) as [u1 d1] eqn:E1. rewrite St_bind_run.
  pose proof (zrem_loses delayed b d1) as H2.
  destruct (ZREM delayed b d1) as [u2 d2] eqn:E2.
  assert (qd_strings d2 = qd_strings d) as Hs.
  { cbn in E1, E2. by simplify_eq. }
  destruct (delay <=? 0).
  - apply (none_lost_moved b d); [done| |by intros; cbn; rewrite Hs|].
    + eapply loses_only_trans; [exact H1|]. eapply loses_only_trans; [exact H2|]. apply lpush_loses.
    + intros _. split; [done|]. left. cbn. rewrite qlist_put_list. apply list_elem_of_here.
  - apply (none_lost_moved b d); [done| |by intros; cbn; rewrite Hs|].
    + eapply loses_only_trans; [exact H1|]. eapply loses_only_trans; [exact H2|]. apply zadd_loses.
    + intros _. split; [done|]. right; left. runs. by rewrite qzset_put_zset, lookup_insert_eq.
Qed.

Lemma ack_keeps b d : none_lost d → none_lost (ack_tx (C:=MemQueue) opts b d).2.
Proof.
  intros Hd. unfold ack_tx. rewrite St_bind_run.
  pose proof (zrem_loses active b d) as H1.
  destruct (ZREM active b d) as [u1 d1] eqn:E1. rewrite St_bind_run.
  pose proof (zrem_loses delayed b d1) as H2.
  destruct (ZREM delayed b d1) as [u2 d2] eqn:E2.
  assert (qd_strings d2 = qd_strings d) as Hs by (cbn in E1, E2; by simplify_eq).
  apply (none_lost_moved b d); [done| | |].
  - eapply loses_only_trans; [exact H1|]. exact H2.
  - intros b' Hne. runs. rewrite Hs, lookup_delete_ne; [done|].
    intros He. by apply inflight_inj in He.
  - cbn. rewrite lookup_delete_eq. by intros [? ?].
Qed.

(** Keys that only die, or are no batch's, concern nobody. *)
Lemma strings_keep d d' :
  qd_lists d' = qd_lists d → qd_zsets d' = qd_zsets d →
  (∀ b, is_Some (qd_strings d' !! inflightKey opts b) → is_Some (qd_strings d !! inflightKey opts b)) →
  none_lost d → none_lost d'.
Proof.
  intros Hl Hz Hk Hd b Hb. unfold queued_somewhere, qlist, qzset. rewrite Hl, Hz. by apply Hd, Hk.
Qed.

Lemma lock_keeps b v px d :
  none_lost d → none_lost (SETNXPX (QueueCommands:=MemQueue) (lockKey opts b) v px d).2.
Proof.
  cbn. destruct (qd_strings d !! lockKey opts b); runs; [done|]. apply strings_keep; [done..|].
  intros b'. cbn. rewrite lookup_insert_ne; [done|]. apply (ka_locks apart).
Qed.

Lemma release_keeps key token d :
  none_lost d → none_lost (batchImageReleaseLockScript (C:=MemQueue) key token d).2.
Proof.
  unfold batchImageReleaseLockScript. rewrite St_bind_run. cbn [GET MemQueue]. case_bool_decide; runs; [|done].
  apply strings_keep; [done..|]. intros b. cbn. rewrite lookup_delete_is_Some. by intros [].
Qed.

Lemma refresh_keeps key token ttl d :
  none_lost d → none_lost (batchImageRefreshLockScript (C:=MemQueue) key token ttl d).2.
Proof.
  unfold batchImageRefreshLockScript. rewrite St_bind_run. cbn [GET MemQueue]. case_bool_decide; runs; [|done].
  destruct (qd_strings d !! key) as [[v t]|] eqn:Hk; [|done]. apply strings_keep; [by destruct (_ <? _)..|].
  intros b. destruct (0 <? ttl); cbn.
  - destruct (decide (key = inflightKey opts b)) as [->|Hne]; [by rewrite Hk|].
    by rewrite lookup_insert_ne.
  - rewrite lookup_delete_is_Some. by intros [].
Qed.

Lemma heartbeat_keeps now b d :
  none_lost d → none_lost (ZADDXX (QueueCommands:=MemQueue) active now b d).2.
Proof.
  intros Hd. cbn. destruct (qzset d active !! b) as [s|] eqn:Hb; [|done].
  apply (none_lost_moved b d); [done|apply zadd_loses|done|].
  intros Hk. split; [by apply Hd|]. right; right. by rewrite qzset_put_zset, lookup_insert_eq.
Qed.

Lemma drop_invalid_keeps b d :
  IsValidBatchImageID b = false → none_lost d →
  none_lost (ZREM (QueueCommands:=MemQueue) active b d).2.
Proof.
  intros Hv Hd. apply (none_lost_moved b d); [done|apply zrem_loses|done|].
  intros Hk. by rewrite (proj1 (Hd b Hk)) in Hv.
Qed.

Lemma tick_keeps t d : none_lost d → none_lost (TICK (QueueCommands:=MemQueue) t d).2.
Proof.
  apply strings_keep; [done..|]. intros b [v Hb]. cbn in Hb.
  apply map_lookup_filter_Some in Hb as [Hb _]. by rewrite Hb.
Qed.

(** *** What becomes ready *)

Definition due (from : string) (hi limit : Z) (d : queue_data) : list string :=
  (ZRANGEBYSCORE (QueueCommands:=MemQueue) from hi limit d).1.

Lemma due_elem from hi limit d b s :
  qzset d from !! b = Some s → s ≤ hi → Z.of_nat (size (qzset d from)) ≤ limit →
  b ∈ due from hi limit d.
Proof.
  intros Hb Hs Hl. cbn.
  assert (Permutation (Redis.zlist (qzset d from)) (map_to_list (qzset d from))) as Hp.
  { unfold Redis.zlist. apply merge_sort_Permutation. }
  rewrite take_ge.
  - apply list_elem_of_fmap. exists (b, s). split; [done|].
    apply list_elem_of_filter. split; [done|]. rewrite Hp. by apply elem_of_map_to_list.
  - rewrite length_fmap. etrans; [apply length_filter|]. rewrite Hp.
    rewrite length_map_to_list. lia.
Qed.

Lemma due_length from hi limit d : (List.length (due from hi limit d) ≤ size (qzset d from))%nat.
Proof.
  cbn. rewrite length_take, length_fmap. etrans; [apply Nat.le_min_r|].
  etrans; [apply length_filter|].
  unfold Redis.zlist. rewrite merge_sort_Permutation. by rewrite length_map_to_list.
Qed.

Lemma move_ready from hi limit d :
  qlist (move_script (C:=MemQueue) opts from hi limit d).2 ready
    = rev (due from hi limit d) ++ qlist d ready.
Proof.
  unfold move_script. rewrite (St_bind_run _ _ d). unfold due.
  destruct (ZRANGEBYSCORE from hi limit d) as [jobs d0] eqn:Hj. cbn in Hj.
  injection Hj as _ <-. cbn [fst]. rewrite St_bind_run.
  destruct (mapM_ _ jobs d) as [u d'] eqn:Hm. cbn. revert d d' Hm.
  induction jobs as [|b jobs IH]; intros d d' Hm;
    [change ((tt, d) = (u, d')) in Hm; by simplify_eq|].
  cbn [mapM_] in Hm. rewrite St_bind_run in Hm. apply IH in Hm. rewrite Hm.
  unfold mbind, St_bind. cbn. by rewrite qlist_put_list, <- app_assoc, qlist_put_zset.
Qed.

Lemma move_zset from hi limit d k :
  k ≠ from → qzset (move_script (C:=MemQueue) opts from hi limit d).2 k = qzset d k.
Proof.
  intros Hk. unfold move_script. rewrite (St_bind_run _ _ d). cbn [ZRANGEBYSCORE MemQueue].
  generalize (take (Z.to_nat limit) (filter (λ kv : string * Z, kv.2 ≤ hi)
     (Redis.zlist (qzset d from))).*1) as jobs.
  intros jobs. rewrite St_bind_run.
  destruct (mapM_ _ jobs d) as [u d'] eqn:Hm. cbn. revert d d' Hm.
  induction jobs as [|b jobs IH]; intros d d' Hm;
    [change ((tt, d) = (u, d')) in Hm; by simplify_eq|].
  cbn [mapM_] in Hm. rewrite St_bind_run in Hm. apply IH in Hm. rewrite Hm.
  unfold mbind, St_bind. cbn. by rewrite qzset_put_list, qzset_put_zset_ne.
Qed.

Lemma pop_last_app l x : pop_last (l ++ [x]) = Some (x, l).
Proof. induction l as [|y l IH]; cbn; [done|]. by rewrite IH. Qed.

Lemma reserve_ready now d l x :
  qlist d ready = l ++ [x] →
  (batchImageReserveScript (C:=MemQueue) opts now d).1 = Some x ∧
  qlist (batchImageReserveScript (C:=MemQueue) opts now d).2 ready = l.
Proof.
  intros Hl. unfold batchImageReserveScript. rewrite St_bind_run. cbn [RPOP MemQueue].
  rewrite Hl, pop_last_app. runs. by rewrite qlist_put_zset, qlist_put_list.
Qed.
End Data.

#[export] Hint Resolve enqueue_keeps reserve_keeps move_keeps requeue_keeps ack_keeps lock_keeps
  release_keeps refresh_keeps heartbeat_keeps drop_invalid_keeps tick_keeps : queue.

(** ** Any server *)

Section Server.
Context {S : Type} {C : QueueCommands S} (abs : S → queue_data) {L : QueueLaws C abs}.
Variable opts : batchImageQueueOptions.
Hypothesis apart : keys_apart opts.

Lemma refines_enqueue key b ttl :
  refines abs (batchImageEnqueueScript opts key b ttl) (batchImageEnqueueScript opts key b ttl).
Proof.
  apply refines_bind; [apply law_SETNXPX|intros fresh]. apply refines_if; [|apply refines_ret].
  apply refines_bind; [apply law_LPUSH|intros ?; apply refines_ret].
Qed.

Lemma refines_reserve now :
  refines abs (batchImageReserveScript opts now) (batchImageReserveScript opts now).
Proof.
  apply refines_bind; [apply law_RPOP|intros [b|]]; [|apply refines_ret].
  apply refines_bind; [apply law_ZADD|intros ?; apply refines_ret].
Qed.

Lemma refines_move from hi limit :
  refines abs (move_script opts from hi limit) (move_script opts from hi limit).
Proof.
  apply refines_bind; [apply law_ZRANGEBYSCORE|intros jobs].
  apply refines_bind; [|intros ?; apply refines_ret].
  apply refines_mapM_. intros b. apply refines_bind; [apply law_ZREM|intros ?; apply law_LPUSH].
Qed.

Lemma refines_requeue now b delay :
  refines abs (requeue_tx opts now b delay) (requeue_tx opts now b delay).
Proof.
  apply refines_bind; [apply law_ZREM|intros ?]. apply refines_bind; [apply law_ZREM|intros ?].
  apply refines_if; [apply law_LPUSH|apply law_ZADD].
Qed.

Lemma refines_ack b : refines abs (ack_tx opts b) (ack_tx opts b).
Proof.
  apply refines_bind; [apply law_ZREM|intros ?]. apply refines_bind; [apply law_ZREM|intros ?].
  apply law_DEL.
Qed.

Lemma refines_release key token :
  refines abs (batchImageReleaseLockScript key token) (batchImageReleaseLockScript key token).
Proof.
  apply refines_bind; [apply law_GET|intros v]. apply refines_if; [apply law_DEL|apply refines_ret].
Qed.

Lemma refines_refresh key token ttl :
  refines abs (batchImageRefreshLockScript key token ttl)
    (batchImageRefreshLockScript key token ttl).
Proof.
  apply refines_bind; [apply law_GET|intros v].
  apply refines_if; [apply law_PEXPIRE|apply refines_ret].
Qed.

(** *** Quiet methods *)

Definition holds (q : queue_state (S:=S)) : Prop := none_lost opts (abs (qs_server q)).
Definition anything : relation (queue_state (S:=S)) := λ _ _, True.

#[local] Instance anything_preorder : PreOrder anything.
Proof. by split; intros ?. Qed.

Notation quiet := (quiet holds anything).
Notation quiet_bind := (quiet_bind holds anything).
Notation quiet_try := (quiet_try holds anything).
Notation quiet_ret := (quiet_ret holds anything).
Notation quiet_clock := (quiet_clock holds anything).

Lemma quiet_redis {A} (c : St S A) c' :
  refines abs c c' → (∀ d, none_lost opts d → none_lost opts (c' d).2) → quiet (redis c).
Proof.
  intros Hr Hk. apply quiet_step. intros q Hq. split; [|done].
  destruct (c (qs_server q)) as [a s] eqn:Hc. unfold holds. cbn.
  pose proof (refines_snd abs c c' (qs_server q) Hr) as He. rewrite Hc in He. cbn in He.
  rewrite He. by apply Hk.
Qed.

Lemma quiet_valid {A} b (p : proc queue_state (result A)) :
  (IsValidBatchImageID b = true → quiet p) → quiet (valid_id b p).
Proof.
  intros Hp. unfold valid_id. destruct (IsValidBatchImageID b); [by apply Hp|apply quiet_ret].
Qed.

Lemma quiet_enqueue b : quiet (RedisEnqueue opts b).
Proof.
  apply quiet_valid. intros Hv. apply quiet_try.
  - eapply quiet_redis; [apply refines_enqueue|]. auto with queue.
  - intros n. destruct (n =? 0); apply quiet_ret.
Qed.

Lemma quiet_reserve_once : quiet (reserveOnce opts).
Proof.
  apply quiet_clock. intros t. apply quiet_try.
  - eapply quiet_redis; [apply refines_reserve|]. auto with queue.
  - intros [b|]; [|apply quiet_ret].
    destruct (IsValidBatchImageID b) eqn:Hv; [apply quiet_ret|].
    apply quiet_bind; [|intros ?; apply quiet_ret].
    destruct (negb _); [|apply quiet_ret].
    eapply quiet_redis; [apply law_ZREM|]. auto with queue.
Qed.

Lemma quiet_queue_reserve bt : quiet (RedisReserve opts bt).
Proof.
  apply quiet_clock. intros t. generalize (t + bt) as deadline. intros deadline.
  induction (Z.to_nat (bt / batchImageReservePollInterval + 2)) as [|n IH]; cbn [reserve_until];
    (apply quiet_bind; [apply quiet_reserve_once|]); (intros [b|err]; [apply quiet_ret|]);
    (destruct (negb _); [apply quiet_ret|]); [apply quiet_ret|].
  apply quiet_clock. intros now. destruct (_ <=? _); [apply quiet_ret|apply IH].
Qed.

Lemma quiet_requeue b delay : quiet (RedisRequeueAfter opts b delay).
Proof.
  apply quiet_valid. intros Hv. apply quiet_clock. intros t.
  eapply quiet_redis; [apply refines_requeue|]. auto with queue.
Qed.

Lemma quiet_ack b : quiet (RedisAck opts b).
Proof.
  apply quiet_valid. intros Hv. eapply quiet_redis; [apply refines_ack|]. auto with queue.
Qed.

Lemma quiet_heartbeat b : quiet (RedisHeartbeat opts b).
Proof.
  apply quiet_valid. intros Hv. apply quiet_clock. intros t.
  eapply quiet_redis; [apply law_ZADDXX|]. auto with queue.
Qed.

Lemma quiet_move limit : quiet (RedisMoveDueDelayedToReady opts limit).
Proof.
  apply quiet_clock. intros t. eapply quiet_redis; [apply refines_move|]. auto with queue.
Qed.

Lemma quiet_queue_recover stale limit : quiet (RedisRecoverStaleActive opts stale limit).
Proof.
  unfold RedisRecoverStaleActive. destruct (stale <=? 0); [apply quiet_ret|].
  apply quiet_clock. intros t. eapply quiet_redis; [apply refines_move|]. auto with queue.
Qed.

Lemma quiet_lock b ttl : quiet (RedisTryAcquireJobLock opts b ttl).
Proof.
  apply quiet_valid. intros Hv. apply quiet_try.
  - apply quiet_step. intros [s r] Hs. unfold holds in *. cbn in *. by destruct (rand_hex r).
  - intros token. apply quiet_try; [|intros []; apply quiet_ret].
    eapply quiet_redis; [apply law_SETNXPX|]. auto with queue.
Qed.

Lemma quiet_queue_release lock : quiet (RedisReleaseLock lock).
Proof.
  unfold RedisReleaseLock. destruct (_ || _); [apply quiet_ret|].
  eapply quiet_redis; [apply refines_release|]. auto with queue.
Qed.

Lemma quiet_refresh lock ttl : quiet (RedisRefreshLock lock ttl).
Proof.
  unfold RedisRefreshLock. destruct (_ || _); [apply quiet_ret|].
  eapply quiet_redis; [apply refines_refresh|]. auto with queue.
Qed.

Lemma quiet_tick t : quiet (redis (TICK t)).
Proof. eapply quiet_redis; [apply law_TICK|]. auto with queue. Qed.

(** *** Programs that use the queue *)

(** Anything written with the queue's methods, and the server's clock. *)
Inductive queue_program : ∀ {A}, proc (queue_state (S:=S)) A → Prop :=
| qp_ret {A} (a : A) : queue_program (mret a)
| qp_clock {A} (k : Z → proc queue_state A) :
    (∀ t, queue_program (k t)) → queue_program (time_now ≫= k)
| qp_bind {A B} (p : proc queue_state A) (f : A → proc queue_state B) :
    queue_program p → (∀ a, queue_program (f a)) → queue_program (p ≫= f)
| qp_enqueue b : queue_program (RedisEnqueue opts b)
| qp_reserve bt : queue_program (RedisReserve opts bt)
| qp_requeue b delay : queue_program (RedisRequeueAfter opts b delay)
| qp_ack b : queue_program (RedisAck opts b)
| qp_heartbeat b : queue_program (RedisHeartbeat opts b)
| qp_move limit : queue_program (RedisMoveDueDelayedToReady opts limit)
| qp_recover stale limit : queue_program (RedisRecoverStaleActive opts stale limit)
| qp_lock b ttl : queue_program (RedisTryAcquireJobLock opts b ttl)
| qp_release lock : queue_program (RedisReleaseLock lock)
| qp_refresh lock ttl : queue_program (RedisRefreshLock lock ttl)
| qp_tick t : queue_program (redis (TICK t)).

Lemma quiet_queue_program {A} (p : proc queue_state A) : queue_program p → quiet p.
Proof.
  induction 1; [apply quiet_ret|by apply quiet_clock|by apply quiet_bind|..].
  - apply quiet_enqueue.
  - apply quiet_queue_reserve.
  - apply quiet_requeue.
  - apply quiet_ack.
  - apply quiet_heartbeat.
  - apply quiet_move.
  - apply quiet_queue_recover.
  - apply quiet_lock.
  - apply quiet_queue_release.
  - apply quiet_refresh.
  - apply quiet_tick.
Qed.

Lemma pool_keeps {A} ts (s : pool (queue_state (S:=S)) A) :
  holds (pl_world s) → Forall (queue_program) (pl_procs s) → holds (pl_world (run_turns ts s)).
Proof.
  intros Hs Hps. apply (turns_ok holds anything ts s). split; [done|].
  eapply Forall_impl; [exact Hps|]. intros p Hp. by apply quiet_queue_program.
Qed.

(** *** Running alone *)

Lemma exec_redis {A} now (c : St S A) c' q :
  refines abs c c' →
  ∃ q', exec now (redis c) [] q = (inl (c' (abs (qs_server q))).1, q') ∧
        abs (qs_server q') = (c' (abs (qs_server q))).2.
Proof.
  intros Hr. unfold redis. rewrite exec_step.
  pose proof (refines_fst abs c c' (qs_server q) Hr) as H1.
  pose proof (refines_snd abs c c' (qs_server q) Hr) as H2.
  destruct (c (qs_server q)) as [a s]. cbn in *. exists (MkQueueState s (qs_rng q)).
  by rewrite H1.
Qed.

Lemma exec_reserve now bt q l x :
  qlist (abs (qs_server q)) (qo_ReadyKey opts) = l ++ [x] →
  ∃ r q', exec now (RedisReserve opts bt) [] q = (r, q') ∧
    qlist (abs (qs_server q')) (qo_ReadyKey opts) = l ∧
    (IsValidBatchImageID x = true → r = inl x).
Proof.
  intros Hl. unfold RedisReserve. rewrite exec_bind_quiet. cbn [exec time_now].
  assert (∃ r q', exec now (reserveOnce opts) [] q = (r, q') ∧
    qlist (abs (qs_server q')) (qo_ReadyKey opts) = l ∧
    r = (if IsValidBatchImageID x then inl x
         else inr (as_error ErrInvalidBatchImageQueuePayload))) as (r & q' & Hr & Hl' & ->).
  { unfold reserveOnce. rewrite exec_bind_quiet. cbn [exec time_now]. rewrite exec_try_quiet.
    destruct (exec_redis now _ _ q (refines_reserve (unix_milli now))) as (q1 & -> & Hq1).
    destruct (reserve_ready opts (unix_milli now) _ l x Hl) as [-> Hl1].
    rewrite <- Hq1 in Hl1. destruct (IsValidBatchImageID x); [by exists (inl x), q1|].
    rewrite exec_bind_quiet. destruct (negb _); [|by eexists _, q1].
    destruct (exec_redis now _ _ q1 (law_ZREM (qo_ActiveKey opts) x)) as (q2 & -> & Hq2).
    eexists _, q2. split; [reflexivity|]. by rewrite Hq2. }
  destruct (Z.to_nat (bt / batchImageReservePollInterval + 2)) as [|n]; cbn [reserve_until];
    rewrite exec_bind_quiet, Hr; destruct (IsValidBatchImageID x); by eexists _, q'.
Qed.

(** Stale and due batches become ready, and every ready batch is handed out. *)
Definition sweep (staleAfter limit : Z) : proc (queue_state (S:=S)) (result Z) :=
  _ ⇐! RedisRecoverStaleActive opts staleAfter limit;
  RedisMoveDueDelayedToReady opts limit.

Fixpoint drain (n : nat) : proc (queue_state (S:=S)) (list (result string)) :=
  match n with
  | O => mret []
  | Datatypes.S n => r ← RedisReserve opts 0; rs ← drain n; mret (r :: rs)
  end.

Lemma drain_hands_out now n b q :
  IsValidBatchImageID b = true → b ∈ qlist (abs (qs_server q)) (qo_ReadyKey opts) →
  (List.length (qlist (abs (qs_server q)) (qo_ReadyKey opts)) ≤ n)%nat →
  inl b ∈ (exec now (drain n) [] q).1.
Proof.
  intros Hv. revert q. induction n as [|n IH]; intros q Hb Hn.
  { destruct (qlist _ _); [by apply not_elem_of_nil in Hb|cbn in Hn; lia]. }
  destruct (qlist (abs (qs_server q)) (qo_ReadyKey opts)) as [|x l _] eqn:Hl using rev_ind;
    [by apply not_elem_of_nil in Hb|].
  cbn [drain]. rewrite exec_bind_quiet.
  destruct (exec_reserve now 0 q l x Hl) as (r & q' & -> & Hl' & Hr).
  rewrite exec_bind_quiet. specialize (IH q').
  destruct (exec now (drain n) [] q') as [rs q''] eqn:He. cbn.
  apply elem_of_app in Hb as [Hb|Hb].
  - apply list_elem_of_further. rewrite Hl' in IH. apply IH; [done|].
    rewrite length_app in Hn. cbn in Hn. lia.
  - apply list_elem_of_singleton in Hb as ->. rewrite Hr by done. apply list_elem_of_here.
Qed.

Lemma sweep_makes_ready now staleAfter limit b q :
  let d := abs (qs_server q) in
  let stale := unix_milli (now - staleAfter) in
  0 < staleAfter → 0 < limit →
  Z.of_nat (size (qzset d (qo_ActiveKey opts))) ≤ limit →
  Z.of_nat (size (qzset d (qo_DelayedKey opts))) ≤ limit →
  (∀ s, qzset d (qo_ActiveKey opts) !! b = Some s → s ≤ stale) →
  (∀ s, qzset d (qo_DelayedKey opts) !! b = Some s → s ≤ unix_milli now) →
  queued_somewhere opts d b →
  let d' := abs (qs_server (exec now (sweep staleAfter limit) [] q).2) in
  b ∈ qlist d' (qo_ReadyKey opts) ∧
  (List.length (qlist d' (qo_ReadyKey opts)) ≤ List.length (qlist d (qo_ReadyKey opts))
     + size (qzset d (qo_ActiveKey opts)) + size (qzset d (qo_DelayedKey opts)))%nat.
Proof.
  intros d stale Hst Hlim HA HD Hact Hdel Hb. cbn zeta.
  unfold sweep. rewrite exec_try_quiet. unfold RedisRecoverStaleActive.
  rewrite (proj2 (Z.leb_gt staleAfter 0)) by done.
  rewrite (proj2 (Z.leb_gt limit 0)) by done.
  rewrite exec_bind_quiet. cbn [exec time_now]. fold stale.
  destruct (exec_redis now _ _ q (refines_move (qo_ActiveKey opts) stale limit))
    as (q1 & -> & Hq1). fold d in Hq1.
  unfold RedisMoveDueDelayedToReady. rewrite (proj2 (Z.leb_gt limit 0)) by done.
  rewrite exec_bind_quiet. cbn [exec time_now].
  destruct (exec_redis now _ _ q1 (refines_move (qo_DelayedKey opts) (unix_milli now) limit))
    as (q2 & -> & Hq2). cbn [snd]. rewrite Hq2, move_ready, Hq1, move_ready.
  pose proof (ka_sets opts apart) as Hne.
  pose proof (move_zset opts (qo_ActiveKey opts) stale limit d (qo_DelayedKey opts) Hne) as Hz.
  pose proof (due_length (qo_DelayedKey opts) (unix_milli now) limit
    (move_script (C:=MemQueue) opts (qo_ActiveKey opts) stale limit d).2) as H1.
  pose proof (due_length (qo_ActiveKey opts) stale limit d) as H2. rewrite Hz in H1.
  rewrite !length_app, !length_rev. split; [|lia].
  assert (∀ l, b ∈ rev l ↔ b ∈ l) as Hrev
    by (intros l; rewrite !list_elem_of_In; symmetry; apply in_rev).
  rewrite !elem_of_app, !Hrev.
  destruct Hb as [Hr|[[s Hs]|[s Hs]]].
  - by right; right.
  - left. apply due_elem with s; rewrite ?Hz; auto.
  - right; left. apply due_elem with s; auto.
Qed.
End Server.

(** ** The queue loses no batch *)

(** C11: Whatever workers, heartbeats, movers and submitters do and whenever they die or see an
    error, a batch whose in-flight key is alive has a valid identifier and is ready, delayed or
    active; and one sweep for stale and due batches, run once its entries are old enough and with
    a limit that covers the active and the delayed set, followed by as many reservations as there
    can be batches, hands it out again. *)
Theorem queued_batch_is_handed_out {S A} {C : QueueCommands S} (abs : S → queue_data)
    (opts : batchImageQueueOptions) (ts : list turn) (s : pool (queue_state (S:=S)) A)
    (b : string) (now staleAfter limit : Z) (n : nat) :
  QueueLaws C abs → keys_apart opts →
  none_lost opts (abs (qs_server (pl_world s))) →
  Forall (queue_program opts) (pl_procs s) →
  let q := pl_world (run_turns ts s) in
  let d := abs (qs_server q) in
  is_Some (qd_strings d !! inflightKey opts b) →
  IsValidBatchImageID b = true ∧ queued_somewhere opts d b ∧
  (0 < staleAfter → 0 < limit →
   Z.of_nat (size (qzset d (qo_ActiveKey opts))) ≤ limit →
   Z.of_nat (size (qzset d (qo_DelayedKey opts))) ≤ limit →
   (∀ t, qzset d (qo_ActiveKey opts) !! b = Some t → t ≤ unix_milli (now - staleAfter)) →
   (∀ t, qzset d (qo_DelayedKey opts) !! b = Some t → t ≤ unix_milli now) →
   (List.length (qlist d (qo_ReadyKey opts)) + size (qzset d (qo_ActiveKey opts))
      + size (qzset d (qo_DelayedKey opts)) ≤ n)%nat →
   inl b ∈ (exec now (sweep opts staleAfter limit ≫= λ _, drain opts n) [] q).1).
Proof.
  intros L apart Hs Hps q d Hb.
  assert (none_lost opts d) as Hd.
  { by apply pool_keeps. }
  destruct (Hd b Hb) as [Hv Hq]. split_and!; [done..|].
  intros Hst Hlim HA HD Hact Hdel Hn.
  destruct (sweep_makes_ready abs opts apart now staleAfter limit b q) as [Hr Hl]; [done..|].
  rewrite exec_bind_quiet.
  destruct (exec now (sweep opts staleAfter limit) [] q) as [r q'].
  apply (drain_hands_out abs); [done..|]. cbn in Hl. unfold d in Hn. lia.
Qed.

(** A worker reserves the batch and dies; a minute later another hands it out. *)
Definition sample_options : batchImageQueueOptions :=
  normalizeBatchImageQueueOptions (MkQueueOptions "" "" "" "" "" 0 0).

Definition sample_pool : pool (queue_state (S:=queue_data)) unit :=
  MkPool (MkQueueState (empty_queue 0) (Rng (λ n, [N.of_nat n]) 0)) (unix_milli 0)
    [RedisEnqueue sample_options "imgbatch_0123456789abcdef" ≫= λ _,
     RedisReserve sample_options 0 ≫= λ _, mret tt].

Definition sample_turns : list turn := repeat (TakeStep 0 Fine) 4.

Lemma sample_apart : keys_apart sample_options.
Proof. split; [done|]. by intros b b'. Qed.

Lemma queued_batch_is_handed_out_witness :
  inl "imgbatch_0123456789abcdef" ∈
    (exec (2 * Minute)
       (sweep sample_options Minute 100 ≫= λ _, drain sample_options 1) []
       (pl_world (run_turns sample_turns sample_pool))).1.
Proof.
  refine (proj2 (proj2 (queued_batch_is_handed_out (C:=MemQueue) id sample_options sample_turns
    sample_pool "imgbatch_0123456789abcdef" (2 * Minute) Minute 100 1
    MemQueue_laws sample_apart _ _ _)) _ _ _ _ _ _ _).
  - intros b Hb. destruct Hb as [v Hb]. vm_compute in Hb. discriminate.
  - apply Forall_cons_2; [|apply Forall_nil_2].
    apply qp_bind; [apply qp_enqueue|]. intros u.
    apply qp_bind; [apply qp_reserve|]. intros r. apply qp_ret.
  - vm_compute. by eexists.
  - done.
  - done.
  - vm_compute. discriminate.
  - vm_compute. discriminate.
  - intros t Ht. vm_compute in Ht. simplify_eq. vm_compute. discriminate.
  - intros t Ht. vm_compute in Ht. discriminate.
  - vm_compute. lia.
Defined.
