(* ===== verification/BatchImageSample.v ===== *)
(** * BatchImageSample: a gateway to run

    A provider that accepts one kind of batch and answers it with a result file, the queue over
    its data model, a user with a balance and a key, and programs to run in a pool.  The
    witnesses and examples of the batch images evaluate on it. *)

From stdpp Require Import base tactics numbers list strings gmap.
From Stdlib Require Import ZArith QArith Lia.
From S2P Require Import Prelude GoLib GoJson GoFloat AppErrors Billing BillingFacts BatchImage Programs BatchImageStore BatchImageIndex BatchImageIndexFacts BatchImageServices BatchImageSettlement BatchImageProcessor BatchImageRequest BatchImagePublic BatchImageWorker BatchImageRedisQueue BatchImageQueueFacts.

Local Open Scope go_scope.
Local Open Scope Z_scope.

#[local] Existing Instances AsciiText PlainLib ExactCodec.

(** A group that sells an image at one, batches at half of it, and holds three quarters. *)
Definition sample_group : Group :=
  MkGroup 3 PlatformGemini true (f64_of_int 1) false (f64_of_int 1) (f64_decimal 5 1)
    (f64_decimal 75 2).

(** The provider: [true] when its answer of the next submission is an error. *)
Definition SampleProviders : BatchImageProviders := {|
  remote := bool;
  Account := unit;
  account_ID _ := 9;
  Priority _ := 1;
  IsSchedulable _ := true;
  IsModelSupported _ _ := true;
  BillingRateMultiplier _ := f64_of_int 1;
  registered name := name ≟ BatchImageProviderGeminiAPI;
  SupportsAccount _ _ := true;
  provider_Submit _ job _ _ := λ broken : bool,
    (if broken then inr (EPlain "connection reset")
     else inl (Some (MkBatchProviderJob "batches/1" "files/in" "" "JOB_STATE_PENDING")), broken);
  provider_Get _ _ _ := λ s : bool,
    (inl (Some (MkBatchProviderStatus "JOB_STATE_SUCCEEDED" BatchProviderStateSucceeded true
                  "files/out" "" "" 0)), s);
  provider_Cancel _ _ _ := λ s : bool, (inl tt, s);
  provider_OpenResult _ _ _ := λ s : bool, (inl mixed_output, s);
  provider_Cleanup _ _ _ _ := λ s : bool, (inl tt, s);
  GetAccountByID _ := λ s : bool, (inl tt, s);
  ListSchedulableByPlatform _ := λ s : bool, (inl [tt], s);
  ListSchedulableByGroupIDAndPlatform _ _ := λ s : bool, (inl [tt], s);
  GetByIDLite _ := λ s : bool, (inl (Some sample_group), s);
  GetImagePrice _ _ := Some (f64_of_int 1);
  GetByUserAndGroup _ _ := λ s : bool, (inl None, s);
  ResolvePricing _ := λ s : bool, (inl None, s)
|}.

#[local] Existing Instance SampleProviders.

Definition SampleQueue : BatchImageQueue :=
  RedisBatchImageQueue (C:=MemQueue) sample_options.

#[local] Existing Instance SampleQueue.

Definition sample_config : BatchImageConfig := MkBatchImageConfig true 0 0 0 0 0 0 0 0 0 "" "".

Definition sample_time (t : Z) : string := FormatInt (Unix t).
Definition sample_base64 (s : string) : string := s.

(** Balance ten; no jobs. *)
Definition sample_world (broken : bool) : batch_world :=
  MkWorld SampleProviders SampleQueue (MkBatchDB ∅ [] [] 1 1) (sample_db 1000000000)
    (MkQueueState (empty_queue 0) (Rng (λ n, [N.of_nat n]) 0)) broken [] [].

Definition sample_owner : BatchImageOwner := MkBatchImageOwner 1 5 (Some 3).

Definition sample_item (id prompt : string) : BatchImageSubmitItem :=
  MkBatchImageSubmitItem id prompt 0 [].

(** Three images; the provider answers one, refuses one and forgets one ([mixed_output]). *)
Definition sample_request : BatchImageSubmitRequest :=
  MkBatchImageSubmitRequest "gemini-image" "cats" "" "" 
    [sample_item "a" "a cat"; sample_item "b" "a dog"; sample_item "c" "a bird"] "" "" "" ∅ None.

Definition sample_batch : string := "imgbatch_1".

Definition sample_submit : proc batch_world (result BatchImagePublicBatch) :=
  Submit sample_time sample_base64 sample_config (inl sample_batch) sample_owner sample_request "".

Definition sample_worker : proc batch_world unit :=
  try_ (RunOnce (PipelineProcess 0 1 sample_config 0)
          (normalizeBatchImageWorkerOptions (MkBatchImageWorkerOptions 0 0 0 0 0 0 0 0 0 0 0))).

Definition sample_move : proc batch_world unit :=
  try_ (MoveDueDelayedOnce
          (normalizeBatchImageWorkerOptions (MkBatchImageWorkerOptions 0 0 0 0 0 0 0 0 0 0 0))).

(** What became of the batch, the balance in units of a hundred millionth, and the log. *)
Definition sample_outcome (w : batch_world) : option (string * option float64) * list (Z * Z) * list Z :=
  ((λ j, (j_Status j, j_ActualCost j)) <$> t_jobs (w_jobs w) !! sample_batch,
   (λ u, (u_balance u.2, u_frozen u.2)) <$> map_to_list (users (w_money w)),
   ul_ImageCount <$> w_usage w).
(** Programs one after the other, a minute apart. *)
Fixpoint alone (now : Z) (ps : list (proc batch_world unit)) (w : batch_world) : batch_world :=
  match ps with
  | [] => w
  | p :: ps => alone (now + Minute) ps (exec now p [] w).2
  end.

Definition sample_day : list (proc batch_world unit) :=
  [try_ sample_submit; sample_worker; sample_move; sample_worker; sample_move; sample_worker].

(** Three quarters of three are held; one image at one half is paid, the rest returned. *)
Example sample_submitted :
  sample_outcome (exec Minute sample_submit [] (sample_world false)).2 =
    (Some ("submitted", None), [(775000000, 225000000)], []).
Proof. vm_compute. reflexivity. Qed.

Example sample_completed :
  sample_outcome (alone Minute sample_day (sample_world false)) =
    (Some ("completed", Some (f64_decimal 5 1)), [(950000000, 0)], [1]).
Proof. vm_compute. reflexivity. Qed.

(** A provider that refuses the batch: it failed, and the hold is returned. *)
Example sample_refused :
  sample_outcome (alone Minute sample_day (sample_world true)) =
    (Some ("failed", None), [(1000000000, 0)], []).
Proof. vm_compute. reflexivity. Qed.

(** The same programs in a pool, a step at a time. *)
Definition sample_turns_of (i : nat) : list turn := repeat (TakeStep i Fine) 60 ++ [Wait Minute].
