(* ===== verification/BatchImageExamples.v ===== *)
(** * BatchImageExamples: behaviours of the batch images worth knowing

    Runs of the modelled programs on the sample gateway (BatchImageSample) that a reader of the
    comments and of the tests would not expect. *)

From stdpp Require Import base tactics numbers list strings gmap.
From Stdlib Require Import ZArith QArith Lia Ascii String.
From S2P Require Import Prelude GoLib GoJson GoFloat AppErrors Billing BillingFacts BatchImage Programs BatchImageStore BatchImageIndex BatchImageIndexFacts BatchImageServices BatchImageSettlement BatchImageProcessor BatchImageRequest BatchImagePublic BatchImageWorker BatchImageRedisQueue BatchImageQueueFacts BatchImageSample.

Local Open Scope go_scope.
Local Open Scope Z_scope.

#[local] Existing Instances AsciiText PlainLib ExactCodec SampleProviders SampleQueue.

(** A message is cut at a byte, also in the middle of a rune: what is left of [a] and [e] acute is
    no UTF-8, which PostgreSQL refuses. *)
Example truncation_cuts_runes :
  let bytes l := string_of_list_ascii (ascii_of_nat <$> l) in
  truncateBatchImageMessage (bytes [97; 195; 169]%nat) 2 = bytes [97; 195]%nat.
Proof. vm_compute. reflexivity. Qed.

(** The same request with the same idempotency key, a second later and without a name for the
    task: the name that is made up from the time is hashed, so the retry conflicts with itself. *)
Definition unnamed_request : BatchImageSubmitRequest := sample_request{{ rq_TaskName := "" }}.
Definition submit_unnamed : proc batch_world (result BatchImagePublicBatch) :=
  Submit sample_time sample_base64 sample_config (inl sample_batch) sample_owner unnamed_request
    "key-1".

Example retry_conflicts_with_itself :
  let '(first, w) := exec Second submit_unnamed [] (sample_world false) in
  pb_Status <$> (match first with inl b => Some b | inr _ => None end) = Some "queued" ∧
  (exec (Second + Second) submit_unnamed [] w).1 = inr (as_error ErrBatchImageIdempotencyConflict) ∧
  match (exec Second submit_unnamed [] w).1 with inl b => pb_ID b = sample_batch | inr _ => False end.
Proof. vm_compute. by split_and!. Qed.

(** A batch that is cancelled while its submission fails is reported as failed. *)
Example submit_failure_overwrites_cancelled :
  let w := put_jobs (put_job (BatchImageJob0{{ j_BatchID := sample_batch;
                                               j_Status := BatchImageJobStatusCancelled }})
                       (w_jobs (sample_world false))) (sample_world false) in
  CanTransitionBatchImageJob BatchImageJobStatusCancelled BatchImageJobStatusFailed = false ∧
  (sample_outcome (exec 0 (record_failure sample_batch "QUEUE_FAILED" "" true) [] w).2).1.1 =
    Some ("failed", None).
Proof. vm_compute. by split. Qed.

(** A batch in [created] is shown as queued, but a list of the queued ones leaves it out. *)
Example queued_list_leaves_out_created :
  let w := put_jobs (put_job (BatchImageJob0{{ j_BatchID := sample_batch; j_UserID := 1;
                                               j_APIKeyID := Some 5;
                                               j_Status := BatchImageJobStatusCreated }})
                       (w_jobs (sample_world false))) (sample_world false) in
  let list status :=
    match (exec 0 (List_ sample_time (λ _ _, true) sample_owner
             (MkBatchImageJobsQuery status "" "" None None 0 "")) [] w).1 with
    | inl (l, _) => pb_Status <$> l
    | inr _ => []
    end in
  list "" = ["queued"] ∧ list "queued" = [].
Proof. vm_compute. by split. Qed.

(** The database refuses the last step of every settlement: the money is taken at the first one,
    no failure is ever counted, and the job stays where it is. *)
Definition settle_refused (w : batch_world) (t : Z) : batch_world :=
  (exec t (PipelineProcess 0 1 sample_config 0 sample_batch)
     [Fine; Fine; Fine; Fine; Refused (EPlain "pq: connection lost")] w).2.

Example refused_settlements_are_not_counted :
  let w := foldl settle_refused (alone Minute (take 3 sample_day) (sample_world false))
             [0; 1; 2; 3; 4; 5; 6] in
  sample_outcome w = (Some ("settling", None), [(950000000, 0)], []) ∧
  j_RetryCount <$> t_jobs (w_jobs w) !! sample_batch = Some 0.
Proof. vm_compute. by split. Qed.
