(* ===== verification/BatchImageRequestFacts.v ===== *)
(** * BatchImageRequestFacts: what a validated submission promises

    Whatever a client sends, the request that [validateSubmitRequest] lets through has distinct,
    non-empty identifiers, prompts within their limit and no more images than a job may have. *)

From stdpp Require Import base tactics numbers list strings gmap.
From Stdlib Require Import ZArith Lia.
From S2P Require Import Prelude GoLib GoJson GoFloat AppErrors Billing BillingFacts BatchImage Programs BatchImageStore BatchImageIndex BatchImageIndexFacts BatchImageServices BatchImageSettlement BatchImageRequest BatchImageSample.

Local Open Scope go_scope.
Local Open Scope Z_scope.

Section Validation.
Context `{GoText}.
Variables (format_time : Z → string) (cfg : BatchImageConfig).

(** An item as it is submitted: one image, with an identifier and a prompt. *)
Definition sound_item (i : BatchImageSubmitItem) : Prop :=
  si_CustomID i ≠ "" ∧ si_OutputCount i = 0 ∧ si_Prompt i ≠ "" ∧
  len (si_Prompt i) <= maxPromptChars cfg.

Definition sound_items (l : list BatchImageSubmitItem) : Prop :=
  NoDup (si_CustomID <$> l) ∧ Forall sound_item l.

Record sound_so_far (v : validation) : Prop := {
  so_items : sound_items (va_items v);
  so_count : count (va_items v) = va_images v;
  so_limit : va_images v <= maxOutputImagesPerJob cfg
}.

(** The limits of a job and of an item add up to a 64-bit integer. *)
Hypothesis limits : maxOutputImagesPerJob cfg + maxOutputImagesPerItem cfg < 2 ^ 63.

Lemma setting_positive v d : 0 < d → 0 < setting v d.
Proof. unfold setting. destruct (0 <? v) eqn:Hv; [|done]. intros _. by apply Z.ltb_lt. Qed.

Lemma add_items_spec new items out :
  add_items new items = Some out → NoDup (si_CustomID <$> items) →
  out = items ++ new ∧ NoDup (si_CustomID <$> out).
Proof.
  revert items. induction new as [|i new IH]; intros items; cbn [add_items].
  { intros [= <-] Hnd. by rewrite app_nil_r. }
  destruct (existsb _ items) eqn:He; [done|]. intros Hout Hnd.
  destruct (IH (items ++ [i]) Hout) as [-> Hnd'].
  - rewrite fmap_app. apply NoDup_app. split_and!; [done| |by apply NoDup_singleton].
    intros id Hid Hin. apply list_elem_of_singleton in Hin as ->.
    apply list_elem_of_fmap in Hid as (j & Hj & Hin).
    apply not_true_iff_false in He. apply He, existsb_exists. exists j.
    split; [by apply list_elem_of_In|]. by apply String.eqb_eq.
  - split; [by rewrite <- app_assoc|done].
Qed.

Lemma repeated_sound item n k :
  si_CustomID item ≠ "" → si_Prompt item ≠ "" → len (si_Prompt item) <= maxPromptChars cfg →
  sound_item (repeated item k n).
Proof.
  intros Hid Hp Hl. unfold repeated. split_and!; cbn; try done.
  destruct (1 <? k); [|done]. by destruct (si_CustomID item).
Qed.

Lemma validate_item_sound model i item v v' :
  sound_so_far v → 0 <= va_images v → validate_item cfg model i item v = inl v' →
  sound_so_far v' ∧ va_images v < va_images v'.
Proof.
  intros [[Hnd Hall] Hcount Hlimit] Hpos. unfold validate_item. cbv zeta.
  set (id := if TrimSpace (si_CustomID item) ≟ "" then _ else _).
  set (k := if si_OutputCount item =? 0 then 1 else _).
  destruct ((k <? 1) || _) eqn:Hk; [done|]. apply orb_false_iff in Hk as [Hk1 Hk2].
  destruct (maxOutputImagesPerJob cfg <? va_images v +! k) eqn:Hmax; [done|]. bool_props.
  destruct (TrimSpace (si_Prompt item) ≟ "") eqn:Hp; [done|].
  destruct (maxPromptChars cfg <? _) eqn:Hl; [done|]. bool_props.
  destruct (normalizeBatchImageReferenceInputs _ _) as [[refs bytes]|]; [|done].
  destruct (maxReferenceImagesPerJob cfg <? _); [done|].
  destruct (maxReferenceInlineBytesPerJob cfg <? _); [done|].
  destruct (add_items _ _) as [items|] eqn:Hadd; [|done]. intros [= <-]. cbn [va_images].
  assert (va_images v +! k = va_images v + k) as Hsum.
  { apply int64_wrap_id. unfold int64_range. lia. }
  rewrite Hsum in *. split; [|lia].
  destruct (add_items_spec _ _ _ Hadd Hnd) as [-> Hnd']. split; cbn [va_items va_images].
  - split; [done|]. apply Forall_app. split; [done|]. apply Forall_fmap, Forall_forall.
    intros n _. apply repeated_sound; cbn; try done.
    unfold id. destruct (TrimSpace (si_CustomID item) ≟ "") eqn:Hid; [done|].
    by apply String.eqb_neq.
  - unfold count in *. rewrite length_app, length_fmap, length_seq. lia.
  - rewrite ?Hsum. lia.
Qed.

Lemma validate_items_sound model i items v v' :
  sound_so_far v → 0 <= va_images v → validate_items cfg model i items v = inl v' →
  sound_so_far v' ∧ va_images v + count items <= va_images v'.
Proof.
  unfold count. revert i v.
  induction items as [|item items IH]; intros i v Hv Hpos; cbn [validate_items].
  { intros [= <-]. split; [done|]. cbn. lia. }
  destruct (validate_item cfg model i item v) as [v1|] eqn:Hi; [|done].
  destruct (validate_item_sound _ _ _ _ _ Hv Hpos Hi) as [Hv1 Hlt]. intros Hrest.
  destruct (IH (S i) v1 Hv1 ltac:(lia) Hrest) as [Hv' Hle]. split; [done|].
  rewrite length_cons. lia.
Qed.

Lemma len_substring n s : (String.length (String.substring 0 n s) <= n)%nat.
Proof. revert n. induction s as [|c s IH]; intros [|n]; cbn; [lia..|]. specialize (IH n). lia. Qed.

Lemma len_truncated message limit :
  0 < limit → len (truncateBatchImageMessage message limit) <= limit.
Proof.
  intros Hl. unfold truncateBatchImageMessage. destruct (_ || _) eqn:Hs.
  - apply orb_true_iff in Hs as [Hs|Hs]; unfold len; lia.
  - pose proof (len_substring (Z.to_nat limit) (TrimSpace message)). unfold len. lia.
Qed.
End Validation.

Lemma maxJob_positive cfg : 0 < maxOutputImagesPerJob cfg.
Proof. by apply setting_positive. Qed.

(** C40: A request that passes validation is sound: at least an image and at most as many as a job
    may have, one item per image, no two items with the same identifier, no empty identifier, no
    prompt that is empty or above its limit, a model, a provider that is supported or left to the
    gateway, and a task name that fits its column.  The limits add up to a 64-bit integer. *)
Theorem validated_request_is_sound `{GoText} `{BillingLib} format_time cfg now req r :
  maxOutputImagesPerJob cfg + maxOutputImagesPerItem cfg < 2 ^ 63 →
  validateSubmitRequest format_time cfg now req = inl r →
  sound_items cfg (rq_Items r) ∧
  count (rq_Items req) <= count (rq_Items r) <= maxOutputImagesPerJob cfg ∧
  1 <= count (rq_Items req) <= maxItems cfg ∧
  rq_Model r ≠ "" ∧ len (rq_TaskName r) <= 255 ∧
  (rq_Provider r = "" ∨ IsSupportedBatchImageProvider (rq_Provider r) = true).
Proof.
  intros Hlim. unfold validateSubmitRequest. cbv zeta.
  destruct (TrimSpace (rq_Model req) ≟ "") eqn:Hm; [done|].
  set (name := if TrimSpace (rq_TaskName req) ≟ "" then _ else _).
  destruct (negb (TrimSpace (rq_Provider req) ≟ "") && _) eqn:Hp; [done|].
  destruct ((count (rq_Items req) =? 0) || _) eqn:Hc; [done|].
  destruct (negb (EqualFold _ _)); [done|].
  destruct (validate_items _ _ _ _ _) as [v|] eqn:Hv; [|done]. intros [= <-]. cbn.
  apply (validate_items_sound cfg Hlim) in Hv as [[Hs Hn Hl] Hle]; [|split; cbn|cbn; lia].
  2:{ split; [apply NoDup_nil_2|apply Forall_nil_2]. }
  2:{ done. }
  2:{ pose proof (maxJob_positive cfg). lia. }
  cbn in Hle. apply orb_false_iff in Hc as [Hc1 Hc2].
  assert (0 <= count (rq_Items req)) by (unfold count; lia).
  split_and!; [done|lia..|by apply String.eqb_neq| |].
  - destruct (255 <? len name) eqn:Hname; [by apply len_truncated|lia].
  - apply andb_false_iff in Hp as [Hp|Hp]; apply negb_false_iff in Hp; [|by right].
    left. by apply String.eqb_eq.
Qed.

#[local] Existing Instances AsciiText PlainLib.

Lemma validated_request_is_sound_witness :
  ∃ r, validateSubmitRequest sample_time sample_config 0 sample_request = inl r ∧
    sound_items sample_config (rq_Items r) ∧ si_CustomID <$> rq_Items r = ["a"; "b"; "c"].
Proof.
  destruct (validateSubmitRequest sample_time sample_config 0 sample_request) as [r|err] eqn:Hr.
  - exists r. split; [reflexivity|]. split.
    + exact (proj1 (validated_request_is_sound sample_time sample_config 0 sample_request r
        ltac:(vm_compute; reflexivity) Hr)).
    + vm_compute in Hr. injection Hr as <-. reflexivity.
  - exfalso. vm_compute in Hr. discriminate.
Defined.
