(* ===== verification/BatchImageSettleFacts.v ===== *)
(** * BatchImageSettleFacts: what a settlement does, and that it ends

    Runs of [Settle] and [PipelineProcess] (BatchImageSettlement, BatchImageProcessor) without
    faults: the charge of a finished batch, to a unit of the last decimal, and the end of a
    settling job that has what a settlement needs. *)

From stdpp Require Import base tactics numbers list strings gmap.
From Stdlib Require Import ZArith QArith Lia Lqa Ascii String Wf_nat.
From S2P Require Import Prelude GoLib GoFloat AppErrors Billing BillingFacts HoldEscrow BatchImage Programs BatchImageStore BatchImageIndex BatchImageIndexFacts BatchImageServices BatchImageSettlement BatchImageProcessor BatchImageSample.

Local Open Scope go_scope.
Local Open Scope Z_scope.

(** ** The billing transaction *)

Section Capture.
Context `{BillingLib} `{AmountCodec}.

(** What a column of eight decimals keeps of an amount. *)
Definition to_units (q : Q) : Z := round_half_away (q * inject_Z (Z.pos (Pos.pow 10 8))).

(** The row of a user after a capture: the hold leaves the frozen balance, and what it exceeds
    the cost by returns to the balance; each column is rounded. *)
Definition paid_from (u : user) (hold actual : Q) : user :=
  MkUser (to_units (units 8 (u_balance u) + hold - actual))
    (to_units (units 8 (u_frozen u) - hold)) false.

Definition room (u : user) : Prop := Z.abs (u_balance u) < 10 ^ 20 ∧ Z.abs (u_frozen u) < 10 ^ 20.

Lemma store_fits q : Z.abs (to_units q) < 10 ^ 20 → store 8 q = Some (to_units q).
Proof. unfold store, to_units. intros ?%Z.ltb_lt. by case_if. Qed.

Lemma to_units_whole q z : (q == units 8 z)%Q → to_units q = z.
Proof.
  intros Hq. unfold to_units. rewrite (round_half_away_proper _ (inject_Z z));
    [apply round_half_away_int|]. by rewrite Hq, units_scaled.
Qed.

(** A column is half a unit off at most. *)
Lemma to_units_error q : (- (1 # 200000000) <= units 8 (to_units q) - q <= 1 # 200000000)%Q.
Proof.
  pose proof (round_half_away_error (q * inject_Z (Z.pos (10 ^ 8)))) as He.
  fold (to_units q) in He. pose proof (units_scaled 8 (to_units q)) as Hu.
  change (inject_Z (Z.pos (10 ^ 8))) with (100000000 # 1)%Q in *. lra.
Qed.

(** The account pays the cost, up to a unit of its last decimal. *)
Lemma paid_from_pays u hold actual :
  let u' := paid_from u hold actual in
  (- units 8 1 <= units 8 (u_balance u + u_frozen u) - units 8 (u_balance u' + u_frozen u') - actual
     <= units 8 1)%Q.
Proof.
  cbn zeta. cbn [paid_from u_balance u_frozen]. rewrite <-!units_add.
  pose proof (to_units_error (units 8 (u_balance u) + hold - actual)).
  pose proof (to_units_error (units 8 (u_frozen u) - hold)).
  change (units 8 1) with (1 # 100000000)%Q. lra.
Qed.

(** Amounts of whole units are paid exactly. *)
Lemma paid_from_whole u hold actual :
  whole_units 8 (numeric hold) → whole_units 8 (numeric actual) →
  paid_from u (numeric hold) (numeric actual) =
    MkUser (u_balance u + units_of hold - units_of actual) (u_frozen u - units_of hold) false.
Proof.
  intros Hh%numeric_units_of Ha%numeric_units_of. unfold paid_from.
  f_equal; apply to_units_whole; rewrite <-?units_sub, <-?units_add, <-?Hh, <-?Ha; reflexivity.
Qed.

Lemma capture_body_runs cmd db u :
  let hold := numeric (h_HoldAmount cmd) in
  let actual := numeric (h_ActualAmount cmd) in
  f64_leb (h_HoldAmount cmd) f64_zero = false →
  f64_ltb cost_epsilon (f64_sub (h_ActualAmount cmd) (h_HoldAmount cmd)) = false →
  live_user db (h_UserID cmd) = Some u → (hold <= units 8 (u_frozen u))%Q →
  room (paid_from u hold actual) →
  ∃ r, captureUsageBillingBatchImageBalance cmd db =
         (inl r, put_user (h_UserID cmd) (paid_from u hold actual) db).
Proof.
  intros hold actual Hpos Heps Hu Hle [Hroom1 Hroom2]. cbn in Hroom1, Hroom2.
  unfold captureUsageBillingBatchImageBalance. rewrite Hpos, Heps. cbn [andb].
  unfold try_bind. rewrite (update_user_live _ _ _ _ u) by done. cbv beta. fold hold actual.
  rewrite (proj2 (Qle_bool_iff _ _) Hle).
  rewrite (store_proper 8 _ (units 8 (u_balance u) + hold - actual)%Q).
  2:{ pose proof (Qlt_bool_cases actual hold). pose proof (Qlt_bool_cases hold actual).
      destruct (Qlt_bool actual hold), (Qlt_bool hold actual); lra. }
  rewrite !store_fits by done. by eexists.
Qed.

(** The capture of a request that is not claimed yet. *)
Lemma capture_runs now cmd db u :
  let hold := numeric (h_HoldAmount cmd) in
  let actual := numeric (h_ActualAmount cmd) in
  TrimSpace (h_RequestID cmd) ≠ "" →
  ¬ claimed (TrimSpace (h_RequestID cmd), h_APIKeyID cmd) db →
  f64_leb (h_HoldAmount cmd) f64_zero = false →
  f64_ltb cost_epsilon (f64_sub (h_ActualAmount cmd) (h_HoldAmount cmd)) = false →
  live_user db (h_UserID cmd) = Some u → (hold <= units 8 (u_frozen u))%Q →
  room (paid_from u hold actual) →
  ∃ r db', CaptureBatchImageBalance now (Some cmd) db = (inl r, db') ∧
    live_user db' (h_UserID cmd) = Some (paid_from u hold actual).
Proof.
  intros hold actual Hid Hfresh Hpos Heps Hu Hle Hroom.
  unfold CaptureBatchImageBalance. rewrite applyBatchImageBalanceHold_claiming.
  rewrite (proj2 (String.eqb_neq _ _) Hid), claiming_fresh by exact Hfresh.
  destruct (NormalizeHold_amounts cmd) as (Ehold & Eact & Euser).
  pose proof (capture_body_runs (NormalizeHold cmd)
    (put_claim (TrimSpace (h_RequestID cmd)) (h_APIKeyID cmd)
       (h_RequestFingerprint (NormalizeHold cmd)) now db) u) as Hbody.
  rewrite Ehold, Eact, Euser in Hbody.
  destruct (Hbody Hpos Heps Hu Hle Hroom) as [r Hr].
  unfold hold_body, try_bind. rewrite Hr. eexists _, _. split; [reflexivity|].
  rewrite ?Ehold, ?Eact, ?Euser. by apply live_put_user.
Qed.
End Capture.

(** ** Texts that do not start with a space *)

Definition plain_char (a : Ascii.ascii) : bool :=
  (33 <=? N_of_ascii a)%N && (N_of_ascii a <? 128)%N.

Lemma plain_not_space a b c :
  plain_char a = true →
  is_space1 (N_of_ascii a) = false ∧ is_space2 (N_of_ascii a) b = false ∧
  is_space3 (N_of_ascii a) b c = false.
Proof.
  unfold plain_char, is_space1, is_space2, is_space3. intros Ha.
  rewrite andb_true_iff, N.leb_le, N.ltb_lt in Ha.
  repeat split; apply not_true_is_false; intros Hs;
    rewrite ?orb_true_iff, ?andb_true_iff, ?orb_true_iff, ?N.leb_le, ?N.eqb_eq in Hs; lia.
Qed.

Lemma trim_spaces_keeps l a : plain_char a = true → trim_spaces true (l ++ [a]) ≠ [].
Proof.
  intros Ha. destruct (plain_not_space a 0 0 Ha) as [H1 _].
  induction l as [l IH] using (induction_ltof1 _ List.length). unfold ltof in IH.
  destruct l as [|x l]; cbn [app trim_spaces]; [by rewrite H1|].
  destruct (is_space1 (N_of_ascii x)); [apply IH; cbn; lia|].
  destruct l as [|y l]; cbn [app].
  { by rewrite (proj1 (proj2 (plain_not_space a _ 0 Ha))). }
  destruct (is_space2 _ _); [apply IH; cbn; lia|].
  destruct l as [|z l]; cbn [app].
  { by rewrite (proj2 (proj2 (plain_not_space a _ _ Ha))). }
  destruct (is_space3 _ _ _); [apply IH; cbn; lia|done].
Qed.

Lemma trim_left_keeps l a : plain_char a = true → trim_spaces false (a :: l) = a :: l.
Proof.
  intros Ha. cbn [trim_spaces]. rewrite (proj1 (plain_not_space a 0 0 Ha)).
  destruct l as [|b l]; [done|]. rewrite (proj1 (proj2 (plain_not_space a _ 0 Ha))).
  destruct l as [|c l]; [done|]. by rewrite (proj2 (proj2 (plain_not_space a _ _ Ha))).
Qed.

Lemma TrimSpace_keeps a s : plain_char a = true → TrimSpace (String a s) ≠ "".
Proof.
  intros Ha. unfold TrimSpace. cbn [list_ascii_of_string]. rewrite trim_left_keeps by done.
  cbn [rev]. pose proof (trim_spaces_keeps (rev (list_ascii_of_string s)) a Ha) as Ht.
  destruct (trim_spaces true _) as [|x t]; [done|]. cbn. by destruct (rev t).
Qed.

(** ** Runs without faults *)

Section Settle.
Context `{BatchImageProviders} `{BatchImageQueue} `{BillingLib} `{AmountCodec} `{GoText}.
Variable cfg : BatchImageConfig.

Lemma exec_repo {A} now (p : proc batch_db A) w :
  exec now (repo p) [] w =
    let '(a, db) := exec now p [] (w_jobs w) in (a, put_jobs db w).
Proof. apply (exec_lift w_jobs put_jobs). Qed.

Lemma exec_billing {A} now (tx : Z → Tx A) w :
  exec now (billing tx) [] w =
    let '(r, m) := tx (now / 1000) (w_money w) in (r, put_money m w).
Proof.
  unfold billing. rewrite exec_bind_quiet. cbn [exec time_now].
  rewrite (exec_lift w_money put_money), exec_step. done.
Qed.

Definition invalidated (userID : Z) (w : batch_world) : batch_world :=
  if 0 <? userID then
    MkWorld _ _ (w_jobs w) (w_money w) (w_queue w) (w_remote w) (w_usage w)
      (w_invalidated w ++ [userID])
  else w.

Lemma exec_invalidate now userID w :
  exec now (invalidateAuthCache userID) [] w = (tt, invalidated userID w).
Proof. unfold invalidateAuthCache, invalidated. by destruct (0 <? userID). Qed.

Lemma exec_get now b w j :
  t_jobs (w_jobs w) !! b = Some j →
  exec now (repo (GetBatchImageJobByBatchID b)) [] w = (inl j, w).
Proof.
  intros Hj. rewrite exec_repo. unfold GetBatchImageJobByBatchID. rewrite exec_step.
  unfold translated, select_job. rewrite Hj. by rewrite part_same.
Qed.

(** What a settlement needs of its job. *)
Record ready_to_settle (b : string) (j : BatchImageJob) (key account : Z) : Prop := {
  rs_id : j_BatchID j = b;
  rs_status : j_Status j = BatchImageJobStatusSettling;
  rs_key : positive_id (j_APIKeyID j) = Some key;
  rs_account : positive_id (j_AccountID j) = Some account;
  rs_retries : isBatchImageSettlementRetryExhausted j = false;
  rs_counts : counts_invalid j = false;
  rs_manifest : j_ManifestHash j = None;
  rs_snapshot : 1 <= j_PricingSnapshotVersion j;
  rs_price : f64_ltb (j_BillableUnitPrice j) f64_zero = false
}.

Definition actual_cost (j : BatchImageJob) : float64 :=
  f64_mul (f64_of_int (j_SuccessCount j)) (j_BillableUnitPrice j).

Lemma exec_settle_at now b j key account w :
  ready_to_settle b j key account → t_jobs (w_jobs w) !! b = Some j →
  exec now (Settle cfg b) [] w = exec now (settle_at cfg j (j_BillableUnitPrice j)) [] w.
Proof.
  intros [] Hj. unfold Settle. rewrite exec_try_quiet, (exec_get _ _ _ _ Hj).
  unfold settle_job. rewrite rs_status0.
  change (BatchImageJobStatusSettling ≟ BatchImageJobStatusCompleted) with false.
  change (negb (BatchImageJobStatusSettling ≟ BatchImageJobStatusSettling)) with false. cbv iota.
  rewrite rs_key0, rs_account0, rs_retries0, rs_counts0.
  unfold manifest_conflict. rewrite rs_manifest0.
  change (negb (TrimSpace (batchImageDerefString None) ≟ "") && _) with false. cbv iota.
  unfold settlementUnitPrice. rewrite (proj2 (Z.leb_le 1 _)) by done. rewrite rs_price0.
  rewrite exec_bind_quiet. cbn [exec mret proc_ret]. cbv zeta. by rewrite rs_price0.
Qed.

(** The capture of the hold of a job, for its actual cost. *)
Definition capture_of (j : BatchImageJob) (key : Z) (hash : string) : BatchImageBalanceHoldCommand :=
  MkBatchImageBalanceHoldCommand (BatchImageCaptureRequestID (j_BatchID j)) key "" (TrimSpace hash)
    (j_UserID j) (j_BatchID j) (hold_amount j) (actual_cost j).

Lemma leb_ltb x y : f64_leb x y = false → f64_ltb x y = false.
Proof. unfold f64_leb, f64_ltb, SpecFloat.SFleb, SpecFloat.SFltb. by destruct (SpecFloat.SFcompare x y) as [[]|]. Qed.

Lemma exec_capture now j key hash w :
  positive_id (j_APIKeyID j) = Some key →
  f64_leb (hold_amount j) f64_zero = false → f64_ltb (actual_cost j) f64_zero = false →
  exec now (captureBatchImageBalanceHold j (actual_cost j) hash) [] w =
    let '(r, m) := CaptureBatchImageBalance (now / 1000) (Some (capture_of j key hash)) (w_money w) in
    (match r with
     | inl _ => inl tt
     | inr err => inr (as_error (WithCause ErrBatchImageSettlementBillingFailed err))
     end, put_money m w).
Proof.
  intros Hk Hh Ha. unfold captureBatchImageBalanceHold, buildBatchImageHoldCommand, at_least_zero.
  rewrite Hk, (leb_ltb _ _ Hh), Ha. fold (capture_of j key hash).
  rewrite exec_bind_quiet, exec_billing.
  destruct (CaptureBatchImageBalance _ _ _) as [[a|err] m]; done.
Qed.

Definition settled_params (now : Z) (j : BatchImageJob) : MarkBatchImageJobSettledParams :=
  MkMarkBatchImageJobSettledParams (j_BatchID j) (actual_cost j)
    (BuildBatchImageSettlementManifestHash j) (Some now)
    (Some (now + outputRetentionAfterTerminal cfg)).

Lemma append_event_found b e db :
  is_Some (t_jobs db !! b) →
  ∃ db', appendBatchImageEventWithSQL b e db = (inl tt, db') ∧ t_jobs db' = t_jobs db.
Proof. intros [j Hj]. unfold appendBatchImageEventWithSQL. rewrite Hj. by eexists. Qed.

Lemma exec_mark_settled now b j actual w :
  j_BatchID j = b → settleable (BuildBatchImageSettlementManifestHash j) j = true →
  t_jobs (w_jobs w) !! b = Some j →
  column10 (actual_cost j) = Some actual →
  manifest_taken b (BuildBatchImageSettlementManifestHash j) (w_jobs w) = false →
  ∃ db, exec now (repo (MarkBatchImageJobSettled (settled_params now j))) [] w =
          (inl tt, put_jobs db w) ∧
    t_jobs db = <[b := settled now actual (settled_params now j) j]> (t_jobs (w_jobs w)).
Proof.
  intros Hid Hset Hj Hcol Htaken. rewrite exec_repo. unfold MarkBatchImageJobSettled.
  rewrite exec_bind_quiet. cbn [exec time_now]. rewrite exec_step.
  unfold in_tx, markBatchImageJobSettledWithSQL, try_bind, settle_row.
  cbn [settled_params ms_BatchID ms_ManifestHash ms_ActualCost ms_Now]. rewrite Hid, Hj.
  rewrite Hset, Hcol, Htaken. change (1 =? 0) with false. cbv iota.
  match goal with |- context [appendBatchImageEventWithSQL _ _ ?d] => set (db1 := d) end.
  assert (t_jobs db1 = <[b := settled now actual (settled_params now j) j]> (t_jobs (w_jobs w)))
    as Hdb1 by done.
  destruct (append_event_found b "settlement_completed" db1) as (db2 & -> & Hdb2).
  { rewrite Hdb1. by rewrite lookup_insert_eq. }
  exists db2. split; [done|]. by rewrite Hdb2.
Qed.

(** The usage log of a settled job. *)
Definition usage_of (j : BatchImageJob) (key account now : Z) : UsageLog :=
  MkUsageLog (j_UserID j) key account (TrimSpace (BatchImageCaptureRequestID (j_BatchID j)))
    (j_Model j) (j_SuccessCount j) (actual_cost j)
    (f64_mul (j_GroupRateMultiplier j) (j_BatchDiscountMultiplier j))
    (j_AccountRateMultiplier j) (j_SessionID j) now.

Lemma positive_some v k : positive_id v = Some k → v = Some k.
Proof. unfold positive_id. destruct v as [n|]; [|done]. by destruct (n <=? 0). Qed.

Lemma exec_usage now j key account id w :
  positive_id (j_APIKeyID j) = Some key → positive_id (j_AccountID j) = Some account →
  id = BatchImageCaptureRequestID (j_BatchID j) →
  ∃ w', exec now (recordUsageLog j (actual_cost j) id now) [] w = (tt, w') ∧
    w_jobs w' = w_jobs w ∧ w_money w' = w_money w ∧
    w_usage w' = w_usage w ++ [usage_of j key account now].
Proof.
  intros Hk Ha ->. unfold recordUsageLog.
  rewrite (positive_some _ _ Hk), (positive_some _ _ Ha). by eexists.
Qed.

Lemma invalidated_parts uid w :
  w_jobs (invalidated uid w) = w_jobs w ∧ w_money (invalidated uid w) = w_money w ∧
  w_usage (invalidated uid w) = w_usage w.
Proof. unfold invalidated. by destruct (0 <? uid). Qed.

Lemma exec_settled_again now b j w :
  t_jobs (w_jobs w) !! b = Some j → j_Status j = BatchImageJobStatusCompleted →
  ∃ r, exec now (Settle cfg b) [] w = (inl r, w) ∧ sr_AlreadySettled r = true.
Proof.
  intros Hj Hs. unfold Settle. rewrite exec_try_quiet, (exec_get _ _ _ _ Hj).
  unfold settle_job. rewrite Hs.
  change (BatchImageJobStatusCompleted ≟ BatchImageJobStatusCompleted) with true. by eexists.
Qed.

Lemma ready_settleable b j key account :
  ready_to_settle b j key account →
  settleable (BuildBatchImageSettlementManifestHash j) j = true.
Proof. intros []. unfold settleable. by rewrite rs_status0, rs_manifest0. Qed.

(** C9: A settlement charges a finished batch for its images, and once.  The job is settling
    with sound counts and a price of its own (a snapshot), has its API key and its account and no
    manifest yet; its hold is positive, frozen and not captured yet, and the cost, the float64
    product of its successful images and its price, is not negative, exceeds the hold by a
    hundred-millionth at most and fits its column, as the balances do; no other job has the
    manifest hash.  Then [Settle] succeeds: the hold leaves the frozen balance, what it exceeds
    the cost by returns to the balance, both rounded to the eight decimals of their columns, so
    that the account pays the cost up to one unit of the last decimal, and exactly when hold and
    cost are whole units; the job is completed with that cost, one row of the usage log says so;
    and settling again changes nothing. *)
Theorem settlement_charges_the_images now b j key account u actual w :
  let hold := numeric (hold_amount j) in
  let cost := numeric (actual_cost j) in
  let u' := paid_from u hold cost in
  ready_to_settle b j key account → t_jobs (w_jobs w) !! b = Some j →
  f64_leb (hold_amount j) f64_zero = false → f64_ltb (actual_cost j) f64_zero = false →
  f64_ltb batchImageCostEpsilon (f64_sub (actual_cost j) (hold_amount j)) = false →
  ¬ claimed (TrimSpace (BatchImageCaptureRequestID b), key) (w_money w) →
  live_user (w_money w) (j_UserID j) = Some u → (hold <= units 8 (u_frozen u))%Q → room u' →
  column10 (actual_cost j) = Some actual →
  manifest_taken b (BuildBatchImageSettlementManifestHash j) (w_jobs w) = false →
  (∃ r w', exec now (Settle cfg b) [] w = (inl r, w') ∧
    sr_AlreadySettled r = false ∧ sr_ActualCost r = actual_cost j ∧
    live_user (w_money w') (j_UserID j) = Some u' ∧
    t_jobs (w_jobs w') = <[b := settled now actual (settled_params now j) j]> (t_jobs (w_jobs w)) ∧
    w_usage w' = w_usage w ++ [usage_of j key account now] ∧
    ∀ later, ∃ r', exec later (Settle cfg b) [] w' = (inl r', w') ∧ sr_AlreadySettled r' = true) ∧
  (- units 8 1 <= units 8 (u_balance u + u_frozen u) - units 8 (u_balance u' + u_frozen u') - cost
     <= units 8 1)%Q ∧
  (whole_units 8 hold → whole_units 8 cost →
   u' = MkUser (u_balance u + units_of (hold_amount j) - units_of (actual_cost j))
          (u_frozen u - units_of (hold_amount j)) false).
Proof.
  intros hold cost u' Hready Hj Hhold Hcost Heps Hfresh Hu Hle Hroom Hcol Htaken.
  split; [|split; [apply paid_from_pays|apply paid_from_whole]].
  pose proof (rs_id _ _ _ _ Hready) as Hid. subst b.
  rewrite (exec_settle_at now _ j key account w) by done. unfold settle_at. cbv zeta.
  fold (actual_cost j). rewrite Heps. cbn [settlement_result sr_ManifestHash sr_RequestID].
  rewrite exec_bind_quiet, (exec_capture _ _ key) by (try apply Hready; done).
  set (hash := BuildBatchImageSettlementManifestHash j).
  destruct (capture_runs (now / 1000) (capture_of j key hash) (w_money w) u
    (TrimSpace_keeps "b" _ eq_refl) Hfresh Hhold Heps Hu Hle Hroom) as (r & m & -> & Hm).
  cbn [capture_of h_HoldAmount h_ActualAmount h_UserID] in Hm. fold hold cost u' in Hm.
  rewrite exec_bind_quiet, exec_invalidate. cbv beta iota.
  rewrite exec_bind_quiet. cbn [exec time_now]. rewrite exec_try_quiet.
  destruct (invalidated_parts (j_UserID j) (put_money m w)) as (Ej & Em & Eu).
  destruct (exec_mark_settled now (j_BatchID j) j actual (invalidated (j_UserID j) (put_money m w)))
    as (db & Hmark & Hdb); [done|by eapply ready_settleable|by rewrite Ej|done|by rewrite Ej|].
  match goal with |- context [MarkBatchImageJobSettled ?p] =>
    change p with (settled_params now j) end.
  rewrite Hmark, exec_bind_quiet.
  destruct (exec_usage now j key account (BatchImageCaptureRequestID (j_BatchID j))
    (put_jobs db (invalidated (j_UserID j) (put_money m w)))) as (w' & -> & Hwj & Hwm & Hwu);
    [apply Hready..|done|].
  eexists _, w'. split; [reflexivity|]. rewrite Hwj, Hwm, Hwu. cbn [put_jobs w_jobs w_money w_usage].
  rewrite Hdb, Em, Ej, Eu. split_and!; [done..|].
  intros later. eapply (exec_settled_again later _ (settled now actual (settled_params now j) j)).
  - rewrite Hwj. cbn [put_jobs w_jobs]. by rewrite Hdb, lookup_insert_eq.
  - done.
Qed.

(** ** Settling jobs end *)

(** The release of a job's hold is not refused. *)
Definition releasable (j : BatchImageJob) (m : billing_db) : Prop :=
  ∃ cmd, buildBatchImageHoldCommand j (BatchImageReleaseRequestID (j_BatchID j)) f64_zero
           (job_request_hash j) = inl cmd ∧
    (no_hold cmd = true ∨ ∀ t, ∃ r m', ReleaseBatchImageBalance t (Some cmd) m = (inl r, m')).

Definition no_other_manifest (b hash : string) (w : batch_world) : Prop :=
  ∀ k j, t_jobs (w_jobs w) !! k = Some j → j_BatchID j ≠ b →
    from_option id "" (j_ManifestHash j) ≠ hash.

(** A job that is settling as the code of a settlement counts on: it has its API key and its
    account, a price of its own (a snapshot), and a hold that can be released; the column takes
    its cost, and its manifest hash is no other job's; its retries are counted from 0.  Without one of these a settlement fails
    with an error that is not counted ([settling_without_account] for the account), or is about
    a price the job does not say.  Its counts, the manifest recorded in it, the value of its price,
    the size of its cost next to the hold, and the capture may be wrong in any way. *)
Record settling (b : string) (j : BatchImageJob) (w : batch_world) : Prop := {
  se_job : t_jobs (w_jobs w) !! b = Some j;
  se_id : j_BatchID j = b;
  se_status : j_Status j = BatchImageJobStatusSettling;
  se_key : is_Some (positive_id (j_APIKeyID j));
  se_account : is_Some (positive_id (j_AccountID j));
  se_retries : 0 <= j_RetryCount j;
  se_release : releasable j (w_money w);
  se_snapshot : 1 <= j_PricingSnapshotVersion j;
  se_cost : is_Some (column10 (actual_cost j));
  se_manifest : manifest_conflict j (BuildBatchImageSettlementManifestHash j) = true ∨
                settleable (BuildBatchImageSettlementManifestHash j) j = true;
  se_others : no_other_manifest b (BuildBatchImageSettlementManifestHash j) w
}.

Definition ended (b : string) (w : batch_world) : Prop :=
  ∃ j, t_jobs (w_jobs w) !! b = Some j ∧
    (j_Status j = BatchImageJobStatusCompleted ∨ j_Status j = BatchImageJobStatusFailed).

Lemma not_taken b hash w :
  no_other_manifest b hash w → manifest_taken b hash (w_jobs w) = false.
Proof.
  intros Hno. unfold manifest_taken. destruct (negb (hash ≟ "")); [|done]. cbn [andb].
  apply not_true_is_false. intros (j & Hj & Hb)%existsb_exists.
  apply list_elem_of_In in Hj. unfold all_jobs in Hj.
  apply list_elem_of_fmap in Hj as ([k j'] & -> & Hj). apply elem_of_map_to_list in Hj.
  bool_props. by destruct (Hno k j' Hj).
Qed.

Lemma exec_release now j w :
  releasable j (w_money w) →
  ∃ m, exec now (release_hold j) [] w = (inl tt, put_money m w).
Proof.
  intros (cmd & Hcmd & Hrun). unfold release_hold, releaseBatchImageBalanceHold. rewrite Hcmd.
  destruct (no_hold cmd); [exists (w_money w); by rewrite part_same|].
  destruct Hrun as [|Hrun]; [done|]. rewrite exec_bind_quiet, exec_billing.
  destruct (Hrun (now / 1000)) as (r & m & ->). by exists m.
Qed.

Lemma exec_transition now b j w code message event to :
  t_jobs (w_jobs w) !! b = Some j → CanTransitionBatchImageJob (j_Status j) to = true →
  ∃ db j', exec now (transition b to code message event) [] w = (inl tt, put_jobs db w) ∧
    t_jobs db !! b = Some j' ∧ j_Status j' = to.
Proof.
  intros Hj Hcan. unfold transition. rewrite exec_repo. unfold TransitionBatchImageJobStatus.
  rewrite exec_bind_quiet. cbn [exec time_now]. rewrite exec_step.
  unfold in_tx, transitionBatchImageJobStatusWithSQL, try_bind, translated, select_job.
  rewrite Hj, Hcan. cbn [negb to_Now to_EventType]. unfold update_job at 1. rewrite Hj.
  set (j' := transitioned _ _ _ j).
  match goal with |- context [(if _ then _ else _) ?d] => set (db1 := d) end.
  assert (t_jobs db1 = <[b := j']> (t_jobs (w_jobs w))) as Hdb1 by done.
  destruct (event ≟ ""); cbn [bpass].
  - exists db1, j'. by rewrite Hdb1, lookup_insert_eq.
  - destruct (append_event_found b event db1) as (db2 & -> & Hdb2).
    { by rewrite Hdb1, lookup_insert_eq. }
    exists db2, j'. by rewrite Hdb2, Hdb1, lookup_insert_eq.
Qed.

Lemma exec_set_failed now b j w code message :
  t_jobs (w_jobs w) !! b = Some j →
  ∃ db, exec now (repo (SetBatchImageJobSettlementFailed b code message)) [] w =
          ((j_RetryCount j + 1, None), put_jobs db w) ∧
    t_jobs db = <[b := settlement_failed now code message j]> (t_jobs (w_jobs w)).
Proof.
  intros Hj. rewrite exec_repo. unfold SetBatchImageJobSettlementFailed.
  rewrite exec_bind_quiet. cbn [exec time_now]. rewrite exec_bind_quiet, exec_step.
  unfold translated, settlement_failed_row. rewrite Hj. cbv zeta.
  set (j' := settlement_failed now code message j).
  match goal with |- context [exec now _ [] ?d] => set (db1 := d) end.
  assert (t_jobs db1 = <[b := j']> (t_jobs (w_jobs w))) as Hdb1 by done.
  rewrite exec_bind_quiet, exec_step.
  destruct (append_event_found b "settlement_failed" db1) as (db2 & -> & Hdb2).
  { by rewrite Hdb1, lookup_insert_eq. }
  exists db2. split; [done|]. by rewrite Hdb2.
Qed.

Lemma exec_fail_exhausted now b j j0 w message :
  releasable j (w_money w) → j_BatchID j = b → t_jobs (w_jobs w) !! b = Some j0 →
  j_Status j0 = BatchImageJobStatusSettling →
  ended b (exec now (failExhaustedSettlement j message) [] w).2.
Proof.
  intros Hrel Hid Hj Hs. unfold failExhaustedSettlement. rewrite exec_bind_quiet.
  destruct (exec_release now j w Hrel) as [m ->].
  rewrite exec_bind_quiet, exec_invalidate. cbv beta iota zeta. rewrite exec_bind_quiet.
  set (w1 := invalidated _ _). assert (w_jobs w1 = w_jobs w) as Hw1
    by exact (proj1 (invalidated_parts (j_UserID j) (put_money m w))).
  rewrite Hid.
  match goal with |- context [transition b ?to ?code ?msg ?ev] =>
    destruct (exec_transition now b j0 w1 code msg ev to) as (db & j' & -> & Hj' & Hs') end.
  - by rewrite Hw1.
  - by rewrite Hs.
  - cbn. exists j'. auto.
Qed.

(** A counted failure ends the job, or leaves it one failure nearer to its end. *)
Definition nearer (b : string) (j : BatchImageJob) (w : batch_world) : Prop :=
  ended b w ∨ ∃ j', settling b j' w ∧ j_RetryCount j' = j_RetryCount j + 1 ∧
    j_RetryCount j' < batchImageSettlementMaxRetries.

Lemma settling_failed now b j w code message :
  settling b j w →
  ∀ db m, t_jobs db = <[b := settlement_failed now code message j]> (t_jobs (w_jobs w)) →
  m = w_money w → ∀ w', w_jobs w' = db → w_money w' = m →
  settling b (settlement_failed now code message j) w'.
Proof.
  intros [] db m Hdb -> w' Hw1 Hw2. subst db.
  split; try done.
  - by rewrite Hdb, lookup_insert_eq.
  - change (0 <= j_RetryCount j + 1). lia.
  - by rewrite Hw2.
  - intros k j'. rewrite Hdb. destruct (decide (k = b)) as [->|Hk].
    + rewrite lookup_insert_eq. by intros [= <-].
    + rewrite lookup_insert_ne by done. apply se_others0.
Qed.

Lemma exec_settlement_fails {A} now b j w code message err :
  settling b j w →
  nearer b j (exec now (settlement_fails (A:=A) j code message err) [] w).2.
Proof.
  intros Hj. unfold settlement_fails, recordSettlementFailure. rewrite exec_bind_quiet.
  rewrite exec_bind_quiet. rewrite (se_id _ _ _ Hj).
  set (msg := truncateBatchImageMessage _ _).
  destruct (exec_set_failed now b j w code msg (se_job _ _ _ Hj)) as (db & -> & Hdb).
  set (j' := settlement_failed now code msg j).
  assert (settling b j' (put_jobs db w)) as Hj' by by eapply settling_failed.
  cbv beta iota zeta.
  destruct (batchImageSettlementMaxRetries <=? j_RetryCount j + 1) eqn:Hr.
  - left. set (job := j{{ j_RetryCount := j_RetryCount j + 1; j_LastErrorCode := Some code }}).
    rewrite exec_bind_quiet.
    pose proof (exec_fail_exhausted now b job j' (put_jobs db w) message (se_release _ _ _ Hj')
      (se_id _ _ _ Hj') (se_job _ _ _ Hj') (se_status _ _ _ Hj')) as He.
    by destruct (exec now (failExhaustedSettlement job message) [] (put_jobs db w)) as [e w'].
  - right. exists j'. split_and!; [done|done|]. bool_props. done.
Qed.

(** A capture that fails takes nothing. *)
Lemma capture_error now cmd m err m' :
  CaptureBatchImageBalance now (Some cmd) m = (inr err, m') → m' = m.
Proof.
  unfold CaptureBatchImageBalance. rewrite applyBatchImageBalanceHold_claiming.
  destruct (TrimSpace (h_RequestID cmd) ≟ ""); [by intros [= _ <-]|].
  destruct (claimed_dec (TrimSpace (h_RequestID cmd), h_APIKeyID cmd) m) as [Hc|Hc].
  - match goal with |- claiming ?t ?i ?k ?f ?n ?b ?d = _ → _ =>
      destruct (claiming_claimed t i k f n b d Hc) as [-> | ->] end; by intros [= _ <-].
  - rewrite claiming_fresh by done. destruct (hold_body _ _ _) as [[a|e] m1]; by intros [= _ <-].
Qed.

Lemma settling_ext b j w w' :
  w_jobs w' = w_jobs w → w_money w' = w_money w → settling b j w → settling b j w'.
Proof.
  intros Hj Hm []. split; rewrite ?Hj, ?Hm; try done. intros k j'. rewrite Hj. apply se_others0.
Qed.

Lemma exec_captured_job now b j w :
  settling b j w → settleable (BuildBatchImageSettlementManifestHash j) j = true →
  ∀ m, ended b (exec now
    (_ ← invalidateAuthCache (j_UserID j); now ← time_now;
     _ ⇐! repo (MarkBatchImageJobSettled (settled_params now j));
     _ ← recordUsageLog j (actual_cost j) (BatchImageCaptureRequestID (j_BatchID j)) now;
     ok ((settlement_result j){{ sr_ActualCost := actual_cost j }})) [] (put_money m w)).2.
Proof.
  intros Hj Hset m. rewrite exec_bind_quiet, exec_invalidate. cbv beta iota.
  rewrite exec_bind_quiet. cbn [exec time_now]. rewrite exec_try_quiet.
  set (w1 := invalidated _ _). assert (w_jobs w1 = w_jobs w) as Hw1
    by exact (proj1 (invalidated_parts (j_UserID j) (put_money m w))).
  destruct (se_cost _ _ _ Hj) as [actual Hcol].
  destruct (exec_mark_settled now b j actual w1) as (db & -> & Hdb);
    [apply Hj|done|rewrite Hw1; apply Hj|done|rewrite Hw1; apply not_taken, Hj|].
  rewrite exec_bind_quiet.
  destruct (se_key _ _ _ Hj) as [key Hkey]. destruct (se_account _ _ _ Hj) as [account Hacc].
  destruct (exec_usage now j key account (BatchImageCaptureRequestID (j_BatchID j))
    (put_jobs db w1) Hkey Hacc eq_refl) as (w' & -> & Hwj & _).
  cbn [exec ok mret proc_ret snd]. eexists. rewrite Hwj. cbn [put_jobs w_jobs].
  rewrite Hdb, lookup_insert_eq. split; [done|]. by left.
Qed.

Lemma exec_settle_job_at now b j w :
  settling b j w → settleable (BuildBatchImageSettlementManifestHash j) j = true →
  nearer b j (exec now (settle_at cfg j (j_BillableUnitPrice j)) [] w).2.
Proof.
  intros Hj Hset. unfold settle_at. cbv zeta. fold (actual_cost j).
  destruct (f64_ltb _ _); [by apply exec_settlement_fails|].
  rewrite exec_bind_quiet. unfold captureBatchImageBalanceHold, buildBatchImageHoldCommand.
  destruct (se_key _ _ _ Hj) as [key Hkey]. rewrite Hkey.
  rewrite exec_bind_quiet, exec_billing.
  match goal with |- context [CaptureBatchImageBalance ?t (Some ?c)] => set (cmd := c) end.
  destruct (CaptureBatchImageBalance (now / 1000) (Some cmd) (w_money w)) as [[a|e] m] eqn:Hrun.
  - left. apply exec_captured_job; done.
  - rewrite (capture_error _ _ _ _ _ Hrun), part_same. by apply exec_settlement_fails.
Qed.

Lemma settle_progress now b j w :
  settling b j w → nearer b j (exec now (Settle cfg b) [] w).2.
Proof.
  intros Hj. unfold Settle. rewrite exec_try_quiet, (exec_get _ _ _ _ (se_job _ _ _ Hj)).
  unfold settle_job. rewrite (se_status _ _ _ Hj).
  change (BatchImageJobStatusSettling ≟ BatchImageJobStatusCompleted) with false.
  change (negb (BatchImageJobStatusSettling ≟ BatchImageJobStatusSettling)) with false. cbv iota.
  destruct (se_key _ _ _ Hj) as [key ->]. destruct (se_account _ _ _ Hj) as [account ->].
  destruct (isBatchImageSettlementRetryExhausted j).
  { left. rewrite exec_bind_quiet.
    match goal with |- context [failExhaustedSettlement _ ?m] =>
      pose proof (exec_fail_exhausted now b j j w m (se_release _ _ _ Hj) (se_id _ _ _ Hj)
        (se_job _ _ _ Hj) (se_status _ _ _ Hj)) as He;
      by destruct (exec now (failExhaustedSettlement j m) [] w) as [e w'] end. }
  destruct (counts_invalid j); [by apply exec_settlement_fails|].
  cbn [settlement_result sr_ManifestHash].
  destruct (manifest_conflict j _) eqn:Hm; [by apply exec_settlement_fails|].
  destruct (se_manifest _ _ _ Hj) as [Hc|Hset]; [congruence|].
  unfold settlementUnitPrice. rewrite (proj2 (Z.leb_le 1 _)) by apply Hj.
  rewrite exec_bind_quiet. cbn [exec mret proc_ret]. cbv zeta.
  destruct (f64_ltb (j_BillableUnitPrice j) f64_zero) eqn:Hp;
    [by apply exec_settlement_fails|]. rewrite Hp. by apply exec_settle_job_at.
Qed.

(** *** The pipeline *)

Variables (DefaultRequeue RetryDelay : Z) (pages : nat).

Notation process := (PipelineProcess DefaultRequeue pages cfg RetryDelay).

Lemma exec_read now b w :
  exists r, exec now (repo (GetBatchImageJobByBatchID b)) [] w = (r, w).
Proof.
  rewrite exec_repo. unfold GetBatchImageJobByBatchID. rewrite exec_step.
  unfold translated, select_job.
  destruct (t_jobs (w_jobs w) !! b); eexists; by rewrite part_same.
Qed.

(** On a settling job the pipeline does what [Settle] does. *)
Lemma process_settles now b j w :
  settling b j w → (exec now (process b) [] w).2 = (exec now (Settle cfg b) [] w).2.
Proof.
  intros Hj. unfold PipelineProcess.
  rewrite exec_try_quiet, (exec_get _ _ _ _ (se_job _ _ _ Hj)), (se_status _ _ _ Hj).
  change (negb (BatchImageJobStatusSettling ≟ BatchImageJobStatusSettling)) with false. cbv iota.
  rewrite exec_bind_quiet. destruct (exec now (Settle cfg b) [] w) as [[r|err] w']; [done|].
  destruct (errors_Is err _); [|done]. rewrite exec_bind_quiet.
  destruct (exec_read now b w') as [r ->]. by destruct r.
Qed.

(** What has ended stays ended. *)
Lemma process_ended now b w : ended b w → ended b (exec now (process b) [] w).2.
Proof.
  intros (j & Hj & Hs).
  assert (∀ w', w_jobs w' = w_jobs w → ended b w') as Hend.
  { intros w' Hw'. exists j. by rewrite Hw'. }
  unfold PipelineProcess. rewrite exec_try_quiet, (exec_get _ _ _ _ Hj).
  assert (negb (j_Status j ≟ BatchImageJobStatusSettling) = true ∧
          isBatchImageProcessorDoneStatus (j_Status j) = true) as [-> Hdone]
    by (destruct Hs as [-> | ->]; by split).
  unfold ProviderProcess. rewrite exec_try_quiet, (exec_get _ _ _ _ Hj).
  unfold process_job. rewrite Hdone. rewrite exec_try_quiet. unfold releaseTerminalHold.
  destruct (negb _ && negb _); [by apply Hend|].
  rewrite exec_try_quiet. unfold release_hold, releaseBatchImageBalanceHold.
  destruct (buildBatchImageHoldCommand j _ _ _) as [cmd|err]; [|by apply Hend].
  assert (∀ w', w_jobs w' = w_jobs w → ended b
    (let '(a, w'') := exec now (_ ← invalidateAuthCache (j_UserID j); ok tt) [] w' in
     match a with
     | inl _ => exec now (ok terminal) [] w''
     | inr err => (inr err, w'')
     end).2) as Hrel.
  { intros w' Hw'. rewrite exec_bind_quiet, exec_invalidate. apply Hend.
    etrans; [|exact Hw']. apply (proj1 (invalidated_parts (j_UserID j) w')). }
  destruct (no_hold cmd); [by apply Hrel|]. rewrite exec_bind_quiet, exec_billing.
  destruct (ReleaseBatchImageBalance _ _ _) as [[a|err] m]; [by apply Hrel|].
  destruct (errors_Is err _); [by apply Hrel|by apply Hend].
Qed.

(** The pipeline run on a batch at a list of times. *)
Definition processed (b : string) (times : list Z) (w : batch_world) : batch_world :=
  foldl (λ w t, (exec t (process b) [] w).2) w times.

Lemma processed_ended b times w : ended b w → ended b (processed b times w).
Proof. revert w. induction times as [|t ts IH]; intros w Hw; [done|]. by apply IH, process_ended. Qed.

Lemma processed_ends b times j w :
  settling b j w → (0 < List.length times)%nat →
  batchImageSettlementMaxRetries <= j_RetryCount j + Z.of_nat (List.length times) →
  ended b (processed b times w).
Proof.
  revert j w. induction times as [|t ts IH]; intros j w Hj Hpos Hlen; cbn in Hpos, Hlen; [lia|].
  cbn [processed foldl]. fold (processed b ts (exec t (process b) [] w).2).
  rewrite (process_settles t b j w Hj).
  destruct (settle_progress t b j w Hj) as [He|(j' & Hj' & Hr & Hlt)];
    [by apply processed_ended|].
  apply (IH j'); [done|lia|lia].
Qed.

(** A settling job without an account is never counted as failed and never ends: every run of
    the pipeline leaves everything as it was, its hold frozen. *)
Lemma settling_without_account b times j w :
  t_jobs (w_jobs w) !! b = Some j → j_Status j = BatchImageJobStatusSettling →
  positive_id (j_AccountID j) = None → processed b times w = w.
Proof.
  intros Hj Hs Hacc. induction times as [|t ts IH]; [done|].
  cbn [processed foldl]. fold (processed b ts (exec t (process b) [] w).2).
  enough ((exec t (process b) [] w).2 = w) as -> by done.
  unfold PipelineProcess. rewrite exec_try_quiet, (exec_get _ _ _ _ Hj), Hs.
  change (negb (BatchImageJobStatusSettling ≟ BatchImageJobStatusSettling)) with false. cbv iota.
  unfold Settle. rewrite exec_bind_quiet, exec_try_quiet, (exec_get _ _ _ _ Hj).
  unfold settle_job. rewrite Hs, Hacc.
  change (BatchImageJobStatusSettling ≟ BatchImageJobStatusCompleted) with false.
  change (negb (BatchImageJobStatusSettling ≟ BatchImageJobStatusSettling)) with false. cbv iota.
  by destruct (positive_id (j_APIKeyID j)).
Qed.

(** C18: A settlement does not go on for ever.  A batch that is settling, with its API key, its
    account and a price of its own (a snapshot), whose hold can be released, whose cost its column
    takes and whose manifest hash no other job has, is completed or failed after five runs of the
    pipeline at the latest when no statement fails, also when its counts cannot be, another
    manifest is recorded in it, its price is negative, its cost exceeds the hold, or the capture
    is refused; and further runs leave it so. *)
Theorem settling_job_ends b j w times :
  settling b j w → (5 <= List.length times)%nat → ended b (processed b times w).
Proof.
  intros Hj Hlen. apply (processed_ends b times j w Hj); [lia|].
  pose proof (se_retries _ _ _ Hj). unfold batchImageSettlementMaxRetries. lia.
Qed.
End Settle.

(** ** Witnesses *)

#[local] Existing Instances AsciiText PlainLib ExactCodec SampleProviders SampleQueue.

(** The batch of the sample, indexed and about to be settled. *)
Definition sample_settling : batch_world := alone Minute (take 3 sample_day) (sample_world false).
Definition sample_job : BatchImageJob :=
  default BatchImageJob0 (t_jobs (w_jobs sample_settling) !! sample_batch).

Lemma settlement_charges_the_images_witness :
  ∃ r w', exec 0 (Settle sample_config sample_batch) [] sample_settling = (inl r, w') ∧
    sr_ActualCost r = f64_decimal 5 1 ∧
    live_user (w_money w') 1 = Some (MkUser 950000000 0 false).
Proof.
  destruct (settlement_charges_the_images sample_config 0 sample_batch sample_job 5 9
    (MkUser 775000000 225000000 false) (f64_decimal 5 1) sample_settling)
    as [(r & w' & Hrun & _ & Hcost & Hu & _) [_ Hwhole]].
  - split; vm_compute; try reflexivity; discriminate.
  - vm_compute. reflexivity.
  - vm_compute. reflexivity.
  - vm_compute. reflexivity.
  - vm_compute. reflexivity.
  - intros [[x Hx]|[x Hx]]; vm_compute in Hx; discriminate.
  - vm_compute. reflexivity.
  - vm_compute. discriminate.
  - split; vm_compute; reflexivity.
  - vm_compute. reflexivity.
  - vm_compute. reflexivity.
  - exists r, w'. split; [exact Hrun|]. split; [rewrite Hcost; vm_compute; reflexivity|].
    revert Hu. assert (j_UserID sample_job = 1) as -> by (vm_compute; reflexivity).
    rewrite Hwhole by (apply whole8_units; vm_compute; reflexivity).
    intros ->. vm_compute. reflexivity.
Defined.

(** The same batch with counts that cannot be: more images than items. *)
Definition broken_job : BatchImageJob := sample_job{{ j_SuccessCount := 100 }}.
Definition broken_settling : batch_world :=
  put_jobs (put_job broken_job (w_jobs sample_settling)) sample_settling.

Lemma broken_jobs : t_jobs (w_jobs broken_settling) = {[ sample_batch := broken_job ]}.
Proof. vm_compute. reflexivity. Qed.

Lemma settling_job_ends_witness :
  let w' := processed sample_config 0 0 1 sample_batch [0; 1; 2; 3; 4] broken_settling in
  ended sample_batch w' ∧
  sample_outcome w' = (Some ("failed", None), [(1000000000, 0)], []).
Proof.
  split; [|vm_compute; reflexivity].
  apply (settling_job_ends sample_config 0 0 1 sample_batch broken_job broken_settling
    [0; 1; 2; 3; 4]); [|cbn; lia].
  split.
  - rewrite broken_jobs. apply lookup_singleton_eq.
  - vm_compute. reflexivity.
  - vm_compute. reflexivity.
  - exists 5. vm_compute. reflexivity.
  - exists 9. vm_compute. reflexivity.
  - vm_compute. discriminate.
  - exists (MkBatchImageBalanceHoldCommand (BatchImageReleaseRequestID sample_batch) 5 ""
      (TrimSpace (job_request_hash broken_job)) 1 sample_batch
      (at_least_zero (hold_amount broken_job)) f64_zero).
    split; [vm_compute; reflexivity|]. right. intros t. eexists _, _. vm_compute. reflexivity.
  - vm_compute. discriminate.
  - exists (f64_of_int 50). vm_compute. reflexivity.
  - right. vm_compute. reflexivity.
  - intros k j Hj Hb. rewrite broken_jobs in Hj. apply lookup_singleton_Some in Hj as [<- <-].
    destruct Hb. vm_compute. reflexivity.
Defined.
