(* ===== verification/BatchImageFacts.v ===== *)
(** * BatchImageFacts: what holds however the programs of the batches interleave

    The operations of clients, workers, the recovery and the cleanup are programs of a pool
    (ProgramLogic): their steps interleave, fail and lose their replies, and programs die.  A
    completed job has been captured. *)

From stdpp Require Import base tactics numbers list strings gmap sorting relations.
From Stdlib Require Import ZArith QArith Lia.
From S2P Require Import Prelude GoLib GoFloat AppErrors Billing BillingFacts BatchImage Programs ProgramLogic BatchImageStore BatchImageStoreFacts BatchImageIndex BatchImageIndexFacts BatchImageServices BatchImageSettlement BatchImageProcessor BatchImageRequest BatchImagePublic BatchImageCleanup BatchImageWorker BatchImageRedisQueue BatchImageQueueFacts BatchImageSample.

Local Open Scope go_scope.
Local Open Scope Z_scope.

Section Facts.
Context `{BatchImageProviders} `{BatchImageQueue} `{BillingLib} `{AmountCodec} `{GoText}.

(** ** The invariant *)

Definition capture_request (b : string) (key : Z) : string * Z :=
  (TrimSpace (BatchImageCaptureRequestID b), key).

(** The capture of a job's hold was applied. *)
Definition captured (b : string) (key : option Z) (w : batch_world) : Prop :=
  ∃ k, key = Some k ∧ claimed (capture_request b k) (w_money w).

Definition jobs_paid (w : batch_world) : Prop :=
  ∀ b j, t_jobs (w_jobs w) !! b = Some j →
    j_BatchID j = b ∧ (charged (j_Status j) = true → captured b (j_APIKeyID j) w).

(** What no program takes back: claims, and the identity of jobs. *)
Definition has_job (j : BatchImageJob) (w : batch_world) : Prop :=
  ∃ j', t_jobs (w_jobs w) !! j_BatchID j = Some j' ∧ j_BatchID j' = j_BatchID j ∧
    j_APIKeyID j' = j_APIKeyID j.

Definition grows (w w' : batch_world) : Prop :=
  (∀ r, claimed r (w_money w) → claimed r (w_money w')) ∧ (∀ j, has_job j w → has_job j w').

#[local] Instance grows_preorder : PreOrder grows.
Proof.
  split; [by intros w|]. intros w1 w2 w3 [Hc1 Hj1] [Hc2 Hj2]. split; auto.
Qed.

Notation quiet := (quiet jobs_paid grows).
Notation triple := (triple jobs_paid grows).
Notation quiet_bind := (quiet_bind jobs_paid grows).
Notation quiet_try := (quiet_try jobs_paid grows).
Notation quiet_step := (quiet_step jobs_paid grows).
Notation triple_bind := (triple_bind jobs_paid grows).

Lemma captured_grows b key w w' : grows w w' → captured b key w → captured b key w'.
Proof. intros [Hc _] (k & -> & Hk). exists k. auto. Qed.

(** ** Programs of the parts *)

Lemma jobs_step_ok w db :
  jobs_paid w → jobs_step (w_jobs w) db → jobs_paid (put_jobs db w) ∧ grows w (put_jobs db w).
Proof.
  intros HI [Hk Hn]. split.
  - intros b j' Hj'. cbn in Hj'. destruct (t_jobs (w_jobs w) !! b) as [j|] eqn:Hj.
    + destruct (Hk b j Hj) as (j'' & Hj'' & Hb & Hkey & Hs). simplify_eq.
      destruct (HI b j Hj) as [Hb' Hc]. split; [congruence|]. intros Hp. rewrite Hkey. auto.
    + destruct (Hn b j' Hj Hj') as [Hb Hs]. split; [done|]. congruence.
  - split; [done|]. intros j (j1 & Hj1 & Hb & Hkey).
    destruct (Hk _ _ Hj1) as (j2 & Hj2 & Hb2 & Hkey2 & _). exists j2. cbn. split_and!; congruence.
Qed.

Lemma quiet_repo {A} (p : proc batch_db A) : steps_in jobs_step p → quiet (repo p).
Proof. intros Hp. apply (quiet_lift w_jobs put_jobs _ _ jobs_step); [apply jobs_step_ok|done]. Qed.

Lemma steps_in_any {V A} (p : proc V A) : steps_in (λ _ _, True) p.
Proof. induction p as [a|B stmt k IH|k IH]; cbn; auto. Qed.

Lemma quiet_queued {A} (p : proc queue A) : quiet (queued p).
Proof.
  apply (quiet_lift w_queue put_queue _ _ (λ _ _, True)); [|apply steps_in_any].
  intros w v HI _. split; [done|]. by split.
Qed.

Lemma quiet_call {A} (m : St remote (result A)) : quiet (call m).
Proof.
  apply (quiet_lift w_remote put_remote _ _ (λ _ _, True)); [|apply steps_in_any].
  intros w v HI _. split; [done|]. by split.
Qed.

Lemma money_step_ok w m :
  jobs_paid w → (∀ r, claimed r (w_money w) → claimed r m) →
  jobs_paid (put_money m w) ∧ grows w (put_money m w).
Proof.
  intros HI Hm. assert (grows w (put_money m w)) as HG by (split; [exact Hm|done]).
  split; [|done]. intros b j Hj. destruct (HI b j Hj) as [Hb Hc]. split; [done|].
  intros Hs. by eapply captured_grows; [|apply Hc].
Qed.

Definition keeps_claims {A} (tx : Z → Tx A) : Prop :=
  ∀ now m r, claimed r m → claimed r (tx now m).2.

Lemma quiet_billing {A} (tx : Z → Tx A) : keeps_claims tx → quiet (billing tx).
Proof.
  intros Htx. apply quiet_clock. intros t.
  apply (quiet_lift w_money put_money _ _ (λ m m', ∀ r, claimed r m → claimed r m')).
  - intros w m HI Hm. by apply money_step_ok.
  - split; [|done]. intros m r. apply Htx.
Qed.

Lemma triple_billing {A} (tx : Z → Tx A) Q w :
  keeps_claims tx →
  (∀ now w1, let '(r, m) := tx now (w_money w1) in
     Q r (put_money m w1) ∧ ∀ err, Q (inr err) w1 ∧ Q (inr err) (put_money m w1)) →
  triple (billing tx) Q w.
Proof.
  intros Htx HQ t. cbn. intros w1 _ HI. specialize (HQ (t / 1000) w1).
  pose proof (Htx (t / 1000) (w_money w1)) as Hm.
  destruct (tx (t / 1000) (w_money w1)) as [r m]. destruct HQ as [HQ Herr].
  destruct (money_step_ok w1 m HI Hm) as [HI2 HG2]. by split_and!.
Qed.

Lemma reserve_claims cmd : keeps_claims (λ now, ReserveBatchImageBalance now (Some cmd)).
Proof. intros now m r. apply (run_op_claimed (OpReserve now cmd)). Qed.

Lemma capture_claims cmd : keeps_claims (λ now, CaptureBatchImageBalance now (Some cmd)).
Proof. intros now m r. apply (run_op_claimed (OpCapture now cmd)). Qed.

Lemma release_claims cmd : keeps_claims (λ now, ReleaseBatchImageBalance now (Some cmd)).
Proof. intros now m r. apply (run_op_claimed (OpRelease now cmd)). Qed.

Lemma quiet_usage e : quiet (writeUsageLogBestEffort e).
Proof. apply quiet_bind; [|done]. apply quiet_step. intros w HI. split; [exact HI|by split]. Qed.

Lemma quiet_invalidate uid : quiet (invalidateAuthCache uid).
Proof.
  unfold invalidateAuthCache. destruct (0 <? uid); [|done].
  apply quiet_bind; [|done]. apply quiet_step. intros w HI. split; [exact HI|by split].
Qed.

(** One layer of a program that needs no knowledge. *)
Ltac quiet_layer :=
  lazymatch goal with
  | |- quiet (try_proc _ _) => apply quiet_try; [|intros ?]
  | |- quiet (mbind _ _) => apply quiet_bind; [|intros ?]
  | |- quiet (mret _) => apply quiet_ret
  | |- quiet (ok _) => apply quiet_ret
  | |- quiet (error_out _) => apply quiet_ret
  | |- quiet (public_job _ _) => apply quiet_ret
  | |- quiet time_now => by intros ? ?
  | |- quiet (repo _) => apply quiet_repo; auto with store
  | |- quiet (queued _) => apply quiet_queued
  | |- quiet (call _) => apply quiet_call
  | |- quiet (invalidateAuthCache _) => apply quiet_invalidate
  | |- quiet (writeUsageLogBestEffort _) => apply quiet_usage
  | |- quiet (transition _ _ _ _ _) => apply quiet_repo, store_transition; try reflexivity; try done
  | |- quiet (try_ _) => unfold try_
  | |- quiet (record_failure _ _ _ _) => unfold record_failure
  | |- quiet (match ?x with _ => _ end) => destruct x
  | |- quiet (let _ := _ in _) => cbv zeta
  | _ => solve [eauto with quiet]
  end.

Create HintDb quiet discriminated.

(** ** The holds *)

Lemma quiet_reserve job hash : quiet (reserveBatchImageBalanceHold job hash).
Proof.
  unfold reserveBatchImageBalanceHold. repeat quiet_layer. apply quiet_billing, reserve_claims.
Qed.

Lemma quiet_release job hash : quiet (releaseBatchImageBalanceHold job hash).
Proof.
  unfold releaseBatchImageBalanceHold. repeat quiet_layer. apply quiet_billing, release_claims.
Qed.

Lemma quiet_release_hold job : quiet (release_hold job).
Proof. apply quiet_release. Qed.

#[local] Hint Resolve quiet_reserve quiet_release quiet_release_hold : quiet.

(** A capture that is answered without an error is claimed. *)
Lemma capture_applied now cmd m r m' :
  CaptureBatchImageBalance now (Some cmd) m = (inl r, m') →
  claimed (TrimSpace (h_RequestID cmd), h_APIKeyID cmd) m'.
Proof.
  unfold CaptureBatchImageBalance. rewrite applyBatchImageBalanceHold_claiming.
  destruct (TrimSpace (h_RequestID cmd) ≟ ""); [done|]. intros Hrun.
  destruct (claimed_dec (TrimSpace (h_RequestID cmd), h_APIKeyID cmd) m) as [Hc|Hc].
  - match type of Hrun with claiming ?t ?i ?k ?f ?n ?b ?d = _ =>
      destruct (claiming_claimed t i k f n b d Hc) as [Hrun'|Hrun'] end;
      rewrite Hrun' in Hrun; by simplify_eq.
  - rewrite claiming_fresh in Hrun by done.
    destruct (hold_bodies_keep dedup (NormalizeHold cmd) (λ _ _ _, eq_refl)) as (_ & Hd & _).
    set (m0 := put_claim _ _ _ _ m) in Hrun. specialize (Hd m0).
    destruct (hold_body _ _ m0) as [[a|err] m1]; [|done]. simplify_eq. cbn in Hd.
    unfold claimed. rewrite Hd.
    destruct (put_claim_claimed (TrimSpace (h_RequestID cmd), h_APIKeyID cmd) m _ _
      (h_RequestFingerprint (NormalizeHold cmd)) now (or_intror eq_refl)) as [Hp|Hp]; [by left|].
    exfalso. apply Hc. by right.
Qed.

Lemma triple_capture job amount hash w :
  triple (captureBatchImageBalanceHold job amount hash)
    (λ r w', r = inl tt → captured (j_BatchID job) (j_APIKeyID job) w') w.
Proof.
  unfold captureBatchImageBalanceHold, buildBatchImageHoldCommand.
  destruct (positive_id (j_APIKeyID job)) as [k|] eqn:Hk; [|done].
  assert (j_APIKeyID job = Some k) as Hkey.
  { revert Hk. unfold positive_id. repeat case_match; congruence. }
  set (cmd := MkBatchImageBalanceHoldCommand _ _ _ _ _ _ _ _).
  eapply triple_bind.
  - apply (triple_billing _ (λ r w', match r with
                                     | inl _ => captured (j_BatchID job) (j_APIKeyID job) w'
                                     | inr _ => True
                                     end)); [apply capture_claims|].
    intros now w1.
    destruct (CaptureBatchImageBalance now (Some cmd) (w_money w1)) as [[a|err] m] eqn:Hrun;
      [|done].
    split; [|done]. exists k. split; [exact Hkey|]. exact (capture_applied _ _ _ _ _ Hrun).
  - intros [a|err] w' _ Hc; cbn; [by intros _|done].
Qed.

(** ** The settlement *)

(** What marking a job as settled does to the table. *)
Lemma mark_settled_jobs now p db :
  let db' := (in_tx (markBatchImageJobSettledWithSQL now p) db).2 in
  t_jobs db' = t_jobs db ∨
  ∃ j j1, t_jobs db !! ms_BatchID p = Some j ∧
    j_BatchID j1 = j_BatchID j ∧ j_APIKeyID j1 = j_APIKeyID j ∧
    t_jobs db' = <[ms_BatchID p := j1]> (t_jobs db).
Proof.
  cbv zeta. unfold in_tx, markBatchImageJobSettledWithSQL, try_bind, translated, select_job,
    settle_row, appendBatchImageEventWithSQL.
  destruct (t_jobs db !! ms_BatchID p) as [j|] eqn:Hj.
  2:{ left. change (0 =? 0) with true. cbv beta iota. rewrite Hj. reflexivity. }
  destruct (settleable _ j).
  2:{ left. change (0 =? 0) with true. cbv beta iota. rewrite Hj. reflexivity. }
  destruct (column10 _) as [actual|]; [|by left].
  destruct (manifest_taken _ _ _); [by left|].
  change (1 =? 0) with false. cbv beta iota.
  set (now' := match ms_Now p with Some t => t | None => now end).
  set (db1 := db{{ t_jobs := _ }}).
  assert (t_jobs db1 = <[ms_BatchID p := settled now' actual p j]> (t_jobs db)) as Hdb1 by done.
  rewrite Hdb1, lookup_insert_eq. right. exists j, (settled now' actual p j). by split_and!.
Qed.

(** A job that was read is there. *)
Lemma triple_get b w :
  triple (repo (GetBatchImageJobByBatchID b))
    (λ r w', match r with inl job => j_BatchID job = b ∧ has_job job w' | inr _ => True end) w.
Proof.
  intros w1 Hw1 HI. unfold translated, select_job.
  destruct (t_jobs (w_jobs w1) !! b) as [j|] eqn:Hj; cbn.
  - destruct (HI b j Hj) as [Hb _].
    assert (put_jobs (w_jobs w1) w1 = w1) as -> by apply part_same.
    split_and!; try done. exists j. by rewrite Hb.
  - assert (put_jobs (w_jobs w1) w1 = w1) as -> by apply part_same. by split_and!.
Qed.

(** A captured job may be marked as settled. *)
Lemma triple_mark job p w :
  ms_BatchID p = j_BatchID job → has_job job w → captured (j_BatchID job) (j_APIKeyID job) w →
  triple (repo (MarkBatchImageJobSettled p)) (λ _ _, True) w.
Proof.
  intros Hp Hjob Hcap now. cbn. intros w1 Hw1 HI.
  pose proof (mark_settled_jobs now p (w_jobs w1)) as Hmark. cbv zeta in Hmark.
  destruct (in_tx _ (w_jobs w1)) as [r db]. cbn in Hmark.
  assert (jobs_paid (put_jobs db w1) ∧ grows w1 (put_jobs db w1)) as [HI2 HG2].
  2:{ split_and!; [exact HI2|exact HG2|done|done]. }
  destruct Hmark as [Hsame|(j & js & Hj & Hjs & Hks & Hdb)].
  { apply jobs_step_ok; [done|]. by apply jobs_step_same. }
  destruct Hw1 as [Hclaims Hjobs]. destruct (Hjobs job Hjob) as (j' & Hj' & Hb' & Hkey).
  rewrite Hp in Hj, Hdb. assert (j' = j) as -> by congruence.
  assert (captured (j_BatchID job) (j_APIKeyID job) w1) as Hcap1
    by (eapply captured_grows; [split; [exact Hclaims|exact Hjobs]|exact Hcap]).
  assert (∀ b jb, t_jobs db !! b = Some jb →
    (b = j_BatchID job ∧ j_BatchID jb = b ∧ j_APIKeyID jb = j_APIKeyID job) ∨
    (b ≠ j_BatchID job ∧ t_jobs (w_jobs w1) !! b = Some jb)) as Hcases.
  { intros b jb. rewrite Hdb. destruct (decide (j_BatchID job = b)) as [<-|Hne].
    - rewrite lookup_insert_eq. intros [= <-]. left. split_and!; congruence.
    - rewrite lookup_insert_ne by done. intros Hjb. by right. }
  split; [|split; [done|]].
  - intros b jb Hjb. destruct (Hcases b jb Hjb) as [(-> & Hbb & Hkk)|(Hne & Hjb')].
    + split; [exact Hbb|]. intros _. rewrite Hkk. exact Hcap1.
    + destruct (HI b jb Hjb') as [Hb'' Hc'']. split; [exact Hb''|exact Hc''].
  - intros j0 (j1 & Hj1 & Hb1 & Hk1). unfold has_job. cbn. rewrite Hdb.
    destruct (decide (j_BatchID job = j_BatchID j0)) as [Heq|Hne].
    + rewrite <- Heq, lookup_insert_eq. eexists. split; [reflexivity|].
      rewrite <- Heq in Hj1. assert (j1 = j) as -> by congruence. split; congruence.
    + rewrite lookup_insert_ne by done. by exists j1.
Qed.

Lemma quiet_fail_exhausted job msg : quiet (failExhaustedSettlement job msg).
Proof. unfold failExhaustedSettlement. repeat quiet_layer. Qed.
#[local] Hint Resolve quiet_fail_exhausted : quiet.

Lemma quiet_record_settlement_failure job code msg : quiet (recordSettlementFailure job code msg).
Proof. unfold recordSettlementFailure. repeat quiet_layer. Qed.
#[local] Hint Resolve quiet_record_settlement_failure : quiet.

Lemma quiet_settlement_fails {A} job code msg err :
  quiet (settlement_fails (A:=A) job code msg err).
Proof. unfold settlement_fails. repeat quiet_layer. Qed.
#[local] Hint Resolve quiet_settlement_fails : quiet.

Lemma quiet_unit_price model : quiet (BatchImageUnitPrice model).
Proof. unfold BatchImageUnitPrice. cbv zeta. repeat quiet_layer. Qed.
#[local] Hint Resolve quiet_unit_price : quiet.

Lemma quiet_record_usage job cost id now : quiet (recordUsageLog job cost id now).
Proof. unfold recordUsageLog. repeat quiet_layer. Qed.
#[local] Hint Resolve quiet_record_usage : quiet.

(** A settlement marks the job only behind its capture. *)
Lemma triple_settle_at cfg job price w :
  has_job job w → triple (settle_at cfg job price) (λ _ _, True) w.
Proof.
  intros Hjob. unfold settle_at. cbv zeta.
  destruct (f64_ltb _ _); [apply quiet_settlement_fails|].
  eapply triple_bind; [apply triple_capture|]. intros [[]|err] w1 Hw1 Hcap;
    [|apply quiet_settlement_fails].
  specialize (Hcap eq_refl).
  eapply triple_bind; [apply quiet_invalidate|]. intros _ w2 Hw2 _.
  intros now. change (triple (try_proc (repo (MarkBatchImageJobSettled
    (MkMarkBatchImageJobSettledParams (j_BatchID job)
       (f64_mul (f64_of_int (j_SuccessCount job)) price) (sr_ManifestHash (settlement_result job))
       (Some now) (Some (now + outputRetentionAfterTerminal cfg)))))
    (λ _, recordUsageLog job (f64_mul (f64_of_int (j_SuccessCount job)) price)
            (sr_RequestID (settlement_result job)) now ≫=
          λ _, ok ((settlement_result job){{ sr_ActualCost :=
                 f64_mul (f64_of_int (j_SuccessCount job)) price }})))
    (λ _ _, True) w2).
  eapply (triple_bind _ _ (λ _ _, True)).
  - apply (triple_mark job); [done| |].
    + destruct Hw2 as [_ Hj2]. apply Hj2. destruct Hw1 as [_ Hj1]. by apply Hj1.
    + by eapply captured_grows.
  - intros [[]|err] w3 _ _; [|done]. eapply triple_bind; [apply quiet_record_usage|]. by intros.
Qed.

Lemma quiet_settle cfg b : quiet (Settle cfg b).
Proof.
  intros w. unfold Settle. eapply (triple_bind (repo (GetBatchImageJobByBatchID b)) _ _ _ w);
    [apply triple_get|].
  intros [job|err] w1 _ Hj; [|done]. destruct Hj as [_ Hjob].
  unfold settle_job. cbv zeta.
  destruct (j_Status job ≟ BatchImageJobStatusCompleted); [done|].
  destruct (negb _); [done|].
  destruct (positive_id (j_APIKeyID job)), (positive_id (j_AccountID job)); try done.
  destruct (isBatchImageSettlementRetryExhausted job).
  { eapply triple_bind; [apply quiet_fail_exhausted|]. by intros. }
  destruct (counts_invalid job); [apply quiet_settlement_fails|].
  destruct (manifest_conflict job _); [apply quiet_settlement_fails|].
  eapply (triple_bind _ _ (λ _ _, True)).
  - unfold settlementUnitPrice. destruct (1 <=? _); [done|apply quiet_unit_price].
  - intros price w2 Hw2 _. destruct price as [p|err].
    + destruct (f64_ltb p f64_zero); [apply quiet_settlement_fails|].
      apply triple_settle_at. destruct Hw2 as [_ Hj2]. by apply Hj2.
    + apply quiet_settlement_fails.
Qed.
#[local] Hint Resolve quiet_settle : quiet.

(** ** The other programs *)

Lemma quiet_recover cutoff job : quiet (recover_job cutoff job).
Proof. unfold recover_job, enqueueReleaseRetry. cbv zeta. repeat quiet_layer. Qed.

Lemma quiet_recover_jobs cutoff jobs n err : quiet (recover_jobs cutoff jobs n err).
Proof.
  revert n err. induction jobs as [|job jobs IH]; intros n err; [done|].
  cbn [recover_jobs]. apply quiet_bind; [apply quiet_recover|]. intros [m e]. apply IH.
Qed.
#[local] Hint Resolve quiet_recover_jobs : quiet.

Lemma quiet_recovery stale limit : quiet (ReleaseStaleUnsubmittedOnce stale limit).
Proof. unfold ReleaseStaleUnsubmittedOnce. cbv zeta. repeat quiet_layer. Qed.

Lemma quiet_terminal_hold job : quiet (releaseTerminalHold job).
Proof. unfold releaseTerminalHold. repeat quiet_layer. Qed.
#[local] Hint Resolve quiet_terminal_hold : quiet.

Lemma quiet_end_job job status code msg event :
  charged status = false → quiet (end_job job status code msg event).
Proof. intros Hs. unfold end_job. repeat quiet_layer. Qed.

Lemma steps_list_expected fuel b off acc :
  steps_in jobs_step (listExpectedCustomIDs fuel b off acc).
Proof.
  revert off acc. induction fuel as [|fuel IH]; intros off acc; [done|].
  cbn [listExpectedCustomIDs]. apply steps_in_try; [apply store_list_items|].
  intros page. cbv zeta. case_match; [done|apply IH].
Qed.

Lemma quiet_index pages job open :
  quiet open → quiet (Index w_jobs put_jobs pages job open).
Proof.
  intros Hopen. unfold Index.
  apply quiet_try; [apply quiet_repo, steps_list_expected|]. intros expected.
  apply quiet_bind; [done|]. intros [out|err]; [|done].
  apply quiet_clock. intros t. destruct (index_output _ _ _ _) as [[s rec]|err]; [|done].
  apply quiet_bind; [destruct rec; [apply quiet_repo; auto with store|done]|]. intros _.
  apply quiet_try; [apply quiet_repo; auto with store|]. by intros.
Qed.

Lemma quiet_index_and_settle pages job account : quiet (indexAndSettle pages job account).
Proof.
  unfold indexAndSettle. cbv zeta. apply quiet_bind; [apply quiet_index, quiet_call|].
  intros [r|err].
  - repeat quiet_layer.
  - case_match; [done|]. case_match; [done|]. by apply quiet_end_job.
Qed.
#[local] Hint Resolve quiet_index_and_settle : quiet.

Lemma quiet_switch {A} x (cases : list (list string * proc batch_world A)) d :
  Forall (λ c, quiet c.2) cases → quiet d → quiet (switch x cases d).
Proof. intros Hc Hd. by apply switch_all. Qed.

Lemma quiet_advance job status event : charged status = false → quiet (advance job status event).
Proof. intros Hs. unfold advance. repeat quiet_layer. Qed.

Lemma quiet_follow requeue pages job account status :
  quiet (follow_provider requeue pages job account status).
Proof.
  unfold follow_provider. cbv zeta. apply quiet_switch; [|done].
  repeat apply Forall_cons_2; [..|apply Forall_nil_2]; cbn [snd].
  - done.
  - apply quiet_try; [by apply quiet_advance|done].
  - apply quiet_try; [by apply quiet_advance|]. intros j. apply quiet_index_and_settle.
  - by apply quiet_end_job.
  - by apply quiet_end_job.
Qed.

Lemma quiet_provider_process requeue pages b : quiet (ProviderProcess requeue pages b).
Proof.
  unfold ProviderProcess, process_job, persistProviderOutputRef. cbv zeta.
  repeat quiet_layer. all: apply quiet_follow.
Qed.
#[local] Hint Resolve quiet_provider_process : quiet.

Lemma quiet_pipeline requeue pages cfg delay b : quiet (PipelineProcess requeue pages cfg delay b).
Proof. unfold PipelineProcess. cbv zeta. repeat quiet_layer. Qed.

(** *** Clients *)

Lemma quiet_enqueue_retry b : quiet (enqueueBillingRetry b).
Proof. unfold enqueueBillingRetry. repeat quiet_layer. Qed.
#[local] Hint Resolve quiet_enqueue_retry : quiet.

Lemma quiet_hide owner job : quiet (hidePreUpstreamSubmitFailure owner job).
Proof. unfold hidePreUpstreamSubmitFailure. repeat quiet_layer. Qed.
#[local] Hint Resolve quiet_hide : quiet.

Lemma quiet_release_failed job hash : quiet (releaseFailedSubmitHold job hash).
Proof. unfold releaseFailedSubmitHold. repeat quiet_layer. Qed.
#[local] Hint Resolve quiet_release_failed : quiet.

Lemma quiet_abandon {A} owner job hash code msg err :
  quiet (abandon (A:=A) owner job hash code msg err).
Proof. unfold abandon. repeat quiet_layer. Qed.
#[local] Hint Resolve quiet_abandon : quiet.

Variables (format_time : Z → string) (base64 : string → string) (cfg : BatchImageConfig).

Lemma quiet_submit_upstream owner req provider account job hash :
  quiet (submit_upstream format_time owner req provider account job hash).
Proof. unfold submit_upstream, abortOrphanProviderJob. cbv zeta. repeat quiet_layer. Qed.
#[local] Hint Resolve quiet_submit_upstream : quiet.

Lemma quiet_submit_job owner req provider account job hash :
  quiet (submit_job format_time cfg owner req provider account job hash).
Proof. unfold submit_job, createPendingItems. cbv zeta. repeat quiet_layer. Qed.
#[local] Hint Resolve quiet_submit_job : quiet.

Lemma quiet_select providers g model : quiet (select_among providers g model).
Proof.
  induction providers as [|name providers IH]; [done|]. cbn [select_among].
  unfold listCandidateAccounts. repeat quiet_layer; done.
Qed.

Lemma quiet_snapshot owner req account : quiet (resolvePricingSnapshot owner req account).
Proof. unfold resolvePricingSnapshot, group_pricing_of. repeat quiet_layer. Qed.

Lemma quiet_parent owner p : quiet (parent_of owner p).
Proof. unfold parent_of. repeat quiet_layer. Qed.

Lemma quiet_submit_new id owner req key hash :
  quiet (submit_new format_time cfg id owner req key hash).
Proof.
  unfold submit_new, selectProviderAndAccount.
  apply quiet_try; [apply quiet_select|]. intros [provider account].
  apply quiet_try; [apply quiet_snapshot|]. intros snapshot.
  apply quiet_try; [apply quiet_parent|]. intros parent.
  apply quiet_try; [done|]. intros b.
  apply quiet_try; [by apply quiet_repo, store_create|]. intros job. apply quiet_submit_job.
Qed.
#[local] Hint Resolve quiet_submit_new : quiet.

Lemma quiet_submit id owner req key : quiet (Submit format_time base64 cfg id owner req key).
Proof.
  unfold Submit, ensureGroupAllowsBatchImage, replay_submission. cbv zeta. repeat quiet_layer.
Qed.

Lemma quiet_release_or_retry owner job : quiet (release_or_retry owner job).
Proof. unfold release_or_retry. repeat quiet_layer. Qed.
#[local] Hint Resolve quiet_release_or_retry : quiet.

Lemma quiet_find owner b : quiet (find_owned owner b).
Proof. unfold find_owned. repeat quiet_layer. Qed.
#[local] Hint Resolve quiet_find : quiet.

Lemma quiet_cancel owner b : quiet (Cancel format_time owner b).
Proof. unfold Cancel, cancel_upstream. cbv zeta. repeat quiet_layer. Qed.

Lemma quiet_reads owner b ilike query status limit cursor :
  quiet (Get format_time owner b) ∧ quiet (MarkDownloaded owner b) ∧ quiet (DeleteRecord owner b) ∧
  quiet (List_ format_time ilike owner query) ∧ quiet (ListItems owner b status limit cursor).
Proof.
  unfold Get, MarkDownloaded, DeleteRecord, List_, ListItems. cbv zeta.
  split_and!; repeat quiet_layer.
Qed.

(** *** The cleanup *)

Variable ToUpper : string → string.

Lemma quiet_cleanup_job job target : quiet (cleanupJob ToUpper job target).
Proof.
  unfold cleanupJob, appendCleanupEvent, callProviderCleanup. repeat quiet_layer.
Qed.
#[local] Hint Resolve quiet_cleanup_job : quiet.

Lemma quiet_cleanup_jobs target jobs n m : quiet (cleanup_jobs ToUpper target jobs n m).
Proof.
  revert n m. induction jobs as [|job jobs IH]; intros n m; [done|].
  cbn [cleanup_jobs]. apply quiet_bind; [apply quiet_cleanup_job|]. by intros [].
Qed.
#[local] Hint Resolve quiet_cleanup_jobs : quiet.

Lemma quiet_cleanup now : quiet (CleanupRunOnce ToUpper cfg now).
Proof. unfold CleanupRunOnce. cbv zeta. repeat quiet_layer. Qed.

Lemma quiet_delete_outputs owner b : quiet (DeleteOutputsForOwner ToUpper format_time owner b).
Proof. unfold DeleteOutputsForOwner, appendCleanupEvent. repeat quiet_layer. Qed.

(** *** Workers *)

Lemma quiet_worker process opts :
  (∀ b, quiet (process b)) → quiet (RunOnce process opts).
Proof.
  intros Hp. unfold RunOnce, run_reserved, after_processing. repeat quiet_layer.
Qed.

(** ** The pool *)

(** The operations of the program that touch jobs or balances. *)
Inductive batch_operation : proc batch_world unit → Prop :=
| op_submit id owner req key : batch_operation (try_ (Submit format_time base64 cfg id owner req key))
| op_heartbeat b : batch_operation (submit_heartbeat b)
| op_cancel owner b : batch_operation (try_ (Cancel format_time owner b))
| op_get owner b : batch_operation (try_ (Get format_time owner b))
| op_list ilike owner query : batch_operation (try_ (List_ format_time ilike owner query))
| op_list_items owner b status limit cursor :
    batch_operation (try_ (ListItems owner b status limit cursor))
| op_downloaded owner b : batch_operation (try_ (MarkDownloaded owner b))
| op_delete_record owner b : batch_operation (try_ (DeleteRecord owner b))
| op_delete_outputs owner b :
    batch_operation (try_ (DeleteOutputsForOwner ToUpper format_time owner b))
| op_worker requeue pages delay opts :
    batch_operation (try_ (RunOnce (PipelineProcess requeue pages cfg delay) opts))
| op_job_heartbeat opts b lock : batch_operation (job_heartbeat opts b lock)
| op_move_due opts : batch_operation (try_ (MoveDueDelayedOnce opts))
| op_recover_active opts : batch_operation (try_ (RecoverStaleActiveOnce opts))
| op_recovery stale limit :
    batch_operation (ReleaseStaleUnsubmittedOnce stale limit ≫= λ _, mret tt)
| op_cleanup now : batch_operation (CleanupRunOnce ToUpper cfg now ≫= λ _, mret tt)
| op_charge cmd : batch_operation (try_ (billing (λ now, ApplyUsage now cmd)))
| op_dedup_cleanup cutoff :
    batch_operation (try_ (billing (λ _ m, (inl tt, CleanupUsageBillingDedup cutoff m)))).

Lemma operations_quiet p : batch_operation p → quiet p.
Proof.
  assert (∀ A (q : proc batch_world (result A)), quiet q → quiet (try_ q)) as Htry.
  { intros A q Hq. apply quiet_bind; [done|]. by intros. }
  destruct 1; try apply Htry.
  - apply quiet_submit.
  - unfold submit_heartbeat. repeat quiet_layer.
  - apply quiet_cancel.
  - apply (quiet_reads owner b (λ _ _, true) (MkBatchImageJobsQuery "" "" "" None None 0 "") "" 0 "").
  - apply (quiet_reads owner "" ilike query "" 0 "").
  - apply (quiet_reads owner b (λ _ _, true) (MkBatchImageJobsQuery "" "" "" None None 0 "") status limit cursor).
  - apply (quiet_reads owner b (λ _ _, true) (MkBatchImageJobsQuery "" "" "" None None 0 "") "" 0 "").
  - apply (quiet_reads owner b (λ _ _, true) (MkBatchImageJobsQuery "" "" "" None None 0 "") "" 0 "").
  - apply quiet_delete_outputs.
  - apply quiet_worker. intros b. apply quiet_pipeline.
  - unfold job_heartbeat. repeat quiet_layer.
  - unfold MoveDueDelayedOnce. repeat quiet_layer.
  - unfold RecoverStaleActiveOnce. repeat quiet_layer.
  - apply quiet_bind; [apply quiet_recovery|]. by intros.
  - apply quiet_bind; [apply quiet_cleanup|]. by intros.
  - apply quiet_billing. intros now m r. destruct cmd as [cmd|]; [|done].
    apply (run_op_claimed (OpApply now cmd)).
  - apply quiet_billing. intros now m r. apply (run_op_claimed (OpCleanup cutoff)).
Qed.

(** C3: No batch is completed unpaid.  Run any number of submissions, cancellations, workers,
    recoveries, cleanups and charges side by side, in any order of their steps, with failing
    statements, lost replies and programs that die: whatever job is then completed, or has its
    output deleted, the capture of its hold was applied under its own request. *)
Theorem completed_jobs_are_captured procs turns w now :
  Forall batch_operation procs → t_jobs (w_jobs w) = ∅ →
  let w' := pl_world (run_turns turns (MkPool w now procs)) in
  ∀ b j, t_jobs (w_jobs w') !! b = Some j →
    j_Status j = BatchImageJobStatusCompleted ∨ j_Status j = BatchImageJobStatusOutputDeleted →
    j_BatchID j = b ∧ captured b (j_APIKeyID j) w'.
Proof.
  intros Hprocs Hempty w' b j Hj Hs.
  assert (pool_ok jobs_paid grows (MkPool w now procs)) as Hok.
  { split; [intros b' j'; cbn; rewrite Hempty; done|].
    eapply Forall_impl; [exact Hprocs|]. intros p Hp. by apply operations_quiet. }
  destruct (turns_ok _ _ turns _ Hok) as [[HI _] _].
  destruct (HI b j Hj) as [Hb Hc]. split; [done|]. apply Hc.
  by destruct Hs as [-> | ->].
Qed.
End Facts.

#[local] Existing Instances AsciiText PlainLib ExactCodec SampleProviders SampleQueue.

Lemma completed_jobs_are_captured_witness :
  let w' := pl_world (run_turns (concat (sample_turns_of <$> seq 0 6))
              (MkPool (sample_world false) Minute sample_day)) in
  sample_outcome w' = (Some ("completed", Some (f64_decimal 5 1)), [(950000000, 0)], [1]) ∧
  captured sample_batch (Some 5) w'.
Proof.
  cbv zeta. set (w' := pl_world _).
  assert (sample_outcome w' =
    (Some ("completed", Some (f64_decimal 5 1)), [(950000000, 0)], [1])) as Hout
    by (vm_compute; reflexivity).
  split; [exact Hout|].
  assert ((λ j, (j_Status j, j_APIKeyID j)) <$> t_jobs (w_jobs w') !! sample_batch =
          Some ("completed", Some 5)) as Hjob by (vm_compute; reflexivity).
  destruct (t_jobs (w_jobs w') !! sample_batch) as [j|] eqn:Hj; [|discriminate].
  injection Hjob as Hs Hk. rewrite <- Hk.
  refine (proj2 (completed_jobs_are_captured sample_time sample_base64 sample_config id
    sample_day (concat (sample_turns_of <$> seq 0 6)) (sample_world false) Minute _ eq_refl
    sample_batch j Hj (or_introl Hs))).
  apply Forall_cons_2; [apply op_submit|].
  apply Forall_cons_2; [apply op_worker|]. apply Forall_cons_2; [apply op_move_due|].
  apply Forall_cons_2; [apply op_worker|]. apply Forall_cons_2; [apply op_move_due|].
  apply Forall_cons_2; [apply op_worker|]. apply Forall_nil_2.
Defined.
